(* ===== verification/_CoqProject ===== *)
-Q . S2P
Prelude.v
GoStrings.v
StringMap.v
Frame.v
Padding.v
NetConn.v
WriteConn.v
Pipe.v
Session.v
SessionSpec.v
ClientPool.v
AclParse.v
AclMatch.v
AclCompile.v
Policy.v
RefTable.v
Limiter.v
Stats.v
Auth.v
EndToEnd.v
Flow.v
SessionFlow.v
Link.v
Config.v
Resolver.v
DnsPool.v
Geo.v
Cert.v
StatsHttp.v
Outbound.v
Server.v
Handler.v
Client.v
Connections.v
Request.v
Dump.v
Timers.v
SynTimer.v
Programs.v
Socks5Server.v
