(* ===== verification/Prelude.v ===== *)
(** * anytls-go: a verification development

    anytls-go is a TLS proxy: a client multiplexes streams over pooled TLS sessions
    to a server that authenticates it, applies access-control rules and relays the
    streams.  This library models the program from the configuration to the wire: which
    bytes are sent, which stream gets them, who may connect, where a request
    goes, what is counted; and proves what makes it correct.

    ** The parts and their files

    The transport, from the wire up:
    - [StringMap] (util/string_map.go): the settings text, [ToBytes] and
      [StringMapFromBytes].
    - [Frame] (proxy/session/frame.go and the header reads of session.go): commands,
      the seven-byte header, encoding, and the framing of a byte stream.
    - [Padding] (proxy/padding/padding.go): schemes and the record sizes they draw.
    - [NetConn] is the interface of a connection as the session uses it, with its
      contract [NetConnLaws]; [PlainConn] is a connection with a fault schedule.
    - [WriteConn] (session.go: [doWriteConn], [writeDataFrame], [writeControlFrame]):
      the write path with buffering, padding and the optional rate-limit extensions.
      [Writer] holds the fields of [Session] the path uses.
    - [Pipe] (proxy/pipe): deadlines ([Module Deadline]) and the synchronous pipe
      ([Module Pipe]) as a step relation between a reader and a writer.
    - [Session] (session.go, stream.go): the session with its streams.  Streams are
      objects in a heap ([objs]) because the table, the receive loop and the callers share
      them.  [recv_pc] is where the receive loop stands; one turn ([recv_step]) runs from
      one blocking point to the next, and looks at [die] at the top of the loop only ([loop_top]).
      [OpenStream] is three steps ([open_SYN], [open_unbuffer], [open_register]).  [op] and [exec] are the operations that
      interleave.
    - [SessionSpec]: what sessions promise, among others that the byte-level loop
      implements a handler of whole frames ([handle_frame]).
    - [ClientPool] (client.go): the pool of idle sessions on top of [Session]; the skip
      list is the interface [OrderedMap].  A stream callback is two steps, its check and its insertion.
    - [EndToEnd]: a writer and a receiving session joined by a wire, in any interleaving
      with other operations.
    - [Limiter] (limiter/): token buckets per device; [limitedConn] is an instance of
      [NetConn].  [rate.Limiter] is the interface [RateLimiter].
    - [Flow], [SessionFlow], [Link]: two sessions joined by a wire in each direction.  [Flow]
      follows the frames of one writer until its connection breaks, [SessionFlow] what each
      operation of a session says and hears on each stream, [Link] runs both ends in any
      interleaving.
    - [SynTimer] (OpenStream and the SYNACK case of session.go, util/deadline.go): a session with
      a clock and the watchers it arms.

    Policy and accounting on the server:
    - [AclParse] (acl/parse.go): the rule text and its regular expression.
    - [AclMatch] (acl/matchers.go, acl/matchers_v2geo.go): host matchers.
    - [AclCompile] (acl/compile.go, acl/engine.go): rules, the cached rule set, [Lookup];
      the LRU cache is the interface [LRU].
    - [Policy] (cmd/server/acl.go, private.go, outbound.go): [selectRoute], the private
      filter, UDP streams ([routedPacketConn]) and the names of outbounds.
    - [RefTable]: the table of reference-counted records both registries use.
    - [Stats] (stats/registry.go, stats/stream.go): traffic counters, devices, streams.
    - [Auth] (auth/ and the handshakes of cmd/client/myclient.go and
      cmd/server/inbound_tcp.go): authenticators and the first packet of a connection.

    The server around them, and the client program:
    - [Config] (config/config.go): the settings, their parsing and every check of
      [LoadFile]; the YAML decoder and [time.ParseDuration] are parameters.
    - [Resolver] (resolver/resolver.go, standard.go, doh.go): constructors, retries, the walk
      along CNAME records, DNS over HTTPS; what a DNS server answers is a parameter.
    - [DnsPool] (resolver/pool.go): connections to the DNS server, shared by concurrent calls.
    - [Geo] (acl/geoloader.go, acl/v2geo/load.go): the databases over a file system; decoding is
      the interface [GeoDecoder].
    - [Cert] (util/tls_cert.go, util/mkcert.go): the certificate loader, concurrent handshakes, and
      the certificate the server makes for itself.
    - [Dump] (stats/stream.go, stats/registry.go): the text of /dump/streams.
    - [Timers] (util/deadline.go, util/routine.go): the deadline watcher and the periodic
      routine.
    - [StatsHttp] (stats/http.go): the statistics API as a function from requests to responses.
    - [Outbound] (outbound/): dialing and UDP association with their failures; [Socks5Server]
      (outbound/outboundtest) is the proxy they are tested against.
    - [Server] (cmd/server/main.go, outbound.go, resolver.go, myserver.go): [startup], from the
      command line to the parts of the server.
    - [Handler] (the stream handler of cmd/server/inbound_tcp.go, cmd/server/outbound_tcp.go): a
      stream from its destination to its end, over session, statistics and dialers.
    - [Connections] (the rest of inbound_tcp.go): connections in both registries, one step
      for each call.
    - [Client] (cmd/client/main.go): flags, links and TLS settings.
    - [Request] (cmd/client/myclient.go, inbound.go): a request on a stream of the pool, and
      its way to the handler of the server.
    - [Programs] (cmd/server/main.go, cmd/client/main.go, [Serve] of stats/http.go): both programs
      while they run: accept loops, signals, the statistics API, the first packet of each
      connection and its handler.

    [Prelude] (this file) has the notation, tactics, machine integers, bytes and errors
    the files share; [GoStrings] models the functions of Go's strings, strconv,
    unicode/utf8 and net packages that the source calls.

    ** What the theorems show

    - The wire: a peer that parses the bytes of any sequence of writes and drops
      padding gets exactly the frames written, on plain and on rate-limited connections, if the sizes of the
      schemes and the control frames fit 16 bits ([peer_receives], [writeDataFrame_correct], [parse_encode_all],
      [limited_conn_laws]); padded records have the lengths the scheme dictates
      ([padded_record_lengths], [generate_sizes_between]).
    - Sessions: an invariant over all interleavings ([session_invariant]), silence after
      the close ([closed_session_silent]), one-way stream lives, delivery of data, version negotiation, limits
      on streams ([SessionSpec]).
    - The pipe keeps order and loses nothing; writes finish; deadlines never close a
      channel twice.
    - The pool never hands out a busy session, and a closed one only if it died while a callback was putting it
      back; it reuses the newest and cleans up exactly the expired ones.
    - Rules: parsing inverts printing and agrees with the regular expression; the cache is
      invisible; an engine applies the first matching rule.
    - Policy: with the filter on no private address is reached, for destinations that are addresses or
      names the library accepts; names are never
      resolved behind the policy's back, a UDP stream uses one outbound.
    - Accounting: traffic is conserved, ids are unique, devices share buckets.
    - Authentication: exactly the right password is admitted, for first packets whose padding fits the
      packet buffer; the cache answers only what
      the backend said within the time to live.
    - Streams: with a client and a server session joined by two wires, whatever both do, however
      deliveries interleave and wherever the connection breaks, what is read from a stream
      is a prefix of what the peer wrote to the stream with the same id, and all of it once
      everything has arrived ([streams_intact], [streams_complete]).  The schemes and settings fit the 16-bit
      lengths of frames, the server writes to a stream after it has read from it, and ids do not wrap.
    - The server as a whole: nobody is served without authenticating
      ([served_authenticated]); a signal stops it in order ([shutdown_orderly]).
    - The deadline of a SYN: a session with watchers and time is a session ([timed_refines]), can be closed
      three seconds after a watched call of [OpenStream] that the server does not answer ([silent_server_closed]), and, but for goroutines that
      were cancelled and have not run, for no other reason ([timeout_justified]).
    - Composition: a receiving session behaves as if it were handed the frames of the
      writes themselves ([frames_end_to_end]); the destination a client asks for is what the
      server's handler reads ([request_reaches_handler]); the registries know exactly
      the open connections ([registries_exact]) and the stream list exactly the streams
      served ([dump_lists_served]).
    - Configuration: what [LoadFile] accepts is well formed and the reverse
      ([accepted_config]), and an accepted configuration starts, but for the reasons [fatal_reason] lists ([startup_sound]).
    - Errors: a client learns the class of a failure and no more ([client_learns_class]);
      failed dials and requests leave nothing open
      ([dial_accounts_for_connections], [failed_request_closed]).
    - Resolving ends and answers from the DNS ([lookup_bounded_sound]); a DNS connection has one
      user at a time ([dns_pool_exclusive]).
    - Files: a database is replaced only by a download that decodes ([geo_load_safe]); the server always has
      a certificate ([serves_last_good]).
    - The statistics API needs its secret ([stats_api_protected]); a row of the text dump can
      be read back ([row_columns], [row_identifies]).
    - A watcher calls its function once at most and not before the deadline
      ([deadline_watcher_safe]); a routine runs its function once in each interval until the
      context ends or a panic ([routine_runs], [routine_panic]).
    Some theorems document defects: [oversized_control_frame_desync],
    [geoip_nested_miss], [port_zero_range_matches_all], [handshake_checkmark],
    [accept_after_close], [tiny_limit_unlimited], [non_fqdn_unfiltered], [bandwidth_wraps],
    [bracketed_address_broken], [empty_download_replaces], [stat_error_panics],
    [success_report_leak], [link_password_encoded], [link_default_port_refused],
    [late_timeout], [busy_never_times_out], [dead_session_idle], [callback_too_late],
    [early_refusal_lost].

    ** Conventions

    Bytes are [byte], integers are [Z] with the wrap-around of Go's types written out
    ([uint16], [uint32], [uint64], [int64]), strings are byte strings.  Errors are values
    of [goerror] or of sum types.  Maps are [gmap]; where Go iterates over a map, the order
    is a parameter or does not matter.  Random numbers, times and the answers of other
    systems are arguments.  Libraries outside the repository are classes with the
    laws their documentation states, each with a concrete instance for the witnesses.
    [ConnBreaks] is such a law: after a failed write a TLS connection writes nothing more.

    Fuel: [read_frames], [writeDataLoop], [search], [wait_loop], [write_loop], [drain] and
    [read_all] take fuel that their callers set to a length; each round consumes at least
    one unit of it, and the theorems about them are about the full result.  [lookup_go] is
    structural in the CNAME hops left, of which the source allows seventeen, [retry] in the
    tries left.

    Atomicity: an operation of a session runs from one blocking point to the next without
    interruption, with these exceptions, where the source can be interrupted and the difference
    shows.  The receive loop checks [die] at its top and then waits for a header and for data, so that a
    session may be closed under the frame it handles.  [OpenStream] can be interrupted after its SYN and
    before the stream is registered.  A stream callback can be interrupted between its check and its
    insertion, and [CreateStream] before it sets the callback.  A watcher that was cancelled can still
    fire.  [Session.Close], a write to the connection, and the handling of a frame that was read are single steps; in the pool
    a call of [OpenStream] is one step too.  The padding scheme is one variable of the program: an update
    by another session is an operation of its own ([OpScheme]).

    ** Not modelled

    TLS, HTTP, JSON and YAML texts, DNS messages, cryptography and sockets, which appear as
    what they answer; the copying of relayed data and the SOCKS and HTTP front ends, which a
    library does; write deadlines, which only bound how long a call blocks; logging; the
    generated code of acl/v2geo.

    ** Plan

    Next: the streams of [Link] joined with the handlers of [Handler] and the pool of
    [ClientPool], so that a request and its answer are one run of both programs. *)

From Stdlib Require Export ZArith Lia.
From Stdlib Require Export Strings.Byte.
From stdpp Require Export base tactics option numbers list gmap strings fin_maps sorting.
#[global] Open Scope Z_scope.

(** ** Notations and automation of the development *)

Declare Scope go_scope.
Delimit Scope go_scope with go.

(** Go's [len] is an [int]; lengths of Rocq lists are [nat]. *)
Definition len {A} (l : list A) : Z := Z.of_nat (length l).

Create HintDb anytls.
Create Rewrite HintDb go_len.

(** Splits every boolean comparison of integers in sight into its two cases
    and keeps only the consistent ones. *)
Ltac zcases :=
  repeat match goal with
  | |- context [if ?a <? ?b then _ else _] => destruct (Z.ltb_spec a b)
  | |- context [if ?a <=? ?b then _ else _] => destruct (Z.leb_spec a b)
  | |- context [if ?a =? ?b then _ else _] => destruct (Z.eqb_spec a b)
  | H : context [if ?a <? ?b then _ else _] |- _ => destruct (Z.ltb_spec a b)
  | H : context [if ?a <=? ?b then _ else _] |- _ => destruct (Z.leb_spec a b)
  | H : context [if ?a =? ?b then _ else _] |- _ => destruct (Z.eqb_spec a b)
  end; try done; try lia.

(** Arithmetic over lengths: rewrites [len] of the list operations, then [lia]. *)
Ltac len_lia := autorewrite with go_len in *; unfold len in *; simpl in *; lia.

(** Division and remainder by constants. *)
Ltac divmod := Z.div_mod_to_equations; lia.

(** ** Machine integers *)

Definition maxUint16 : Z := 65535.
Definition maxUint32 : Z := 4294967295.
Definition maxUint64 : Z := 18446744073709551615.
Definition maxInt64 : Z := 9223372036854775807.
Definition minInt64 : Z := -9223372036854775808.

(** Conversions of Go's unsigned types wrap around. *)
Definition uint8 (z : Z) : Z := z mod 256.
Definition uint16 (z : Z) : Z := z mod 65536.
Definition uint32 (z : Z) : Z := z mod 4294967296.
Definition uint64 (z : Z) : Z := z mod 18446744073709551616.

Definition is_uint16 (z : Z) : Prop := 0 <= z <= maxUint16.
Definition is_uint32 (z : Z) : Prop := 0 <= z <= maxUint32.

Lemma uint16_small z : 0 <= z <= maxUint16 -> uint16 z = z.
Proof. unfold uint16, maxUint16. intros. apply Z.mod_small. lia. Qed.

Lemma uint32_small z : 0 <= z <= maxUint32 -> uint32 z = z.
Proof. unfold uint32, maxUint32. intros. apply Z.mod_small. lia. Qed.

Lemma uint16_range z : 0 <= uint16 z <= maxUint16.
Proof. unfold uint16, maxUint16. pose proof (Z.mod_pos_bound z 65536). lia. Qed.

Lemma uint32_range z : 0 <= uint32 z <= maxUint32.
Proof. unfold uint32, maxUint32. pose proof (Z.mod_pos_bound z 4294967296). lia. Qed.

#[export] Hint Resolve uint16_range uint32_range : anytls.

(** ** Lengths *)

Lemma len_nonneg {A} (l : list A) : 0 <= len l.
Proof. unfold len. lia. Qed.

Lemma len_nil {A} : len (@nil A) = 0.
Proof. reflexivity. Qed.

Lemma len_cons {A} (x : A) l : len (x :: l) = 1 + len l.
Proof. unfold len. simpl. lia. Qed.

Lemma len_app {A} (l k : list A) : len (l ++ k) = len l + len k.
Proof. unfold len. rewrite length_app. lia. Qed.

Lemma len_replicate {A} n (x : A) : len (replicate n x) = Z.of_nat n.
Proof. unfold len. by rewrite length_replicate. Qed.

Lemma len_take {A} n (l : list A) : len (take n l) = Z.min (Z.of_nat n) (len l).
Proof. unfold len. rewrite length_take. lia. Qed.

Lemma len_drop {A} n (l : list A) : len (drop n l) = Z.max 0 (len l - Z.of_nat n).
Proof. unfold len. rewrite length_drop. lia. Qed.

#[export] Hint Rewrite @len_nil @len_cons @len_app @len_replicate @len_take @len_drop : go_len.

Lemma len_zero_nil {A} (l : list A) : len l = 0 -> l = [].
Proof. destruct l; [done|]. rewrite len_cons. pose proof (len_nonneg l). lia. Qed.

(** ** Bytes *)

Abbreviation bytes := (list byte).

#[export] Instance byte_eq_dec : EqDecision byte := Byte.byte_eq_dec.

Definition byteZ (b : byte) : Z := Z.of_N (Byte.to_N b).

(** Conversion to [byte] keeps the low eight bits. *)
Definition Zbyte (z : Z) : byte :=
  match Byte.of_N (Z.to_N (uint8 z)) with Some b => b | None => x00 end.

Lemma byteZ_range b : 0 <= byteZ b < 256.
Proof. unfold byteZ. pose proof (Byte.to_N_bounded b). lia. Qed.

Lemma Zbyte_byteZ b : Zbyte (byteZ b) = b.
Proof.
  unfold Zbyte, uint8. rewrite Z.mod_small by apply byteZ_range.
  unfold byteZ. by rewrite N2Z.id, Byte.of_to_N.
Qed.

Lemma byteZ_Zbyte z : byteZ (Zbyte z) = uint8 z.
Proof.
  unfold Zbyte, byteZ. pose proof (Z.mod_pos_bound z 256 eq_refl) as Hr.
  fold (uint8 z) in Hr. destruct (Byte.of_N _) eqn:E.
  - apply Byte.to_of_N in E. rewrite E. lia.
  - apply Byte.of_N_None_iff in E. lia.
Qed.

Lemma byteZ_inj a b : byteZ a = byteZ b -> a = b.
Proof. intros E. by rewrite <- (Zbyte_byteZ a), E, Zbyte_byteZ. Qed.

(** ** encoding/binary, big endian *)

Definition PutUint16 (v : Z) : bytes := [Zbyte (v / 256); Zbyte v].

Definition PutUint32 (v : Z) : bytes :=
  [Zbyte (v / 16777216); Zbyte (v / 65536); Zbyte (v / 256); Zbyte v].

Definition Uint16 (a b : byte) : Z := byteZ a * 256 + byteZ b.

Definition Uint32 (a b c d : byte) : Z :=
  byteZ a * 16777216 + byteZ b * 65536 + byteZ c * 256 + byteZ d.

Lemma Uint16_Put v : is_uint16 v -> Uint16 (Zbyte (v / 256)) (Zbyte v) = v.
Proof.
  unfold is_uint16, maxUint16, Uint16. intros. rewrite !byteZ_Zbyte. unfold uint8. divmod.
Qed.

Lemma Uint32_Put v :
  is_uint32 v ->
  Uint32 (Zbyte (v / 16777216)) (Zbyte (v / 65536)) (Zbyte (v / 256)) (Zbyte v) = v.
Proof.
  unfold is_uint32, maxUint32, Uint32. intros. rewrite !byteZ_Zbyte. unfold uint8. divmod.
Qed.

Lemma Uint16_range a b : is_uint16 (Uint16 a b).
Proof.
  unfold is_uint16, Uint16, maxUint16.
  pose proof (byteZ_range a). pose proof (byteZ_range b). lia.
Qed.

Lemma Uint32_range a b c d : is_uint32 (Uint32 a b c d).
Proof.
  unfold is_uint32, Uint32, maxUint32.
  pose proof (byteZ_range a). pose proof (byteZ_range b).
  pose proof (byteZ_range c). pose proof (byteZ_range d). lia.
Qed.

#[export] Hint Resolve Uint16_range Uint32_range : anytls.

(** ** Slices *)

(** [data[:n]] and [data[n:]] for an [int] index in range. *)
Definition slice_to {A} (n : Z) (l : list A) : list A := take (Z.to_nat n) l.
Definition slice_from {A} (n : Z) (l : list A) : list A := drop (Z.to_nat n) l.

Lemma slice_to_from {A} n (l : list A) : slice_to n l ++ slice_from n l = l.
Proof. apply take_drop. Qed.

Lemma slice_to_app {A} n (l k : list A) : n = len l -> slice_to n (l ++ k) = l.
Proof. intros ->. unfold slice_to, len. rewrite Nat2Z.id. apply take_app_length. Qed.

Lemma slice_from_app {A} n (l k : list A) : n = len l -> slice_from n (l ++ k) = k.
Proof. intros ->. unfold slice_from, len. rewrite Nat2Z.id. apply drop_app_length. Qed.

Lemma len_slice_to {A} n (l : list A) : 0 <= n <= len l -> len (slice_to n l) = n.
Proof. intros. unfold slice_to. rewrite len_take. lia. Qed.

Lemma len_slice_from {A} n (l : list A) : 0 <= n <= len l -> len (slice_from n l) = len l - n.
Proof. intros. unfold slice_from. rewrite len_drop. lia. Qed.

Lemma slice_to_add {A} a b (l : list A) :
  0 <= a -> 0 <= b -> slice_to (a + b) l = slice_to a l ++ slice_to b (slice_from a l).
Proof. intros. unfold slice_to, slice_from. rewrite Z2Nat.inj_add by done. by rewrite take_take_drop. Qed.

Lemma slice_from_add {A} a b (l : list A) :
  0 <= a -> 0 <= b -> slice_from b (slice_from a l) = slice_from (a + b) l.
Proof. intros. unfold slice_from. rewrite drop_drop. f_equal. lia. Qed.

Lemma slice_to_all {A} n (l : list A) : len l <= n -> slice_to n l = l.
Proof. intros. unfold slice_to, len in *. apply take_ge. lia. Qed.

Lemma slice_to_0 {A} (l : list A) : slice_to 0 l = [].
Proof. reflexivity. Qed.

(** ** Errors *)

(** The error values the modelled code creates or compares. [ErrConn] stands
    for whatever the network connection reports; [ErrOutOfFuel] is no value of the
    program but marks a loop of the model that ran out of fuel. *)
Inductive goerror :=
  | EOF
  | ErrUnexpectedEOF
  | ErrClosedPipe
  | ErrNetClosed
  | ErrDeadlineExceeded
  | ErrConn
  | ErrCanceled
  | ErrOutOfFuel
  | ErrRemote (msg : string).

#[export] Instance goerror_eq_dec : EqDecision goerror.
Proof. solve_decision. Defined.

(** The pattern [x, err := m; if err != nil { return err }] for an operation
    that returns an error of type [E] or a value. *)
Definition try_ok {E A B} (m : E + A) (k : A -> E + B) : E + B :=
  match m with inl err => inl err | inr a => k a end.

Notation "'let?' x := m 'in' k" := (try_ok m (fun x => k))
  (at level 10, x binder, m at level 200, k at level 200) : go_scope.

Lemma try_ok_inr {E A B} (m : E + A) (k : A -> E + B) b :
  try_ok m k = inr b <-> exists a, m = inr a /\ k a = inr b.
Proof.
  destruct m as [err|a]; simpl; split; intros H; [done|by destruct H as (? & ? & ?)|by exists a|].
  by destruct H as (? & [= ->] & ?).
Qed.

Lemma try_ok_inl {E A B} (m : E + A) (k : A -> E + B) err :
  try_ok m k = inl err <-> m = inl err \/ exists a, m = inr a /\ k a = inl err.
Proof.
  destruct m as [err'|a]; simpl; split; intros H; [left; congruence| |by right; exists a|].
  - destruct H as [?|(? & ? & ?)]; congruence.
  - by destruct H as [?|(? & [= ->] & ?)].
Qed.
