(* ===== verification/GoStrings.v ===== *)
(** * GoStrings: the string functions of Go's standard library the program uses

    A Go [string] is a sequence of bytes, as is [String.string].  Separators
    and cut sets that occur in the source are single ASCII bytes, so [Split],
    [SplitN] and [Index] are given for one byte.  [strconv] parsing returns
    [None] where the Go function returns an error. *)

From S2P Require Import Prelude.
From Stdlib Require Export Ascii String.
From stdpp Require Export pretty.
#[local] Open Scope string_scope.
#[local] Open Scope Z_scope.

(** ** Conversions between [string] and [[]byte] *)

Definition to_bytes (s : string) : bytes := list_byte_of_string s.
Definition of_bytes (b : bytes) : string := string_of_list_byte b.

Lemma of_to_bytes s : of_bytes (to_bytes s) = s.
Proof. apply string_of_list_byte_of_string. Qed.

Lemma to_of_bytes b : to_bytes (of_bytes b) = b.
Proof. apply list_byte_of_string_of_list_byte. Qed.

Lemma string_app_cons a x y : String a x +:+ y = String a (x +:+ y).
Proof. reflexivity. Qed.

Lemma string_app_nil y : "" +:+ y = y.
Proof. reflexivity. Qed.

Lemma string_app_nil_r a : a +:+ "" = a.
Proof. induction a as [|x a IH]; [done|]. rewrite string_app_cons. by rewrite IH. Qed.

Create Rewrite HintDb go_str.
#[export] Hint Rewrite string_app_cons string_app_nil : go_str.

(** ** Searching *)

(** [strings.Contains(s, string(c))] for one byte [c]. *)
Fixpoint contains_byte (c : ascii) (s : string) : bool :=
  match s with
  | EmptyString => false
  | String a r => Ascii.eqb a c || contains_byte c r
  end.

Fixpoint HasPrefix (p s : string) : bool :=
  match p, s with
  | EmptyString, _ => true
  | String a p', String b s' => Ascii.eqb a b && HasPrefix p' s'
  | String _ _, EmptyString => false
  end.

(** [strings.Contains] for a substring. *)
Fixpoint Contains (s sub : string) : bool :=
  HasPrefix sub s ||
  match s with EmptyString => false | String _ r => Contains r sub end.

(** Some suffix of [s] is [p]. *)
Fixpoint HasSuffix (p s : string) : bool :=
  String.eqb s p || match s with EmptyString => false | String _ r => HasSuffix p r end.

(** The text before and after the first [c]. *)
Fixpoint cut (c : ascii) (s : string) : option (string * string) :=
  match s with
  | EmptyString => None
  | String a r =>
      if Ascii.eqb a c then Some ("", r)
      else match cut c r with
           | Some (x, y) => Some (String a x, y)
           | None => None
           end
  end.

(** ** Splitting and joining *)

Fixpoint Split (c : ascii) (s : string) : list string :=
  match s with
  | EmptyString => [""]
  | String a r =>
      if Ascii.eqb a c then "" :: Split c r
      else match Split c r with
           | h :: t => String a h :: t
           | [] => [String a ""]
           end
  end.

(** [strings.SplitN(s, c, 2)] *)
Definition SplitN2 (c : ascii) (s : string) : list string :=
  match cut c s with Some (x, y) => [x; y] | None => [s] end.

Fixpoint Join (c : ascii) (l : list string) : string :=
  match l with
  | [] => ""
  | [x] => x
  | x :: r => x +:+ String c (Join c r)
  end.

Lemma Split_not_nil c s : Split c s <> [].
Proof. destruct s as [|a s]; simpl; [done|]. destruct (Ascii.eqb a c), (Split c s); done. Qed.

Lemma Split_app c x s :
  contains_byte c x = false -> Split c (x +:+ String c s) = x :: Split c s.
Proof.
  induction x as [|a x IH]; simpl; intros H.
  - by rewrite Ascii.eqb_refl.
  - apply orb_false_iff in H as [-> H]. by rewrite (IH H).
Qed.

Lemma Split_none c x : contains_byte c x = false -> Split c x = [x].
Proof.
  induction x as [|a x IH]; simpl; intros H; [done|].
  apply orb_false_iff in H as [-> H]. by rewrite (IH H).
Qed.

(** Splitting undoes joining when no part holds the separator. *)
Lemma Split_Join c l :
  l <> [] -> Forall (fun x => contains_byte c x = false) l -> Split c (Join c l) = l.
Proof.
  induction l as [|x l IH]; [done|]. intros _ Hl. inv Hl.
  destruct l as [|y l]; [by apply Split_none|].
  change (Join c (x :: y :: l)) with (x +:+ String c (Join c (y :: l))).
  rewrite Split_app by done. by rewrite IH.
Qed.

(** Joining undoes splitting. *)
Lemma Join_Split c s : Join c (Split c s) = s.
Proof.
  induction s as [|a s IH]; [done|]. simpl.
  destruct (Ascii.eqb_spec a c) as [->|].
  - change ("" +:+ String c s) with (String c s).
    destruct (Split c s) eqn:E; [by apply Split_not_nil in E|].
    by rewrite <- IH.
  - destruct (Split c s) as [|h t] eqn:E; [by apply Split_not_nil in E|].
    destruct t; simpl in *; by rewrite <- IH.
Qed.

Lemma Split_parts c s : Forall (fun x => contains_byte c x = false) (Split c s).
Proof.
  induction s as [|a s IH]; simpl; [by repeat constructor|].
  destruct (Ascii.eqb a c) eqn:E; [by constructor|].
  destruct (Split c s) as [|h t]; inv IH; repeat constructor; simpl; rewrite ?E; auto.
Qed.

Lemma cut_app c x y : contains_byte c x = false -> cut c (x +:+ String c y) = Some (x, y).
Proof.
  induction x as [|a x IH]; simpl; intros H.
  - by rewrite Ascii.eqb_refl.
  - apply orb_false_iff in H as [-> H]. by rewrite (IH H).
Qed.

Lemma cut_none c s : cut c s = None <-> contains_byte c s = false.
Proof.
  induction s as [|a s IH]; simpl; [done|].
  destruct (Ascii.eqb a c); simpl; [split; discriminate|].
  rewrite <- IH. destruct (cut c s) as [[??]|]; split; congruence.
Qed.

Lemma cut_some c s x y :
  cut c s = Some (x, y) -> s = x +:+ String c y /\ contains_byte c x = false.
Proof.
  revert x y. induction s as [|a s IH]; simpl; intros x y H; [done|].
  destruct (Ascii.eqb_spec a c) as [->|Hne]; [by simplify_eq|].
  destruct (cut c s) as [[u v]|]; simplify_eq.
  destruct (IH u y eq_refl) as [-> Hu]. split; [done|]. simpl.
  apply Ascii.eqb_neq in Hne. by rewrite Hne.
Qed.

Lemma contains_byte_app c x y :
  contains_byte c (x +:+ y) = contains_byte c x || contains_byte c y.
Proof. induction x as [|a x IH]; simpl; [done|]. by rewrite IH, orb_assoc. Qed.

Lemma HasPrefix_spec p s : HasPrefix p s = true <-> exists r, s = p +:+ r.
Proof.
  revert s. induction p as [|a p IH]; intros s; simpl.
  - split; [by exists s|done].
  - destruct s as [|b s].
    + split; [done|]. by intros [r ?].
    + rewrite andb_true_iff, IH, Ascii.eqb_eq. split.
      * intros [-> [r ->]]. by exists r.
      * intros [r Hr]. rewrite string_app_cons in Hr. simplify_eq. split; [done|by exists r].
Qed.

Lemma HasSuffix_spec p s : HasSuffix p s = true <-> exists r, s = r +:+ p.
Proof.
  induction s as [|a s IH]; cbn [HasSuffix]; rewrite orb_true_iff, String.eqb_eq.
  - split.
    + intros [<-|]; [by exists ""|done].
    + intros [[|] Hr]; autorewrite with go_str in Hr; simplify_eq. by left.
  - rewrite IH. split.
    + intros [<-|[r ->]]; [by exists ""|by exists (String a r)].
    + intros [[|b r] Hr]; autorewrite with go_str in Hr; simplify_eq; [by left|right; by exists r].
Qed.

(** ** Character classes of regular expressions *)

(** [\s] *)
Definition re_space (a : ascii) : bool :=
  let n := Z.of_nat (nat_of_ascii a) in (n =? 9) || (n =? 10) || (n =? 12) || (n =? 13) || (n =? 32).

Fixpoint all_chars (f : ascii -> bool) (s : string) : bool :=
  match s with EmptyString => true | String a r => f a && all_chars f r end.

(** The longest prefix in a class, and the rest. *)
Fixpoint span (f : ascii -> bool) (s : string) : string * string :=
  match s with
  | EmptyString => ("", "")
  | String a r => if f a then let '(x, y) := span f r in (String a x, y) else ("", s)
  end.

Lemma string_app_assoc a b c : (a +:+ b) +:+ c = a +:+ (b +:+ c).
Proof. induction a as [|x a IH]; [done|]. rewrite !string_app_cons. by rewrite IH. Qed.

(** The next character stops a span of [f]. *)
Definition stops (f : ascii -> bool) (s : string) : Prop :=
  match s with EmptyString => True | String a _ => f a = false end.

Lemma span_app f x y : all_chars f x = true -> stops f y -> span f (x +:+ y) = (x, y).
Proof.
  induction x as [|a x IH]; intros Hx Hy.
  - destruct y as [|b y]; [done|]. rewrite string_app_nil. simpl in *. by rewrite Hy.
  - rewrite string_app_cons. simpl in *. apply andb_true_iff in Hx as [-> Hx]. by rewrite IH.
Qed.

Lemma span_spec f s : s = (span f s).1 +:+ (span f s).2 /\ all_chars f (span f s).1 = true.
Proof.
  induction s as [|a s IH]; [done|]. simpl. destruct (f a) eqn:E; [|done].
  destruct (span f s) as [x y]. destruct IH as [-> IH]. simpl in *. rewrite string_app_cons, E. done.
Qed.

(** ** strconv *)

Definition digit (a : ascii) : option Z :=
  let n := Z.of_nat (nat_of_ascii a) in
  if (48 <=? n) && (n <=? 57) then Some (n - 48) else None.

(** The value of a run of decimal digits, most significant first. *)
Fixpoint digits (acc : Z) (s : string) : option Z :=
  match s with
  | EmptyString => Some acc
  | String a r => match digit a with Some d => digits (acc * 10 + d) r | None => None end
  end.

Definition decimal (s : string) : option Z :=
  match s with EmptyString => None | _ => digits 0 s end.

(** [strconv.ParseUint(s, 10, bits)]: no sign, no underscore, in range. *)
Definition ParseUint (bits : Z) (s : string) : option Z :=
  match decimal s with
  | Some v => if v <? 2 ^ bits then Some v else None
  | None => None
  end.

(** [strconv.ParseInt(s, 10, 64)] *)
Definition ParseInt (s : string) : option Z :=
  match s with
  | EmptyString => None
  | String a r =>
      let sgn := if Ascii.eqb a "-" then Some true
                 else if Ascii.eqb a "+" then Some false else None in
      let v := match sgn with
               | Some true => option_map Z.opp (decimal r)
               | Some false => decimal r
               | None => decimal s
               end in
      match v with
      | Some z => if (minInt64 <=? z) && (z <=? maxInt64) then Some z else None
      | None => None
      end
  end.

(** [strconv.Atoi]; [int] is 64 bits wide on the platforms the project builds for. *)
Definition Atoi (s : string) : option Z := ParseInt s.

(** [strconv.Itoa] *)
Definition Itoa (z : Z) : string := pretty z.

Lemma Itoa_inj a b : Itoa a = Itoa b -> a = b.
Proof. apply (inj pretty). Qed.

Lemma digit_range a d : digit a = Some d -> 0 <= d <= 9.
Proof.
  unfold digit. intros H.
  destruct (_ && _) eqn:E in H; [|done]. apply andb_true_iff in E as [?%Z.leb_le ?%Z.leb_le].
  simplify_eq. lia.
Qed.

Lemma digits_nonneg s acc v : 0 <= acc -> digits acc s = Some v -> 0 <= v.
Proof.
  revert acc. induction s as [|a s IH]; simpl; intros acc Hacc H; [by simplify_eq|].
  destruct (digit a) as [d|] eqn:E; [|done]. apply digit_range in E. eapply IH, H. lia.
Qed.

Lemma ParseUint_range bits s v : ParseUint bits s = Some v -> 0 <= v < 2 ^ bits.
Proof.
  unfold ParseUint, decimal. intros H. destruct s; [done|].
  destruct (digits 0 _) as [w|] eqn:E; [|done]. zcases; simplify_eq.
  apply digits_nonneg in E; lia.
Qed.

Lemma ParseInt_range s v : ParseInt s = Some v -> minInt64 <= v <= maxInt64.
Proof.
  unfold ParseInt. intros H. destruct s as [|a r]; [done|]. simpl in H.
  destruct (match _ with Some true => _ | Some false => _ | None => _ end) as [z|]; [|done].
  destruct (_ && _) eqn:E in H; [|done]. apply andb_true_iff in E as [?%Z.leb_le ?%Z.leb_le].
  by simplify_eq.
Qed.

(** ** Trimming *)

(** The one-, two- and three-byte encodings of the runes with [unicode.IsSpace]. *)
Definition is_space1 (a : ascii) : bool :=
  let n := Z.of_nat (nat_of_ascii a) in ((9 <=? n) && (n <=? 13)) || (n =? 32).

Definition is_space2 (a b : ascii) : bool :=
  let m := Z.of_nat (nat_of_ascii a) in
  let n := Z.of_nat (nat_of_ascii b) in
  (m =? 194) && ((n =? 133) || (n =? 160)).

Definition is_space3 (a b c : ascii) : bool :=
  let l := Z.of_nat (nat_of_ascii a) in
  let m := Z.of_nat (nat_of_ascii b) in
  let n := Z.of_nat (nat_of_ascii c) in
  ((l =? 225) && (m =? 154) && (n =? 128)) ||
  ((l =? 226) && (m =? 128) && (((128 <=? n) && (n <=? 138)) || (n =? 168) || (n =? 169) || (n =? 175))) ||
  ((l =? 226) && (m =? 129) && (n =? 159)) ||
  ((l =? 227) && (m =? 128) && (n =? 128)).

(** Removes leading white space; [back] says that the bytes are in reverse order. *)
Fixpoint trim_space_list (back : bool) (s : list ascii) : list ascii :=
  match s with
  | [] => []
  | a :: r1 =>
      if is_space1 a then trim_space_list back r1
      else match r1 with
           | [] => s
           | b :: r2 =>
               if (if back then is_space2 b a else is_space2 a b) then trim_space_list back r2
               else match r2 with
                    | [] => s
                    | c :: r3 =>
                        if (if back then is_space3 c b a else is_space3 a b c) then trim_space_list back r3
                        else s
                    end
           end
  end.

Definition TrimSpace (s : string) : string :=
  string_of_list_ascii
    (rev (trim_space_list true (rev (trim_space_list false (list_ascii_of_string s))))).

(** [strings.TrimRight(s, c)] for a cut set of one byte. *)
Fixpoint TrimRight (c : ascii) (s : string) : string :=
  match s with
  | EmptyString => ""
  | String a r =>
      match TrimRight c r with
      | EmptyString => if Ascii.eqb a c then "" else String a ""
      | r' => String a r'
      end
  end.

(** A string that no trimming changes. *)
Definition trimmed (s : string) : Prop := TrimSpace s = s.

(** ** Lower case *)

Definition is_ascii (s : string) : bool :=
  forallb (fun a => Z.of_nat (nat_of_ascii a) <? 128) (list_ascii_of_string s).

Definition lower_ascii (a : ascii) : ascii :=
  let n := nat_of_ascii a in
  if (65 <=? n)%nat && (n <=? 90)%nat then ascii_of_nat (n + 32) else a.

Fixpoint lower_bytes (s : string) : string :=
  match s with EmptyString => "" | String a r => String (lower_ascii a) (lower_bytes r) end.

(** [strings.ToLower]: bytewise on ASCII; [unicode_lower] is the mapping of the
    Unicode tables for strings with other bytes. *)
Definition ToLower (unicode_lower : string -> string) (s : string) : string :=
  if is_ascii s then lower_bytes s else unicode_lower s.

(** ** Runes *)

(** [utf8.DecodeRune] on a non-empty list: the rune and its width; an ill-formed
    sequence gives [utf8.RuneError] with width one. *)
Definition cont (a : ascii) : option Z :=
  let n := Z.of_nat (nat_of_ascii a) in if (128 <=? n) && (n <=? 191) then Some (n - 128) else None.

Definition RuneError : Z := 65533.

Definition decode_rune (s : list ascii) : Z * nat :=
  match s with
  | [] => (RuneError, 0%nat)
  | a :: r =>
      let n := Z.of_nat (nat_of_ascii a) in
      if n <? 128 then (n, 1%nat)
      else if (194 <=? n) && (n <=? 223) then
        match r with
        | b :: _ => match cont b with
                    | Some x => ((n - 192) * 64 + x, 2%nat)
                    | None => (RuneError, 1%nat)
                    end
        | _ => (RuneError, 1%nat)
        end
      else if (224 <=? n) && (n <=? 239) then
        match r with
        | b :: c :: _ =>
            match cont b, cont c with
            | Some x, Some y =>
                let v := (n - 224) * 4096 + x * 64 + y in
                if (2048 <=? v) && negb ((55296 <=? v) && (v <=? 57343)) then (v, 3%nat) else (RuneError, 1%nat)
            | _, _ => (RuneError, 1%nat)
            end
        | _ => (RuneError, 1%nat)
        end
      else if (240 <=? n) && (n <=? 244) then
        match r with
        | b :: c :: d :: _ =>
            match cont b, cont c, cont d with
            | Some x, Some y, Some z =>
                let v := (n - 240) * 262144 + x * 4096 + y * 64 + z in
                if (65536 <=? v) && (v <=? 1114111) then (v, 4%nat) else (RuneError, 1%nat)
            | _, _, _ => (RuneError, 1%nat)
            end
        | _ => (RuneError, 1%nat)
        end
      else (RuneError, 1%nat)
  end.

(** [[]rune(s)]; each rune takes at least one byte, so the length is enough fuel. *)
Fixpoint runes_list (fuel : nat) (s : list ascii) : list Z :=
  match fuel, s with
  | S fuel, _ :: _ => let '(v, k) := decode_rune s in v :: runes_list fuel (drop k s)
  | _, _ => []
  end.

Definition runes (s : string) : list Z := runes_list (String.length s) (list_ascii_of_string s).

(** Strings of ASCII bytes have one rune per byte. *)
Lemma runes_ascii s :
  is_ascii s = true -> runes s = map (fun a => Z.of_nat (nat_of_ascii a)) (list_ascii_of_string s).
Proof.
  unfold is_ascii, runes. induction s as [|a s IH]; [done|]. simpl.
  intros [Ha Hs]%andb_true_iff. rewrite Ha. f_equal. by apply IH.
Qed.

(** ** Printed numbers parse *)

Lemma digit_char (n : N) : (n < 10)%N -> digit (pretty_N_char n) = Some (Z.of_N n).
Proof.
  intros H. destruct n as [|p]; [done|]. do 4 (destruct p as [p|p|]; try done).
Qed.

Lemma digits_pretty x s : digits 0 (pretty_N_go x s) = digits (Z.of_N x) s.
Proof.
  revert s. induction (N.lt_wf_0 x) as [x _ IH]; intros s.
  destruct (decide (x = 0)%N) as [->|Hx]; [by rewrite pretty_N_go_0|].
  rewrite pretty_N_go_step by lia. rewrite IH by (apply N.div_lt; lia). cbn [digits].
  rewrite digit_char by (apply N.mod_lt; lia). f_equal.
  rewrite N2Z.inj_div, N2Z.inj_mod by lia. pose proof (Z.div_mod (Z.of_N x) (Z.of_N 10)). lia.
Qed.

(** Every character of a printed number is a digit. *)
Definition is_digit (a : ascii) : bool := match digit a with Some _ => true | None => false end.

Fixpoint all_digits (s : string) : bool :=
  match s with EmptyString => true | String a r => is_digit a && all_digits r end.

Lemma all_digits_pretty x s : all_digits s = true -> all_digits (pretty_N_go x s) = true.
Proof.
  revert s. induction (N.lt_wf_0 x) as [x _ IH]; intros s Hs.
  destruct (decide (x = 0)%N) as [->|Hx]; [by rewrite pretty_N_go_0|].
  rewrite pretty_N_go_step by lia. apply IH; [apply N.div_lt; lia|]. simpl. unfold is_digit.
  by rewrite digit_char by (apply N.mod_lt; lia).
Qed.

Lemma Itoa_digits z : 0 <= z -> all_digits (Itoa z) = true /\ decimal (Itoa z) = Some z.
Proof.
  intros Hz. destruct z as [|p|p]; [done| |lia].
  change (Itoa (Z.pos p)) with (pretty_N_go (Npos p) ""). split; [by apply all_digits_pretty|].
  pose proof (digits_pretty (Npos p) "") as H. unfold decimal.
  destruct (pretty_N_go (N.pos p) ""); [done|]. exact H.
Qed.

Lemma ParseUint_Itoa bits z : 0 <= z < 2 ^ bits -> ParseUint bits (Itoa z) = Some z.
Proof. intros H. unfold ParseUint. rewrite (proj2 (Itoa_digits z ltac:(lia))). by destruct (Z.ltb_spec z (2 ^ bits)); [|lia]. Qed.

(** ** Network addresses *)

(** The text before and after the last [c]. *)
Fixpoint rcut (c : ascii) (s : string) : option (string * string) :=
  match s with
  | EmptyString => None
  | String a r =>
      match rcut c r with
      | Some (x, y) => Some (String a x, y)
      | None => if Ascii.eqb a c then Some ("", r) else None
      end
  end.

(** [net.SplitHostPort] *)
Definition SplitHostPort (hostport : string) : option (string * string) :=
  match rcut ":" hostport with
  | None => None
  | Some (before, port) =>
      match hostport with
      | String "[" rest =>
          match cut "]" rest with
          | Some (host, after) =>
              if String.eqb after (String ":" port) && negb (contains_byte "[" rest) && negb (contains_byte "]" after)
              then Some (host, port) else None
          | None => None
          end
      | _ =>
          if contains_byte ":" before || contains_byte "[" hostport || contains_byte "]" hostport then None
          else Some (before, port)
      end
  end.

(** [net.JoinHostPort] *)
Definition JoinHostPort (host port : string) : string :=
  if contains_byte ":" host then "[" +:+ host +:+ "]:" +:+ port else host +:+ ":" +:+ port.

Lemma rcut_none c s : contains_byte c s = false -> rcut c s = None.
Proof. induction s as [|a s IH]; [done|]. simpl. intros [-> H]%orb_false_iff. by rewrite IH. Qed.

Lemma rcut_app c x s : contains_byte c s = false -> rcut c (x +:+ String c s) = Some (x, s).
Proof.
  intros H. induction x as [|a x IH]; simpl; [by rewrite rcut_none, Ascii.eqb_refl|]. by rewrite IH.
Qed.

(** A text without brackets, as the hosts and ports of socket addresses are. *)
Definition no_brackets (s : string) : Prop := contains_byte "[" s = false /\ contains_byte "]" s = false.

Lemma Split_JoinHostPort host port :
  no_brackets host -> no_brackets port -> contains_byte ":" port = false ->
  SplitHostPort (JoinHostPort host port) = Some (host, port).
Proof.
  intros [H1 H2] [P1 P2] Hp. unfold SplitHostPort, JoinHostPort. destruct (contains_byte ":" host) eqn:E.
  - change ("]:" +:+ port) with (String "]" (String ":" port)).
    rewrite string_app_cons, string_app_nil. cbn [rcut].
    assert (host +:+ String "]" (String ":" port) = (host +:+ "]") +:+ String ":" port) as Ea.
    { clear. induction host as [|a h IH]; [done|]. rewrite !string_app_cons. by rewrite IH. }
    rewrite Ea, rcut_app, <- Ea by done. rewrite cut_app by done. rewrite String.eqb_refl, contains_byte_app, H1. simpl.
    by rewrite P1, P2.
  - change (":" +:+ port) with (String ":" port). rewrite rcut_app by done.
    rewrite E, !contains_byte_app, H1, H2. simpl. rewrite P1, P2. simpl.
    destruct host as [|a host]; [done|]. simpl. simpl in H1.
    destruct (Ascii.eqb_spec a "[") as [->|Hne]; [by simpl in H1|].
    by repeat (case_match; try done).
Qed.
