(* ===== verification/StringMap.v ===== *)
(** * StringMap: the settings map (util/string_map.go)

    [StringMap] is a Go map from strings to strings, here [gmap string string].
    [ToBytes] ranges over the map, and Go visits map entries in an unspecified
    order, so the model takes the order as an argument: any permutation of the
    map's entries. *)

From S2P Require Import Prelude GoStrings.
#[local] Open Scope string_scope.
#[local] Open Scope Z_scope.

Module StringMap.

Definition nl : ascii := "010".
Definition eq_sign : ascii := "=".

Definition line_of (kv : string * string) : string := kv.1 +:+ String eq_sign kv.2.

Definition ToBytes (order : list (string * string)) : bytes :=
  to_bytes (Join nl (map line_of order)).

(** One iteration of the loop over the lines. *)
Definition add_line (m : gmap string string) (line : string) : gmap string string :=
  match SplitN2 eq_sign line with
  | [k; v] => <[k := v]> m
  | _ => m
  end.

Definition StringMapFromBytes (b : bytes) : gmap string string :=
  foldl add_line ∅ (Split nl (of_bytes b)).

(** Entries that survive the text format: the key has no [=], and neither key
    nor value has a newline. *)
Definition printable (kv : string * string) : Prop :=
  contains_byte eq_sign kv.1 = false /\
  contains_byte nl kv.1 = false /\ contains_byte nl kv.2 = false.

Lemma add_line_line_of m kv : printable kv -> add_line m (line_of kv) = <[kv.1 := kv.2]> m.
Proof.
  intros (Hk & _). unfold add_line, SplitN2, line_of. by rewrite cut_app.
Qed.

Lemma line_of_no_nl kv : printable kv -> contains_byte nl (line_of kv) = false.
Proof.
  intros (_ & Hk & Hv). unfold line_of. rewrite contains_byte_app, Hk. simpl. done.
Qed.

Lemma foldl_add_lines m l :
  Forall printable l ->
  foldl add_line m (map line_of l) = foldl (fun m kv => <[kv.1 := kv.2]> m) m l.
Proof.
  revert m. induction l as [|kv l IH]; intros m Hl; [done|]. inv Hl. simpl.
  rewrite add_line_line_of by done. by apply IH.
Qed.

Lemma foldl_insert_list_to_map (m : gmap string string) l :
  NoDup l.*1 -> foldl (fun m kv => <[kv.1 := kv.2]> m) m l = list_to_map l ∪ m.
Proof.
  revert m. induction l as [|[k v] l IH]; intros m Hnd; simpl.
  - by rewrite (left_id_L ∅ (∪)).
  - inv Hnd. rewrite IH by done. rewrite <- insert_union_r.
    + by rewrite insert_union_l.
    + by apply not_elem_of_list_to_map_1.
Qed.

Lemma from_to_bytes_any (m : gmap string string) order :
  order ≡ₚ map_to_list m ->
  map_Forall (fun k v => printable (k, v)) m ->
  StringMapFromBytes (ToBytes order) = m.
Proof.
  intros Hp Hm. unfold StringMapFromBytes, ToBytes. rewrite of_to_bytes.
  assert (Forall printable order) as Hpr.
  { apply Forall_forall. intros [k v] Hin. apply (Hm k v).
    apply elem_of_map_to_list. by rewrite <- Hp. }
  destruct order as [|kv order].
  { apply Permutation_nil in Hp.
    apply map_to_list_empty_iff in Hp. by subst. }
  rewrite Split_Join; [|done|].
  2: { apply Forall_map. eapply Forall_impl; [done|]. intros kv'. apply line_of_no_nl. }
  rewrite foldl_add_lines by done.
  rewrite foldl_insert_list_to_map, (right_id_L ∅ (∪)).
  - rewrite (list_to_map_proper _ (map_to_list m)); [apply list_to_map_to_list| |done].
    rewrite Hp. apply NoDup_fst_map_to_list.
  - rewrite Hp. apply NoDup_fst_map_to_list.
Qed.

(** Printing a settings map in any order and parsing the text gives the map
    back, for keys without [=] and newline and values without newline. *)
Theorem from_to_bytes (m : gmap string string) order :
  order ≡ₚ map_to_list m ->
  map_Forall (fun k v => printable (k, v)) m ->
  StringMapFromBytes (ToBytes order) = m.
Proof. apply from_to_bytes_any. Qed.

(** The settings a client sends, printed in both orders. *)
Lemma from_to_bytes_witness :
  StringMapFromBytes (ToBytes [("v", "2"); ("client", "anytls/1")]) =
    <["v" := "2"]> (<["client" := "anytls/1"]> ∅).
Proof.
  apply from_to_bytes.
  - vm_compute. reflexivity || apply Permutation_swap.
  - apply map_Forall_insert_2; [vm_compute; repeat split|].
    apply map_Forall_insert_2; [vm_compute; repeat split|apply map_Forall_empty].
Defined.

(** ** Lookup: the last line of a key wins *)

Definition line_val (k line : string) : option string :=
  match SplitN2 eq_sign line with
  | [k'; v] => if String.eqb k' k then Some v else None
  | _ => None
  end.

Lemma add_line_lookup m line k :
  add_line m line !! k = match line_val k line with Some v => Some v | None => m !! k end.
Proof.
  unfold add_line, line_val, SplitN2. destruct (cut eq_sign line) as [[k' v]|]; [|done].
  destruct (String.eqb_spec k' k) as [->|]; by simplify_map_eq.
Qed.

Lemma foldl_add_line_lookup m l k :
  foldl add_line m l !! k =
  match last (omap (line_val k) l) with Some v => Some v | None => m !! k end.
Proof.
  revert m. induction l as [|x l IH]; intros m; [done|]. simpl. rewrite IH.
  rewrite add_line_lookup. destruct (line_val k x) as [v|]; [|done].
  rewrite last_cons. by destruct (last _).
Qed.

Lemma from_bytes_lookup b k :
  StringMapFromBytes b !! k = last (omap (line_val k) (Split nl (of_bytes b))).
Proof.
  unfold StringMapFromBytes. rewrite foldl_add_line_lookup, lookup_empty. by destruct (last _).
Qed.

End StringMap.
