(* ===== verification/Frame.v ===== *)
(** * Frame: the session layer's frame format (proxy/session/frame.go)

    A frame is one command byte, a big-endian 32-bit stream id, a big-endian
    16-bit payload length and the payload.  The module gives the constants, the
    [frame] and [rawHeader] types with their accessors, and a reference reader
    that splits a byte stream into frames the way the receive loop consumes it:
    only the commands that carry data have a payload on the wire. *)

From S2P Require Import Prelude GoStrings.
#[local] Open Scope Z_scope.

Module Frame.

Definition cmdWaste : byte := x00.
Definition cmdSYN : byte := x01.
Definition cmdPSH : byte := x02.
Definition cmdFIN : byte := x03.
Definition cmdSettings : byte := x04.
Definition cmdAlert : byte := x05.
Definition cmdUpdatePaddingScheme : byte := x06.
Definition cmdSYNACK : byte := x07.
Definition cmdHeartRequest : byte := x08.
Definition cmdHeartResponse : byte := x09.
Definition cmdServerSettings : byte := x0a.

Definition headerOverHeadSize : Z := 1 + 4 + 2.

Record frame := Frame { cmd : byte; sid : Z; data : bytes }.

Definition newFrame (c : byte) (s : Z) : frame := Frame c s [].

#[export] Instance frame_eq_dec : EqDecision frame.
Proof. solve_decision. Defined.

(** [type rawHeader [headerOverHeadSize]byte] *)
Record rawHeader :=
  RawHeader { h0 : byte; h1 : byte; h2 : byte; h3 : byte; h4 : byte; h5 : byte; h6 : byte }.

Definition Cmd (h : rawHeader) : byte := h0 h.
Definition StreamID (h : rawHeader) : Z := Uint32 (h1 h) (h2 h) (h3 h) (h4 h).
Definition Length (h : rawHeader) : Z := Uint16 (h5 h) (h6 h).

(** [io.ReadFull(conn, hdr[:])]: [None] when the stream ends first. *)
Definition read_header (inp : bytes) : option (rawHeader * bytes) :=
  match inp with
  | a :: b :: c :: d :: e :: f :: g :: r => Some (RawHeader a b c d e f g, r)
  | _ => None
  end.

(** [io.ReadFull(conn, buffer)] for a buffer of [n] bytes. *)
Definition read_full (n : Z) (inp : bytes) : option (bytes * bytes) :=
  if n <=? len inp then Some (slice_to n inp, slice_from n inp) else None.

(** What [writeControlFrame] and [writeDataChunk] put into the buffer. *)
Definition encode (f : frame) : bytes :=
  cmd f :: PutUint32 (sid f) ++ PutUint16 (uint16 (len (data f))) ++ data f.

(** The commands whose payload the receive loop reads. *)
Definition carries_data (c : byte) : bool :=
  bool_decide (c = cmdPSH) || bool_decide (c = cmdSYNACK) || bool_decide (c = cmdWaste) ||
  bool_decide (c = cmdSettings) || bool_decide (c = cmdAlert) ||
  bool_decide (c = cmdUpdatePaddingScheme) || bool_decide (c = cmdServerSettings).

(** Frames whose encoding the receiver reads back: the length field is wide
    enough and a command without payload has none. *)
Record wf_frame (f : frame) : Prop := {
  wf_sid : is_uint32 (sid f);
  wf_len : len (data f) <= maxUint16;
  wf_data : carries_data (cmd f) = false -> data f = []
}.

(** Reads one frame off a byte stream. *)
Definition read_frame (inp : bytes) : option (frame * bytes) :=
  match read_header inp with
  | None => None
  | Some (h, r) =>
      if carries_data (Cmd h) then
        match read_full (Length h) r with
        | Some (d, r') => Some (Frame (Cmd h) (StreamID h) d, r')
        | None => None
        end
      else Some (Frame (Cmd h) (StreamID h) [], r)
  end.

(** Reads frames until the stream ends; returns them with the unread rest. *)
Fixpoint read_frames (fuel : nat) (inp : bytes) : list frame * bytes :=
  match fuel with
  | O => ([], inp)
  | S fuel =>
      match read_frame inp with
      | None => ([], inp)
      | Some (f, r) => let '(fs, rest) := read_frames fuel r in (f :: fs, rest)
      end
  end.

Definition parse (inp : bytes) : list frame * bytes := read_frames (length inp) inp.

(** The bytes of a list of frames. *)
Definition encode_all (fs : list frame) : bytes := concat (map encode fs).

(** ** Lemmas *)

Lemma len_encode f : len (encode f) = headerOverHeadSize + len (data f).
Proof. unfold encode, headerOverHeadSize. len_lia. Qed.

Lemma encode_all_app fs gs : encode_all (fs ++ gs) = encode_all fs ++ encode_all gs.
Proof. unfold encode_all. by rewrite map_app, concat_app. Qed.

Lemma encode_all_cons f fs : encode_all (f :: fs) = encode f ++ encode_all fs.
Proof. reflexivity. Qed.

Lemma read_full_app d r : read_full (len d) (d ++ r) = Some (d, r).
Proof.
  unfold read_full. rewrite slice_to_app, slice_from_app by done.
  destruct (Z.leb_spec (len d) (len (d ++ r))); [done|]. pose proof (len_nonneg r). len_lia.
Qed.

Lemma read_full_0 r : read_full 0 r = Some ([], r).
Proof. exact (read_full_app [] r). Qed.

Lemma read_full_Some n inp d r :
  0 <= n -> read_full n inp = Some (d, r) -> inp = d ++ r /\ len d = n.
Proof.
  unfold read_full. intros Hn H. zcases. simplify_eq. split.
  - by rewrite slice_to_from.
  - apply len_slice_to. lia.
Qed.

Lemma read_header_encode f r :
  wf_frame f ->
  exists h, read_header (encode f ++ r) = Some (h, data f ++ r) /\
    Cmd h = cmd f /\ StreamID h = sid f /\ Length h = len (data f).
Proof.
  intros [Hs Hl _]. eexists. split; [unfold encode; simpl; reflexivity|].
  unfold Cmd, StreamID, Length; simpl. split; [done|]. split; [by apply Uint32_Put|].
  pose proof (len_nonneg (data f)). rewrite uint16_small by lia. apply Uint16_Put. by split.
Qed.

(** Reading back one encoded frame. *)
Lemma read_frame_encode f r : wf_frame f -> read_frame (encode f ++ r) = Some (f, r).
Proof.
  intros Hf.
  unfold read_frame. destruct (read_header_encode f r Hf) as (h' & -> & Hc & Hs & Hl).
  rewrite Hc, Hs, Hl. destruct (carries_data (cmd f)) eqn:E.
  - rewrite read_full_app. by destruct f.
  - destruct f as [c s d], Hf as [_ _ Hd]. simpl in *. by rewrite (Hd E).
Qed.

Lemma read_header_shorter inp h r : read_header inp = Some (h, r) -> length inp = (7 + length r)%nat.
Proof. intros H. do 7 (destruct inp as [|? inp]; [done|]). simpl in *. by simplify_eq. Qed.

Lemma read_frame_shorter inp f r : read_frame inp = Some (f, r) -> (length r + 7 <= length inp)%nat.
Proof.
  unfold read_frame. destruct (read_header inp) as [[h r0]|] eqn:E; [|done].
  apply read_header_shorter in E. destruct (carries_data _).
  - destruct (read_full _ _) as [[d r']|] eqn:E'; [|done]. intros; simplify_eq.
    apply read_full_Some in E' as [-> _]; [|apply Uint16_range].
    rewrite length_app in E. lia.
  - intros; simplify_eq. lia.
Qed.

Lemma read_frames_encode_all fs r fuel :
  Forall wf_frame fs -> (length fs <= fuel)%nat -> read_frame r = None ->
  read_frames fuel (encode_all fs ++ r) = (fs, r).
Proof.
  revert fuel. induction fs as [|f fs IH]; intros fuel Hfs Hfuel Hr.
  - destruct fuel; simpl; [done|]. by rewrite Hr.
  - inv Hfs. destruct fuel as [|fuel]; [simpl in *; lia|]. cbn [read_frames].
    change (encode_all (f :: fs)) with (encode f ++ encode_all fs).
    rewrite <- app_assoc, read_frame_encode by done.
    rewrite IH; [done|done|simpl in Hfuel; lia|done].
Qed.

Lemma length_encode_all fs : (length fs <= length (encode_all fs))%nat.
Proof.
  induction fs as [|f fs IH]; [done|]. rewrite encode_all_cons, length_app.
  pose proof (len_encode f) as H. unfold len, headerOverHeadSize in H. simpl. lia.
Qed.

Lemma parse_stream fs r :
  Forall wf_frame fs -> read_frame r = None -> parse (encode_all fs ++ r) = (fs, r).
Proof.
  intros. unfold parse. apply read_frames_encode_all; [done| |done].
  rewrite length_app. pose proof (length_encode_all fs). lia.
Qed.

(** A frame that has not arrived completely is not read. *)
Lemma read_frame_partial f x y :
  wf_frame f -> encode f = x ++ y -> y <> [] -> read_frame x = None.
Proof.
  intros Hf Hxy Hy. unfold read_frame. destruct (read_header x) as [[h r]|] eqn:E; [|done].
  pose proof (read_header_encode f [] Hf) as (h' & Hh & Hc & _ & Hl).
  assert (h = h' /\ data f = r ++ y) as [-> Hd].
  { rewrite app_nil_r, Hxy in Hh. do 7 (destruct x as [|? x]; [done|]).
    simpl in *. simplify_eq. by rewrite app_nil_r in *. }
  rewrite Hc, Hl. destruct (carries_data (cmd f)) eqn:Ec.
  - unfold read_full. rewrite Hd, len_app.
    destruct y; [done|]. rewrite len_cons. pose proof (len_nonneg y). zcases.
  - destruct Hf as [_ _ Hn]. rewrite (Hn Ec) in Hd. by destruct r, y.
Qed.

Lemma read_frames_prefix fs x fuel :
  Forall wf_frame fs -> x `prefix_of` encode_all fs -> (read_frames fuel x).1 `prefix_of` fs.
Proof.
  revert x fuel. induction fs as [|f fs IH]; intros x fuel Hfs [y Hy].
  - destruct x; [|done]. by destruct fuel.
  - inv Hfs. destruct fuel as [|fuel]; [apply prefix_nil|]. cbn [read_frames].
    change (encode_all (f :: fs)) with (encode f ++ encode_all fs) in Hy.
    apply app_eq_app in Hy as [z [[Hf Hy]|[Hx Hy]]].
    + destruct z as [|b z].
      * rewrite app_nil_r in Hf. rewrite <- Hf, <- (app_nil_r (encode f)), read_frame_encode by done.
        destruct (read_frames fuel []) eqn:E. simpl. apply prefix_cons.
        replace l with ((read_frames fuel []).1) by (by rewrite E). apply IH; [done|apply prefix_nil].
      * rewrite (read_frame_partial f x (b :: z)) by done. apply prefix_nil.
    + rewrite Hx, read_frame_encode by done.
      destruct (read_frames fuel z) eqn:E. simpl. apply prefix_cons.
      replace l with ((read_frames fuel z).1) by (by rewrite E). apply IH; [done|]. by exists y.
Qed.

(** If the connection breaks anywhere in a stream of well-formed frames, the
    receiver reads a prefix of the frames that were sent and nothing else. *)
Theorem parse_prefix fs x :
  Forall wf_frame fs -> x `prefix_of` encode_all fs -> (parse x).1 `prefix_of` fs.
Proof. apply read_frames_prefix. Qed.

Lemma parse_prefix_witness :
  (parse (take 10 (encode_all [Frame cmdSYN 1 []; Frame cmdPSH 1 [x41; x42]]))).1
    `prefix_of` [Frame cmdSYN 1 []; Frame cmdPSH 1 [x41; x42]].
Proof.
  apply parse_prefix; [|apply prefix_take].
  repeat constructor; vm_compute; congruence || done.
Defined.

(** The receiver's framing inverts the sender's: a stream of well-formed
    frames, followed by an incomplete frame or nothing, reads back as exactly
    those frames and that rest. *)
Theorem parse_encode_all fs r :
  Forall wf_frame fs -> read_frame r = None -> parse (encode_all fs ++ r) = (fs, r).
Proof. apply parse_stream. Qed.

Lemma parse_encode_all_witness :
  parse (encode_all [Frame cmdSYN 1 []; Frame cmdPSH 1 [x41; x42]] ++ [x02; x00]) =
    ([Frame cmdSYN 1 []; Frame cmdPSH 1 [x41; x42]], [x02; x00]).
Proof.
  apply parse_encode_all; [|reflexivity].
  repeat constructor; vm_compute; congruence || done.
Defined.

End Frame.
