(* ===== verification/Padding.v ===== *)
(** * Padding: the padding scheme (proxy/padding/padding.go)

    A scheme is a text of [key=value] lines.  [stop] bounds the packet numbers
    that are padded; the value of a packet number is a comma-separated list of
    size ranges and check marks.  [rand.Int] is an oracle: [ent i] is the random
    number drawn for the [i]-th range of the packet, reduced modulo the width of
    the range, so every value [rand.Int] can return is covered by some oracle.
    The MD5 digest is a parameter. *)

From S2P Require Import Prelude GoStrings StringMap.
#[local] Open Scope string_scope.
#[local] Open Scope Z_scope.

Module Padding.

Definition CheckMark : Z := -1.

Definition defaultPaddingScheme : bytes := to_bytes
"stop=8
0=30-30
1=100-400
2=400-500,c,500-1000,c,500-1000,c,500-1000,c,500-1000
3=9-9,500-1000
4=500-1000
5=500-1000
6=500-1000
7=500-1000".

Record PaddingFactory := {
  scheme : gmap string string;
  RawScheme : bytes;
  Stop : Z;
  Md5 : string
}.

(** A missing key of a Go map reads as the zero value. *)
Definition get_or_zero (m : gmap string string) (k : string) : string := default "" (m !! k).

Section factory.
Variable md5hex : bytes -> string.

Definition NewPaddingFactory (rawScheme : bytes) : option PaddingFactory :=
  let sch := StringMap.StringMapFromBytes rawScheme in
  if Z.of_nat (size sch) =? 0 then None
  else match Atoi (get_or_zero sch "stop") with
       | Some stop => Some {| scheme := sch; RawScheme := rawScheme;
                              Stop := uint32 stop; Md5 := md5hex rawScheme |}
       | None => None
       end.

(** [cur] is [DefaultPaddingFactory]: the stored factory and whether the update
    was accepted. *)
Definition UpdatePaddingScheme (cur : option PaddingFactory) (rawScheme : bytes)
  : option PaddingFactory * bool :=
  match NewPaddingFactory rawScheme with
  | Some p => (Some p, true)
  | None => (cur, false)
  end.

(** [init] of the package. *)
Definition DefaultPaddingFactory : option PaddingFactory :=
  fst (UpdatePaddingScheme None defaultPaddingScheme).

End factory.

(** The body of the loop over the ranges: the size it appends, if any. *)
Definition range_size (e : Z) (sRange : string) : option Z :=
  match Split "-" sRange with
  | [a; b] =>
      match ParseInt a with
      | None => None
      | Some mn =>
          match ParseInt b with
          | None => None
          | Some mx =>
              let _min := Z.min mn mx in
              let _max := Z.max mn mx in
              if (_min <=? 0) || (_max <=? 0) then None
              else if _min =? _max then Some _min
              else Some (e mod (_max - _min) + _min)
          end
      end
  | _ => if String.eqb sRange "c" then Some CheckMark else None
  end.

Fixpoint ranges_sizes (ent : nat -> Z) (i : nat) (sRanges : list string) : list Z :=
  match sRanges with
  | [] => []
  | r :: rest =>
      match range_size (ent i) r with
      | Some l => l :: ranges_sizes ent (S i) rest
      | None => ranges_sizes ent (S i) rest
      end
  end.

Definition GenerateRecordPayloadSizes (p : PaddingFactory) (ent : nat -> Z) (pkt : Z) : list Z :=
  match scheme p !! Itoa pkt with
  | Some s => ranges_sizes ent 0 (Split "," s)
  | None => []
  end.

(** ** Bounds of a scheme *)

(** The smallest and largest size a range can produce, [None] when it produces
    none: the upper end of a proper range is excluded, as in [rand.Int]. *)
Definition range_span (sRange : string) : option (Z * Z) :=
  match Split "-" sRange with
  | [a; b] =>
      match ParseInt a, ParseInt b with
      | Some mn, Some mx =>
          let lo := Z.min mn mx in
          let hi := Z.max mn mx in
          if lo <=? 0 then None else Some (lo, if lo =? hi then hi else hi - 1)
      | _, _ => None
      end
  | _ => None
  end.

(** Every range of every packet spans sizes between [A] and [B]. *)
Definition scheme_between (A B : Z) (p : PaddingFactory) : bool :=
  forallb (fun kv =>
    forallb (fun r => match range_span r with
                      | Some (lo, hi) => (A <=? lo) && (hi <=? B)
                      | None => true
                      end) (Split "," kv.2))
    (map_to_list (scheme p)).

Lemma range_size_span e r l :
  range_size e r = Some l ->
  l = CheckMark \/ exists lo hi, range_span r = Some (lo, hi) /\ 0 < lo /\ lo <= l <= hi.
Proof.
  unfold range_size, range_span. intros H.
  destruct (Split "-" r) as [|a [|b [|? ?]]];
    try (destruct (String.eqb r "c"); simplify_eq; by left).
  destruct (ParseInt a) as [mn|]; [|done]. destruct (ParseInt b) as [mx|]; [|done].
  right. destruct (Z.leb_spec (Z.min mn mx) 0); simpl in H; [done|].
  destruct (Z.leb_spec (Z.max mn mx) 0); simpl in H; [done|].
  pose proof (Z.mod_pos_bound e (Z.max mn mx - Z.min mn mx)).
  destruct (Z.eqb_spec (Z.min mn mx) (Z.max mn mx)); simplify_eq;
    do 2 eexists; (split; [done|]); lia.
Qed.

Lemma ranges_sizes_in ent i rs l :
  l ∈ ranges_sizes ent i rs -> exists j r, r ∈ rs /\ range_size (ent j) r = Some l.
Proof.
  revert i. induction rs as [|r rs IH]; intros i Hin; simpl in Hin; [set_solver|].
  destruct (range_size (ent i) r) as [l'|] eqn:E.
  - apply elem_of_cons in Hin as [->|Hin].
    + exists i, r. split; [left|done].
    + destruct (IH _ Hin) as (j & r' & ? & ?). exists j, r'. split; [by right|done].
  - destruct (IH _ Hin) as (j & r' & ? & ?). exists j, r'. split; [by right|done].
Qed.

Lemma scheme_between_range A B p k s r lo hi :
  scheme_between A B p = true -> scheme p !! k = Some s -> r ∈ Split "," s ->
  range_span r = Some (lo, hi) -> A <= lo /\ hi <= B.
Proof.
  unfold scheme_between. intros H Hk Hr Hs. rewrite forallb_forall in H.
  specialize (H (k, s) ltac:(apply list_elem_of_In; by apply elem_of_map_to_list)).
  rewrite forallb_forall in H. specialize (H r ltac:(by apply list_elem_of_In)).
  rewrite Hs in H. apply andb_true_iff in H as [?%Z.leb_le ?%Z.leb_le]. done.
Qed.

Lemma generate_between A B p ent pkt :
  scheme_between A B p = true ->
  Forall (fun l => l = CheckMark \/ (0 < l /\ A <= l <= B)) (GenerateRecordPayloadSizes p ent pkt).
Proof.
  intros Hb. unfold GenerateRecordPayloadSizes.
  destruct (scheme p !! Itoa pkt) as [s|] eqn:E; [|constructor].
  apply Forall_forall. intros l Hl.
  apply ranges_sizes_in in Hl as (j & r & Hr & Hl).
  apply range_size_span in Hl as [->|(lo & hi & Hs & ? & ?)]; [by left|right].
  pose proof (scheme_between_range _ _ _ _ _ _ _ _ Hb E Hr Hs). lia.
Qed.

(** Whatever the random numbers, every size generated for a packet is the
    check mark or a positive number between the bounds of the scheme's ranges. *)
Theorem generate_sizes_between A B p ent pkt :
  scheme_between A B p = true ->
  Forall (fun l => l = CheckMark \/ (0 < l /\ A <= l <= B)) (GenerateRecordPayloadSizes p ent pkt).
Proof. apply generate_between. Qed.

(** ** The default scheme *)

Definition default_factory (md5hex : bytes -> string) : PaddingFactory :=
  {| scheme := StringMap.StringMapFromBytes defaultPaddingScheme;
     RawScheme := defaultPaddingScheme; Stop := 8; Md5 := md5hex defaultPaddingScheme |}.

Lemma generate_sizes_between_witness :
  Forall (fun l => l = CheckMark \/ (0 < l /\ 9 <= l <= 999))
         (GenerateRecordPayloadSizes (default_factory (fun _ => "")) (fun i => Z.of_nat i * 77) 2).
Proof. apply generate_sizes_between. vm_compute. reflexivity. Defined.

Lemma default_factory_accepted md5hex :
  DefaultPaddingFactory md5hex = Some (default_factory md5hex).
Proof.
  unfold DefaultPaddingFactory, UpdatePaddingScheme, NewPaddingFactory.
  assert ((Z.of_nat (size (StringMap.StringMapFromBytes defaultPaddingScheme)) =? 0) = false) as ->
    by (vm_compute; reflexivity).
  assert (Atoi (get_or_zero (StringMap.StringMapFromBytes defaultPaddingScheme) "stop") = Some 8) as ->
    by (vm_compute; reflexivity).
  done.
Qed.

Lemma default_between md5hex : scheme_between 9 999 (default_factory md5hex) = true.
Proof. unfold scheme_between, default_factory. simpl scheme. vm_compute. reflexivity. Qed.

Lemma default_fits md5hex : scheme_between 1 maxUint16 (default_factory md5hex) = true.
Proof. unfold scheme_between, default_factory. simpl scheme. vm_compute. reflexivity. Qed.

(** The built-in scheme is accepted at start-up, stops after packet 7, pads
    the authentication packet with exactly 30 bytes and the first session packet
    with one record of 100 to 399 bytes, and never asks for a record outside 9 to
    999 bytes. *)
Theorem default_scheme_sizes md5hex :
  exists p, DefaultPaddingFactory md5hex = Some p /\ Stop p = 8 /\
    (forall ent, GenerateRecordPayloadSizes p ent 0 = [30]) /\
    (forall ent, exists l, GenerateRecordPayloadSizes p ent 1 = [l] /\ 100 <= l < 400) /\
    (forall ent pkt, Forall (fun l => l = CheckMark \/ 9 <= l <= 999)
                            (GenerateRecordPayloadSizes p ent pkt)).
Proof.
  eexists. split; [apply default_factory_accepted|]. split; [done|]. split; [|split].
  - intros ent. vm_compute. reflexivity.
  - intros ent. exists (ent 0%nat mod 300 + 100).
    pose proof (Z.mod_pos_bound (ent 0%nat) 300 eq_refl). split; [|lia].
    unfold GenerateRecordPayloadSizes.
    assert (scheme (default_factory md5hex) !! Itoa 1 = Some "100-400") as -> by (vm_compute; reflexivity).
    reflexivity.
  - intros ent pkt. eapply Forall_impl; [apply generate_between, default_between|].
    simpl. intros l. lia.
Qed.

(** An update is all or nothing: a scheme without entries or without an
    integer [stop] leaves the current factory in place and reports failure, any
    other scheme replaces it and keeps the raw text that was received. *)
Theorem update_scheme_spec md5hex cur raw :
  let sch := StringMap.StringMapFromBytes raw in
  match UpdatePaddingScheme md5hex cur raw with
  | (cur', false) => cur' = cur /\ (sch = ∅ \/ Atoi (get_or_zero sch "stop") = None)
  | (cur', true) =>
      exists p stop, cur' = Some p /\ sch <> ∅ /\ Atoi (get_or_zero sch "stop") = Some stop /\
        scheme p = sch /\ RawScheme p = raw /\ Md5 p = md5hex raw /\ Stop p = uint32 stop
  end.
Proof.
  simpl. unfold UpdatePaddingScheme, NewPaddingFactory.
  set (sch := StringMap.StringMapFromBytes raw).
  destruct (Z.eqb_spec (Z.of_nat (size sch)) 0) as [Hz|Hz].
  - split; [done|left]. apply map_size_empty_inv. lia.
  - destruct (Atoi (get_or_zero sch "stop")) as [stop|]; [|by auto].
    eexists _, stop. repeat split. intros He. rewrite He, map_size_empty in Hz. lia.
Qed.

End Padding.
