(* ===== verification/NetConn.v ===== *)
(** * NetConn: what the session layer relies on from a connection

    The session writes through a [net.Conn].  Two optional extensions are looked
    up with type assertions ([connWriteRateWaiter] and [connUnlimitedWriter] of
    proxy/session/session.go); a rate-limited connection has both.  The class
    [NetConn] is the interface with the operations the write path calls, and
    [NetConnLaws] the contract of [net.Conn]: a successful write hands over
    exactly the bytes given, a failed one a prefix of them, and a closed
    connection writes nothing.  [conn_wire] is the sequence of all bytes handed to
    the network.  Deadlines only bound how long a call blocks and are left out.

    [PlainConn] is a concrete connection that keeps one entry per write and fails
    where its fault schedule says so. *)

From S2P Require Import Prelude.
#[local] Open Scope Z_scope.

(** The result of [Write]: the connection after the call, [n] and [err]. *)
Abbreviation write_fn C := (C -> bytes -> C * Z * option goerror).

Class NetConn (C : Type) := {
  conn_write : write_fn C;
  (** [WaitWrite] of a connection that implements [connWriteRateWaiter] *)
  conn_wait : option (C -> Z -> C * option goerror);
  (** [WriteUnlimited] of a connection that implements [connUnlimitedWriter] *)
  conn_unlimited : option (write_fn C);
  conn_close : C -> C;
  conn_open : C -> bool;
  conn_wire : C -> bytes
}.

(** The contract of one write function. *)
Record write_contract {C} `{!NetConn C} (wf : write_fn C) : Prop := {
  wc_ok c b c' n : wf c b = (c', n, None) -> conn_wire c' = conn_wire c ++ b /\ n = len b;
  wc_err c b c' n e : wf c b = (c', n, Some e) -> exists k, conn_wire c' = conn_wire c ++ take k b;
  wc_closed c b c' n e : conn_open c = false -> wf c b = (c', n, e) ->
    conn_wire c' = conn_wire c /\ conn_open c' = false /\ (b <> [] -> e <> None)
}.

Class NetConnLaws (C : Type) `{!NetConn C} : Prop := {
  law_write : write_contract conn_write;
  law_unlimited wf : conn_unlimited = Some wf -> write_contract wf;
  law_wait wt c k c' e : conn_wait = Some wt -> wt c k = (c', e) ->
    conn_wire c' = conn_wire c /\ conn_open c' = conn_open c;
  law_close c : conn_wire (conn_close c) = conn_wire c /\ conn_open (conn_close c) = false
}.

(** ** A plain connection *)

Record PlainConn := {
  pc_writes : list bytes;
  pc_open : bool;
  (** [pc_fault i = Some k]: the [i]-th write fails after [k] bytes *)
  pc_fault : nat -> option nat
}.

Definition plain_write (c : PlainConn) (b : bytes) : PlainConn * Z * option goerror :=
  if pc_open c then
    match pc_fault c (length (pc_writes c)) with
    | None => ({| pc_writes := pc_writes c ++ [b]; pc_open := true; pc_fault := pc_fault c |},
               len b, None)
    | Some k => ({| pc_writes := pc_writes c ++ [take k b]; pc_open := true; pc_fault := pc_fault c |},
                 len (take k b), Some ErrConn)
    end
  else (c, 0, Some ErrNetClosed).

Definition plain_close (c : PlainConn) : PlainConn :=
  {| pc_writes := pc_writes c; pc_open := false; pc_fault := pc_fault c |}.

#[export] Instance plain_netconn : NetConn PlainConn := {
  conn_write := plain_write;
  conn_wait := None;
  conn_unlimited := None;
  conn_close := plain_close;
  conn_open := pc_open;
  conn_wire c := concat (pc_writes c)
}.

(** A fresh connection on which every write succeeds. *)
Definition plain_new : PlainConn :=
  {| pc_writes := []; pc_open := true; pc_fault := fun _ => None |}.

Lemma concat_snoc {A} (l : list (list A)) x : concat (l ++ [x]) = concat l ++ x.
Proof. rewrite concat_app. simpl. by rewrite app_nil_r. Qed.

#[export] Instance plain_laws : NetConnLaws PlainConn.
Proof.
  split; simpl; try done. split; unfold conn_write, conn_wire, conn_open; simpl; unfold plain_write.
  - intros c b c' n H. repeat case_match; simplify_eq/=. by rewrite concat_snoc.
  - intros c b c' n e H. destruct (pc_open c); [|simplify_eq; exists 0%nat; by rewrite app_nil_r].
    destruct (pc_fault c _) as [k|]; simplify_eq. exists k. simpl. by rewrite concat_snoc.
  - intros c b c' n e Ho H. rewrite Ho in H. by simplify_eq.
Qed.
