(* ===== verification/WriteConn.v ===== *)
(** * WriteConn: the write path of a session (proxy/session/session.go)

    [Writer] holds the fields of [Session] the write path uses: the connection,
    the buffering flag and buffer, the padding flag and the packet counter.  The
    functions follow [doWriteConn], [writeConn], [writeDataChunk] and
    [writeDataFrame]; [control_write] is [writeControlFrame] up to the point
    where the session is closed on an error, which Session.v adds.

    The random numbers of the padding scheme come from [ent pkt i], the draw for
    the [i]-th range of packet [pkt].  Write deadlines are not modelled. *)

From S2P Require Import Prelude GoStrings StringMap Frame Padding NetConn.
#[local] Open Scope Z_scope.

Module WriteConn.
Import Frame Padding.

Definition maxFramePayload : Z := maxUint16.

Record Writer (C : Type) := MkWriter {
  w_conn : C;
  sendPadding : bool;
  buffering : bool;
  buffer : bytes;
  pktCounter : Z
}.
Arguments MkWriter {C}.
Arguments w_conn {C}.
Arguments sendPadding {C}.
Arguments buffering {C}.
Arguments buffer {C}.
Arguments pktCounter {C}.

(** A waste frame of [n] zero bytes, built in place in the source. *)
Definition waste_padding (n : Z) : bytes :=
  cmdWaste :: PutUint32 0 ++ PutUint16 (uint16 n) ++ replicate (Z.to_nat n) x00.

Section write_path.
Context {C : Type} `{!NetConn C}.
Variable ent : Z -> nat -> Z.

(** [writeFn] of [doWriteConn]. *)
Definition write_fn_of (bypassLimit : bool) : write_fn C :=
  fun c p =>
    if bypassLimit then
      match conn_unlimited with
      | Some wu => wu c p
      | None => conn_write c p
      end
    else conn_write c p.

(** The loop over [pktSizes]: the connection, [n], the remaining payload [b] and
    the error of a failed write. *)
Fixpoint pad_loop (wf : write_fn C) (sizes : list Z) (c : C) (n : Z) (b : bytes)
  : C * Z * bytes * option goerror :=
  match sizes with
  | [] => (c, n, b, None)
  | l :: rest =>
      let remain := len b in
      if l =? CheckMark then
        if remain =? 0 then (c, n, b, None) else pad_loop wf rest c n b
      else if l <? remain then
        match wf c (slice_to l b) with
        | (c', _, Some e) => (c', 0, b, Some e)
        | (c', _, None) => pad_loop wf rest c' (n + l) (slice_from l b)
        end
      else if 0 <? remain then
        let paddingLen := l - remain - headerOverHeadSize in
        let b' := if 0 <? paddingLen then b ++ waste_padding paddingLen else b in
        match wf c b' with
        | (c', _, Some e) => (c', 0, b, Some e)
        | (c', _, None) => pad_loop wf rest c' (n + remain) []
        end
      else
        match wf c (waste_padding l) with
        | (c', _, Some e) => (c', 0, b, Some e)
        | (c', _, None) => pad_loop wf rest c' n []
        end
  end.

Definition set_conn (w : Writer C) (c : C) : Writer C :=
  MkWriter c (sendPadding w) (buffering w) (buffer w) (pktCounter w).

Definition doWriteConn (pf : PaddingFactory) (w : Writer C) (b0 : bytes) (bypassLimit : bool)
  : Writer C * Z * option goerror :=
  if buffering w then
    (MkWriter (w_conn w) (sendPadding w) true (buffer w ++ b0) (pktCounter w), len b0, None)
  else
    let b := if 0 <? len (buffer w) then buffer w ++ b0 else b0 in
    let w := MkWriter (w_conn w) (sendPadding w) false
                      (if 0 <? len (buffer w) then [] else buffer w) (pktCounter w) in
    let wf := write_fn_of bypassLimit in
    let plain w := let '(c', n, e) := wf (w_conn w) b in (set_conn w c', n, e) in
    if sendPadding w then
      let pkt := uint32 (pktCounter w + 1) in
      let w := MkWriter (w_conn w) true false (buffer w) pkt in
      if pkt <? Stop pf then
        match pad_loop wf (GenerateRecordPayloadSizes pf (ent pkt) pkt) (w_conn w) 0 b with
        | (c', _, _, Some e) => (set_conn w c', 0, Some e)
        | (c', n, b', None) =>
            if len b' =? 0 then (set_conn w c', n, None)
            else let '(c'', n2, e) := wf c' b' in (set_conn w c'', n + n2, e)
        end
      else plain (MkWriter (w_conn w) false false (buffer w) pkt)
    else plain w.

Definition writeConn (pf : PaddingFactory) (w : Writer C) (b : bytes)
  : Writer C * Z * option goerror :=
  doWriteConn pf w b false.

Definition writeDataChunk (pf : PaddingFactory) (w : Writer C) (s : Z) (d : bytes)
  : Writer C * option goerror :=
  let '(w', _, e) :=
    writeConn pf w (cmdPSH :: PutUint32 s ++ PutUint16 (uint16 (len d)) ++ d) in (w', e).

(** The loop of [writeDataFrame]; each round but the last consumes at least one
    byte, so [length data] further rounds are enough. *)
Fixpoint writeDataLoop (fuel : nat) (pf : PaddingFactory) (w : Writer C) (s : Z) (d : bytes) (written : Z)
  : Writer C * Z * option goerror :=
  let chunk := slice_to (Z.min (len d) maxFramePayload) d in
  match writeDataChunk pf w s chunk with
  | (w', Some e) => (w', written, Some e)
  | (w', None) =>
      let d' := slice_from (len chunk) d in
      if len d' =? 0 then (w', written + len chunk, None)
      else match fuel with
           | O => (w', written + len chunk, None)
           | S fuel => writeDataLoop fuel pf w' s d' (written + len chunk)
           end
  end.

Definition writeDataFrame (pf : PaddingFactory) (w : Writer C) (s : Z) (d : bytes)
  : Writer C * Z * option goerror :=
  writeDataLoop (length d) pf w s d 0.

(** [writeControlFrame] without the [s.Close()] on its two error paths. *)
Definition control_write (pf : PaddingFactory) (w : Writer C) (f : frame)
  : Writer C * option goerror :=
  let payload := cmd f :: PutUint32 (sid f) ++ PutUint16 (uint16 (len (data f))) ++ data f in
  match conn_wait with
  | Some wt =>
      match wt (w_conn w) (len payload) with
      | (c', Some e) => (set_conn w c', Some e)
      | (c', None) =>
          let '(w', _, e) := doWriteConn pf (set_conn w c') payload true in (w', e)
      end
  | None => let '(w', _, e) := doWriteConn pf w payload false in (w', e)
  end.

End write_path.

(** ** Padding is transparent *)

Definition waste_frame (n : Z) : frame := Frame cmdWaste 0 (replicate (Z.to_nat n) x00).

Definition is_waste (f : frame) : Prop := cmd f = cmdWaste /\ wf_frame f.

(** Sizes for which the 16-bit length of a waste frame does not wrap. *)
Definition size_ok (l : Z) : Prop := l = CheckMark \/ 0 < l <= maxUint16.

Lemma waste_padding_encode n : 0 <= n -> waste_padding n = encode (waste_frame n).
Proof.
  intros. unfold waste_padding, encode, waste_frame. simpl.
  by rewrite len_replicate, Z2Nat.id.
Qed.

Lemma waste_frame_ok n : 0 <= n <= maxUint16 -> is_waste (waste_frame n).
Proof.
  intros. split; [done|]. split; simpl; [done|rewrite len_replicate; lia|done].
Qed.
#[local] Hint Resolve waste_frame_ok : anytls.

Section padding_loop.
Context {C : Type} `{!NetConn C}.
Variable wf : write_fn C.
Hypothesis Hwf : write_contract wf.

(** What one run of the padding loop has put on the wire: the consumed part of
    the payload, then waste frames; a failed run has sent a prefix of that. *)
Definition padded (c : C) (b : bytes) (c' : C) (b' : bytes) (e : option goerror) : Prop :=
  exists ws, Forall is_waste ws /\
    match e with
    | None => conn_wire c' ++ b' = conn_wire c ++ b ++ encode_all ws /\ (b' = [] \/ ws = [])
    | Some _ => conn_wire c' `prefix_of` conn_wire c ++ b ++ encode_all ws
    end.

(** After a successful write of [x], the rest of the run continues with [b1]. *)
Lemma padded_step c x ws b c1 b1 c' b' e :
  Forall is_waste ws -> conn_wire c1 = conn_wire c ++ x -> x ++ b1 = b ++ encode_all ws ->
  (b1 = [] \/ ws = []) -> (b1 = [] -> b' = []) ->
  padded c1 b1 c' b' e -> padded c b c' b' e.
Proof.
  intros Hws Hc1 Hx Hor Hb' (ws' & Hws' & He).
  assert (conn_wire c1 ++ b1 ++ encode_all ws' = conn_wire c ++ b ++ encode_all (ws ++ ws')) as Heq.
  { rewrite Hc1, encode_all_app, <- !app_assoc, (app_assoc x), Hx. by rewrite <- app_assoc. }
  exists (ws ++ ws'). split; [by apply Forall_app|]. rewrite <- Heq. destruct e; [done|].
  destruct He as [-> Hor']. split; [done|]. destruct Hor as [->| ->]; [left; by apply Hb'|done].
Qed.

(** A failed write of a prefix of what was due. *)
Lemma padded_fail c x ws b c1 b1 n e :
  Forall is_waste ws -> x `prefix_of` b ++ encode_all ws ->
  wf c x = (c1, n, Some e) -> padded c b c1 b1 (Some e).
Proof.
  intros Hws Hx Hw. apply (wc_err _ Hwf) in Hw as [k Hk]. exists ws.
  split; [done|]. rewrite Hk.
  apply prefix_app. etrans; [apply prefix_take|done].
Qed.

Lemma pad_loop_nil_rest sizes c n b c' n' b' e :
  pad_loop wf sizes c n b = (c', n', b', e) -> b = [] -> b' = [].
Proof.
  revert c n b. induction sizes as [|l rest IH]; intros c n b H ->; [by simplify_eq/=|].
  cbn [pad_loop] in H. rewrite len_nil in H.
  repeat case_match; simplify_eq/=; try done; (eapply IH; [eassumption|]); try done.
  unfold slice_from. apply drop_nil.
Qed.

(** The count the loop returns is the number of payload bytes it consumed. *)
Lemma pad_loop_count sizes c n b c' n' b' :
  Forall size_ok sizes -> pad_loop wf sizes c n b = (c', n', b', None) ->
  n' = n + len b - len b'.
Proof.
  revert c n b. induction sizes as [|l rest IH]; intros c n b Hs H; [simplify_eq/=; lia|].
  inv Hs. match goal with Hl : size_ok l |- _ => destruct Hl as [->|Hl] end; cbn [pad_loop] in H.
  - change (CheckMark =? CheckMark) with true in H. cbv iota in H.
    destruct (len b =? 0); [simplify_eq; lia|eauto].
  - destruct (Z.eqb_spec l CheckMark); [unfold CheckMark in *; lia|].
    destruct (Z.ltb_spec l (len b)).
    + destruct (wf c (slice_to l b)) as [[c1 k] [e|]]; simplify_eq.
      apply IH in H; [|done]. rewrite len_slice_from in H by lia. lia.
    + destruct (Z.ltb_spec 0 (len b)).
      * destruct (wf c _) as [[c1 k] [e|]]; simplify_eq. apply IH in H; [|done].
        rewrite len_nil in H. lia.
      * destruct (wf c _) as [[c1 k] [e|]]; simplify_eq. apply IH in H; [|done].
        pose proof (len_nonneg b). rewrite len_nil in H. lia.
Qed.

Lemma pad_loop_spec sizes c n b c' n' b' e :
  Forall size_ok sizes -> pad_loop wf sizes c n b = (c', n', b', e) -> padded c b c' b' e.
Proof.
  revert c n b. induction sizes as [|l rest IH]; intros c n b Hs H.
  { simplify_eq/=. exists []. split; [constructor|]. split; [|by right].
    by rewrite app_nil_r. }
  inv Hs. match goal with Hl : size_ok l |- _ => destruct Hl as [->|Hl] end; cbn [pad_loop] in H.
  { change (CheckMark =? CheckMark) with true in H. cbv iota in H.
    destruct (len b =? 0); [|eauto]. simplify_eq. exists []. split; [constructor|].
    split; [by rewrite app_nil_r|by right]. }
  destruct (Z.eqb_spec l CheckMark); [unfold CheckMark in *; lia|].
  destruct (Z.ltb_spec l (len b)).
  { destruct (wf c (slice_to l b)) as [[c1 k] [e1|]] eqn:Hw; simplify_eq.
    - eapply (padded_fail _ _ []); [done| |done]. rewrite app_nil_r. apply prefix_take.
    - eapply (padded_step _ _ []); [done|by apply (wc_ok _ Hwf) in Hw as [? _]| |by right| |by eauto].
      + rewrite slice_to_from. by rewrite app_nil_r.
      + eauto using pad_loop_nil_rest. }
  assert (forall x ws c1 k, x = b ++ encode_all ws -> Forall is_waste ws ->
    wf c x = (c1, k, None) -> pad_loop wf rest c1 n [] = (c', n', b', e) \/
    pad_loop wf rest c1 (n + len b) [] = (c', n', b', e) -> padded c b c' b' e) as Hgo.
  { intros x ws c1 k -> Hws Hw Hr.
    eapply (padded_step _ _ ws); [done|by apply (wc_ok _ Hwf) in Hw as [? _]|by rewrite app_nil_r|
      by left| |]; destruct Hr; eauto using pad_loop_nil_rest. }
  destruct (Z.ltb_spec 0 (len b)).
  - set (pl := l - len b - headerOverHeadSize) in *. unfold headerOverHeadSize in pl.
    assert (exists ws, Forall is_waste ws /\
      (if 0 <? pl then b ++ waste_padding pl else b) = b ++ encode_all ws) as (ws & Hws & Hb).
    { destruct (Z.ltb_spec 0 pl); [exists [waste_frame pl]|exists []; by rewrite app_nil_r].
      split; [constructor; [apply waste_frame_ok; lia|done]|].
      rewrite waste_padding_encode by lia. unfold encode_all. simpl. by rewrite app_nil_r. }
    rewrite Hb in H. destruct (wf c _) as [[c1 k] [e1|]] eqn:Hw; simplify_eq; eauto.
    eapply padded_fail; [done|done|done].
  - assert (b = []) as -> by (apply len_zero_nil; pose proof (len_nonneg b); lia).
    assert (waste_padding l = [] ++ encode_all [waste_frame l]) as Hb.
    { rewrite waste_padding_encode by lia. unfold encode_all. simpl. by rewrite app_nil_r. }
    assert (Forall is_waste [waste_frame l]) as Hws by (repeat constructor; apply waste_frame_ok; lia).
    rewrite Hb in H. destruct (wf c _) as [[c1 k] [e1|]] eqn:Hw; simplify_eq; eauto.
    eapply padded_fail; [done|done|done].
Qed.

End padding_loop.

(** ** One write of the session *)

(** Everything handed to the write path so far: on the wire, then buffered. *)
Definition sent {C} `{!NetConn C} (w : Writer C) : bytes := conn_wire (w_conn w) ++ buffer w.

Section one_write.
Context {C : Type} `{!NetConn C, !NetConnLaws C}.
Variable ent : Z -> nat -> Z.

Lemma write_fn_of_contract bypass : write_contract (C:=C) (write_fn_of bypass).
Proof.
  unfold write_fn_of. destruct bypass; [|apply law_write].
  destruct conn_unlimited as [wu|] eqn:E; [by apply law_unlimited|apply law_write].
Qed.

(** What a call of [doWriteConn] with bytes [b] does to the stream: on success
    [b] follows everything sent before, possibly followed by waste frames; on
    failure the wire holds a prefix of that. *)
Definition extends (w : Writer C) (b : bytes) (w' : Writer C) (e : option goerror) : Prop :=
  buffering w' = buffering w /\
  exists ws, Forall is_waste ws /\
    match e with
    | None => sent w' = sent w ++ b ++ encode_all ws /\ (buffering w = false -> buffer w' = [])
    | Some _ => conn_wire (w_conn w') `prefix_of` sent w ++ b ++ encode_all ws
    end.

Lemma write_fn_result byp c b c' n e :
  write_fn_of byp c b = (c', n, e) ->
  match e with
  | None => conn_wire c' = conn_wire c ++ b
  | Some _ => conn_wire c' `prefix_of` conn_wire c ++ b
  end.
Proof.
  pose proof (write_fn_of_contract byp) as Hc. intros H. destruct e as [e|].
  - apply (wc_err _ Hc) in H as [k ->]. apply prefix_app, prefix_take.
  - by apply (wc_ok _ Hc) in H as [-> _].
Qed.

(** The write that ends a call: [x] is what is left to send, [ws] is empty. *)
Lemma extends_finish w b c x byp c' n e sp pk :
  buffering w = false -> conn_wire c ++ x = sent w ++ b ->
  write_fn_of byp c x = (c', n, e) ->
  extends w b (MkWriter c' sp false [] pk) e.
Proof.
  intros Hb Hc H%write_fn_result. split; [done|]. exists []. split; [constructor|].
  rewrite app_nil_r, <- Hc. destruct e; [done|]. split; [|done].
  unfold sent; simpl. by rewrite app_nil_r.
Qed.

Lemma flush_bytes (buf b : bytes) : (if 0 <? len buf then buf ++ b else b) = buf ++ b.
Proof. destruct buf; [done|]. rewrite len_cons. pose proof (len_nonneg buf). zcases. Qed.

Lemma flush_buffer (buf : bytes) : (if 0 <? len buf then [] else buf) = [].
Proof. destruct buf; [done|]. rewrite len_cons. pose proof (len_nonneg buf). zcases. Qed.

Lemma doWriteConn_extends pf w b byp w' n e :
  (sendPadding w = true -> scheme_between 1 maxUint16 pf = true) ->
  doWriteConn ent pf w b byp = (w', n, e) -> extends w b w' e.
Proof.
  intros Hpf H. unfold doWriteConn in H. destruct (buffering w) eqn:Hb.
  { simplify_eq. split; [done|]. exists []. split; [constructor|]. split; [|by rewrite Hb].
    unfold sent; simpl. by rewrite app_nil_r, <- app_assoc. }
  rewrite flush_bytes, flush_buffer in H. simpl in H.
  assert (conn_wire (w_conn w) ++ (buffer w ++ b) = sent w ++ b) as Hx
    by (unfold sent; by rewrite app_assoc).
  assert (forall sp pk, (let '(c', n, e) := write_fn_of byp (w_conn w) (buffer w ++ b) in
    (MkWriter c' sp false [] pk, n, e)) = (w', n, e) -> extends w b w' e) as Hplain.
  { intros sp pk Hw. destruct (write_fn_of byp _ _) as [[c1 k] e1] eqn:E. simplify_eq.
    by eapply extends_finish. }
  destruct (sendPadding w) eqn:Hsp; [|by eapply Hplain].
  destruct (_ <? Stop pf); [|by eapply Hplain].
  destruct (pad_loop _ _ _ _ _) as [[[c1 n1] b1] e1] eqn:Hl.
  apply pad_loop_spec in Hl as (ws & Hws & Hl); [|apply write_fn_of_contract|].
  2: { eapply Forall_impl; [apply generate_between; by apply Hpf|].
       unfold size_ok. simpl. intros l Hl'. lia. }
  rewrite (app_assoc _ (buffer w ++ b)), Hx, <- app_assoc in Hl.
  destruct e1 as [e1|]; [simplify_eq; split; [done|]; by exists ws|].
  destruct Hl as [Hl Hor]. destruct (Z.eqb_spec (len b1) 0) as [E%len_zero_nil|E].
  { simplify_eq. split; [done|]. exists ws. rewrite app_nil_r in Hl.
    unfold sent at 1; simpl. by rewrite app_nil_r. }
  destruct Hor as [->| ->]; [done|]. change (encode_all []) with (@nil byte) in Hl.
  rewrite app_nil_r in Hl.
  destruct (write_fn_of byp c1 b1) as [[c2 n2] e2] eqn:E2. simplify_eq.
  by eapply (extends_finish _ _ c1 b1).
Qed.

(** A scheme the write path can use: it is only read while padding is on. *)
Definition padding_ok (pf : PaddingFactory) (w : Writer C) : Prop :=
  sendPadding w = true -> scheme_between 1 maxUint16 pf = true.

Lemma control_write_extends pf w f w' e :
  padding_ok pf w -> control_write ent pf w f = (w', e) ->
  extends w (encode f) w' e.
Proof.
  intros Hpf H. unfold control_write in H. fold (encode f) in H.
  destruct conn_wait as [wt|] eqn:Hwt.
  - destruct (wt (w_conn w) _) as [c1 e1] eqn:Hw.
    destruct (law_wait _ _ _ _ _ Hwt Hw) as [Hc _]. destruct e1 as [e1|].
    + simplify_eq. split; [done|]. exists []. split; [constructor|]. simpl.
      rewrite Hc. unfold sent. rewrite <- app_assoc. by apply prefix_app_r.
    + destruct (doWriteConn ent pf (set_conn w c1) _ _) as [[w1 n1] e1] eqn:Hd. simplify_eq.
      apply doWriteConn_extends in Hd; [|done]. unfold extends, sent in *. simpl in *.
      by rewrite Hc in Hd.
  - destruct (doWriteConn ent pf w _ _) as [[w1 n1] e1] eqn:Hd. simplify_eq.
    by apply doWriteConn_extends in Hd.
Qed.

Lemma writeDataChunk_extends pf w s d w' e :
  padding_ok pf w -> writeDataChunk ent pf w s d = (w', e) ->
  extends w (encode (Frame cmdPSH s d)) w' e.
Proof.
  unfold writeDataChunk, writeConn. intros Hpf H.
  destruct (doWriteConn ent pf w _ _) as [[w1 n1] e1] eqn:Hd. simplify_eq.
  by apply doWriteConn_extends in Hd.
Qed.

(** Padding is only ever switched off. *)
Lemma doWriteConn_padding pf w b byp w' n e :
  doWriteConn ent pf w b byp = (w', n, e) -> sendPadding w' = true -> sendPadding w = true.
Proof.
  unfold doWriteConn, set_conn. intros H. destruct (sendPadding w) eqn:E; [done|].
  repeat case_match; simplify_eq/=; congruence.
Qed.

Lemma writeDataChunk_padding pf w s d w' e :
  writeDataChunk ent pf w s d = (w', e) -> padding_ok pf w -> padding_ok pf w'.
Proof.
  unfold writeDataChunk, writeConn, padding_ok. intros H Hok Hsp.
  destruct (doWriteConn ent pf w _ _) as [[w1 n1] e1] eqn:Hd. simplify_eq.
  apply doWriteConn_padding in Hd; auto.
Qed.

Lemma control_write_padding pf w f w' e :
  control_write ent pf w f = (w', e) -> padding_ok pf w -> padding_ok pf w'.
Proof.
  unfold control_write, padding_ok. intros H Hok Hsp.
  repeat case_match; simplify_eq; auto;
    match goal with Hd : doWriteConn _ _ _ _ _ = _ |- _ => apply doWriteConn_padding in Hd end; auto.
Qed.

End one_write.

(** ** The frame channel the write path implements *)

Definition strip_waste (fs : list frame) : list frame :=
  filter (fun f => cmd f <> cmdWaste) fs.

(** The abstract view of a writer: the frames handed to it, in order.  On the
    wire and in the buffer they are interleaved with waste frames. *)
Definition carries {C} `{!NetConn C} (w : Writer C) (fs : list frame) : Prop :=
  exists gs, Forall wf_frame gs /\ sent w = encode_all gs /\ strip_waste gs = fs.

(** After an error the wire holds a prefix of such a stream. *)
Definition cut_short {C} `{!NetConn C} (w : Writer C) (fs : list frame) : Prop :=
  exists gs, Forall wf_frame gs /\ conn_wire (w_conn w) `prefix_of` encode_all gs /\
    strip_waste gs = fs.

(** [ps] are data frames of stream [s] that carry [d]. *)
Definition split_of (s : Z) (d : bytes) (ps : list frame) : Prop :=
  Forall (fun f => cmd f = cmdPSH /\ sid f = s /\ len (data f) <= maxFramePayload) ps /\
  concat (map data ps) = d.

Lemma strip_waste_app fs gs : strip_waste (fs ++ gs) = strip_waste fs ++ strip_waste gs.
Proof. apply filter_app. Qed.

Lemma strip_waste_none ws : Forall is_waste ws -> strip_waste ws = [].
Proof.
  induction 1 as [|f ws [Hc _] _ IH]; [done|]. unfold strip_waste in *.
  rewrite filter_cons_False by (by intros ?). done.
Qed.

Lemma strip_waste_one f : cmd f <> cmdWaste -> strip_waste [f] = [f].
Proof. intros. unfold strip_waste. by rewrite filter_cons_True. Qed.

Lemma wf_psh s d : is_uint32 s -> len d <= maxFramePayload -> wf_frame (Frame cmdPSH s d).
Proof. intros. by split. Qed.

Section channel.
Context {C : Type} `{!NetConn C, !NetConnLaws C}.
Variable ent : Z -> nat -> Z.
Implicit Types w : Writer C.

Lemma carries_extend w f w' fs :
  carries w fs -> wf_frame f -> cmd f <> cmdWaste -> extends w (encode f) w' None ->
  carries w' (fs ++ [f]).
Proof.
  intros (gs & Hgs & Hs & <-) Hf Hc (_ & ws & Hws & Hs' & _).
  exists (gs ++ f :: ws). split_and!.
  - apply Forall_app; split; [done|]. constructor; [done|].
    eapply Forall_impl; [done|]. by intros ? [].
  - rewrite Hs', Hs, encode_all_app. by rewrite encode_all_cons.
  - rewrite strip_waste_app. f_equal. change (f :: ws) with ([f] ++ ws).
    by rewrite strip_waste_app, strip_waste_one, strip_waste_none, app_nil_r.
Qed.

Lemma carries_cut_short w f w' e fs :
  carries w fs -> wf_frame f -> cmd f <> cmdWaste -> extends w (encode f) w' (Some e) ->
  cut_short w' (fs ++ [f]).
Proof.
  intros (gs & Hgs & Hs & <-) Hf Hc (_ & ws & Hws & Hp).
  exists (gs ++ f :: ws). split_and!.
  - apply Forall_app; split; [done|]. constructor; [done|].
    eapply Forall_impl; [done|]. by intros ? [].
  - by rewrite encode_all_app, encode_all_cons, <- Hs.
  - rewrite strip_waste_app. f_equal. change (f :: ws) with ([f] ++ ws).
    by rewrite strip_waste_app, strip_waste_one, strip_waste_none, app_nil_r.
Qed.

(** What [writeDataFrame] has done to a writer that carries [fs]. *)
Definition data_written (pf : PaddingFactory) (s : Z) (fs : list frame) (d : bytes)
  (w w' : Writer C) (n : Z) (e : option goerror) : Prop :=
  exists ps, split_of s (slice_to n d) ps /\ 0 <= n <= len d /\
    match e with
    | None => n = len d /\ carries w' (fs ++ ps) /\ padding_ok pf w' /\
              buffering w' = buffering w /\ (buffering w = false -> buffer w' = [])
    | Some _ => exists f, wf_frame f /\ split_of s (data f) [f] /\
                         data f `prefix_of` slice_from n d /\ cut_short w' (fs ++ ps ++ [f])
    end.

Lemma split_of_nil s : split_of s [] [].
Proof. by split. Qed.

Lemma split_of_cons s f d ps :
  split_of s (data f) [f] -> split_of s d ps -> split_of s (data f ++ d) (f :: ps).
Proof.
  intros [Hf _] [Hps <-]. split; [|done]. constructor; [|done]. by inv Hf.
Qed.

Lemma split_of_psh s d : len d <= maxFramePayload -> split_of s d [Frame cmdPSH s d].
Proof. intros. split; [by repeat constructor|]. simpl. by rewrite app_nil_r. Qed.

(** The chunk a round of the loop sends, as a frame. *)
Definition chunk_frame (s : Z) (d : bytes) : frame :=
  Frame cmdPSH s (slice_to (Z.min (len d) maxFramePayload) d).

Lemma chunk_frame_ok s d :
  is_uint32 s -> wf_frame (chunk_frame s d) /\ split_of s (data (chunk_frame s d)) [chunk_frame s d].
Proof.
  intros. pose proof (len_nonneg d).
  assert (len (data (chunk_frame s d)) <= maxFramePayload).
  { unfold chunk_frame, maxFramePayload, maxUint16. simpl. rewrite len_slice_to; lia. }
  split; [by apply wf_psh|by apply split_of_psh].
Qed.

(** One round that fails ends the loop with nothing more counted. *)
Lemma chunk_failed pf w s d w1 e fs :
  is_uint32 s -> padding_ok pf w -> carries w fs ->
  writeDataChunk ent pf w s (data (chunk_frame s d)) = (w1, Some e) ->
  data_written pf s fs d w w1 0 (Some e).
Proof.
  intros Hs Hp Hc Hw. destruct (chunk_frame_ok s d Hs) as [Hwf Hf].
  exists []. split; [apply split_of_nil|]. split; [pose proof (len_nonneg d); lia|].
  exists (chunk_frame s d). split_and!; [done..|apply prefix_take|].
  eapply carries_cut_short; [done|done|done|]. by eapply writeDataChunk_extends.
Qed.

(** One round that succeeds: the rest of the loop works on the rest of the data. *)
Lemma chunk_written pf w s d w1 w' n e fs :
  is_uint32 s -> padding_ok pf w -> carries w fs ->
  let m := len (data (chunk_frame s d)) in
  writeDataChunk ent pf w s (data (chunk_frame s d)) = (w1, None) ->
  data_written pf s (fs ++ [chunk_frame s d]) (slice_from m d) w1 w' n e ->
  data_written pf s fs d w w' (m + n) e.
Proof.
  intros Hs Hp Hc m Hw (ps & Hps & Hn & He). destruct (chunk_frame_ok s d Hs) as [Hwf Hf].
  pose proof (writeDataChunk_extends _ _ _ _ _ _ _ Hp Hw) as (Hb1 & _).
  assert (0 <= m <= len d) as Hm.
  { subst m. simpl. unfold maxFramePayload, maxUint16. pose proof (len_nonneg d).
    rewrite len_slice_to; lia. }
  rewrite len_slice_from in Hn by done.
  exists (chunk_frame s d :: ps). split_and!; [|lia..|].
  - rewrite slice_to_add by lia. replace (slice_to m d) with (data (chunk_frame s d)).
    + by apply split_of_cons.
    + simpl. subst m. simpl. f_equal. unfold maxFramePayload, maxUint16 in *.
      rewrite len_slice_to; [done|]. pose proof (len_nonneg d). lia.
  - rewrite Hb1 in He. rewrite len_slice_from in He by done. destruct e as [e|].
    + destruct He as (f & ? & ? & Hpre & Hcut). exists f. rewrite <- app_assoc in Hcut.
      rewrite slice_from_add in Hpre by lia. by split_and!.
    + destruct He as (? & Hcar & ? & ? & ?). rewrite <- app_assoc in Hcar. split_and!; [lia|done..].
Qed.

(** The last round: nothing is left to send. *)
Lemma chunk_last pf w s d w1 fs :
  is_uint32 s -> padding_ok pf w -> carries w fs ->
  writeDataChunk ent pf w s (data (chunk_frame s d)) = (w1, None) ->
  carries w1 (fs ++ [chunk_frame s d]) /\ padding_ok pf w1 /\
  data_written pf s (fs ++ [chunk_frame s d]) [] w1 w1 0 None.
Proof.
  intros Hs Hp Hc Hw. destruct (chunk_frame_ok s d Hs) as [Hwf Hf].
  pose proof (writeDataChunk_extends _ _ _ _ _ _ _ Hp Hw) as Hx.
  pose proof (writeDataChunk_padding _ _ _ _ _ _ _ Hw Hp) as Hp1.
  pose proof (carries_extend _ _ _ _ Hc Hwf ltac:(done) Hx) as Hc1.
  split_and!; [done..|]. exists []. split; [apply split_of_nil|]. split; [done|].
  rewrite app_nil_r. split_and!; [done..|]. destruct Hx as (-> & ws & _ & _ & Hbuf). done.
Qed.

Lemma writeDataLoop_spec fuel pf w s d written w' n e fs :
  is_uint32 s -> padding_ok pf w -> carries w fs -> (length d <= fuel)%nat ->
  writeDataLoop ent fuel pf w s d written = (w', n, e) ->
  data_written pf s fs d w w' (n - written) e.
Proof.
  intros Hs. revert w d written fs. induction fuel as [|fuel IH]; intros w d written fs Hp Hc Hfuel H;
    cbn [writeDataLoop] in H;
    change (slice_to (Z.min (len d) maxFramePayload) d) with (data (chunk_frame s d)) in H;
    destruct (writeDataChunk ent pf w s _) as [w1 [e1|]] eqn:Hw;
    try (simplify_eq; rewrite Z.sub_diag; by apply chunk_failed);
    destruct (chunk_last _ _ _ _ _ _ Hs Hp Hc Hw) as (Hc1 & Hp1 & Hlast);
    destruct (Z.eqb_spec (len (slice_from (len (data (chunk_frame s d))) d)) 0) as [E%len_zero_nil|E];
    try (simplify_eq; replace (written + _ - written) with (len (data (chunk_frame s d)) + 0) by lia;
         eapply chunk_written; [done..|]; by rewrite E).
  - destruct d; [by destruct E|simpl in Hfuel; lia].
  - replace (n - written) with (len (data (chunk_frame s d)) + (n - (written + len (data (chunk_frame s d))))) by lia.
    eapply chunk_written; [done..|]. eapply IH; [done|done| |done].
    destruct d as [|x d]; [by destruct E|].
    unfold slice_from. rewrite length_drop. simpl data.
    assert (1 <= len (slice_to (Z.min (len (x :: d)) maxFramePayload) (x :: d))); [|simpl in *; lia].
    rewrite len_cons. pose proof (len_nonneg d). unfold maxFramePayload, maxUint16.
    rewrite len_slice_to; rewrite ?len_cons; lia.
Qed.

(** [writeDataFrame] cuts a payload of any length into data frames of at
    most 65535 bytes that carry exactly the payload, in order, after everything
    sent before, and returns its length.  If a write fails, the count returned is
    the payload of the frames sent completely and the wire holds a prefix of a
    well-formed frame stream. *)
Theorem writeDataFrame_correct pf w s d w' n e fs :
  is_uint32 s -> padding_ok pf w -> carries w fs ->
  writeDataFrame ent pf w s d = (w', n, e) ->
  data_written pf s fs d w w' n e.
Proof.
  intros Hs Hp Hc H. unfold writeDataFrame in H. replace n with (n - 0) by lia.
  by eapply writeDataLoop_spec.
Qed.

(** ** Sequences of writes *)

(** What the session asks of its writer; [WUnbuffer] is the end of buffering in
    [OpenStream]. *)
Inductive wop :=
  | WControl (f : frame)
  | WData (s : Z) (d : bytes)
  | WUnbuffer.

Definition unbuffer (w : Writer C) : Writer C :=
  MkWriter (w_conn w) (sendPadding w) false (buffer w) (pktCounter w).

Definition run_op (pf : PaddingFactory) (w : Writer C) (op : wop) : Writer C * option goerror :=
  match op with
  | WControl f => control_write ent pf w f
  | WData s d => let '(w', _, e) := writeDataFrame ent pf w s d in (w', e)
  | WUnbuffer => (unbuffer w, None)
  end.

(** Runs the writes until one fails; each sees the padding scheme of its time. *)
Fixpoint run_ops (w : Writer C) (ops : list (PaddingFactory * wop)) : Writer C * option goerror :=
  match ops with
  | [] => (w, None)
  | (pf, op) :: rest =>
      match run_op pf w op with
      | (w', None) => run_ops w' rest
      | (w', Some e) => (w', Some e)
      end
  end.

Definition op_ok (op : wop) : Prop :=
  match op with
  | WControl f => wf_frame f /\ cmd f <> cmdWaste
  | WData s _ => is_uint32 s
  | WUnbuffer => True
  end.

(** The frames a sequence of writes stands for: control frames as they are, data
    cut into frames that carry it. *)
Inductive frames_for : list wop -> list frame -> Prop :=
  | ff_nil : frames_for [] []
  | ff_control f ops fs : frames_for ops fs -> frames_for (WControl f :: ops) (f :: fs)
  | ff_data s d ps ops fs : split_of s d ps -> frames_for ops fs ->
      frames_for (WData s d :: ops) (ps ++ fs)
  | ff_unbuffer ops fs : frames_for ops fs -> frames_for (WUnbuffer :: ops) fs.

(** The hypotheses on each write of a sequence. *)
Definition write_ok (po : PaddingFactory * wop) : Prop :=
  scheme_between 1 maxUint16 po.1 = true /\ op_ok po.2.

Lemma run_op_ok pf w op w' fs :
  write_ok (pf, op) -> carries w fs -> run_op pf w op = (w', None) ->
  exists gs, carries w' (fs ++ gs) /\ forall ops hs, frames_for ops hs -> frames_for (op :: ops) (gs ++ hs).
Proof.
  intros [Hpf Hop] Hc H. destruct op as [f|s d|]; simpl in *.
  - destruct Hop. exists [f]. split; [|intros; by constructor].
    eapply carries_extend; [done..|]. eapply control_write_extends; [by intros _|done].
  - destruct (writeDataFrame ent pf w s d) as [[w1 n1] e1] eqn:Hd. simplify_eq.
    apply (writeDataLoop_spec _ _ _ _ _ _ _ _ _ fs) in Hd as (ps & Hps & _ & Hn & ? & _);
      [|done|by intros _|done|done].
    rewrite Z.sub_0_r in *. subst n1. rewrite slice_to_all in Hps by done.
    exists ps. split; [done|]. intros; by constructor.
  - simplify_eq. exists []. rewrite app_nil_r. split; [done|]. intros; by constructor.
Qed.

Lemma run_ops_carries w ops w' fs :
  Forall write_ok ops -> carries w fs -> run_ops w ops = (w', None) ->
  exists gs, frames_for ops.*2 gs /\ carries w' (fs ++ gs).
Proof.
  revert w fs. induction ops as [|[pf op] ops IH]; intros w fs Hok Hc H; simpl in H.
  - simplify_eq. exists []. rewrite app_nil_r. split; [constructor|done].
  - inv Hok. destruct (run_op pf w op) as [w1 [e|]] eqn:E; [done|].
    eapply run_op_ok in E as (gs & Hc1 & Hff); [|done..].
    eapply IH in H as (hs & Hhs & Hc'); [|done..].
    exists (gs ++ hs). split; [by apply Hff|]. by rewrite app_assoc.
Qed.

(** Once nothing is buffered, the peer's framing recovers the carried frames
    from the wire, waste frames aside, and no byte is left over. *)
Lemma carries_parse w fs :
  carries w fs -> buffer w = [] ->
  exists gs, parse (conn_wire (w_conn w)) = (gs, []) /\ strip_waste gs = fs.
Proof.
  intros (gs & Hgs & Hs & <-) Hb. exists gs. split; [|done].
  unfold sent in Hs. rewrite Hb, app_nil_r in Hs. rewrite Hs, <- (app_nil_r (encode_all gs)).
  by apply parse_stream.
Qed.

Lemma split_exists s d : exists ps, split_of s d ps.
Proof.
  exists (map (fun b => Frame cmdPSH s [b]) d). split.
  - apply Forall_forall. intros f Hf. apply list_elem_of_fmap in Hf as (b & -> & _). done.
  - induction d as [|b d IH]; [done|]. simpl. by rewrite IH.
Qed.

Lemma split_of_app s d d' ps ps' :
  split_of s d ps -> split_of s d' ps' -> split_of s (d ++ d') (ps ++ ps').
Proof.
  intros [H <-] [H' <-]. split; [by apply Forall_app|]. by rewrite map_app, concat_app.
Qed.

Lemma frames_for_exists ops : exists fs, frames_for ops fs.
Proof.
  induction ops as [|[f|s d|] ops [fs IH]]; [eexists; constructor|..].
  - eexists. by constructor.
  - destruct (split_exists s d) as [ps Hps]. eexists. by constructor.
  - eexists. by constructor.
Qed.

Lemma run_op_failed pf w op w' e fs :
  write_ok (pf, op) -> carries w fs -> run_op pf w op = (w', Some e) ->
  exists gs gs', cut_short w' (fs ++ gs) /\
    forall ops hs, frames_for ops hs -> frames_for (op :: ops) (gs ++ gs' ++ hs).
Proof.
  intros [Hpf Hop] Hc H. destruct op as [f|s d|]; simpl in *; [..|done].
  - destruct Hop. exists [f], []. split; [|intros; by constructor].
    eapply carries_cut_short; [done..|]. eapply control_write_extends; [by intros _|done].
  - destruct (writeDataFrame ent pf w s d) as [[w1 n1] e1] eqn:Hd. simplify_eq.
    apply (writeDataLoop_spec _ _ _ _ _ _ _ _ _ fs) in Hd as (ps & Hps & _ & f & _ & Hf & [d' Hd'] & Hcut);
      [|done|by intros _|done|done].
    rewrite Z.sub_0_r in *. destruct (split_exists s d') as [ps' Hps'].
    exists (ps ++ [f]), ps'. split; [done|]. intros ops hs Hh. rewrite app_assoc. constructor; [|done].
    rewrite <- (slice_to_from n1 d), Hd', <- app_assoc. eauto using split_of_app.
Qed.

Lemma run_ops_failed w ops w' e fs :
  Forall write_ok ops -> carries w fs -> run_ops w ops = (w', Some e) ->
  exists gs gs', frames_for ops.*2 (gs ++ gs') /\ cut_short w' (fs ++ gs).
Proof.
  revert w fs. induction ops as [|[pf op] ops IH]; intros w fs Hok Hc H; simpl in H; [done|].
  inv Hok. destruct (run_op pf w op) as [w1 [e1|]] eqn:E.
  - simplify_eq. eapply run_op_failed in E as (gs & gs' & Hcut & Hff); [|done..].
    destruct (frames_for_exists ops.*2) as [hs Hhs]. exists gs, (gs' ++ hs). split; [|done].
    by apply Hff.
  - eapply run_op_ok in E as (gs & Hc1 & Hff); [|done..].
    eapply IH in H as (hs & hs' & Hhs & Hcut); [|done..].
    exists (gs ++ hs), hs'. split; [rewrite <- app_assoc; by apply Hff|].
    by rewrite app_assoc.
Qed.

Lemma cut_short_parse w fs :
  cut_short w fs -> strip_waste (parse (conn_wire (w_conn w))).1 `prefix_of` fs.
Proof.
  intros (gs & Hgs & Hp & <-). apply read_frames_prefix with (fuel := length (conn_wire (w_conn w))) in Hp
    as [k Hk]; [|done]. exists (strip_waste k). by rewrite Hk at 1; rewrite strip_waste_app.
Qed.

(** The writer of [NewClientSession] after [Run] has switched buffering on. *)
Definition client_writer (c : C) : Writer C := MkWriter c true true [] 0.

(** The writer of [NewServerSession]. *)
Definition server_writer (c : C) : Writer C := MkWriter c false false [] 0.

Lemma fresh_carries c sp bf : conn_wire c = [] -> carries (MkWriter c sp bf [] 0) [].
Proof. intros H. exists []. split; [constructor|]. unfold sent. simpl. by rewrite H. Qed.

(** C9.  What the peer reads.  On a fresh connection, with padding schemes whose
    ranges fit the 16-bit length field, control frames with at most 65535 bytes of
    data that are not waste frames, and any random sizes: if all writes
    succeeded and nothing is buffered, the peer's framing yields exactly the
    frames of the writes, in order, once it drops waste frames, and no stray
    bytes; if a write failed, it yields a prefix of them. *)
Theorem peer_receives c sp bf ops w' e :
  Forall write_ok ops -> conn_wire c = [] ->
  run_ops (MkWriter c sp bf [] 0) ops = (w', e) ->
  let '(gs, rest) := parse (conn_wire (w_conn w')) in
  exists fs, frames_for ops.*2 fs /\
    match e with
    | None => buffer w' = [] -> strip_waste gs = fs /\ rest = []
    | Some _ => strip_waste gs `prefix_of` fs
    end.
Proof.
  intros Hok Hc H. pose proof (fresh_carries c sp bf Hc) as H0. destruct e as [e|].
  - apply (run_ops_failed _ _ _ _ [] Hok H0) in H as (gs & gs' & Hff & Hcut).
    apply cut_short_parse in Hcut. destruct (parse _) as [hs rest] eqn:E.
    exists (gs ++ gs'). split; [done|]. simpl in Hcut. by apply prefix_app_r.
  - apply (run_ops_carries _ _ _ [] Hok H0) in H as (gs & Hff & Hcar).
    destruct (parse _) as [hs rest] eqn:E. exists gs. split; [done|]. intros Hb.
    apply carries_parse in Hcar as (hs' & Hp & Hs); [|done]. rewrite E in Hp. by simplify_eq.
Qed.

End channel.

(** The first packets of a client session: settings and SYN are buffered, the
    target address flushes them, and the default scheme pads the record. *)
Lemma peer_receives_witness :
  let ops := [(default_factory (fun _ => ""), WControl (Frame cmdSettings 0 [x76; x3d; x32]));
              (default_factory (fun _ => ""), WControl (Frame cmdSYN 1 []));
              (default_factory (fun _ => ""), WUnbuffer);
              (default_factory (fun _ => ""), WData 1 [x01; x02; x03])] in
  exists w' fs, run_ops (fun _ _ => 7) (client_writer plain_new) ops = (w', None) /\
    frames_for ops.*2 fs /\ strip_waste (parse (conn_wire (w_conn w'))).1 = fs.
Proof.
  intros ops. destruct (run_ops (fun _ _ => 7) (client_writer plain_new) ops) as [w' e] eqn:E.
  pose proof (peer_receives (fun _ _ => 7) plain_new true true ops w' e) as H.
  assert (e = None) as -> by (vm_compute in E; congruence).
  assert (buffer w' = []) as Hb by (vm_compute in E; by simplify_eq).
  destruct (parse (conn_wire (w_conn w'))) as [gs rest] eqn:Ep.
  destruct H as (fs & Hff & Hs); [|reflexivity|exact E|].
  - repeat constructor; try apply default_fits; vm_compute; congruence || done.
  - exists w', fs. split; [done|]. split; [done|]. rewrite Ep. exact (proj1 (Hs Hb)).
Defined.

Lemma writeDataFrame_correct_witness :
  exists w', writeDataFrame (fun _ _ => 0) (default_factory (fun _ => "")) (server_writer plain_new) 5 [x01; x02]
      = (w', 2, None) /\
    data_written (default_factory (fun _ => "")) 5 [] [x01; x02] (server_writer plain_new) w' 2 None.
Proof.
  eexists. split; [vm_compute; reflexivity|].
  eapply (writeDataFrame_correct (fun _ _ => 0)).
  - vm_compute. split; congruence.
  - intros H. discriminate H.
  - by apply fresh_carries.
  - vm_compute. reflexivity.
Defined.

(** ** Record sizes: what an observer of the connection sees *)

(** The lengths of the records for a payload of [t] bytes. *)
Fixpoint record_lens (sizes : list Z) (t : Z) : list Z :=
  match sizes with
  | [] => if t =? 0 then [] else [t]
  | l :: rest =>
      if l =? CheckMark then if t =? 0 then [] else record_lens rest t
      else if l <? t then l :: record_lens rest (t - l)
      else if 0 <? t then (if t + headerOverHeadSize <? l then l else t) :: record_lens rest 0
      else (l + headerOverHeadSize) :: record_lens rest 0
  end.

(** A connection on which writes succeed. *)
Definition healthy (c : PlainConn) : Prop := pc_open c = true /\ forall i, pc_fault c i = None.

Lemma healthy_write c b :
  healthy c -> exists c', plain_write c b = (c', len b, None) /\ healthy c' /\
    pc_writes c' = pc_writes c ++ [b].
Proof.
  intros [Ho Hf]. unfold plain_write. rewrite Ho, Hf. eexists. split; [done|].
  by split; [split|].
Qed.

Lemma len_waste_padding n : 0 <= n -> len (waste_padding n) = headerOverHeadSize + n.
Proof. intros. rewrite waste_padding_encode, len_encode by done. simpl. rewrite len_replicate. lia. Qed.

(** The loop followed by the write of what remains. *)
Definition pad_and_finish (sizes : list Z) (c : PlainConn) (n : Z) (b : bytes) : PlainConn :=
  match pad_loop plain_write sizes c n b with
  | (c', _, _, Some _) => c'
  | (c', _, b', None) => if len b' =? 0 then c' else fst (fst (plain_write c' b'))
  end.

Lemma pad_and_finish_lens sizes c n b :
  Forall size_ok sizes -> healthy c ->
  len <$> pc_writes (pad_and_finish sizes c n b) = (len <$> pc_writes c) ++ record_lens sizes (len b).
Proof.
  revert c n b. induction sizes as [|l rest IH]; intros c n b Hs Hc; unfold pad_and_finish; cbn [pad_loop record_lens].
  { destruct (len b =? 0); [by rewrite app_nil_r|].
    destruct (healthy_write c b Hc) as (c' & Hw & _ & Hws). rewrite Hw. simpl.
    by rewrite Hws, fmap_app. }
  inv Hs. assert (forall x c' k n' b', plain_write c x = (c', k, None) -> healthy c' ->
    pc_writes c' = pc_writes c ++ [x] ->
    len <$> pc_writes (pad_and_finish rest c' n' b') = (len <$> pc_writes c) ++ len x :: record_lens rest (len b')) as Hgo.
  { intros x c' k n' b' _ Hc' Hw. rewrite IH, Hw, fmap_app by done. by rewrite <- app_assoc. }
  destruct (Z.eqb_spec l CheckMark) as [->|Hl].
  { destruct (len b =? 0) eqn:E; [by rewrite E, app_nil_r|]. by apply IH. }
  assert (0 < l) by (match goal with Hl : size_ok l |- _ => destruct Hl; [done|lia] end).
  destruct (Z.ltb_spec l (len b)).
  { destruct (healthy_write c (slice_to l b) Hc) as (c' & Hw & Hc' & Hws). rewrite Hw.
    etrans; [by eapply (Hgo _ _ _ _ _ Hw)|]. rewrite len_slice_to, len_slice_from by lia. done. }
  destruct (Z.ltb_spec 0 (len b)).
  - set (pl := l - len b - headerOverHeadSize) in *.
    assert (len (if 0 <? pl then b ++ waste_padding pl else b) =
            (if len b + headerOverHeadSize <? l then l else len b)) as Hlen.
    { subst pl. destruct (Z.ltb_spec 0 (l - len b - headerOverHeadSize)).
      - rewrite len_app, len_waste_padding by lia. zcases.
      - zcases. }
    destruct (healthy_write c (if 0 <? pl then b ++ waste_padding pl else b) Hc) as (c' & Hw & Hc' & Hws).
    rewrite Hw, <- Hlen. by eapply (Hgo _ _ _ _ [] Hw).
  - destruct (healthy_write c (waste_padding l) Hc) as (c' & Hw & Hc' & Hws).
    rewrite Hw. etrans; [by eapply (Hgo _ _ _ _ [] Hw)|].
    rewrite len_waste_padding by lia. by rewrite Z.add_comm.
Qed.

Lemma pad_loop_healthy sizes c n b :
  healthy c -> exists c' n' b', pad_loop plain_write sizes c n b = (c', n', b', None) /\ healthy c'.
Proof.
  revert c n b. induction sizes as [|l rest IH]; intros c n b Hc; cbn [pad_loop]; [eauto|].
  repeat match goal with
  | |- context [if ?x then _ else _] => destruct x
  | |- context [plain_write c ?x] => destruct (healthy_write c x Hc) as (? & -> & ? & _)
  end; eauto.
Qed.

(** The records of a padded packet have the lengths the scheme dictates: a
    record is exactly as long as its scheme size while payload or room for a waste
    header remains, a record whose payload leaves no room for a waste frame is the
    payload alone, and a record of padding only is its scheme size plus the
    seven-byte frame header. *)
Theorem padded_record_lengths ent pf w b :
  let pkt := uint32 (pktCounter w + 1) in
  healthy (w_conn w) -> buffering w = false -> sendPadding w = true -> pkt < Stop pf ->
  scheme_between 1 maxUint16 pf = true ->
  let '(w', _, e) := doWriteConn ent pf w b false in
  e = None /\
  len <$> pc_writes (w_conn w') = (len <$> pc_writes (w_conn w)) ++
    record_lens (GenerateRecordPayloadSizes pf (ent pkt) pkt) (len (buffer w) + len b).
Proof.
  intros pkt Hc Hb Hsp Hpkt Hpf. unfold doWriteConn. rewrite Hb, flush_bytes, flush_buffer. simpl.
  rewrite Hsp. simpl. fold pkt. destruct (Z.ltb_spec pkt (Stop pf)); [|lia].
  set (sizes := GenerateRecordPayloadSizes pf (ent pkt) pkt).
  assert (Forall size_ok sizes) as Hs.
  { eapply Forall_impl; [by apply generate_between|]. unfold size_ok. simpl. intros. lia. }
  pose proof (pad_and_finish_lens sizes (w_conn w) 0 (buffer w ++ b) Hs Hc) as Hlens.
  rewrite len_app in Hlens. unfold pad_and_finish in Hlens.
  destruct (pad_loop_healthy sizes (w_conn w) 0 (buffer w ++ b) Hc) as (c' & n' & b' & Hl & Hc').
  change (write_fn_of false) with plain_write. rewrite Hl in *.
  destruct (len b' =? 0); [done|]. simpl in *.
  destruct (healthy_write c' b' Hc') as (c2 & Hw & _). rewrite Hw in *. done.
Qed.

(** Packet 2 of the default scheme with 600 bytes of payload and draws of 7: the
    payload ends in the second record, and the check mark stops the padding. *)
Lemma padded_record_lengths_witness :
  let pf := default_factory (fun _ => "") in
  let w := MkWriter plain_new true false [] 1 in
  let '(w', _, e) := doWriteConn (fun _ _ => 7) pf w (replicate 600 x41) false in
  len <$> pc_writes (w_conn w') = [407; 507].
Proof.
  pose proof (padded_record_lengths (fun _ _ => 7) (default_factory (fun _ => ""))
    (MkWriter plain_new true false [] 1) (replicate 600 x41)) as H.
  cbv zeta in *. destruct (doWriteConn _ _ _ _ _) as [[w' n] e].
  destruct H as [_ H]; [by split|done|done|vm_compute; done|apply default_fits|].
  rewrite H. vm_compute. reflexivity.
Defined.

(** ** Lengths that do not fit the frame header *)

Lemma read_frame_wrapped f rest :
  is_uint32 (sid f) -> carries_data (cmd f) = true ->
  let n := uint16 (len (data f)) in
  read_frame (encode f ++ rest) =
    Some (Frame (cmd f) (sid f) (slice_to n (data f)), slice_from n (data f) ++ rest).
Proof.
  intros Hs Hc n. pose proof (uint16_range (len (data f))) as Hn.
  assert (n <= len (data f)) as Hle
    by (subst n; unfold uint16; apply Z.mod_le; [apply len_nonneg|done]).
  unfold read_frame, encode. simpl. unfold Cmd, StreamID, Length. simpl.
  rewrite Hc, Uint32_Put, Uint16_Put by done. fold n.
  replace (data f ++ rest) with (slice_to n (data f) ++ (slice_from n (data f) ++ rest))
    by (rewrite app_assoc; f_equal; apply slice_to_from).
  assert (read_full n (slice_to n (data f) ++ slice_from n (data f) ++ rest) =
    Some (slice_to n (data f), slice_from n (data f) ++ rest)) as ->; [|done].
  rewrite <- (len_slice_to n (data f)) at 1 by (subst n; lia). apply read_full_app.
Qed.

(** [writeControlFrame] does not split: a frame whose payload is longer than
    65535 bytes is sent with a wrapped length, so the peer reads only the first
    [len mod 65536] bytes as its payload and takes the rest for further frames.
    The padding scheme the server pushes with cmdUpdatePaddingScheme, read from a
    file of any size, is such a payload. *)
Theorem oversized_control_frame_desync ent pf c f :
  healthy c -> is_uint32 (sid f) -> carries_data (cmd f) = true -> maxUint16 < len (data f) ->
  let n := uint16 (len (data f)) in
  let '(w', e) := control_write ent pf (server_writer c) f in
  exists tail, e = None /\ conn_wire (w_conn w') = conn_wire c ++ tail /\
    read_frame tail = Some (Frame (cmd f) (sid f) (slice_to n (data f)), slice_from n (data f)) /\
    slice_from n (data f) <> [].
Proof.
  intros Hc Hs Hcd Hlen n. unfold control_write, doWriteConn. fold (encode f). simpl.
  change (if 0 <? len [] then encode f else encode f) with (encode f).
  destruct (healthy_write c (encode f) Hc) as (c' & Hw & _ & Hws). rewrite Hw. simpl.
  exists (encode f). split_and!; [done|rewrite Hws; apply concat_snoc| |].
  - pose proof (read_frame_wrapped f [] Hs Hcd) as H. cbv zeta in H.
    rewrite !app_nil_r in H. exact H.
  - intros E. apply (f_equal len) in E. pose proof (uint16_range (len (data f))).
    rewrite len_slice_from in E by (subst n; lia). rewrite len_nil in E. subst n. lia.
Qed.

Lemma oversized_control_frame_desync_witness :
  let f := Frame cmdUpdatePaddingScheme 0 (replicate (Z.to_nat 65538) x30) in
  let '(w', e) := control_write (fun _ _ => 0) (default_factory (fun _ => "")) (server_writer plain_new) f in
  exists tail, e = None /\ conn_wire (w_conn w') = tail /\
    exists r, read_frame tail = Some (Frame cmdUpdatePaddingScheme 0 [x30; x30], r) /\ r <> [].
Proof.
  set (f := Frame _ _ _). cbv zeta.
  pose proof (oversized_control_frame_desync (fun _ _ => 0) (default_factory (fun _ => "")) plain_new f) as H.
  cbv zeta in H. destruct (control_write _ _ _ _) as [w' e].
  destruct H as (tail & ? & Hw & Hr & Hne).
  - by split.
  - vm_compute. split; congruence.
  - reflexivity.
  - unfold f. cbn [data]. rewrite len_replicate. vm_compute. reflexivity.
  - exists tail. split; [done|]. split; [done|]. eexists. split; [|exact Hne]. rewrite Hr.
    reflexivity.
Defined.

End WriteConn.
