(* ===== verification/Pipe.v ===== *)
(** * Pipe: the in-memory pipe between the receive loop and a stream's reader
      (proxy/pipe/deadline.go, proxy/pipe/io_pipe.go)

    [PipeDeadline] is the timer and the [cancel] channel of a deadline; times are
    integers and [Set] takes the current time.  A channel is an identity and
    whether it has been closed.

    The pipe is a step relation over reader, writer and closers.  A write first
    checks [done] and its deadline, then waits in its loop; a read and the waiting
    write meet on the unbuffered channels [wrCh] and [rdCh] in one step, which
    moves [min (len b) (len bw)] bytes.  The mutex [wrMu] admits one writer at a
    time.  Where a Go [select] has several ready cases each of them is a step. *)

From S2P Require Import Prelude.
#[local] Open Scope Z_scope.

Module Deadline.

(** [timer] is the expiry time of a running timer; [fired] says that the timer
    function has run since the timer was set. *)
Record PipeDeadline := MkDeadline {
  timer : option Z;
  fired : bool;
  cancel : nat;
  closed : bool
}.

Definition MakePipeDeadline : PipeDeadline :=
  {| timer := None; fired := false; cancel := 0; closed := false |}.

(** [make(chan struct{})] *)
Definition fresh_cancel (d : PipeDeadline) : PipeDeadline :=
  {| timer := timer d; fired := fired d; cancel := S (cancel d); closed := false |}.

(** [d.timer != nil && !d.timer.Stop()]: the timer function has already run, so
    receiving from [d.cancel] succeeds; otherwise the timer is stopped. *)
Definition stop_timer (d : PipeDeadline) : PipeDeadline :=
  {| timer := None; fired := false; cancel := cancel d; closed := closed d |}.

(** [Set(t)] at time [now]; [None] is the zero time. *)
Definition Set_ (d : PipeDeadline) (t : option Z) (now : Z) : PipeDeadline :=
  let d := stop_timer d in
  match t with
  | None => if closed d then fresh_cancel d else d
  | Some t =>
      if 0 <? t - now then
        let d := if closed d then fresh_cancel d else d in
        {| timer := Some t; fired := false; cancel := cancel d; closed := closed d |}
      else if closed d then d
      else {| timer := None; fired := false; cancel := cancel d; closed := true |}
  end.

(** The function passed to [time.AfterFunc]; [None] is the panic of closing a
    closed channel. *)
Definition fire (d : PipeDeadline) : option PipeDeadline :=
  match timer d with
  | Some t =>
      if fired d then None
      else if closed d then None
      else Some {| timer := Some t; fired := true; cancel := cancel d; closed := true |}
  | None => None
  end.

(** [Wait] returns the channel; receiving from it succeeds once it is closed. *)
Definition Wait (d : PipeDeadline) : nat * bool := (cancel d, closed d).

(** The steps of a deadline: a call of [Set], or the expiry of a running timer. *)
Inductive dstep : PipeDeadline -> PipeDeadline -> Prop :=
  | d_set d t now : dstep d (Set_ d t now)
  | d_fire d d' : fired d = false -> fire d = Some d' -> dstep d d'.

Definition reachable (d : PipeDeadline) : Prop := rtc dstep MakePipeDeadline d.

(** A timer that has not fired runs only while its channel is open, and one that
    has fired has closed it. *)
Record inv (d : PipeDeadline) : Prop := {
  inv_running : is_Some (timer d) -> fired d = false -> closed d = false;
  inv_fired : fired d = true -> closed d = true /\ is_Some (timer d)
}.

Lemma inv_step d d' : inv d -> dstep d d' -> inv d'.
Proof.
  intros [H1 H2] Hs. inv Hs as [? t now|? ? Hf Hd].
  - unfold Set_, stop_timer, fresh_cancel.
    destruct t as [t|]; repeat case_match; split; simpl in *; try congruence; by intros [].
  - unfold fire in Hd. repeat case_match; simplify_eq. by split; simpl.
Qed.

Lemma reachable_inv d : reachable d -> inv d.
Proof.
  unfold reachable. intros H. assert (inv MakePipeDeadline) as H0 by (split; simpl; [by intros []|done]).
  revert H0. induction H; eauto using inv_step.
Qed.

(** A deadline never closes its channel twice: whenever a running timer
    expires, whatever the sequence of [Set] calls and expiries before, its
    function finds the channel open and closes it. *)
Theorem timer_never_double_closes d :
  reachable d -> is_Some (timer d) -> fired d = false ->
  exists d', fire d = Some d' /\ Wait d' = (cancel d, true).
Proof.
  intros Hr [t Ht] Hf. destruct (reachable_inv d Hr) as [H1 _].
  unfold fire. rewrite Ht, Hf, H1 by (rewrite ?Ht; eauto). eauto.
Qed.

Lemma timer_never_double_closes_witness :
  exists d', fire (Set_ (Set_ MakePipeDeadline (Some 5) 9) (Some 30) 10) = Some d' /\ Wait d' = (1%nat, true).
Proof.
  apply timer_never_double_closes; [|eexists; reflexivity|reflexivity].
  eapply rtc_l; [apply (d_set _ (Some 5) 9)|]. apply rtc_once. apply d_set.
Defined.

(** [Set] puts the deadline where it was asked to: none or a future time
    leaves an open channel, with a running timer exactly in the second case, a
    time that has passed leaves a closed one; a channel that was still open stays
    the same channel, so waiters on it are not lost. *)
Theorem set_spec d t now :
  let d' := Set_ d t now in
  match t with
  | None => closed d' = false /\ timer d' = None
  | Some t => if now <? t then closed d' = false /\ timer d' = Some t
              else closed d' = true /\ timer d' = None
  end /\ fired d' = false /\ (closed d = false -> cancel d' = cancel d).
Proof.
  unfold Set_, stop_timer, fresh_cancel. simpl. destruct t as [t|].
  - destruct (Z.ltb_spec 0 (t - now)), (Z.ltb_spec now t), (closed d) eqn:E; simpl; try lia; auto;
      split_and!; auto; discriminate.
  - destruct (closed d) eqn:E; simpl; split_and!; auto; discriminate.
Qed.

End Deadline.

Module Pipe.
Import Deadline.

(** [onceError.Store]: only the first error is kept. *)
Definition once_store (cur : option goerror) (e : goerror) : option goerror :=
  match cur with Some _ => cur | None => Some e end.

(** A write that has passed its checks and holds [wrMu]: the unwritten rest of
    [b], the count [n], and the loop variable [once]. *)
Record wstate := MkWstate { wb : bytes; wn : Z; once : bool }.

Record pipe := MkPipe {
  done : bool;
  rerr : option goerror;
  werr : option goerror;
  readDeadline : PipeDeadline;
  writeDeadline : PipeDeadline;
  writing : option wstate
}.

Definition new_pipe : pipe :=
  {| done := false; rerr := None; werr := None; readDeadline := MakePipeDeadline;
     writeDeadline := MakePipeDeadline; writing := None |}.

Definition set_writing (p : pipe) (w : option wstate) : pipe :=
  {| done := done p; rerr := rerr p; werr := werr p; readDeadline := readDeadline p;
     writeDeadline := writeDeadline p; writing := w |}.

Definition readCloseError (p : pipe) : goerror :=
  match rerr p, werr p with
  | None, Some e => e
  | _, _ => ErrClosedPipe
  end.

Definition writeCloseError (p : pipe) : goerror :=
  match werr p, rerr p with
  | None, Some e => e
  | _, _ => ErrClosedPipe
  end.

(** [closeRead(err)]; a nil error becomes [io.ErrClosedPipe]. *)
Definition closeRead (p : pipe) (err : option goerror) : pipe :=
  {| done := true; rerr := once_store (rerr p) (default ErrClosedPipe err); werr := werr p;
     readDeadline := readDeadline p; writeDeadline := writeDeadline p; writing := writing p |}.

(** [closeWrite(err)]; a nil error becomes [io.EOF]. *)
Definition closeWrite (p : pipe) (err : option goerror) : pipe :=
  {| done := true; rerr := rerr p; werr := once_store (werr p) (default EOF err);
     readDeadline := readDeadline p; writeDeadline := writeDeadline p; writing := writing p |}.

(** [Close] and [CloseWithError] of the two halves; they always return nil. *)
Definition PipeReader_CloseWithError (p : pipe) (err : option goerror) : pipe := closeRead p err.
Definition PipeReader_Close (p : pipe) : pipe := PipeReader_CloseWithError p None.
Definition PipeWriter_CloseWithError (p : pipe) (err : option goerror) : pipe := closeWrite p err.
Definition PipeWriter_Close (p : pipe) : pipe := PipeWriter_CloseWithError p None.

(** The loop condition [once || len(b) > 0] of a write. *)
Definition wants_reader (w : wstate) : bool := once w || (0 <? len (wb w)).

(** The first [select] of [write]: the call returns at once, or the write starts. *)
Definition write_begin (p : pipe) (b : bytes) : (Z * goerror) + pipe :=
  if done p then inl (0, writeCloseError p)
  else if closed (writeDeadline p) then inl (0, ErrDeadlineExceeded)
  else inr (set_writing p (Some (MkWstate b 0 true))).

(** The first [select] of [read]. *)
Definition read_begin (p : pipe) : option goerror :=
  if done p then Some (readCloseError p)
  else if closed (readDeadline p) then Some ErrDeadlineExceeded
  else None.

(** Reader and writer meet: [copy(b, bw)] into a buffer of [k] bytes, the count
    sent back on [rdCh]. *)
Definition transfer (w : wstate) (k : nat) : bytes * wstate :=
  let nr := take k (wb w) in
  (nr, MkWstate (drop (length nr) (wb w)) (wn w + len nr) false).

Definition SetReadDeadline (p : pipe) (t : option Z) (now : Z) : pipe * option goerror :=
  if done p then (p, Some ErrClosedPipe)
  else ({| done := done p; rerr := rerr p; werr := werr p; readDeadline := Set_ (readDeadline p) t now;
           writeDeadline := writeDeadline p; writing := writing p |}, None).

Definition SetWriteDeadline (p : pipe) (t : option Z) (now : Z) : pipe * option goerror :=
  if done p then (p, Some ErrClosedPipe)
  else ({| done := done p; rerr := rerr p; werr := werr p; readDeadline := readDeadline p;
           writeDeadline := Set_ (writeDeadline p) t now; writing := writing p |}, None).

(** What the outside sees of a pipe. *)
Inductive event :=
  | EvRead (d : bytes)                         (** a read returned [d], nil *)
  | EvReadErr (e : goerror)                    (** a read returned 0 and an error *)
  | EvWriteStart (b : bytes)                   (** a write of [b] began *)
  | EvWriteRet (n : Z) (e : option goerror)    (** the write in progress returned *)
  | EvWriteRefused (e : goerror)               (** a write returned 0 at its first check *)
  | EvClose                                    (** one half was closed *)
  | EvDeadline.                                (** a deadline was set or expired *)

(** A reader and a writer that both passed their first check may still meet when the pipe has been
    closed since. *)
Inductive step : pipe -> event -> pipe -> Prop :=
  | s_write_start p b p' :
      writing p = None -> write_begin p b = inr p' -> step p (EvWriteStart b) p'
  | s_write_refused p b n e :
      write_begin p b = inl (n, e) -> step p (EvWriteRefused e) p
  | s_transfer p w k d w' :
      writing p = Some w -> wants_reader w = true ->
      transfer w k = (d, w') -> step p (EvRead d) (set_writing p (Some w'))
  | s_write_done p w :
      writing p = Some w -> wants_reader w = false ->
      step p (EvWriteRet (wn w) None) (set_writing p None)
  | s_write_closed p w :
      writing p = Some w -> wants_reader w = true -> done p = true ->
      step p (EvWriteRet (wn w) (Some (writeCloseError p))) (set_writing p None)
  | s_write_deadline p w :
      writing p = Some w -> wants_reader w = true -> closed (writeDeadline p) = true ->
      step p (EvWriteRet (wn w) (Some ErrDeadlineExceeded)) (set_writing p None)
  | s_read_err p e :
      read_begin p = Some e -> step p (EvReadErr e) p
  | s_read_deadline p :
      closed (readDeadline p) = true -> step p (EvReadErr ErrDeadlineExceeded) p
  | s_closeRead p err : step p EvClose (closeRead p err)
  | s_closeWrite p err : step p EvClose (closeWrite p err)
  | s_SetReadDeadline p t now : step p EvDeadline (SetReadDeadline p t now).1
  | s_SetWriteDeadline p t now : step p EvDeadline (SetWriteDeadline p t now).1
  | s_read_fire p d' : fire (readDeadline p) = Some d' ->
      step p EvDeadline {| done := done p; rerr := rerr p; werr := werr p; readDeadline := d';
                           writeDeadline := writeDeadline p; writing := writing p |}
  | s_write_fire p d' : fire (writeDeadline p) = Some d' ->
      step p EvDeadline {| done := done p; rerr := rerr p; werr := werr p; readDeadline := readDeadline p;
                           writeDeadline := d'; writing := writing p |}.

(** Closing a half again changes nothing the other half can see. *)
Lemma close_first_error p e1 e2 :
  writeCloseError (PipeReader_CloseWithError (PipeReader_CloseWithError p e1) e2) = writeCloseError (PipeReader_CloseWithError p e1) /\
  readCloseError (PipeWriter_CloseWithError (PipeWriter_CloseWithError p e1) e2) = readCloseError (PipeWriter_CloseWithError p e1).
Proof.
  unfold writeCloseError, readCloseError. simpl. by destruct (rerr p), (werr p), e1.
Qed.

(** Runs of a pipe from its creation, with the trace of events. *)
Inductive run : list event -> pipe -> Prop :=
  | run_nil : run [] new_pipe
  | run_snoc tr p ev p' : run tr p -> step p ev p' -> run (tr ++ [ev]) p'.

(** ** What goes in comes out *)

(** All bytes the reads of a trace returned. *)
Definition bytes_read (tr : list event) : bytes :=
  concat (map (fun ev => match ev with EvRead d => d | _ => [] end) tr).

(** The bytes the writes of a trace accepted, and the write still running: a
    write that returned [n] accepted the first [n] bytes of its argument. *)
Definition account (st : bytes * option bytes) (ev : event) : bytes * option bytes :=
  match ev, st with
  | EvWriteStart b, (acc, _) => (acc, Some b)
  | EvWriteRet n _, (acc, Some b) => (acc ++ slice_to n b, None)
  | _, _ => st
  end.

Definition bytes_written (tr : list event) : bytes * option bytes := foldl account ([], None) tr.

Lemma bytes_read_snoc tr ev :
  bytes_read (tr ++ [ev]) = bytes_read tr ++ match ev with EvRead d => d | _ => [] end.
Proof. unfold bytes_read. rewrite map_app, concat_app. simpl. by rewrite app_nil_r. Qed.

Lemma bytes_written_snoc tr ev : bytes_written (tr ++ [ev]) = account (bytes_written tr) ev.
Proof. unfold bytes_written. by rewrite foldl_app. Qed.

Lemma wants_reader_false w : wants_reader w = false -> wb w = [].
Proof.
  unfold wants_reader. intros [_ Hz%Z.ltb_ge]%orb_false_iff.
  apply len_zero_nil. pose proof (len_nonneg (wb w)). lia.
Qed.

Lemma transfer_splits w k : (transfer w k).1 ++ wb (transfer w k).2 = wb w.
Proof.
  simpl. rewrite length_take. etrans; [|apply (take_drop k)]. f_equal.
  destruct (decide (k <= length (wb w))%nat); [by rewrite Nat.min_l|].
  rewrite !drop_ge by lia. done.
Qed.

(** The accounts of a run: between writes, reads have returned exactly the bytes
    accepted; during a write also the part of it consumed so far. *)
Definition balanced (tr : list event) (p : pipe) : Prop :=
  match writing p with
  | None => bytes_written tr = (bytes_read tr, None)
  | Some w => exists acc c, bytes_written tr = (acc, Some (c ++ wb w)) /\
      bytes_read tr = acc ++ c /\ wn w = len c
  end.

Lemma balanced_same tr p p' ev :
  balanced tr p -> writing p' = writing p -> account (bytes_written tr) ev = bytes_written tr ->
  (match ev with EvRead d => d | _ => [] end) = [] -> balanced (tr ++ [ev]) p'.
Proof.
  unfold balanced. intros H -> Ha Hr.
  by rewrite bytes_written_snoc, bytes_read_snoc, Ha, Hr, app_nil_r.
Qed.

Lemma balanced_ret tr p w e :
  balanced tr p -> writing p = Some w -> balanced (tr ++ [EvWriteRet (wn w) e]) (set_writing p None).
Proof.
  unfold balanced. intros H Hw. rewrite Hw in H. destruct H as (acc & c & Hb & Hr & Hn).
  simpl. rewrite bytes_written_snoc, bytes_read_snoc, Hb, Hr, app_nil_r. simpl.
  by rewrite slice_to_app.
Qed.

Lemma run_balanced tr p : run tr p -> balanced tr p.
Proof.
  induction 1 as [|tr p ev p' _ IH Hs]; [done|].
  inv Hs; try (eapply balanced_same; [done| |by destruct (bytes_written tr)|done]; done);
    try (by eapply balanced_ret).
  - unfold write_begin in *. repeat case_match; simplify_eq.
    unfold balanced in *. simpl. rewrite H in IH.
    exists (bytes_read tr), []. rewrite bytes_written_snoc, bytes_read_snoc, IH. simpl.
    by rewrite app_nil_r.
  - unfold balanced in *. rewrite H in IH. destruct IH as (acc & c & Hb & Hr & Hn).
    pose proof (transfer_splits w k) as Hs. rewrite H1 in Hs. simpl in Hs.
    assert (wn w' = wn w + len d) as Hn' by (unfold transfer in H1; by simplify_eq/=).
    simpl. exists acc, (c ++ d).
    rewrite bytes_written_snoc, bytes_read_snoc, Hb, Hr, len_app, Hn', Hn, <- !app_assoc, Hs. done.
  - eapply balanced_same; [done| |by destruct (bytes_written tr)|done].
    unfold SetReadDeadline. by destruct (done p).
  - eapply balanced_same; [done| |by destruct (bytes_written tr)|done].
    unfold SetWriteDeadline. by destruct (done p).
Qed.

(** C18.  The pipe neither loses, duplicates nor reorders bytes: in every
    interleaving of reads of any sizes, writes, closes and deadlines, whenever no
    write is in progress the bytes returned by all reads are exactly the bytes
    accepted by all writes, in order. *)
Theorem pipe_fifo tr p :
  run tr p -> writing p = None -> bytes_written tr = (bytes_read tr, None).
Proof. intros H%run_balanced Hw. unfold balanced in H. by rewrite Hw in H. Qed.

(** A write reports success exactly when a reader has taken all of its bytes;
    if it fails, the count it returns is the number of bytes read of it. *)
Theorem write_return_accurate tr p n e p' :
  run tr p -> step p (EvWriteRet n e) p' ->
  exists b acc, bytes_written tr = (acc, Some b) /\ 0 <= n <= len b /\
    bytes_read tr = acc ++ slice_to n b /\ (e = None -> n = len b).
Proof.
  intros H%run_balanced Hs.
  assert (exists w, writing p = Some w /\ n = wn w /\ (e = None -> wb w = [])) as (w & Hw & -> & He).
  { inv Hs; eexists; (split; [done|]); split; try done. intros _.
    by apply wants_reader_false. }
  unfold balanced in H. rewrite Hw in H. destruct H as (acc & c & Hb & Hr & Hn).
  exists (c ++ wb w), acc. pose proof (len_nonneg (wb w)). pose proof (len_nonneg c).
  rewrite len_app, slice_to_app by done. split_and!; [done|lia|lia|done|].
  intros ->%He. rewrite len_nil. lia.
Qed.

(** A run: a write of three bytes, two reads that take it, and its return. *)
Definition sample_write : wstate := MkWstate [x01; x02; x03] 0 true.

Lemma sample_run :
  run [EvWriteStart [x01; x02; x03]; EvRead [x01; x02]; EvRead [x03]]
      (set_writing new_pipe (Some (MkWstate [] 3 false))).
Proof.
  apply (run_snoc [EvWriteStart [x01; x02; x03]; EvRead [x01; x02]]
    (set_writing new_pipe (Some (MkWstate [x03] 2 false)))).
  - apply (run_snoc [EvWriteStart [x01; x02; x03]] (set_writing new_pipe (Some sample_write))).
    + apply (run_snoc [] new_pipe); [constructor|]. by apply s_write_start.
    + by eapply (s_transfer (set_writing new_pipe (Some sample_write)) sample_write 2).
  - by eapply (s_transfer (set_writing new_pipe (Some (MkWstate [x03] 2 false))) (MkWstate [x03] 2 false) 4).
Qed.

Lemma pipe_fifo_witness :
  bytes_written ([EvWriteStart [x01; x02; x03]; EvRead [x01; x02]; EvRead [x03]] ++ [EvWriteRet 3 None]) =
    ([x01; x02; x03], None).
Proof.
  apply (pipe_fifo ([EvWriteStart [x01; x02; x03]; EvRead [x01; x02]; EvRead [x03]] ++ [EvWriteRet 3 None])
           (set_writing new_pipe None)); [|reflexivity].
  eapply run_snoc; [apply sample_run|]. by apply (s_write_done (set_writing new_pipe (Some (MkWstate [] 3 false))) (MkWstate [] 3 false)).
Defined.

Lemma write_return_accurate_witness :
  exists b acc, bytes_written [EvWriteStart [x01; x02; x03]; EvRead [x01; x02]; EvRead [x03]] = (acc, Some b) /\
    0 <= 3 <= len b /\
    bytes_read [EvWriteStart [x01; x02; x03]; EvRead [x01; x02]; EvRead [x03]] = acc ++ slice_to 3 b /\
    (@None goerror = None -> 3 = len b).
Proof.
  eapply write_return_accurate; [apply sample_run|].
  by apply (s_write_done (set_writing new_pipe (Some (MkWstate [] 3 false))) (MkWstate [] 3 false)).
Defined.

(** ** Closing *)

(** What closing leaves behind in every later state. *)
Record closed_with (re we : option goerror) (p : pipe) : Prop := {
  cw_done : done p = true;
  cw_rerr : forall e, re = Some e -> rerr p = Some e;
  cw_werr : forall e, we = Some e -> werr p = Some e
}.

Lemma closed_with_step re we p ev p' : closed_with re we p -> step p ev p' -> closed_with re we p'.
Proof.
  intros [Hd Hr Hw] Hs. unfold once_store in *.
  inv Hs; try done; try (by split; simpl; auto); try (unfold write_begin in *; by rewrite Hd in *).
  - split; simpl; auto. intros e He. unfold once_store. by rewrite (Hr e He).
  - split; simpl; auto. intros e He. unfold once_store. by rewrite (Hw e He).
  - unfold SetReadDeadline. rewrite Hd. by split.
  - unfold SetWriteDeadline. rewrite Hd. by split.
Qed.

(** Closing is final and its first error sticks: once the reader has been
    closed with an error, whatever happens afterwards (including further closes of
    either half) every new write is refused with that error unless the writer had
    also been closed, and every new read fails. *)
Theorem close_read_final p err p' :
  rerr p = None -> rtc (fun q q' => exists ev, step q ev q') (closeRead p err) p' ->
  (forall b, exists e, write_begin p' b = inl (0, e) /\
    (werr p' = None -> e = default ErrClosedPipe err)) /\
  read_begin p' = Some ErrClosedPipe /\ done p' = true.
Proof.
  intros Hn Hs.
  assert (closed_with (Some (default ErrClosedPipe err)) None p') as [Hd Hr _].
  { assert (closed_with (Some (default ErrClosedPipe err)) None (closeRead p err)) as H0.
    { split; simpl; [done| |done]. intros e [= <-]. unfold once_store. by rewrite Hn. }
    revert H0. induction Hs as [|? ? ? [ev Hev] _ IH]; [done|].
    intros H0. eapply IH, closed_with_step; done. }
  specialize (Hr _ eq_refl). split; [|split; [|done]].
  - intros b. unfold write_begin, writeCloseError. rewrite Hd, Hr.
    eexists. split; [done|]. by intros ->.
  - unfold read_begin, readCloseError. rewrite Hd, Hr. done.
Qed.

Lemma close_read_final_witness :
  (forall b, exists e, write_begin (closeWrite (closeRead new_pipe (Some ErrCanceled)) None) b = inl (0, e) /\
    (Some EOF = None -> e = ErrCanceled)) /\
  read_begin (closeWrite (closeRead new_pipe (Some ErrCanceled)) None) = Some ErrClosedPipe /\ true = true.
Proof.
  apply (close_read_final new_pipe (Some ErrCanceled)); [reflexivity|].
  apply rtc_once. eexists. apply s_closeWrite.
Defined.

(** ** Progress *)

(** A reader that keeps reading with a buffer of [k] bytes. *)
Fixpoint drain (fuel : nat) (k : nat) (w : wstate) : list bytes * wstate :=
  if wants_reader w then
    match fuel with
    | O => ([], w)
    | S fuel => let '(d, w') := transfer w k in
                let '(ds, w'') := drain fuel k w' in (d :: ds, w'')
    end
  else ([], w).

Lemma transfer_shrinks w k :
  (0 < k)%nat -> wb w <> [] -> (length (wb (transfer w k).2) < length (wb w))%nat.
Proof.
  intros Hk Hne. simpl. rewrite length_drop, length_take. destruct (wb w); [done|]. simpl. lia.
Qed.

Lemma drain_complete fuel k w :
  (0 < k)%nat -> (length (wb w) <= fuel)%nat -> (once w = true -> length (wb w) < fuel)%nat ->
  let '(ds, w') := drain fuel k w in
  concat ds = wb w /\ wants_reader w' = false /\ wn w' = wn w + len (wb w).
Proof.
  intros Hk. revert w. induction fuel as [|fuel IH]; intros w Hlen Ho; cbn [drain];
    destruct (wants_reader w) eqn:Hw.
  1: { exfalso. unfold wants_reader in Hw. destruct (once w); [lia|].
       destruct (wb w); simpl in *; [done|lia]. }
  2: { pose proof (transfer_splits w k) as Hs. pose proof (transfer_shrinks w k Hk) as Hsh.
       destruct (transfer w k) as [d w1] eqn:Ht.
       assert (once w1 = false /\ wn w1 = wn w + len d) as [Ho1 Hn1]
         by (unfold transfer in Ht; by simplify_eq/=).
       specialize (IH w1). destruct (drain fuel k w1) as [ds w2].
       simpl in Hs, Hsh. destruct IH as (Hc & Hwr & Hn).
       - destruct (decide (wb w = [])) as [E|E].
         + rewrite E in Hs. apply app_eq_nil in Hs as [_ ->]. simpl. lia.
         + specialize (Hsh E). lia.
       - by rewrite Ho1.
       - simpl. rewrite Hc, Hs, Hn, Hn1, <- Hs, len_app. split_and!; [done|done|lia]. }
  all: rewrite (wants_reader_false w Hw), len_nil; split_and!; [done|done|lia].
Qed.

(** A reader that keeps reading with a non-empty buffer finishes every write:
    the pieces it gets are the written bytes, the write returns nil with the full
    length, and no more reads are needed than the length plus one. *)
Theorem write_finishes b k :
  (0 < k)%nat ->
  let '(ds, w') := drain (S (length b)) k (MkWstate b 0 true) in
  concat ds = b /\ wants_reader w' = false /\ wn w' = len b.
Proof.
  intros Hk. pose proof (drain_complete (S (length b)) k (MkWstate b 0 true) Hk) as H.
  destruct (drain _ _ _) as [ds w']. simpl in H. destruct H as (? & ? & ->); [lia|lia|]. done.
Qed.

Lemma write_finishes_witness :
  let '(ds, w') := drain 4 2 (MkWstate [x01; x02; x03] 0 true) in
  concat ds = [x01; x02; x03] /\ wants_reader w' = false /\ wn w' = 3.
Proof. apply (write_finishes [x01; x02; x03] 2). lia. Defined.

End Pipe.
