(* ===== verification/Session.v ===== *)
(** * Session: streams multiplexed over one connection
      (proxy/session/session.go, proxy/session/stream.go)

    A [Session] holds the writer of WriteConn.v, the bytes the peer has sent and
    that are still unread, the stream table and the version, settings and SYN
    timer state.  Streams are heap objects ([objs], addressed by index): the table
    maps a stream id to its object, and the handler goroutine keeps the object
    after the table has dropped it.  Each operation of the source is one function
    on the session state; a run interleaves them in any order, one operation at a
    time (the locks of the source make the table and the connection consistent,
    and claims here are about states between operations).

    A write into a stream's pipe blocks the receive loop until the reader has
    taken the data; [pc] says whether the loop is between frames, in such a write,
    or has returned.  Callbacks ([dieHook] of session and streams, the goroutine
    started for a new stream) are recorded in [hooks] and [spawned]. *)

From S2P Require Import Prelude GoStrings StringMap Frame Padding NetConn WriteConn Pipe.
#[local] Open Scope string_scope.
#[local] Open Scope Z_scope.

Module Session.
Import Frame Padding WriteConn.

Definition maxServerStreams : Z := 1024.

(** Byte counts of a [TrafficCounter]: sent by the client, sent to the client. *)
Record Counter := MkCounter { tx : Z; rx : Z }.

Definition AddTx (n : Z) (c : Counter) : Counter := MkCounter (tx c + n) (rx c).
Definition AddRx (n : Z) (c : Counter) : Counter := MkCounter (tx c) (rx c + n).

Record Stream := MkStream {
  st_id : Z;
  st_pipe : Pipe.pipe;
  writeDeadline : Deadline.PipeDeadline;
  died : bool;                  (** [dieOnce] has run *)
  dieErr : option goerror;
  reported : bool;              (** [reportOnce] has run *)
  st_counter : option Counter;
  CountIdentity : bool
}.

Definition newStream (id : Z) : Stream :=
  {| st_id := id; st_pipe := Pipe.new_pipe; writeDeadline := Deadline.MakePipeDeadline;
     died := false; dieErr := None; reported := false; st_counter := None; CountIdentity := false |}.

Definition set_pipe (st : Stream) (p : Pipe.pipe) : Stream :=
  {| st_id := st_id st; st_pipe := p; writeDeadline := writeDeadline st; died := died st;
     dieErr := dieErr st; reported := reported st; st_counter := st_counter st;
     CountIdentity := CountIdentity st |}.

Definition set_counter (st : Stream) (c : option Counter) : Stream :=
  {| st_id := st_id st; st_pipe := st_pipe st; writeDeadline := writeDeadline st; died := died st;
     dieErr := dieErr st; reported := reported st; st_counter := c; CountIdentity := CountIdentity st |}.

Definition set_reported (st : Stream) : Stream :=
  {| st_id := st_id st; st_pipe := st_pipe st; writeDeadline := writeDeadline st; died := died st;
     dieErr := dieErr st; reported := true; st_counter := st_counter st;
     CountIdentity := CountIdentity st |}.

(** The function run by [dieOnce]: [dieErr.Store(err); pipeR.Close()]. *)
Definition kill (st : Stream) (err : goerror) : Stream :=
  {| st_id := st_id st; st_pipe := Pipe.closeRead (st_pipe st) None; writeDeadline := writeDeadline st;
     died := true; dieErr := Some err; reported := reported st; st_counter := st_counter st;
     CountIdentity := CountIdentity st |}.

(** Where the receive loop is. *)
Inductive recv_pc :=
  | Reading                     (** about to read a header *)
  | Payload (h : rawHeader)     (** in [io.ReadFull] of the data of header [h] *)
  | Piping (o : nat)            (** inside [stream.pipeW.Write] of object [o] *)
  | Returned.

(** Callbacks that have run. *)
Inductive hook :=
  | HookSession                 (** [s.dieHook] *)
  | HookStream (o : nat).       (** [stream.dieHook] of object [o] *)

Record Session (C : Type) := MkSession {
  w : Writer C;
  inp : bytes;
  pc : recv_pc;
  receivedSettings : bool;
  streams : gmap Z nat;
  objs : list Stream;
  streamId : Z;
  die : bool;
  synDone : bool;               (** a SYN deadline watcher is armed *)
  peerVersion : Z;
  isClient : bool;
  padding : PaddingFactory;
  identity : option Counter;
  spawned : list nat;           (** goroutines started by [acceptStream] *)
  hooks : list hook;
  openCalls : gmap nat (Z * bool)   (** calls of [OpenStream] that have sent their SYN *)
}.
Arguments MkSession {C}.
Arguments w {C}.
Arguments inp {C}.
Arguments pc {C}.
Arguments receivedSettings {C}.
Arguments streams {C}.
Arguments objs {C}.
Arguments streamId {C}.
Arguments die {C}.
Arguments synDone {C}.
Arguments peerVersion {C}.
Arguments isClient {C}.
Arguments padding {C}.
Arguments identity {C}.
Arguments spawned {C}.
Arguments hooks {C}.
Arguments openCalls {C}.

Section ops.
Context {C : Type} `{!NetConn C}.
Variable ent : Z -> nat -> Z.
Variable md5hex : bytes -> string.
Variable clientDebugPaddingScheme : bool.
Variable ProgramVersionName : string.

Implicit Types s : Session C.

(** ** Field updates *)

Definition set_w s x : Session C :=
  MkSession x (inp s) (pc s) (receivedSettings s) (streams s) (objs s) (streamId s) (die s) (synDone s)
    (peerVersion s) (isClient s) (padding s) (identity s) (spawned s) (hooks s) (openCalls s).
Definition set_inp s x : Session C :=
  MkSession (w s) x (pc s) (receivedSettings s) (streams s) (objs s) (streamId s) (die s) (synDone s)
    (peerVersion s) (isClient s) (padding s) (identity s) (spawned s) (hooks s) (openCalls s).
Definition set_pc s x : Session C :=
  MkSession (w s) (inp s) x (receivedSettings s) (streams s) (objs s) (streamId s) (die s) (synDone s)
    (peerVersion s) (isClient s) (padding s) (identity s) (spawned s) (hooks s) (openCalls s).
Definition set_receivedSettings s x : Session C :=
  MkSession (w s) (inp s) (pc s) x (streams s) (objs s) (streamId s) (die s) (synDone s)
    (peerVersion s) (isClient s) (padding s) (identity s) (spawned s) (hooks s) (openCalls s).
Definition set_streams s x : Session C :=
  MkSession (w s) (inp s) (pc s) (receivedSettings s) x (objs s) (streamId s) (die s) (synDone s)
    (peerVersion s) (isClient s) (padding s) (identity s) (spawned s) (hooks s) (openCalls s).
Definition set_objs s x : Session C :=
  MkSession (w s) (inp s) (pc s) (receivedSettings s) (streams s) x (streamId s) (die s) (synDone s)
    (peerVersion s) (isClient s) (padding s) (identity s) (spawned s) (hooks s) (openCalls s).
Definition set_streamId s x : Session C :=
  MkSession (w s) (inp s) (pc s) (receivedSettings s) (streams s) (objs s) x (die s) (synDone s)
    (peerVersion s) (isClient s) (padding s) (identity s) (spawned s) (hooks s) (openCalls s).
Definition set_die s x : Session C :=
  MkSession (w s) (inp s) (pc s) (receivedSettings s) (streams s) (objs s) (streamId s) x (synDone s)
    (peerVersion s) (isClient s) (padding s) (identity s) (spawned s) (hooks s) (openCalls s).
Definition set_synDone s x : Session C :=
  MkSession (w s) (inp s) (pc s) (receivedSettings s) (streams s) (objs s) (streamId s) (die s) x
    (peerVersion s) (isClient s) (padding s) (identity s) (spawned s) (hooks s) (openCalls s).
Definition set_peerVersion s x : Session C :=
  MkSession (w s) (inp s) (pc s) (receivedSettings s) (streams s) (objs s) (streamId s) (die s) (synDone s)
    x (isClient s) (padding s) (identity s) (spawned s) (hooks s) (openCalls s).
Definition set_padding s x : Session C :=
  MkSession (w s) (inp s) (pc s) (receivedSettings s) (streams s) (objs s) (streamId s) (die s) (synDone s)
    (peerVersion s) (isClient s) x (identity s) (spawned s) (hooks s) (openCalls s).
Definition set_identity s x : Session C :=
  MkSession (w s) (inp s) (pc s) (receivedSettings s) (streams s) (objs s) (streamId s) (die s) (synDone s)
    (peerVersion s) (isClient s) (padding s) x (spawned s) (hooks s) (openCalls s).
Definition add_spawned s o : Session C :=
  MkSession (w s) (inp s) (pc s) (receivedSettings s) (streams s) (objs s) (streamId s) (die s) (synDone s)
    (peerVersion s) (isClient s) (padding s) (identity s) (spawned s ++ [o]) (hooks s) (openCalls s).
Definition add_hook s h : Session C :=
  MkSession (w s) (inp s) (pc s) (receivedSettings s) (streams s) (objs s) (streamId s) (die s) (synDone s)
    (peerVersion s) (isClient s) (padding s) (identity s) (spawned s) (hooks s ++ [h]) (openCalls s).
Definition set_openCalls s x : Session C :=
  MkSession (w s) (inp s) (pc s) (receivedSettings s) (streams s) (objs s) (streamId s) (die s) (synDone s)
    (peerVersion s) (isClient s) (padding s) (identity s) (spawned s) (hooks s) x.

(** Allocates a stream object. *)
Definition alloc s (st : Stream) : Session C * nat := (set_objs s (objs s ++ [st]), length (objs s)).

Definition update_obj s (o : nat) (f : Stream -> Stream) : Session C :=
  set_objs s (alter f o (objs s)).

(** ** Construction *)

Definition NewClientSession (conn : C) (pf : PaddingFactory) (input : bytes) : Session C :=
  MkSession (MkWriter conn true false [] 0) input Returned false ∅ [] 0 false false 0 true pf None [] [] ∅.

Definition NewServerSession (conn : C) (pf : PaddingFactory) (input : bytes) : Session C :=
  MkSession (MkWriter conn false false [] 0) input Returned false ∅ [] 0 false false 0 false pf None [] [] ∅.

(** ** Closing *)

Definition closeLocally s (o : nat) : Session C :=
  match objs s !! o with
  | Some st =>
      if died st then s
      else add_hook (update_obj s o (fun st => kill st ErrNetClosed)) (HookStream o)
  | None => s
  end.

Definition Close s : Session C * option goerror :=
  if die s then (s, Some ErrClosedPipe)
  else
    let s := add_hook (set_die s true) HookSession in
    let s := foldl closeLocally s (map snd (map_to_list (streams s))) in
    let s := set_streams s ∅ in
    (set_w s (set_conn (w s) (conn_close (w_conn (w s)))), None).

(** ** Writing frames *)

Definition writeControlFrame s (f : frame) : Session C * option goerror :=
  let '(w', e) := control_write ent (padding s) (w s) f in
  let s := set_w s w' in
  match e with
  | Some e => ((Close s).1, Some e)
  | None => (s, None)
  end.

(** ** Opening and accepting streams *)

(** The first part of [OpenStream], up to its SYN; it gives the id and the object. *)
Definition open_SYN s : Session C * (Z * nat + goerror) :=
  if die s then (s, inr ErrClosedPipe)
  else
    let id := uint32 (streamId s + 1) in
    let s := set_streamId s id in
    let '(s, o) := alloc s (newStream id) in
    let s := if (2 <=? id) && (2 <=? peerVersion s) then set_synDone s true else s in
    match writeControlFrame s (newFrame cmdSYN id) with
    | (s, Some e) => (s, inr e)
    | (s, None) => (s, inl (id, o))
    end.

(** [s.buffering = false] under [connLock]. *)
Definition open_unbuffer s : Session C :=
  set_w s (MkWriter (w_conn (w s)) (sendPadding (w s)) false (buffer (w s)) (pktCounter (w s))).

(** The last part, under [streamLock]. *)
Definition open_register s (id : Z) (o : nat) : Session C * (nat + goerror) :=
  if die s then (s, inr ErrClosedPipe) else (set_streams s (<[id := o]> (streams s)), inl o).

Definition OpenStream s : Session C * (nat + goerror) :=
  match open_SYN s with
  | (s, inr e) => (s, inr e)
  | (s, inl (id, o)) => open_register (open_unbuffer s) id o
  end.

(** A call of [OpenStream] that other goroutines may interrupt between its parts:
    it starts, and goes on. *)
Definition open_start s : Session C :=
  match open_SYN s with
  | (s, inr _) => s
  | (s, inl (id, o)) => set_openCalls s (<[o := (id, false)]> (openCalls s))
  end.

Definition open_next s (o : nat) : Session C :=
  match openCalls s !! o with
  | Some (id, false) => set_openCalls (open_unbuffer s) (<[o := (id, true)]> (openCalls s))
  | Some (id, true) => set_openCalls (open_register s id o).1 (delete o (openCalls s))
  | None => s
  end.

(** The watcher armed by [OpenStream] closes the session after three seconds
    without an answer. *)
Definition synTimeout s : Session C := if synDone s then (Close s).1 else s.

Definition acceptStream s (id : Z) : Session C * bool :=
  match streams s !! id with
  | Some _ => (s, true)
  | None =>
      if negb (isClient s) && (maxServerStreams <=? Z.of_nat (size (streams s))) then (s, false)
      else
        let '(s, o) := alloc s (newStream id) in
        let s := set_streams s (<[id := o]> (streams s)) in
        (add_spawned s o, true)
  end.

Definition refuseStream s (id : Z) : Session C * option goerror :=
  let f := if 2 <=? peerVersion s then Frame cmdSYNACK id (to_bytes "too many streams")
           else newFrame cmdFIN id in
  writeControlFrame s f.

Definition streamClosed s (id : Z) : Session C * option goerror :=
  if die s then (s, Some ErrClosedPipe)
  else
    let '(s, e) := writeControlFrame s (newFrame cmdFIN id) in
    (set_streams s (delete id (streams s)), e).

Definition closeWithError s (o : nat) (err : goerror) : Session C * option goerror :=
  match objs s !! o with
  | Some st =>
      if died st then (s, dieErr st)
      else
        let s := update_obj s o (fun st => kill st err) in
        let '(s, e) := streamClosed s (st_id st) in
        (add_hook s (HookStream o), e)
  | None => (s, None)
  end.

(** [Stream.Close] *)
Definition stream_Close s (o : nat) : Session C * option goerror := closeWithError s o ErrClosedPipe.

(** ** Stream data *)

Definition count_tx s (o : nat) (n : Z) : Session C :=
  match objs s !! o with
  | Some st =>
      let s := if CountIdentity st then set_identity s (option_map (AddTx n) (identity s)) else s in
      update_obj s o (fun st => set_counter st (option_map (AddTx n) (st_counter st)))
  | None => s
  end.

Definition count_rx s (o : nat) (n : Z) : Session C :=
  match objs s !! o with
  | Some st =>
      let s := if CountIdentity st then set_identity s (option_map (AddRx n) (identity s)) else s in
      update_obj s o (fun st => set_counter st (option_map (AddRx n) (st_counter st)))
  | None => s
  end.

(** [Stream.Read] into a buffer of [k] bytes; [None] while the call blocks. *)
Definition stream_Read s (o : nat) (k : nat) : option (Session C * bytes * option goerror) :=
  match objs s !! o with
  | None => None
  | Some st =>
      match Pipe.read_begin (st_pipe st) with
      | Some e =>
          Some (s, [], match dieErr st with Some de => Some de | None => Some e end)
      | None =>
          match Pipe.writing (st_pipe st) with
          | Some ws =>
              if Pipe.wants_reader ws then
                let '(d, ws') := Pipe.transfer ws k in
                let s := update_obj s o (fun st => set_pipe st (Pipe.set_writing (st_pipe st) (Some ws'))) in
                let s := if 0 <? len d then count_tx s o (len d) else s in
                Some (s, d, if (len d =? 0) then dieErr st else None)
              else None
          | None => None
          end
      end
  end.

(** [Stream.Write] *)
Definition stream_Write s (o : nat) (b : bytes) : Session C * Z * option goerror :=
  match objs s !! o with
  | None => (s, 0, None)
  | Some st =>
      if Deadline.closed (writeDeadline st) then (s, 0, Some ErrDeadlineExceeded)
      else match dieErr st with
           | Some de => (s, 0, Some de)
           | None =>
               let '(w', n, e) := writeDataFrame ent (padding s) (w s) (st_id st) b in
               let s := set_w s w' in
               ((if 0 <? n then count_rx s o n else s), n, e)
           end
  end.

(** [err] is the text of the error, [None] for nil. *)
Definition HandshakeFailure s (o : nat) (err : option string) : Session C * option goerror :=
  match objs s !! o with
  | None => (s, None)
  | Some st =>
      let once := negb (reported st) in
      let s := update_obj s o set_reported in
      match err with
      | Some text =>
          if once && (2 <=? peerVersion s) then
            writeControlFrame s (Frame cmdSYNACK (st_id st) (to_bytes text))
          else (s, None)
      | None => (s, None)
      end
  end.

Definition HandshakeSuccess s (o : nat) : Session C * option goerror :=
  match objs s !! o with
  | None => (s, None)
  | Some st =>
      let once := negb (reported st) in
      let s := update_obj s o set_reported in
      if once && (2 <=? peerVersion s) then writeControlFrame s (newFrame cmdSYNACK (st_id st))
      else (s, None)
  end.

Definition stream_SetReadDeadline s (o : nat) (t : option Z) (now : Z) : Session C * option goerror :=
  match objs s !! o with
  | None => (s, None)
  | Some st =>
      let '(p, e) := Pipe.SetReadDeadline (st_pipe st) t now in
      (update_obj s o (fun st => set_pipe st p), e)
  end.

Definition set_writeDeadline (st : Stream) (d : Deadline.PipeDeadline) : Stream :=
  {| st_id := st_id st; st_pipe := st_pipe st; writeDeadline := d; died := died st;
     dieErr := dieErr st; reported := reported st; st_counter := st_counter st;
     CountIdentity := CountIdentity st |}.

Definition stream_SetWriteDeadline s (o : nat) (t : option Z) (now : Z) : Session C * option goerror :=
  (update_obj s o (fun st => set_writeDeadline st (Deadline.Set_ (writeDeadline st) t now)), None).

(** ** The receive loop *)

(** What one turn of the loop does: go on, or return with an error value. *)
Abbreviation turn := (Session C * option (option goerror))%type.

Definition go_on (s : Session C) : turn := (s, None).
Definition return_ (s : Session C) (e : option goerror) : turn := (s, Some e).

Definition recv_PSH (s : Session C) (id : Z) (d : bytes) : turn :=
  match streams s !! id with
  | Some o =>
      match objs s !! o with
      | Some st =>
          match Pipe.write_begin (st_pipe st) d with
          | inl _ => go_on s
          | inr p => go_on (set_pc (update_obj s o (fun st => set_pipe st p)) (Piping o))
          end
      | None => go_on s
      end
  | None => go_on s
  end.

Definition recv_SYN (s : Session C) (id : Z) : turn :=
  if negb (isClient s) && negb (receivedSettings s) then
    let '(s, _) := writeControlFrame s (Frame cmdAlert 0 (to_bytes "client did not send its settings")) in
    return_ s None
  else
    match acceptStream s id with
    | (s, true) => go_on s
    | (s, false) =>
        match refuseStream s id with
        | (s, Some e) => return_ s (Some e)
        | (s, None) => go_on s
        end
    end.

Definition recv_SYNACK (s : Session C) (id : Z) (d : bytes) : turn :=
  match streams s !! id with
  | Some o => go_on (closeWithError s o (ErrRemote (of_bytes d))).1
  | None => go_on s
  end.

Definition recv_FIN (s : Session C) (id : Z) : turn :=
  let stream := streams s !! id in
  let s := set_streams s (delete id (streams s)) in
  match stream with
  | Some o => go_on (closeLocally s o)
  | None => go_on s
  end.

(** The client's version: 2 or more is stored and answered with the settings of
    the server. *)
Definition check_version (s : Session C) (v : string) : turn :=
  match Atoi v with
  | Some v =>
      if 2 <=? v then
        let s := set_peerVersion s (uint32 v) in
        match writeControlFrame s (Frame cmdServerSettings 0 (StringMap.ToBytes [("v", "2")])) with
        | (s, Some e) => return_ s (Some e)
        | (s, None) => go_on s
        end
      else go_on s
  | None => go_on s
  end.

Definition recv_Settings (s : Session C) (d : bytes) : turn :=
  if isClient s then go_on s
  else
    let s := set_receivedSettings s true in
    let m := StringMap.StringMapFromBytes d in
    let paddingF := padding s in
    if String.eqb (get_or_zero m "padding-md5") (Md5 paddingF) then check_version s (get_or_zero m "v")
    else
      match writeControlFrame s (Frame cmdUpdatePaddingScheme 0 (RawScheme paddingF)) with
      | (s, Some e) => return_ s (Some e)
      | (s, None) => check_version s (get_or_zero m "v")
      end.

Definition recv_UpdatePaddingScheme (s : Session C) (raw : bytes) : turn :=
  if isClient s && negb clientDebugPaddingScheme then
    match UpdatePaddingScheme md5hex (Some (padding s)) raw with
    | (Some p, _) => go_on (set_padding s p)
    | (None, _) => go_on s
    end
  else go_on s.

Definition recv_HeartRequest (s : Session C) (id : Z) : turn :=
  match writeControlFrame s (newFrame cmdHeartResponse id) with
  | (s, Some e) => return_ s (Some e)
  | (s, None) => go_on s
  end.

Definition recv_ServerSettings (s : Session C) (d : bytes) : turn :=
  if isClient s then
    match Atoi (get_or_zero (StringMap.StringMapFromBytes d) "v") with
    | Some v => if 0 <=? v then go_on (set_peerVersion s (uint32 v)) else go_on s
    | None => go_on s
    end
  else go_on s.

(** Commands whose data is read; only they enter [if hdr.Length() > 0 { ... }]. *)
Definition has_payload (h : rawHeader) : bool := carries_data (Cmd h) && (0 <? Length h).

(** The [switch hdr.Cmd()] of the loop up to the point where the data of the
    frame is read: a SYNACK cancels the SYN watcher, a frame with data waits for
    it, the others are handled. *)
Definition on_header (s : Session C) (h : rawHeader) : turn :=
  let c := Cmd h in
  let s := if bool_decide (c = cmdSYNACK) then set_synDone s false else s in
  if has_payload h then go_on (set_pc s (Payload h))
  else if bool_decide (c = cmdSYN) then recv_SYN s (StreamID h)
  else if bool_decide (c = cmdFIN) then recv_FIN s (StreamID h)
  else if bool_decide (c = cmdHeartRequest) then recv_HeartRequest s (StreamID h)
  else go_on s.

(** The rest of the [switch] once the data has been read. *)
Definition on_payload (s : Session C) (h : rawHeader) (d : bytes) : turn :=
  let c := Cmd h in
  let id := StreamID h in
  if bool_decide (c = cmdPSH) then recv_PSH s id d
  else if bool_decide (c = cmdSYNACK) then recv_SYNACK s id d
  else if bool_decide (c = cmdWaste) then go_on s
  else if bool_decide (c = cmdSettings) then recv_Settings s d
  else if bool_decide (c = cmdAlert) then return_ s None
  else if bool_decide (c = cmdUpdatePaddingScheme) then recv_UpdatePaddingScheme s d
  else if bool_decide (c = cmdServerSettings) then recv_ServerSettings s d
  else go_on s.

(** [defer s.Close()] when the loop returns. *)
Definition finish (s : Session C) : Session C := set_pc (Close s).1 Returned.

(** The top of the loop: [if s.IsClosed() { return }].  This is the only place where the
    loop looks at [die]; from there it reads a header and, for some, data, and handles
    the frame even if the session is closed in the meantime. *)
Definition loop_top (s : Session C) : Session C :=
  match pc s with
  | Reading => if die s then finish s else s
  | _ => s
  end.

Definition end_turn (t : turn) : Session C :=
  match t with
  | (s, None) => loop_top s
  | (s, Some _) => finish s
  end.

(** The loop goes on from where it stands, as far as the bytes received allow;
    it does not move while it waits for more of them.  In [Piping] it goes on once
    the pipe write has returned, because the reader took everything or the stream
    was closed. *)
Definition recv_step (s : Session C) : Session C :=
  match pc s with
  | Returned => s
  | Piping o =>
      match objs s !! o with
      | Some st =>
          match Pipe.writing (st_pipe st) with
          | Some ws =>
              if negb (Pipe.wants_reader ws) || Pipe.done (st_pipe st) then
                loop_top (set_pc (update_obj s o (fun st => set_pipe st (Pipe.set_writing (st_pipe st) None))) Reading)
              else s
          | None => loop_top (set_pc s Reading)
          end
      | None => loop_top (set_pc s Reading)
      end
  | Reading =>
      match read_header (inp s) with
      | Some (h, r) => end_turn (on_header (set_inp s r) h)
      | None => s
      end
  | Payload h =>
      match read_full (Length h) (inp s) with
      | Some (d, r) => end_turn (on_payload (set_pc (set_inp s r) Reading) h d)
      | None => s
      end
  end.

(** [io.ReadFull] fails: the peer closed the connection, it broke, or the session was
    closed. *)
Definition recv_error (s : Session C) : Session C :=
  match pc s with
  | Reading | Payload _ => finish s
  | _ => s
  end.

(** [Run]: a server session runs the loop in the calling goroutine; a client
    session first queues its settings, printed in the order [order]. *)
Definition Run (s : Session C) (order : list (string * string)) : Session C :=
  if isClient s then
    let s := set_w s (MkWriter (w_conn (w s)) (sendPadding (w s)) true (buffer (w s)) (pktCounter (w s))) in
    let s := (writeControlFrame s (Frame cmdSettings 0 (StringMap.ToBytes order))).1 in
    loop_top (set_pc s Reading)
  else loop_top (set_pc s Reading).

(** The settings map of a client. *)
Definition client_settings (s : Session C) : gmap string string :=
  <["v" := "2"]> (<["client" := ProgramVersionName]> (<["padding-md5" := Md5 (padding s)]> ∅)).

(** ** Runs of a session *)

(** The operations that change a session, in any order: turns of the receive
    loop, bytes arriving from the peer, calls of the stream and session methods,
    the SYN watcher, and the goroutine of an accepted stream on a session without
    a handler.  [OpOpen] starts a call of [OpenStream] and two [OpOpenNext] end it.  The
    padding scheme is a variable that all sessions of a program share: [OpScheme] is an
    update of it by another session. *)
Inductive op :=
  | OpArrive (d : bytes)
  | OpRecv
  | OpReadError
  | OpOpen
  | OpOpenNext (o : nat)
  | OpScheme (p : PaddingFactory)
  | OpClose
  | OpSynTimeout
  | OpStreamClose (o : nat)
  | OpStreamRead (o : nat) (k : nat)
  | OpStreamWrite (o : nat) (b : bytes)
  | OpSuccess (o : nat)
  | OpFailure (o : nat) (err : option string)
  | OpReadDeadline (o : nat) (t : option Z) (now : Z)
  | OpWriteDeadline (o : nat) (t : option Z) (now : Z).

Definition op_stream (a : op) : option nat :=
  match a with
  | OpStreamClose o | OpStreamRead o _ | OpStreamWrite o _ | OpSuccess o | OpFailure o _
  | OpReadDeadline o _ _ | OpWriteDeadline o _ _ => Some o
  | _ => None
  end.

(** Nobody has a stream before the call of [OpenStream] that makes it has returned. *)
Definition held (s : Session C) (a : op) : bool :=
  match op_stream a with Some o => bool_decide (is_Some (openCalls s !! o)) | None => false end.

Definition run_op (s : Session C) (a : op) : Session C :=
  match a with
  | OpArrive d => set_inp s (inp s ++ d)
  | OpRecv => recv_step s
  | OpReadError => recv_error s
  | OpOpen => open_start s
  | OpOpenNext o => open_next s o
  | OpScheme p => set_padding s p
  | OpClose => (Close s).1
  | OpSynTimeout => synTimeout s
  | OpStreamClose o => (stream_Close s o).1
  | OpStreamRead o k => match stream_Read s o k with Some (s', _, _) => s' | None => s end
  | OpStreamWrite o b => (stream_Write s o b).1.1
  | OpSuccess o => (HandshakeSuccess s o).1
  | OpFailure o err => (HandshakeFailure s o err).1
  | OpReadDeadline o t now => (stream_SetReadDeadline s o t now).1
  | OpWriteDeadline o t now => (stream_SetWriteDeadline s o t now).1
  end.

Definition exec (s : Session C) (a : op) : Session C := if held s a then s else run_op s a.

Definition exec_all (s : Session C) (l : list op) : Session C := foldl exec s l.

End ops.

(** ** Well-formed sessions *)

#[export] Instance hook_eq_dec : EqDecision hook.
Proof. solve_decision. Defined.

#[export] Instance factory_eq_dec : EqDecision PaddingFactory.
Proof. solve_decision. Defined.

#[export] Instance op_eq_dec : EqDecision op.
Proof. solve_decision. Defined.

(** How often a callback has run. *)
Definition fired (h : hook) (l : list hook) : nat := length (filter (fun x => x = h) l).

(** A stream is dead in all its parts or in none. *)
Record stream_ok (st : Stream) : Prop := {
  so_err : dieErr st <> None <-> died st = true;
  so_pipe : Pipe.done (st_pipe st) = died st
}.

(** A callback that a close in progress still has to run. *)
Definition owed (pend : option nat) (o : nat) : nat := if decide (pend = Some o) then 1 else 0.

(** The stream objects, their callbacks and the position of the receive loop:
    each callback runs exactly once, when its stream or session dies. *)
Record heap_ok {C} (pend : option nat) (s : Session C) : Prop := {
  ho_stream o st : objs s !! o = Some st -> stream_ok st;
  ho_hook o st : objs s !! o = Some st ->
    (fired (HookStream o) (hooks s) + owed pend o)%nat = if died st then 1%nat else 0%nat;
  ho_fresh o : objs s !! o = None -> (fired (HookStream o) (hooks s) + owed pend o)%nat = 0%nat;
  ho_session : fired HookSession (hooks s) = if die s then 1%nat else 0%nat;
  ho_pc o : pc s = Piping o -> exists st ws, objs s !! o = Some st /\ Pipe.writing (st_pipe st) = Some ws
}.

(** The table maps an id to a live stream object with this id.  A call of [OpenStream] that
    is under way has a live object that is in no entry of the table.  A closed session has a
    closed connection; its table is empty, except that the frame the loop was
    reading when the session was closed may register one stream (or leave it there after its
    end) before the loop returns. *)
Record session_ok {C} `{!NetConn C} (s : Session C) : Prop := {
  ok_heap : heap_ok None s;
  ok_table id o : streams s !! id = Some o ->
    exists st, objs s !! o = Some st /\ st_id st = id /\ (die s = false -> died st = false);
  ok_open o id b : openCalls s !! o = Some (id, b) ->
    (exists st, objs s !! o = Some st /\ st_id st = id /\ died st = false) /\ forall i, streams s !! i <> Some o;
  ok_die : die s = true ->
    conn_open (w_conn (w s)) = false /\ (size (streams s) <= 1)%nat /\ (pc s <> Returned -> streams s = ∅)
}.

(** While the loop runs the streams of the table are alive. *)
Lemma ok_live {C} `{!NetConn C} (s : Session C) id o :
  session_ok s -> pc s <> Returned -> streams s !! id = Some o ->
  exists st, objs s !! o = Some st /\ st_id st = id /\ died st = false.
Proof.
  intros Hs Hpc Hl. destruct (ok_table s Hs id o Hl) as (st & Ho & Hid & Hd). exists st. split_and!; try done. apply Hd.
  destruct (die s) eqn:E; [|done]. destruct (ok_die s Hs E) as (_ & _ & Ht). by rewrite (Ht Hpc), lookup_empty in Hl.
Qed.

Lemma fired_snoc h l x : fired h (l ++ [x]) = (fired h l + if decide (x = h) then 1 else 0)%nat.
Proof.
  unfold fired. rewrite filter_app, length_app. f_equal. simpl. rewrite filter_cons. by case_decide.
Qed.

Section inv.
Context {C : Type} `{!NetConn C, !NetConnLaws C}.
Variable ent : Z -> nat -> Z.
Variable md5hex : bytes -> string.
Variable clientDebugPaddingScheme : bool.
Implicit Types s : Session C.

(** *** Updates of stream objects *)

Definition benign s (o : nat) (f : Stream -> Stream) : Prop :=
  forall st, objs s !! o = Some st -> st_id (f st) = st_id st /\ died (f st) = died st /\ dieErr (f st) = dieErr st /\
    Pipe.done (st_pipe (f st)) = Pipe.done (st_pipe st) /\
    (pc s = Piping o -> Pipe.writing (st_pipe st) <> None -> Pipe.writing (st_pipe (f st)) <> None).

Lemma lookup_update_obj s o f i :
  objs (update_obj s o f) !! i = if decide (o = i) then f <$> objs s !! i else objs s !! i.
Proof.
  simpl. rewrite list_lookup_alter. by case_decide; subst.
Qed.

Lemma update_obj_heap p s o f : benign s o f -> heap_ok p s -> heap_ok p (update_obj s o f).
Proof.
  intros Hf [H1 H2 H3 H4 H5]. split; try done.
  - intros i st. rewrite lookup_update_obj. case_decide; [subst|by apply H1].
    intros (st0 & Hl & ->)%fmap_Some. destruct (Hf st0 Hl) as (_ & Hd & He & Hp & _).
    destruct (H1 _ _ Hl). split; congruence.
  - intros i st. rewrite lookup_update_obj. case_decide; [subst|by apply H2].
    intros (st0 & Hl & ->)%fmap_Some. destruct (Hf st0 Hl) as (_ & -> & _). by apply H2.
  - intros i. rewrite lookup_update_obj. intros Hl. apply H3. case_decide; [|done].
    by destruct (objs s !! i).
  - intros i Hpc. destruct (H5 i Hpc) as (st & ws & Hl & Hw). rewrite lookup_update_obj.
    case_decide; [subst|by eauto]. rewrite Hl. simpl.
    destruct (Hf st Hl) as (_ & _ & _ & _ & Hwr). rewrite Hw in Hwr.
    specialize (Hwr Hpc).
    destruct (Pipe.writing (st_pipe (f st))) eqn:E; [by eauto|].
    exfalso. by apply Hwr.
Qed.

Lemma update_obj_ok s o f : benign s o f -> session_ok s -> session_ok (update_obj s o f).
Proof.
  intros Hf [Hh Ht Hop Hd]. split; [by apply update_obj_heap| | |done].
  - intros id i Hl. destruct (Ht id i Hl) as (st & Ho & Hid & Hdd). rewrite lookup_update_obj, Ho.
    case_decide; [subst|by exists st]. destruct (Hf st Ho) as (? & E & _).
    exists (f st). split_and!; [done|congruence|]. by rewrite E.
  - intros i id b Hl. destruct (Hop i id b Hl) as [(st & Ho & Hid & Hdd) Hn]. split; [|done]. rewrite lookup_update_obj, Ho.
    case_decide; [subst|by exists st]. destruct (Hf st Ho) as (? & ? & _).
    exists (f st). split_and!; try done; congruence.
Qed.

(** *** Closing *)

(** Closing streams changes the objects and runs callbacks, nothing else. *)
Definition with_heap s (os : list Stream) (hs : list hook) : Session C :=
  MkSession (w s) (inp s) (pc s) (receivedSettings s) (streams s) os (streamId s) (die s) (synDone s)
    (peerVersion s) (isClient s) (padding s) (identity s) (spawned s) hs (openCalls s).

Lemma closeLocally_shape s o : exists os hs, closeLocally s o = with_heap s os hs.
Proof. unfold closeLocally. destruct s. repeat case_match; by eexists _, _. Qed.

Lemma foldl_closeLocally_shape s l : exists os hs, foldl closeLocally s l = with_heap s os hs.
Proof.
  revert s. induction l as [|o l IH]; intros s; [destruct s; by eexists _, _|]. simpl.
  destruct (closeLocally_shape s o) as (os & hs & ->). destruct (IH (with_heap s os hs)) as (os' & hs' & ->).
  by eexists _, _.
Qed.

(** The session [Close] leaves behind. *)
Definition closed_session s (os : list Stream) (hs : list hook) : Session C :=
  MkSession (set_conn (w s) (conn_close (w_conn (w s)))) (inp s) (pc s) (receivedSettings s) ∅ os
    (streamId s) true (synDone s) (peerVersion s) (isClient s) (padding s) (identity s) (spawned s) hs (openCalls s).

Lemma closeLocally_heap p s o : heap_ok p s -> heap_ok p (closeLocally s o).
Proof.
  intros [H1 H2 H3 H4 H5]. unfold closeLocally. destruct (objs s !! o) as [st|] eqn:Ho; [|done].
  destruct (died st) eqn:Hd; [done|].
  set (f := fun st => kill st ErrNetClosed).
  assert (forall i, objs (add_hook (update_obj s o f) (HookStream o)) !! i =
    if decide (o = i) then f <$> objs s !! i else objs s !! i) as Hl by (intros; apply lookup_update_obj).
  split.
  - intros i sti. rewrite Hl. case_decide; [|by apply H1].
    intros (st0 & _ & ->)%fmap_Some. by split.
  - intros i sti. rewrite Hl. simpl. rewrite fired_snoc. case_decide; subst.
    + intros (st0 & Hl0 & ->)%fmap_Some. rewrite decide_True by done. pose proof (H2 _ _ Hl0) as Hf.
      simplify_eq. rewrite Hd in Hf. simpl. lia.
    + intros Hi. rewrite decide_False by congruence. rewrite <- (H2 _ _ Hi). lia.
  - intros i. rewrite Hl. simpl. rewrite fired_snoc. intros Hi. case_decide; subst.
    + by rewrite Ho in Hi.
    + rewrite decide_False by congruence. pose proof (H3 i Hi). lia.
  - simpl. rewrite fired_snoc. rewrite H4. by destruct (die s).
  - intros i Hpc. destruct (H5 i Hpc) as (sti & ws & Hi & Hw). rewrite Hl, Hi.
    case_decide; simpl; eauto.
Qed.

Lemma foldl_closeLocally_heap p s l : heap_ok p s -> heap_ok p (foldl closeLocally s l).
Proof. revert s. induction l as [|o l IH]; intros s H; [done|]. by apply IH, closeLocally_heap. Qed.

(** Other objects stay as they are. *)
Lemma closeLocally_other s o i : o <> i -> objs (closeLocally s o) !! i = objs s !! i.
Proof.
  intros Hne. unfold closeLocally. destruct (objs s !! o) as [st|]; [|done]. destruct (died st); [done|].
  change (objs (update_obj s o (fun st => kill st ErrNetClosed)) !! i = objs s !! i). by rewrite lookup_update_obj, decide_False.
Qed.

Lemma foldl_closeLocally_other s l i : i ∉ l -> objs (foldl closeLocally s l) !! i = objs s !! i.
Proof.
  revert s. induction l as [|o l IH]; intros s Hi; [done|]. apply not_elem_of_cons in Hi as [Hne Hi]. simpl.
  by rewrite IH, closeLocally_other by (done || congruence).
Qed.

Lemma Close_shape p s :
  die s = false -> heap_ok p s ->
  exists os hs, Close s = (closed_session s os hs, None) /\ heap_ok p (closed_session s os hs) /\
    forall i, (forall id, streams s !! id <> Some i) -> os !! i = objs s !! i.
Proof.
  intros Hd [H1 H2 H3 H4 H5]. unfold Close. rewrite Hd.
  set (s0 := add_hook (set_die s true) HookSession). set (l := map snd _).
  assert (heap_ok p s0) as H0.
  { subst s0. split; simpl; try done.
    - intros o st Ho. rewrite fired_snoc, <- (H2 _ _ Ho). case_decide; [done|lia].
    - intros o Ho. rewrite fired_snoc. pose proof (H3 _ Ho). case_decide; [done|lia].
    - rewrite fired_snoc, H4, Hd. by rewrite decide_True. }
  assert (forall i, (forall id, streams s !! id <> Some i) -> objs (foldl closeLocally s0 l) !! i = objs s !! i) as Hother.
  { intros i Hi. rewrite foldl_closeLocally_other; [done|]. subst l. intros ([id o] & -> & Hin)%list_elem_of_fmap.
    apply (Hi id). by apply elem_of_map_to_list in Hin. }
  apply (foldl_closeLocally_heap p s0 l) in H0.
  destruct (foldl_closeLocally_shape s0 l) as (os & hs & E). rewrite E in H0, Hother |- *.
  exists os, hs. split_and!; [done| |done]. destruct H0. by split.
Qed.

(** Calls of [OpenStream] that are under way. *)
Definition open_ok s : Prop := forall o id b, openCalls s !! o = Some (id, b) ->
  (exists st, objs s !! o = Some st /\ st_id st = id /\ died st = false) /\ forall i, streams s !! i <> Some o.

Lemma closed_session_ok s os hs :
  heap_ok None (closed_session s os hs) -> open_ok s -> (forall i, (forall id, streams s !! id <> Some i) -> os !! i = objs s !! i) ->
  session_ok (closed_session s os hs).
Proof.
  intros H Hop Ho. split; [done|..].
  - intros id o. simpl. by rewrite lookup_empty.
  - intros o id b. simpl. intros Hl. destruct (Hop o id b Hl) as [Hst Hn]. split; [by rewrite Ho|]. intros i. by rewrite lookup_empty.
  - intros _. simpl. rewrite map_size_empty. split_and!; [apply law_close|lia|done].
Qed.

Lemma Close_ok s : session_ok s -> session_ok (Close s).1.
Proof.
  intros Hs. destruct (die s) eqn:Hd.
  - unfold Close. by rewrite Hd.
  - destruct (Close_shape None s Hd (ok_heap s Hs)) as (os & hs & -> & Hh & Ho). apply closed_session_ok; [done|exact (ok_open s Hs)|done].
Qed.

Lemma Close_fields s :
  let s' := (Close s).1 in
  die s' = true /\ pc s' = pc s /\ inp s' = inp s /\ receivedSettings s' = receivedSettings s /\
  isClient s' = isClient s /\ peerVersion s' = peerVersion s /\ padding s' = padding s /\
  streamId s' = streamId s /\ (die s = false -> streams s' = ∅).
Proof.
  unfold Close. destruct (die s) eqn:Hd; [done|].
  destruct (foldl_closeLocally_shape (add_hook (set_die s true) HookSession)
    (map snd (map_to_list (streams (add_hook (set_die s true) HookSession))))) as (os & hs & ->).
  done.
Qed.

(** *** Writing on a closed connection *)

(** The writer has a closed connection that has carried the bytes [x]. *)
Definition sealed (x : bytes) (wr : Writer C) : Prop :=
  conn_open (w_conn wr) = false /\ conn_wire (w_conn wr) = x.

Lemma pad_loop_sealed wf sizes c n b c' n' b' e :
  write_contract wf -> conn_open c = false -> pad_loop wf sizes c n b = (c', n', b', e) ->
  conn_open c' = false /\ conn_wire c' = conn_wire c.
Proof.
  intros [_ _ Hc]. revert c n b. induction sizes as [|l rest IH]; intros c n b Ho; simpl; [by intros [= <-]|].
  repeat case_match; intros ?; simplify_eq; eauto;
    match goal with H : wf _ _ = _ |- _ => destruct (Hc _ _ _ _ _ Ho H) as (Hw & Ho' & _) end;
    first [by split | rewrite <- Hw; eauto].
Qed.

Lemma doWriteConn_sealed x pf wr b byp w' n e :
  sealed x wr -> doWriteConn ent pf wr b byp = (w', n, e) -> sealed x w'.
Proof.
  unfold sealed, doWriteConn. intros [Ho Hx] H. pose proof (write_fn_of_contract byp) as Hwc.
  repeat case_match; simplify_eq/=; try done;
    repeat match goal with
    | H : pad_loop _ _ _ _ _ = _ |- _ => apply (pad_loop_sealed _ _ _ _ _ _ _ _ _ Hwc) in H as [? ?]; [|done]
    | H : write_fn_of _ _ _ = _ |- _ => apply (wc_closed _ Hwc) in H as (? & ? & ?); [|done]
    end; split; congruence.
Qed.

Lemma control_write_sealed x pf wr f w' e :
  sealed x wr -> control_write ent pf wr f = (w', e) -> sealed x w'.
Proof.
  unfold control_write. intros Hs H. destruct conn_wait as [wt|] eqn:Hwt.
  - destruct (wt _ _) as [c' [e'|]] eqn:E; destruct (law_wait _ _ _ _ _ Hwt E) as [H1 H2].
    + simplify_eq. destruct Hs. split; simpl; congruence.
    + destruct (doWriteConn _ _ _ _ _) as [[w1 n] e1] eqn:Ew. simplify_eq.
      eapply doWriteConn_sealed; [|done]. destruct Hs. split; simpl; congruence.
  - destruct (doWriteConn _ _ _ _ _) as [[w1 n] e1] eqn:Ew. simplify_eq. by eapply doWriteConn_sealed.
Qed.

Lemma writeDataLoop_sealed x fuel pf wr id d k w' n e :
  sealed x wr -> writeDataLoop ent fuel pf wr id d k = (w', n, e) -> sealed x w'.
Proof.
  revert wr d k. induction fuel as [|fuel IH]; intros wr d k Hs; simpl;
    unfold writeDataChunk at 1, writeConn; destruct (doWriteConn _ _ _ _ _) as [[w1 n1] e1] eqn:E;
    apply (doWriteConn_sealed x) in E; try done; intros; repeat case_match; simplify_eq; eauto.
Qed.

(** *** Writing frames *)

Lemma set_w_ok s w' :
  (die s = true -> conn_open (w_conn w') = false) -> session_ok s -> session_ok (set_w s w').
Proof.
  intros Hw [[] Ht Hop Hd]. split; [by split|done|done|]. intros H. split; [by apply Hw|by apply Hd].
Qed.

Lemma ok_sealed s : session_ok s -> die s = true -> sealed (conn_wire (w_conn (w s))) (w s).
Proof. intros [_ _ _ Hd] H. by split; [apply Hd|]. Qed.

Lemma writeControlFrame_ok s f : session_ok s -> session_ok (writeControlFrame ent s f).1.
Proof.
  intros Hs. unfold writeControlFrame. destruct (control_write _ _ _ _) as [w' e] eqn:E.
  assert (session_ok (set_w s w')) as Hs'.
  { apply set_w_ok; [|done]. intros Hd. eapply control_write_sealed in E as [? _]; [done|by apply ok_sealed]. }
  destruct e; [by apply Close_ok|done].
Qed.

(** *** Closing one stream *)

Lemma kill_heap s o st err :
  heap_ok None s -> objs s !! o = Some st -> died st = false ->
  heap_ok (Some o) (update_obj s o (fun st => kill st err)).
Proof.
  intros [H1 H2 H3 H4 H5] Ho Hd. split; try done.
  - intros i sti. rewrite lookup_update_obj. case_decide; [|by apply H1].
    intros (st0 & _ & ->)%fmap_Some. by split.
  - intros i sti. rewrite lookup_update_obj. unfold owed. case_decide; subst.
    + intros (st0 & Hl & ->)%fmap_Some. pose proof (H2 _ _ Hl) as Hf. simplify_eq.
      rewrite Hd in Hf. rewrite decide_True by done. simpl in *. lia.
    + intros Hi. rewrite decide_False by congruence. by rewrite <- (H2 _ _ Hi).
  - intros i. rewrite lookup_update_obj. unfold owed. intros Hi. case_decide; subst.
    + by rewrite Ho in Hi.
    + rewrite decide_False by congruence. apply (H3 i Hi).
  - intros i Hpc. destruct (H5 i Hpc) as (sti & ws & Hi & Hw). rewrite lookup_update_obj, Hi.
    case_decide; simpl; eauto.
Qed.

Lemma pay_hook s o : heap_ok (Some o) s -> heap_ok None (add_hook s (HookStream o)).
Proof.
  intros [H1 H2 H3 H4 H5]. split; try done.
  - intros i st Hi. simpl. rewrite fired_snoc, <- (H2 i st Hi). unfold owed.
    repeat case_decide; simplify_eq; lia.
  - intros i Hi. simpl. rewrite fired_snoc, <- Nat.add_assoc. pose proof (H3 i Hi) as Hf. unfold owed in *.
    repeat case_decide; simplify_eq; lia.
  - simpl. rewrite fired_snoc, H4. by destruct (die s).
Qed.

Lemma heap_set_w p s w' : heap_ok p s -> heap_ok p (set_w s w').
Proof. intros []. by split. Qed.

Lemma heap_set_streams p s m : heap_ok p s -> heap_ok p (set_streams s m).
Proof. intros []. by split. Qed.

(** A killed stream that is not in the table any more. *)
Lemma killed_ok s s' o st err m :
  session_ok s -> objs s !! o = Some st -> openCalls s !! o = None -> die s = false ->
  s' = set_streams s m -> m = delete (st_id st) (streams s) ->
  heap_ok None (add_hook (update_obj s' o (fun st => kill st err)) (HookStream o)) ->
  session_ok (add_hook (update_obj s' o (fun st => kill st err)) (HookStream o)).
Proof.
  intros [_ Ht Hop _] Ho Hno Hd -> -> Hh.
  assert (forall i, i <> o -> objs (update_obj s o (fun st => kill st err)) !! i = objs s !! i) as Hi
    by (intros i Hi; by rewrite lookup_update_obj, decide_False by congruence).
  split; [done|..].
  - intros id i. simpl. rewrite lookup_delete_Some. intros [Hne Hl]. destruct (Ht id i Hl) as (sti & Hsi & Hid & Hdi).
    exists sti. split; [|done]. rewrite Hi; [done|]. intros ->. congruence.
  - intros i id b Hl. destruct (Hop i id b Hl) as [(sti & Hsi & Hst) Hn]. split.
    + exists sti. split; [|done]. simpl. rewrite Hi; [done|]. intros ->. simpl in Hl. congruence.
    + intros j. simpl. intros [_ Hj]%lookup_delete_Some. by eapply Hn.
  - simpl. by rewrite Hd.
Qed.

Lemma closeWithError_ok s o err :
  openCalls s !! o = None -> session_ok s -> session_ok (closeWithError ent s o err).1.
Proof.
  intros Hno Hs. unfold closeWithError. destruct (objs s !! o) as [st|] eqn:Ho; [|done].
  destruct (died st) eqn:Hd; [done|]. pose proof Hs as [Hh Ht Hop Hdie].
  pose proof (kill_heap s o st err Hh Ho Hd) as Hk.
  assert (forall i, i <> o -> objs (update_obj s o (fun st => kill st err)) !! i = objs s !! i) as Hi
    by (intros i Hi; by rewrite lookup_update_obj, decide_False by congruence).
  unfold streamClosed. destruct (die (update_obj s o (fun st => kill st err))) eqn:Hd1.
  - change (die s = true) in Hd1. destruct (Hdie Hd1) as (Hc & Hz & He). cbn [fst].
    split; [by apply pay_hook| | |done].
    + intros id i Hl. destruct (Ht id i Hl) as (sti & Hsi & Hid & _).
      destruct (decide (i = o)) as [->|Hne]; [|exists sti; split_and!; [simpl; by rewrite Hi|done|simpl; by rewrite Hd1]].
      exists (kill sti err). split_and!; [|done|simpl; by rewrite Hd1]. refine (eq_trans (lookup_update_obj s o _ o) _). by rewrite decide_True, Hsi.
    + intros i id b Hl. destruct (Hop i id b Hl) as [(sti & Hsi & Hst) Hn]. split; [|done]. exists sti.
      split; [|done]. simpl. rewrite Hi; [done|]. intros ->. simpl in Hl. congruence.
  - change (die s = false) in Hd1. unfold writeControlFrame. destruct (control_write _ _ _ _) as [w' [e|]] eqn:Ew.
    + apply (heap_set_w _ _ w') in Hk.
      destruct (Close_shape (Some o) (set_w (update_obj s o (fun st => kill st err)) w') Hd1 Hk) as (os & hs & -> & Hc & Hos). cbn [fst].
      split; [by apply pay_hook, heap_set_streams|..].
      * intros id i. simpl. by rewrite delete_empty, lookup_empty.
      * intros i id b Hl. destruct (Hop i id b Hl) as [(sti & Hsi & Hst) Hn]. split; [|intros j; simpl; by rewrite delete_empty, lookup_empty].
        exists sti. split; [|done]. change (os !! i = Some sti). rewrite Hos by done. simpl. rewrite Hi; [done|]. intros ->. simpl in Hl. congruence.
      * intros _. simpl. rewrite delete_empty, map_size_empty. split_and!; [apply law_close|lia|done].
    + cbn [fst].
      assert (session_ok (set_w s w')) as Hsw by (apply set_w_ok; [by rewrite Hd1|done]).
      exact (killed_ok (set_w s w') _ o st err _ Hsw Ho Hno Hd1 eq_refl eq_refl (pay_hook _ _ (heap_set_streams _ _ _ (heap_set_w _ _ w' Hk)))).
Qed.

(** *** The other operations *)

Lemma set_inp_ok s x : session_ok s -> session_ok (set_inp s x).
Proof. intros [[] ? ? ?]. split; [by split|done..]. Qed.

Lemma set_pc_ok s x :
  (forall o, x = Piping o -> exists st ws, objs s !! o = Some st /\ Pipe.writing (st_pipe st) = Some ws) ->
  x = Returned \/ pc s <> Returned \/ die s = false ->
  session_ok s -> session_ok (set_pc s x).
Proof.
  intros Hx Hpc [[] ? ? Hd]. split; [by split|done|done|]. simpl. intros E. destruct (Hd E) as (? & ? & Ht).
  split_and!; [done|done|]. intros Hr. destruct Hpc as [?|[?|?]]; [done|by apply Ht|congruence].
Qed.

Lemma set_misc_ok s a b c d e :
  session_ok s ->
  session_ok (MkSession (w s) (inp s) (pc s) a (streams s) (objs s) b (die s) c d (isClient s) e
                (identity s) (spawned s) (hooks s) (openCalls s)).
Proof. intros [[] ? ? ?]. split; [by split|done..]. Qed.

Lemma set_identity_ok s x : session_ok s -> session_ok (set_identity s x).
Proof. intros [[] ? ? ?]. split; [by split|done..]. Qed.

Lemma set_openCalls_ok s m :
  session_ok s -> open_ok (set_openCalls s m) -> session_ok (set_openCalls s m).
Proof. intros [[] ? ? ?] Ho. split; [by split|done|exact Ho|done]. Qed.

Lemma objs_bound s o st : objs s !! o = Some st -> o <> length (objs s).
Proof. intros Ho%lookup_lt_Some. lia. Qed.

Lemma alloc_ok s id : session_ok s -> session_ok (alloc s (newStream id)).1.
Proof.
  intros [[H1 H2 H3 H4 H5] Ht Hop Hd]. split; [split; simpl|simpl|simpl|done]; try done.
  - intros o st [Ho|[_ Hn]]%lookup_app_Some; [by eapply H1|].
    apply list_lookup_singleton_Some in Hn as [_ <-]. by split.
  - intros o st [Ho|[Hl Hn]]%lookup_app_Some; [by eapply H2|].
    apply list_lookup_singleton_Some in Hn as [Hz <-]. apply H3. apply lookup_ge_None. lia.
  - intros o Ho%lookup_ge_None. apply H3, lookup_ge_None. rewrite length_app in Ho. simpl in Ho. lia.
  - intros o Hpc. destruct (H5 o Hpc) as (st & ws & Ho & Hw). exists st, ws.
    split; [by apply lookup_app_l_Some|done].
  - intros i o Hl. destruct (Ht i o Hl) as (st & Ho & Hst). exists st. split; [by apply lookup_app_l_Some|done].
  - intros o i b Hl. destruct (Hop o i b Hl) as [(st & Ho & Hst) Hn]. split; [|done]. exists st. split; [by apply lookup_app_l_Some|done].
Qed.

(** Registering a live stream; on a closed session the loop has to end with it. *)
Lemma insert_ok s id o st :
  session_ok s -> openCalls s !! o = None -> objs s !! o = Some st -> st_id st = id -> died st = false ->
  (die s = true -> streams s = ∅ /\ pc s = Returned) ->
  session_ok (set_streams s (<[id := o]> (streams s))).
Proof.
  intros [Hh Ht Hop Hd] Hno Ho Hid Hdd Hdie. split; [by apply heap_set_streams|..].
  - intros i j. simpl. intros [[<- <-]|[_ Hl]]%lookup_insert_Some; eauto.
  - intros i j b Hl. destruct (Hop i j b Hl) as [Hst Hn]. split; [done|]. simpl. intros k [[_ <-]|[_ Hk]]%lookup_insert_Some; [|by eapply Hn].
    simpl in Hl. congruence.
  - simpl. intros E. destruct (Hdie E) as [-> Hpc], (Hd E) as (? & _ & _). split_and!; [done| |done].
    by rewrite insert_empty, map_size_singleton.
Qed.

Lemma closeLocally_ok s o :
  session_ok s -> (forall id, streams s !! id <> Some o) -> openCalls s !! o = None -> session_ok (closeLocally s o).
Proof.
  intros [Hh Ht Hop Hd] Hno Hoc. pose proof (closeLocally_heap None s o Hh) as Hh'.
  pose proof (closeLocally_other s o) as Hi. unfold closeLocally in *. repeat case_match; try (by split). split; [done| | |done].
  - intros id i Hl. destruct (Ht id i Hl) as (st & Ho & Hst). exists st. split; [|done].
    rewrite Hi; [done|]. intros ->. by eapply Hno.
  - intros i id b' Hl. destruct (Hop i id b' Hl) as [(st & Ho & Hst) Hn]. split; [|done]. exists st. split; [|done].
    rewrite Hi; [done|]. intros ->. simpl in Hl. congruence.
Qed.

Lemma delete_ok s id : session_ok s -> session_ok (set_streams s (delete id (streams s))).
Proof.
  intros [Hh Ht Hop Hd]. split; [by apply heap_set_streams|..].
  - intros i o. simpl. intros [_ Hl]%lookup_delete_Some. by apply Ht.
  - intros o i b Hl. destruct (Hop o i b Hl) as [Hst Hn]. split; [done|]. simpl. intros k [_ Hk]%lookup_delete_Some. by eapply Hn.
  - simpl. intros Hdie. destruct (Hd Hdie) as (? & Hz & He). split_and!; [done| |intros Hpc; by rewrite (He Hpc), delete_empty].
    pose proof (map_subseteq_size _ _ (delete_subseteq (streams s) id)). lia.
Qed.

Lemma count_ok s o n : session_ok s -> session_ok (count_tx s o n) /\ session_ok (count_rx s o n).
Proof.
  intros Hs. unfold count_tx, count_rx. destruct (objs s !! o) as [st|]; [|done].
  split; (apply update_obj_ok; [done|]); case_match; by try apply set_identity_ok.
Qed.

(** *** Opening and accepting *)

Lemma fresh_openCalls s o : session_ok s -> objs s !! o = None -> openCalls s !! o = None.
Proof.
  intros Hs Ho. destruct (openCalls s !! o) as [[id b]|] eqn:E; [|done].
  destruct (ok_open s Hs o id b E) as [(st & Hst & _) _]. congruence.
Qed.

(** A stream that [OpenStream] has announced and not registered. *)
Definition announced s (id : Z) (o : nat) : Prop :=
  (exists st, objs s !! o = Some st /\ st_id st = id /\ died st = false) /\ (forall i, streams s !! i <> Some o) /\
  openCalls s !! o = None.

Lemma open_SYN_ok s :
  session_ok s -> session_ok (open_SYN ent s).1 /\
  match (open_SYN ent s).2 with inl (id, o) => announced (open_SYN ent s).1 id o /\ die (open_SYN ent s).1 = false | inr _ => True end.
Proof.
  intros Hs. unfold open_SYN. destruct (die s) eqn:Hd; [done|]. cbn [alloc].
  set (id := uint32 _). set (s1 := set_objs _ _).
  assert (session_ok s1) as H1.
  { apply (alloc_ok (set_streamId s id) id). by apply (set_misc_ok s _ id _ _ _). }
  set (s2 := if (2 <=? id) && _ then _ else s1).
  assert (session_ok s2 /\ objs s2 = (objs s ++ [newStream id])%list /\ die s2 = false /\ openCalls s2 = openCalls s /\ streams s2 = streams s)
    as (H2 & Ho & Hd2 & Hoc & Hst).
  { subst s2. case_match; [|done]. split; [|done]. by apply (set_misc_ok s1 _ _ true _ _). }
  pose proof (writeControlFrame_ok s2 (newFrame cmdSYN id) H2) as H3.
  unfold writeControlFrame in *. destruct (control_write _ _ _ _) as [w' [e|]]; [done|].
  split; [done|]. split; [|done]. change (length (objs (set_streamId s id))) with (length (objs s)). split_and!.
  - exists (newStream id). split; [|done]. simpl. by rewrite Ho, lookup_app_r, Nat.sub_diag by done.
  - intros i. simpl. rewrite Hst. intros Hl. destruct (ok_table s Hs _ _ Hl) as (st & Hsto & _). by apply (objs_bound s (length (objs s)) st).
  - simpl. rewrite Hoc. apply (fresh_openCalls s); [done|]. by apply lookup_ge_None.
Qed.

Lemma unbuffer_ok s : session_ok s -> session_ok (open_unbuffer s).
Proof. intros Hs. apply set_w_ok; [|done]. intros Hd. by destruct (ok_die s Hs Hd). Qed.

Lemma register_ok s id o : session_ok s -> announced s id o -> session_ok (open_register s id o).1.
Proof.
  intros Hs ((st & Ho & Hid & Hdd) & _ & Hno). unfold open_register. destruct (die s) eqn:Hd; [done|].
  apply (insert_ok s id o st); try done. by rewrite Hd.
Qed.

Lemma OpenStream_ok s : session_ok s -> session_ok (OpenStream ent s).1.
Proof.
  intros Hs. unfold OpenStream. destruct (open_SYN_ok s Hs) as [H1 H2]. destruct (open_SYN ent s) as [s1 [[id o]|e]]; [|done].
  destruct H2 as [H2 _]. apply register_ok; [by apply unbuffer_ok|exact H2].
Qed.

Lemma open_start_ok s : session_ok s -> session_ok (open_start ent s).
Proof.
  intros Hs. unfold open_start. destruct (open_SYN_ok s Hs) as [H1 H2]. destruct (open_SYN ent s) as [s1 [[id o]|e]]; [|done].
  cbn [fst snd] in *. destruct H2 as [(Hst & Hn & _) _]. apply set_openCalls_ok; [done|]. intros i j b. simpl.
  intros [[<- [= <- <-]]|[_ Hl]]%lookup_insert_Some; [done|]. exact (ok_open s1 H1 _ _ _ Hl).
Qed.

Lemma open_next_ok s o : session_ok s -> session_ok (open_next s o).
Proof.
  intros Hs. unfold open_next. destruct (openCalls s !! o) as [[id b]|] eqn:E; [|done].
  destruct (ok_open s Hs o id b E) as [Hst Hn]. destruct b.
  - assert (session_ok (set_openCalls s (delete o (openCalls s)))) as H1.
    { apply set_openCalls_ok; [done|]. intros i j b. simpl. intros [_ Hl]%lookup_delete_Some. exact (ok_open s Hs _ _ _ Hl). }
    pose proof (register_ok (set_openCalls s (delete o (openCalls s))) id o H1) as H2. unfold open_register in *. cbn [die set_openCalls] in H2.
    destruct (die s); [done|]. apply H2. split_and!; [done|done|]. simpl. by rewrite lookup_delete_eq.
  - apply set_openCalls_ok; [by apply unbuffer_ok|]. intros i j b. simpl.
    intros [[<- [= <- <-]]|[_ Hl]]%lookup_insert_Some; [done|]. exact (ok_open s Hs _ _ _ Hl).
Qed.

(** A call that nothing interrupts. *)
Lemma OpenStream_uninterrupted s o :
  session_ok s -> (OpenStream ent s).2 = inl o -> (OpenStream ent s).1 = open_next (open_next (open_start ent s) o) o.
Proof.
  intros Hs. destruct (open_SYN_ok s Hs) as [H1 H2]. unfold OpenStream, open_start. destruct (open_SYN ent s) as [s1 [[id o']|e]]; [|done].
  cbn [fst snd] in *. destruct H2 as [(_ & _ & Hno) Hd]. unfold open_register. change (die (open_unbuffer s1)) with (die s1). rewrite Hd. intros [= ->].
  unfold open_next. cbn [openCalls set_openCalls]. rewrite lookup_insert_eq. cbn [openCalls set_openCalls]. rewrite lookup_insert_eq.
  unfold open_register. cbn [die set_openCalls open_unbuffer set_w fst]. rewrite Hd. cbn [fst].
  rewrite delete_insert_eq, delete_insert_id by done. by destruct s1.
Qed.

Lemma acceptStream_ok s id : session_ok s -> die s = false -> session_ok (acceptStream s id).1.
Proof.
  intros Hs Hd. unfold acceptStream. destruct (streams s !! id); [done|].
  destruct (negb _ && _); [done|]. pose proof (alloc_ok s id Hs) as Hal.
  assert (openCalls s !! length (objs s) = None) as Hno by (apply fresh_openCalls; [done|by apply lookup_ge_None]).
  destruct (insert_ok _ id (length (objs s)) (newStream id) Hal Hno) as [[] ? ? ?]; try done.
  - simpl. by rewrite lookup_app_r, Nat.sub_diag by done.
  - simpl. by rewrite Hd.
Qed.

Lemma stream_Read_ok s o k s' d e : session_ok s -> stream_Read s o k = Some (s', d, e) -> session_ok s'.
Proof.
  intros Hs. unfold stream_Read. destruct (objs s !! o) as [st|]; [|done].
  destruct (Pipe.read_begin _); [by intros [= <-]|].
  destruct (Pipe.writing (st_pipe st)) as [ws|]; [|done].
  destruct (Pipe.wants_reader ws); [|done]. simpl.
  assert (session_ok (update_obj s o (fun st => set_pipe st (Pipe.set_writing (st_pipe st)
    (Some (Pipe.MkWstate (drop (length (take k (Pipe.wb ws))) (Pipe.wb ws))
       (Pipe.wn ws + len (take k (Pipe.wb ws))) false)))))) as H1.
  { apply update_obj_ok; [|done]. by intros st0. }
  intros [= <- _ _]. case_match; [|done]. by apply count_ok.
Qed.

Lemma stream_Write_ok s o b : session_ok s -> session_ok (stream_Write ent s o b).1.1.
Proof.
  intros Hs. unfold stream_Write. destruct (objs s !! o) as [st|]; [|done].
  destruct (Deadline.closed _); [done|]. destruct (dieErr st); [done|].
  destruct (writeDataFrame _ _ _ _ _) as [[w' n] e] eqn:E. cbn [fst].
  assert (session_ok (set_w s w')) as H1.
  { apply set_w_ok; [|done]. intros Hd.
    eapply writeDataLoop_sealed in E as [? _]; [done|by apply ok_sealed]. }
  case_match; [|done]. by apply count_ok.
Qed.

Lemma reported_ok s o : session_ok s -> session_ok (update_obj s o set_reported).
Proof. by apply update_obj_ok. Qed.

Lemma Handshake_ok s o err :
  session_ok s -> session_ok (HandshakeSuccess ent s o).1 /\ session_ok (HandshakeFailure ent s o err).1.
Proof.
  intros Hs. unfold HandshakeSuccess, HandshakeFailure. destruct (objs s !! o) as [st|]; [|done].
  apply (reported_ok s o) in Hs.
  split; repeat case_match; try done; by apply writeControlFrame_ok.
Qed.

Lemma deadline_ok s o t now :
  session_ok s ->
  session_ok (stream_SetReadDeadline s o t now).1 /\ session_ok (stream_SetWriteDeadline s o t now).1.
Proof.
  intros Hs. unfold stream_SetReadDeadline, stream_SetWriteDeadline. split; [|by apply update_obj_ok].
  destruct (objs s !! o) as [st|] eqn:Ho; [|done].
  unfold Pipe.SetReadDeadline. destruct (Pipe.done (st_pipe st)) eqn:Hdone; cbn [fst];
    (apply update_obj_ok; [|done]); intros st0 Hst0; by simplify_eq.
Qed.

(** *** The receive loop *)

Lemma finish_ok s : session_ok s -> session_ok (finish s).
Proof. intros. apply set_pc_ok; [done|by left|by apply Close_ok]. Qed.

(** The loop of a closed session only ends. *)
Lemma finish_die s : die s = true -> finish s = set_pc s Returned.
Proof. intros Hd. unfold finish, Close. by rewrite Hd. Qed.

Lemma loop_top_open s : die s = false -> loop_top s = s.
Proof. intros Hd. unfold loop_top. rewrite Hd. by destruct (pc s). Qed.

Lemma loop_top_ok s : session_ok s -> session_ok (loop_top s).
Proof. intros Hs. unfold loop_top. destruct (pc s); try done. destruct (die s); [by apply finish_ok|done]. Qed.

Lemma turn_ok (t : Session C * option (option goerror)) : session_ok t.1 -> session_ok (end_turn t).
Proof. destruct t as [s [e|]]; simpl; [apply finish_ok|apply loop_top_ok]. Qed.

Lemma recv_control_ok s f (k : Session C -> Session C * option (option goerror)) :
  session_ok s -> (forall s', session_ok s' -> session_ok (k s').1) ->
  session_ok (match writeControlFrame ent s f with
              | (s', Some e) => return_ s' (Some e) | (s', None) => k s' end).1.
Proof.
  intros Hs Hk. pose proof (writeControlFrame_ok s f Hs) as H.
  destruct (writeControlFrame _ _ _) as [s' [e|]]; [done|]. by apply Hk.
Qed.

Lemma check_version_ok s v : session_ok s -> session_ok (check_version ent s v).1.
Proof.
  intros Hs. unfold check_version. destruct (Atoi v) as [z|]; [|done]. case_match; [|done].
  apply recv_control_ok; [|done]. by apply (set_misc_ok s _ _ _ (uint32 z) _).
Qed.

Lemma recv_Settings_ok s d : session_ok s -> session_ok (recv_Settings ent s d).1.
Proof.
  intros Hs. unfold recv_Settings. destruct (isClient s); [done|].
  assert (session_ok (set_receivedSettings s true)) as H1 by by apply (set_misc_ok s true _ _ _ _).
  cbv zeta. case_match; [by apply check_version_ok|].
  apply recv_control_ok; [done|]. intros s' Hs'. by apply check_version_ok.
Qed.

(** A SYN read before the session was closed registers its stream, and the loop ends. *)
Lemma accept_late_ok s id :
  session_ok s -> pc s = Reading -> die s = true -> session_ok (loop_top (acceptStream s id).1).
Proof.
  intros Hs Hpc Hd. destruct (ok_die s Hs Hd) as (Hc & _ & He). rewrite Hpc in He. specialize (He ltac:(done)).
  unfold acceptStream. rewrite He, lookup_empty, map_size_empty. destruct (_ && _); [by apply loop_top_ok|]. cbn [alloc fst].
  unfold loop_top. cbn [pc die set_objs set_streams add_spawned]. rewrite Hpc, Hd, finish_die by done.
  pose proof (alloc_ok s id Hs) as Hal. apply (set_pc_ok _ Returned) in Hal; [|done|by left].
  assert (openCalls s !! length (objs s) = None) as Hno by (apply fresh_openCalls; [done|by apply lookup_ge_None]).
  assert (session_ok (set_streams (set_pc (alloc s (newStream id)).1 Returned) (<[id := length (objs s)]> (streams s)))) as Hi.
  { apply (insert_ok _ id (length (objs s)) (newStream id) Hal Hno); try done. simpl. by rewrite lookup_app_r, Nat.sub_diag by done. }
  simpl in Hi. destruct Hi as [[] ? ? ?]. split; [by split|done..].
Qed.

Lemma recv_SYN_ok s id : session_ok s -> pc s = Reading -> session_ok (end_turn (recv_SYN ent s id)).
Proof.
  intros Hs Hpc. unfold recv_SYN. case_match.
  - apply turn_ok. pose proof (writeControlFrame_ok s (Frame cmdAlert 0 (to_bytes "client did not send its settings")) Hs) as H1.
    destruct (writeControlFrame _ _ _). done.
  - destruct (acceptStream s id) as [s1 []] eqn:Ea.
    + assert (s1 = (acceptStream s id).1) as -> by by rewrite Ea. cbn [end_turn go_on].
      destruct (die s) eqn:Hd; [by apply accept_late_ok|]. by apply loop_top_ok, acceptStream_ok.
    + assert (s1 = s) as ->. { unfold acceptStream in Ea. repeat case_match; by simplify_eq. }
      apply turn_ok. unfold refuseStream. by apply recv_control_ok.
Qed.

(** A stream of the table is not being opened. *)
Lemma table_not_open s id o : session_ok s -> streams s !! id = Some o -> openCalls s !! o = None.
Proof.
  intros Hs Hl. destruct (openCalls s !! o) as [[i b]|] eqn:E; [|done]. destruct (ok_open s Hs o i b E) as [_ Hn]. by destruct (Hn id).
Qed.

Lemma recv_FIN_ok s id : session_ok s -> session_ok (recv_FIN s id).1.
Proof.
  intros Hs. unfold recv_FIN. pose proof (delete_ok s id Hs) as Hd.
  destruct (streams s !! id) as [o|] eqn:Hl; [|done]. apply closeLocally_ok; [done| |by apply (table_not_open s id)].
  intros i. simpl. intros [Hne Hi]%lookup_delete_Some.
  destruct (ok_table s Hs _ _ Hl) as (st & Ho & Hid & _).
  destruct (ok_table s Hs _ _ Hi) as (st' & Ho' & Hid' & _). congruence.
Qed.

Lemma recv_PSH_ok s id d : session_ok s -> pc s = Reading -> session_ok (recv_PSH s id d).1.
Proof.
  intros Hs Hpc. unfold recv_PSH. destruct (streams s !! id) as [o|]; [|done].
  destruct (objs s !! o) as [st|] eqn:Ho; [|done].
  unfold Pipe.write_begin. repeat case_match; try done; simplify_eq; simpl.
  apply set_pc_ok; [|right; left; simpl; by rewrite Hpc|apply update_obj_ok; [|done]; intros st0 Hst0; by simplify_eq].
  intros o' [= <-]. rewrite lookup_update_obj, decide_True, Ho by done. simpl. eauto.
Qed.

Lemma on_header_ok s h : session_ok s -> pc s = Reading -> session_ok (end_turn (on_header ent s h)).
Proof.
  intros Hs Hpc. unfold on_header.
  set (s1 := if bool_decide (Cmd h = cmdSYNACK) then _ else s).
  assert (session_ok s1 /\ pc s1 = Reading) as [H1 Hpc1].
  { subst s1. case_match; [|done]. split; [by apply (set_misc_ok s _ _ false _ _)|done]. }
  repeat case_match; try by apply recv_SYN_ok.
  - apply turn_ok, set_pc_ok; [done|right; left; by rewrite Hpc1|done].
  - by apply turn_ok, recv_FIN_ok.
  - by apply turn_ok, recv_control_ok.
  - by apply turn_ok.
Qed.

Lemma on_payload_ok s h d :
  session_ok s -> pc s = Reading -> session_ok (on_payload ent md5hex clientDebugPaddingScheme s h d).1.
Proof.
  intros Hs Hpc. unfold on_payload.
  destruct (bool_decide _); [by apply recv_PSH_ok|].
  destruct (bool_decide _).
  { unfold recv_SYNACK. destruct (streams s !! StreamID h) as [o|] eqn:E; [|done]. apply closeWithError_ok; [by eapply table_not_open|done]. }
  destruct (bool_decide _); [done|]. destruct (bool_decide _); [by apply recv_Settings_ok|].
  destruct (bool_decide _); [done|]. destruct (bool_decide _).
  { unfold recv_UpdatePaddingScheme. repeat case_match; try done.
    by apply (set_misc_ok s _ _ _ _ p). }
  destruct (bool_decide _); [|done].
  unfold recv_ServerSettings. repeat case_match; try done. by apply (set_misc_ok s _ _ _ (uint32 z) _).
Qed.

Lemma recv_step_ok s : session_ok s -> session_ok (recv_step ent md5hex clientDebugPaddingScheme s).
Proof.
  intros Hs. unfold recv_step. destruct (pc s) as [|h|o|] eqn:Hpc; [| | |done].
  - destruct (read_header (inp s)) as [[h r]|]; [|done]. apply on_header_ok; [by apply set_inp_ok|done].
  - destruct (read_full _ _) as [[d r]|]; [|done].
    apply turn_ok, on_payload_ok; [|done]. apply set_pc_ok; [done|right; left; simpl; by rewrite Hpc|by apply set_inp_ok].
  - assert (session_ok (set_pc s Reading)) as H1 by (apply set_pc_ok; [done|right; left; by rewrite Hpc|done]).
    repeat case_match; try done; try (by apply loop_top_ok).
    apply loop_top_ok. match goal with |- session_ok (set_pc (update_obj _ _ ?f) _) =>
      change (session_ok (update_obj (set_pc s Reading) o f)) end.
    apply update_obj_ok; [by intros ?|done].
Qed.

Lemma recv_error_ok s : session_ok s -> session_ok (recv_error s).
Proof. intros. unfold recv_error. case_match; try done; by apply finish_ok. Qed.

(** Operations on streams do not reach a stream that is being opened. *)
Lemma not_held s a o : held s a = false -> op_stream a = Some o -> openCalls s !! o = None.
Proof. unfold held. intros H E. rewrite E in H. apply bool_decide_eq_false in H. by apply eq_None_not_Some. Qed.

Lemma exec_ok s a : session_ok s -> session_ok (exec ent md5hex clientDebugPaddingScheme s a).
Proof.
  intros Hs. unfold exec. destruct (held s a) eqn:Hh; [done|]. destruct a; simpl.
  - by apply set_inp_ok.
  - by apply recv_step_ok.
  - by apply recv_error_ok.
  - by apply open_start_ok.
  - by apply open_next_ok.
  - by apply (set_misc_ok s _ _ _ _ p).
  - by apply Close_ok.
  - unfold synTimeout. case_match; [by apply Close_ok|done].
  - apply closeWithError_ok; [|done]. by apply (not_held s _ o Hh).
  - destruct (stream_Read s o k) as [[[s' d] e]|] eqn:E; [|done]. by eapply stream_Read_ok.
  - by apply stream_Write_ok.
  - by apply (Handshake_ok s o None).
  - by apply (Handshake_ok s o err).
  - by apply deadline_ok.
  - by apply (deadline_ok s o t now).
Qed.

Lemma exec_all_ok s l : session_ok s -> session_ok (exec_all ent md5hex clientDebugPaddingScheme s l).
Proof. revert s. induction l as [|a l IH]; intros s Hs; [done|]. by apply IH, exec_ok. Qed.

Lemma new_ok wr pf isC : session_ok (MkSession (C:=C) wr [] Returned false ∅ [] 0 false false 0 isC pf None [] [] ∅).
Proof. split; [split|..]; simpl; try done; intros; by rewrite ?lookup_nil, ?lookup_empty in *. Qed.

(** A session as client or server code starts it. *)
Definition start (client : bool) (c : C) (pf : PaddingFactory) (order : list (string * string)) : Session C :=
  Run ent (if client then NewClientSession c pf [] else NewServerSession c pf []) order.

Lemma start_ok client c pf order : session_ok (start client c pf order).
Proof.
  unfold start, Run, NewClientSession, NewServerSession. destruct client; cbn [isClient]; apply loop_top_ok.
  - set (s0 := set_w _ _). assert (session_ok s0 /\ die s0 = false) as [H0 Hd0] by (split; [by apply new_ok|done]).
    set (f := Frame _ _ _). pose proof (writeControlFrame_ok s0 f H0) as H1.
    split; [by destruct (ok_heap _ H1); split|by apply (ok_table _ H1)|by apply (ok_open _ H1)|].
    cbn [die pc set_pc streams w]. intros Hd. destruct (ok_die _ H1 Hd) as (? & ? & _). split_and!; try done. intros _.
    unfold writeControlFrame in *. destruct (control_write _ _ _ _) as [w' [e|]]; [|done]. cbn [fst].
    destruct (Close_fields (set_w s0 w')) as (_ & _ & _ & _ & _ & _ & _ & _ & He). by apply He.
  - apply set_pc_ok; [done|by right; right|]. by apply new_ok.
Qed.

(** *** A closed session is silent *)

(** The loop moves only in its own turns, and does not come back. *)

Lemma pc_closeLocally s o : pc (closeLocally s o) = pc s.
Proof. unfold closeLocally. destruct (objs s !! o) as [st|]; [|done]. by destruct (died st). Qed.

Lemma pc_Close s : pc (Close s).1 = pc s.
Proof.
  unfold Close. destruct (die s); [done|]. simpl.
  assert (forall l s, pc (foldl closeLocally s l) = pc s) as H; [|by rewrite H].
  induction l as [|o l IH]; intros s0; [done|]. simpl. by rewrite IH, pc_closeLocally.
Qed.

Lemma pc_write s f : pc (writeControlFrame ent s f).1 = pc s.
Proof. unfold writeControlFrame. destruct (control_write _ _ _ _) as [w' [e|]]; [|done]. apply (pc_Close (set_w s w')). Qed.

Lemma pc_closeWithError s o err : pc (closeWithError ent s o err).1 = pc s.
Proof.
  unfold closeWithError. destruct (objs s !! o) as [st|]; [|done]. destruct (died st); [done|]. unfold streamClosed. simpl.
  destruct (die s); [done|]. pose proof (pc_write (update_obj s o (fun st => kill st err)) (newFrame cmdFIN (st_id st))) as H.
  by destruct (writeControlFrame ent _ _) as [s' e].
Qed.

Lemma pc_count s o n : pc (count_tx s o n) = pc s /\ pc (count_rx s o n) = pc s.
Proof. unfold count_tx, count_rx. destruct (objs s !! o) as [st|]; [|done]. by destruct (CountIdentity st). Qed.

Lemma pc_open_SYN s : pc (open_SYN ent s).1 = pc s.
Proof.
  unfold open_SYN. destruct (die s); [done|]. cbn [alloc].
  match goal with |- context [writeControlFrame ent ?s0 ?f] =>
    assert (pc s0 = pc s) as H0 by (by destruct (_ && _)); pose proof (pc_write s0 f) as H; destruct (writeControlFrame ent s0 f) as [s1 [e|]] end;
    simpl in *; congruence.
Qed.

Lemma pc_open_next s o : pc (open_next s o) = pc s.
Proof. unfold open_next, open_register. destruct (openCalls s !! o) as [[id []]|]; [|done..]. cbn [die set_openCalls pc fst]. by destruct (die s). Qed.

Lemma pc_read s o k s' d e : stream_Read s o k = Some (s', d, e) -> pc s' = pc s.
Proof.
  unfold stream_Read. destruct (objs s !! o) as [st|]; [|done]. destruct (Pipe.read_begin (st_pipe st)); [intros; by simplify_eq|].
  destruct (Pipe.writing (st_pipe st)) as [ws|]; [|done]. destruct (Pipe.wants_reader ws); [|done].
  destruct (Pipe.transfer ws k) as [d' ws']. intros [= <- _ _]. destruct (0 <? len d'); [|done].
  exact (proj1 (pc_count (update_obj s o (fun st => set_pipe st (Pipe.set_writing (st_pipe st) (Some ws')))) o (len d'))).
Qed.

Lemma pc_exec s a :
  a <> OpRecv -> pc (exec ent md5hex clientDebugPaddingScheme s a) = pc s \/ pc (exec ent md5hex clientDebugPaddingScheme s a) = Returned.
Proof.
  intros Ha. unfold exec. destruct (held s a); [by left|].
  destruct a as [| | | |o|p| | |o|o k|o b|o|o err|o t now|o t now]; try done; cbn [run_op]; try (by left).
  - unfold recv_error. destruct (pc s) eqn:E; auto.
  - left. unfold open_start. pose proof (pc_open_SYN s) as H. by destruct (open_SYN ent s) as [s1 [[id o]|e]].
  - left. apply pc_open_next.
  - left. apply pc_Close.
  - left. unfold synTimeout. destruct (synDone s); [apply pc_Close|done].
  - left. apply pc_closeWithError.
  - left. destruct (stream_Read s o k) as [[[s' d] e]|] eqn:E; [|done]. by eapply pc_read.
  - left. unfold stream_Write. destruct (objs s !! o) as [st|]; [|done]. destruct (Deadline.closed _); [done|].
    destruct (dieErr st); [done|]. destruct (writeDataFrame ent (padding s) (w s) (st_id st) b) as [[w' n] e]. cbn [fst].
    destruct (0 <? n); [|done]. exact (proj2 (pc_count (set_w s w') o n)).
  - left. unfold HandshakeSuccess. destruct (objs s !! o) as [st|]; [|done]. destruct (_ && _); [|done].
    exact (pc_write (update_obj s o set_reported) _).
  - left. unfold HandshakeFailure. destruct (objs s !! o) as [st|]; [|done]. destruct err as [text|]; [|done].
    destruct (_ && _); [|done]. exact (pc_write (update_obj s o set_reported) _).
  - left. unfold stream_SetReadDeadline. destruct (objs s !! o) as [st|]; [|done]. by destruct (Pipe.SetReadDeadline (st_pipe st) t now).
Qed.

Lemma returned_exec s a : pc s = Returned -> pc (exec ent md5hex clientDebugPaddingScheme s a) = Returned.
Proof.
  intros E. destruct (decide (a = OpRecv)) as [->|Ha]; [|destruct (pc_exec s a Ha) as [H|H]; congruence].
  change (pc (recv_step ent md5hex clientDebugPaddingScheme s) = Returned). unfold recv_step. by rewrite E.
Qed.

(** The session is closed, has sent [x] in all, has the streams [t] at most and has started the
    handlers [l]. *)
Definition silent (x : bytes) (t : gmap Z nat) (l : list nat) s : Prop :=
  die s = true /\ sealed x (w s) /\ streams s ⊆ t /\ spawned s = l.

Lemma die_Close s : die s = true -> (Close s).1 = s.
Proof. unfold Close. by intros ->. Qed.

Lemma silent_write x t l s w' : sealed x w' -> silent x t l s -> silent x t l (set_w s w').
Proof. by intros ? (? & ? & ? & ?). Qed.

Lemma writeControlFrame_silent x t l s f : silent x t l s -> silent x t l (writeControlFrame ent s f).1.
Proof.
  intros Hs. pose proof Hs as (Hd & Hx & _). unfold writeControlFrame. destruct (control_write _ _ _ _) as [w' e] eqn:E.
  eapply control_write_sealed in E; [|done].
  destruct e; [rewrite die_Close by done|]; by apply silent_write.
Qed.

Lemma count_silent x t l s o n : silent x t l s -> silent x t l (count_tx s o n) /\ silent x t l (count_rx s o n).
Proof. intros H. unfold count_tx, count_rx. destruct (objs s !! o); [|done]. split; by case_match. Qed.

Lemma finish_silent x t l s : silent x t l s -> silent x t l (finish s).
Proof. intros Hs. pose proof Hs as [Hd _]. by rewrite finish_die. Qed.

Lemma end_silent x t l (u : Session C * option (option goerror)) : silent x t l u.1 -> silent x t l (end_turn u).
Proof.
  destruct u as [s [e|]]; cbn [end_turn fst]; [apply finish_silent|]. intros Hs. unfold loop_top. destruct (pc s); try done.
  destruct (die s); [by apply finish_silent|done].
Qed.

Lemma closeLocally_silent x t l s o : silent x t l s -> silent x t l (closeLocally s o).
Proof. intros Hs. unfold closeLocally. destruct (objs s !! o) as [st|]; [|done]. by destruct (died st). Qed.

Lemma delete_silent x t l s id : silent x t l s -> silent x t l (set_streams s (delete id (streams s))).
Proof. intros (? & ? & ? & ?). split_and!; try done. simpl. etrans; [apply delete_subseteq|done]. Qed.

Lemma closeWithError_silent x t l s o err : silent x t l s -> silent x t l (closeWithError ent s o err).1.
Proof.
  intros Hs. unfold closeWithError, streamClosed. destruct (objs s !! o) as [st|]; [|done].
  destruct (died st); [done|]. pose proof Hs as (Hd & Hx). cbn [die update_obj set_objs]. by rewrite Hd.
Qed.

Lemma answer_silent x t l s f (k : Session C -> Session C * option (option goerror)) :
  silent x t l s -> (forall s', silent x t l s' -> silent x t l (k s').1) ->
  silent x t l (match writeControlFrame ent s f with (s', Some e) => return_ s' (Some e) | (s', None) => k s' end).1.
Proof.
  intros Hs Hk. pose proof (writeControlFrame_silent x t l s f Hs) as H.
  destruct (writeControlFrame _ _ _) as [s' [e|]]; [done|]. by apply Hk.
Qed.

Lemma on_payload_silent x t l s h d :
  silent x t l s -> silent x t l (on_payload ent md5hex clientDebugPaddingScheme s h d).1.
Proof.
  intros Hs. unfold on_payload. repeat case_bool_decide; try done.
  - unfold recv_PSH. by repeat case_match.
  - unfold recv_SYNACK. case_match; [|done]. by apply closeWithError_silent.
  - assert (forall s v, silent x t l s -> silent x t l (check_version ent s v).1) as Hv.
    { intros s0 v Hs0. unfold check_version. destruct (Atoi v); [|done]. destruct (2 <=? _); [|done]. by apply answer_silent. }
    unfold recv_Settings. destruct (isClient s); [done|]. cbv zeta. case_match; [by apply Hv|]. apply answer_silent; [done|]. intros s' Hs'. by apply Hv.
  - unfold recv_UpdatePaddingScheme. by repeat case_match.
  - unfold recv_ServerSettings. by repeat case_match.
Qed.

(** The loop handles the frame it was reading; a SYN registers its stream. *)
Lemma recv_step_silent x t l s :
  silent x t l s ->
  silent x t l (recv_step ent md5hex clientDebugPaddingScheme s) \/
  pc s <> Returned /\ pc (recv_step ent md5hex clientDebugPaddingScheme s) = Returned /\
    exists id o, silent x (<[id := o]> t) (l ++ [o]) (recv_step ent md5hex clientDebugPaddingScheme s).
Proof.
  intros Hs. unfold recv_step. destruct (pc s) as [|h|o|] eqn:Hpc; [| | |by left].
  - destruct (read_header (inp s)) as [[h r]|]; [|by left]. unfold on_header.
    set (s1 := if bool_decide (Cmd h = cmdSYNACK) then _ else set_inp s r).
    assert (silent x t l s1 /\ pc s1 = Reading) as [H1 Hpc1] by (subst s1; by case_bool_decide). clearbody s1.
    destruct (has_payload h); [left; by apply end_silent|]. case_bool_decide; [|left; apply end_silent].
    + unfold recv_SYN. destruct (negb _ && negb _).
      { left. apply end_silent. pose proof (writeControlFrame_silent x t l s1 (Frame cmdAlert 0 (to_bytes "client did not send its settings")) H1) as H2.
        by destruct (writeControlFrame _ _ _). }
      unfold acceptStream. destruct (streams s1 !! _); [left; by apply end_silent|].
      destruct (negb _ && (_ <=? _)); [left; apply end_silent; unfold refuseStream; by apply answer_silent|].
      right. split; [done|]. destruct H1 as (Hd & Hx & Ht & Hl). cbn [alloc end_turn go_on]. unfold loop_top.
      cbn [pc die add_spawned set_streams set_objs]. rewrite Hpc1, Hd, finish_die by done. split; [done|].
      exists (StreamID h), (length (objs s1)). split_and!; [done|done| |simpl; by rewrite Hl]. simpl. by apply insert_mono.
    + case_bool_decide.
      * unfold recv_FIN. case_match; [apply closeLocally_silent|]; by apply delete_silent.
      * case_bool_decide; [|done]. unfold recv_HeartRequest. by apply answer_silent.
  - left. destruct (read_full _ _) as [[d r]|]; [|done]. by apply end_silent, on_payload_silent.
  - left. assert (forall s, silent x t l s -> silent x t l (loop_top s)) as Ht by (intros s0 H0; by apply (end_silent x t l (go_on s0))).
    repeat case_match; try done; by apply Ht.
Qed.

Lemma exec_silent x t l s a :
  a <> OpRecv -> silent x t l s -> silent x t l (exec ent md5hex clientDebugPaddingScheme s a).
Proof.
  intros Ha Hs. unfold exec. destruct (held s a); [done|]. pose proof Hs as (Hd & Hx & _). destruct a; simpl; try done.
  - unfold recv_error. case_match; try done; by apply finish_silent.
  - unfold open_start, open_SYN. by rewrite Hd.
  - unfold open_next, open_register. destruct (openCalls s !! o) as [[id []]|]; [|done..]. by rewrite Hd.
  - by rewrite die_Close.
  - unfold synTimeout. case_match; [by rewrite die_Close|done].
  - by apply closeWithError_silent.
  - unfold stream_Read. repeat case_match; simplify_eq; try done; by apply count_silent.
  - unfold stream_Write. repeat case_match; simplify_eq; try done;
      match goal with E : writeDataFrame _ _ _ _ _ = _ |- _ => eapply writeDataLoop_sealed in E; [|done] end;
      [apply count_silent|]; by apply silent_write.
  - unfold HandshakeSuccess. repeat case_match; try done. by apply writeControlFrame_silent.
  - unfold HandshakeFailure. repeat case_match; try done. by apply writeControlFrame_silent.
  - unfold stream_SetReadDeadline. by repeat case_match.
Qed.

(** Once the loop has returned nothing is registered any more. *)
Lemma returned_silent x t l s ops :
  silent x t l s -> pc s = Returned -> silent x t l (exec_all ent md5hex clientDebugPaddingScheme s ops).
Proof.
  revert s. induction ops as [|a ops IH]; intros s Hs Hpc; [done|]. apply IH; [|by apply returned_exec].
  destruct (decide (a = OpRecv)) as [->|Ha]; [|by apply exec_silent].
  change (silent x t l (recv_step ent md5hex clientDebugPaddingScheme s)). unfold recv_step. by rewrite Hpc.
Qed.

Lemma exec_all_silent x t l s ops :
  silent x t l s ->
  silent x t l (exec_all ent md5hex clientDebugPaddingScheme s ops) \/
  pc s <> Returned /\ exists id o, silent x (<[id := o]> t) (l ++ [o]) (exec_all ent md5hex clientDebugPaddingScheme s ops).
Proof.
  revert s. induction ops as [|a ops IH]; intros s Hs; [by left|].
  assert (forall s', pc s' <> Returned -> s' = exec ent md5hex clientDebugPaddingScheme s a -> pc s <> Returned) as Hback.
  { intros s' Hs' -> E. by apply Hs', returned_exec. }
  assert (silent x t l (exec ent md5hex clientDebugPaddingScheme s a) -> silent x t l (exec_all ent md5hex clientDebugPaddingScheme s (a :: ops)) \/
    pc s <> Returned /\ exists id o, silent x (<[id := o]> t) (l ++ [o]) (exec_all ent md5hex clientDebugPaddingScheme s (a :: ops))) as Hgo.
  { intros H. destruct (IH _ H) as [?|[Hpc ?]]; [by left|]. right. split; [by eapply Hback|done]. }
  destruct (decide (a = OpRecv)) as [->|Ha]; [|by apply Hgo, exec_silent].
  destruct (recv_step_silent x t l s Hs) as [H|(Hpc & Hr & id & o & H)]; [by apply Hgo|]. right. split; [done|]. exists id, o.
  by apply (returned_silent _ _ _ (recv_step ent md5hex clientDebugPaddingScheme s)).
Qed.

(** C6.  The session invariant: in every interleaving of incoming frames, read
    errors, calls of [OpenStream] interrupted at any point, stream reads, writes, closes, handshake reports and
    timeouts, on either side, the table of an open session only holds live streams under their own
    id, a stream that is being opened is alive and not yet in the table, every stream is dead in all its parts or in none, each close callback of
    a stream and of the session has run exactly once if it is dead and never
    otherwise, and a closed session has a closed connection and an empty table, except that the table may
    hold one stream once the receive loop has returned: that of a SYN the loop was handling
    when the session was closed.  [Close] itself is one step. *)
Theorem session_invariant client c pf order ops :
  session_ok (exec_all ent md5hex clientDebugPaddingScheme (start client c pf order) ops).
Proof. apply exec_all_ok, start_ok. Qed.

(** C33.  What follows a close: once [Close] has returned, no later operation
    puts a byte on the connection or reopens the session, [OpenStream] fails, and no stream is
    registered, with one exception: if the receive loop had not returned, the frame it was reading may
    still be a SYN, whose stream is registered and whose handler is started; this happens once at
    most, and never after the loop has returned. *)
Theorem closed_session_silent client c pf order ops1 ops2 :
  let s1 := exec_all ent md5hex clientDebugPaddingScheme (start client c pf order) ops1 in
  let s2 := exec_all ent md5hex clientDebugPaddingScheme s1 ops2 in
  die s1 = true ->
  conn_wire (w_conn (w s2)) = conn_wire (w_conn (w s1)) /\ die s2 = true /\
  (OpenStream ent s2).2 = inr ErrClosedPipe /\
  (streams s2 ⊆ streams s1 /\ spawned s2 = spawned s1 \/
   pc s1 <> Returned /\ exists id o, streams s2 ⊆ {[id := o]} /\ spawned s2 = (spawned s1 ++ [o])%list).
Proof.
  intros s1 s2 Hd.
  assert (session_ok s1) as H1 by apply exec_all_ok, start_ok.
  assert (forall t l, silent (conn_wire (w_conn (w s1))) t l s2 ->
    conn_wire (w_conn (w s2)) = conn_wire (w_conn (w s1)) /\ die s2 = true /\ (OpenStream ent s2).2 = inr ErrClosedPipe) as Hall.
  { intros t l (Hd2 & [_ Hx] & _). split_and!; [done|done|]. unfold OpenStream, open_SYN. by rewrite Hd2. }
  destruct (exec_all_silent (conn_wire (w_conn (w s1))) (streams s1) (spawned s1) s1 ops2) as [H|(Hpc & id & o & H)].
  - split_and!; [done|by apply ok_sealed|done|done].
  - destruct (Hall _ _ H) as (? & ? & ?). destruct H as (_ & _ & ? & ?). split_and!; auto.
  - destruct (Hall _ _ H) as (? & ? & ?). destruct H as (_ & _ & Ht & ?). split_and!; auto. right. split; [done|]. exists id, o.
    destruct (ok_die s1 H1 Hd) as (_ & _ & He). rewrite (He Hpc), insert_empty in Ht. done.
Qed.

End inv.

(** ** Sample runs *)

Definition sample_ent : Z -> nat -> Z := fun _ _ => 0.
Definition sample_md5 : bytes -> string := fun _ => "md5".

(** A client of version 2 sends its settings, opens stream 1 and sends two bytes on it. *)
Definition sample_input : bytes :=
  encode_all [Frame cmdSettings 0 (StringMap.ToBytes [("v", "2"); ("padding-md5", "md5")]);
              newFrame cmdSYN 1; Frame cmdPSH 1 [x01; x02]].

Definition sample_ops : list op :=
  [OpArrive sample_input; OpRecv; OpRecv; OpRecv; OpRecv; OpRecv; OpStreamRead 0 1; OpSuccess 0].

Definition sample_server : Session PlainConn :=
  start sample_ent false plain_new (default_factory sample_md5) [].

Lemma session_invariant_witness :
  session_ok (exec_all sample_ent sample_md5 false sample_server sample_ops) /\
  streams (exec_all sample_ent sample_md5 false sample_server sample_ops) = {[1 := 0%nat]}.
Proof. split; [apply (session_invariant sample_ent sample_md5 false false)|vm_compute; reflexivity]. Defined.

Lemma closed_session_silent_witness :
  let s1 := exec_all sample_ent sample_md5 false sample_server (sample_ops ++ [OpClose]) in
  let s2 := exec_all sample_ent sample_md5 false s1 [OpStreamWrite 0 [x07]; OpRecv; OpRecv; OpStreamClose 0] in
  conn_wire (w_conn (w s2)) = conn_wire (w_conn (w s1)) /\ die s2 = true /\
  (OpenStream sample_ent s2).2 = inr ErrClosedPipe /\
  (streams s2 ⊆ streams s1 /\ spawned s2 = spawned s1 \/
   pc s1 <> Returned /\ exists id o, streams s2 ⊆ {[id := o]} /\ spawned s2 = (spawned s1 ++ [o])%list).
Proof. apply (closed_session_silent sample_ent sample_md5 false false). vm_compute. reflexivity. Defined.

End Session.
