(* ===== verification/SessionSpec.v ===== *)
(** * SessionSpec: what a session promises to streams and to its peer
      (proxy/session/session.go, proxy/session/stream.go)

    The life cycle of streams over whole runs, the limits a server keeps, the
    handling of SYN and settings on every branch, and the receive loop as a
    refinement of a handler of whole frames. *)

From S2P Require Import Prelude GoStrings StringMap Frame Padding NetConn WriteConn Pipe Session.
#[local] Open Scope string_scope.
#[local] Open Scope list_scope.
#[local] Open Scope Z_scope.

Module SessionSpec.
Import Frame Padding WriteConn Session.

(** Two commands cannot be equal to the same byte. *)
Ltac cmd_clash :=
  exfalso; unfold cmdWaste, cmdSYN, cmdPSH, cmdFIN, cmdSettings, cmdAlert, cmdUpdatePaddingScheme, cmdSYNACK,
    cmdHeartRequest, cmdHeartResponse, cmdServerSettings in *; congruence.

(** ** The life of a stream *)

(** How a stream object may change: its id is fixed, death and the handshake
    report are final, and the first cause of death stays. *)
Record grows (st st' : Stream) : Prop := {
  gr_id : st_id st' = st_id st;
  gr_died : died st = true -> died st' = true /\ dieErr st' = dieErr st;
  gr_reported : reported st = true -> reported st' = true
}.

#[export] Instance grows_preorder : PreOrder grows.
Proof.
  split; [by split|]. intros a b c [H1 H2 H3] [G1 G2 G3]. split; [congruence| |auto].
  intros Hd. destruct (H2 Hd) as [Hb E]. destruct (G2 Hb). split; congruence.
Qed.

(** How a session may change. *)
Record later {C} (s s' : Session C) : Prop := {
  lt_objs o st : objs s !! o = Some st -> exists st', objs s' !! o = Some st' /\ grows st st';
  lt_client : isClient s' = isClient s;
  lt_die : die s = true -> die s' = true;
  lt_settings : receivedSettings s = true -> receivedSettings s' = true;
  lt_hooks : hooks s `prefix_of` hooks s';
  lt_open o : is_Some (objs s !! o) -> openCalls s !! o = None -> openCalls s' !! o = None
}.

(** The same, without opening or registering a stream. *)
Definition shrinks {C} (s s' : Session C) : Prop := later s s' /\ streams s' ⊆ streams s /\ openCalls s' = openCalls s.

#[export] Instance later_preorder {C} : PreOrder (@later C).
Proof.
  split.
  - intros s. split; try done. intros o st Ho. exists st. by split.
  - intros a b c [H1 H2 H3 H4 H5 H6] [G1 G2 G3 G4 G5 G6]. split; [|congruence|auto|auto|by etrans|].
    2: { intros o [st Ho] Hn. apply G6; [|by apply H6; [eexists|]]. destruct (H1 o st Ho) as (st' & -> & _). by eexists. }
    intros o st Ho. destruct (H1 _ _ Ho) as (st1 & Ho1 & Hg1). destruct (G1 _ _ Ho1) as (st2 & Ho2 & Hg2).
    exists st2. split; [done|by etrans].
Qed.

#[export] Instance shrinks_preorder {C} : PreOrder (@shrinks C).
Proof.
  split; [by split|]. intros a b c (H1 & H2 & H3) (G1 & G2 & G3). split_and!; by etrans.
Qed.

#[export] Instance shrinks_later {C} : subrelation (@shrinks C) (@later C).
Proof. by intros s s' [H _]. Qed.

Section life.
Context {C : Type} `{!NetConn C}.
Variable ent : Z -> nat -> Z.
Variable md5hex : bytes -> string.
Variable clientDebugPaddingScheme : bool.
Implicit Types s : Session C.

(** Field updates that leave the objects, the table and the settings alone. *)
Lemma shrinks_same s s' :
  objs s' = objs s -> streams s' = streams s -> isClient s' = isClient s -> die s' = die s ->
  receivedSettings s' = receivedSettings s -> hooks s `prefix_of` hooks s' -> openCalls s' = openCalls s -> shrinks s s'.
Proof.
  intros Ho Hs Hc Hd Hr Hh Hop. split; [split|]; rewrite ?Ho, ?Hs; try congruence; try done.
  intros o st Hl. exists st. by split.
Qed.

Lemma shrinks_add_hook s h : shrinks s (add_hook s h).
Proof. apply shrinks_same; try done. by apply prefix_app_r. Qed.

Lemma shrinks_set_pc s s' x : shrinks s s' -> shrinks s (set_pc s' x).
Proof. intros H. etrans; [apply H|by apply shrinks_same]. Qed.

Lemma shrinks_update s o f :
  (forall st, objs s !! o = Some st -> grows st (f st)) -> shrinks s (update_obj s o f).
Proof.
  intros Hf. split; [split|]; try done.
  intros i st Hi. rewrite lookup_update_obj, Hi. case_decide; [subst|by exists st].
  exists (f st). split; [done|by apply Hf].
Qed.

Lemma shrinks_closeLocally s o : shrinks s (closeLocally s o).
Proof.
  unfold closeLocally. destruct (objs s !! o) as [st|] eqn:Ho; [|done].
  destruct (died st) eqn:Hd; [done|]. trans (update_obj s o (fun st => kill st ErrNetClosed)).
  - apply shrinks_update. intros st0 H0. simplify_eq. split; [done| |done]. by rewrite Hd.
  - apply shrinks_add_hook.
Qed.

Lemma shrinks_Close s : shrinks s (Close s).1.
Proof.
  unfold Close. destruct (die s) eqn:Hd; [done|]. cbn [fst]. set (s0 := add_hook _ _). set (l := map _ _).
  assert (forall s', shrinks s' (foldl closeLocally s' l)) as Hl.
  { clearbody l. induction l as [|o l IH]; [done|]. intros s'. simpl. etrans; [apply shrinks_closeLocally|apply IH]. }
  trans s0; [|etrans; [apply Hl|]].
  - split; [split|]; simpl; try done; [intros o st Ho; by exists st|by apply prefix_app_r].
  - split; [split|split]; simpl; try done; [intros o st Ho; by exists st|apply map_empty_subseteq].
Qed.

Lemma shrinks_writeControlFrame s f : shrinks s (writeControlFrame ent s f).1.
Proof.
  unfold writeControlFrame. destruct (control_write _ _ _ _) as [w' [e|]]; cbn [fst].
  - etrans; [|apply shrinks_Close]. by apply shrinks_same.
  - by apply shrinks_same.
Qed.

Lemma shrinks_delete s id : shrinks s (set_streams s (delete id (streams s))).
Proof.
  split; [split|split]; simpl; try done; [intros o st Ho; by exists st|apply delete_subseteq].
Qed.

Lemma shrinks_closeWithError s o err : shrinks s (closeWithError ent s o err).1.
Proof.
  unfold closeWithError, streamClosed. destruct (objs s !! o) as [st|] eqn:Ho; [|done].
  destruct (died st) eqn:Hd; [done|]. set (s1 := update_obj _ _ _).
  trans s1.
  { apply shrinks_update. intros st0 H0. simplify_eq. split; [done| |done]. by rewrite Hd. }
  destruct (die s1); [apply shrinks_add_hook|].
  pose proof (shrinks_writeControlFrame s1 (newFrame cmdFIN (st_id st))) as H.
  destruct (writeControlFrame _ _ _) as [s2 e]. cbn [fst] in *.
  etrans; [apply H|]. etrans; [apply (shrinks_delete s2 (st_id st))|apply shrinks_add_hook].
Qed.

Lemma shrinks_count s o n : shrinks s (count_tx s o n) /\ shrinks s (count_rx s o n).
Proof.
  unfold count_tx, count_rx. destruct (objs s !! o) as [st|]; [|done].
  split; (etrans; [|by apply shrinks_update]); case_match; by try apply shrinks_same.
Qed.

Lemma shrinks_Read s o k s' d e : stream_Read s o k = Some (s', d, e) -> shrinks s s'.
Proof.
  unfold stream_Read. destruct (objs s !! o) as [st|]; [|done].
  destruct (Pipe.read_begin _); [by intros [= <-]|].
  destruct (Pipe.writing (st_pipe st)) as [ws|]; [|done].
  destruct (Pipe.wants_reader ws); [|done]. simpl. intros [= <- _ _].
  case_match; [etrans; [|apply shrinks_count]|]; by apply shrinks_update.
Qed.

Lemma shrinks_Write s o b : shrinks s (stream_Write ent s o b).1.1.
Proof.
  unfold stream_Write. repeat case_match; simplify_eq; try done.
  - etrans; [|apply shrinks_count]. by apply shrinks_same.
  - by apply shrinks_same.
Qed.

Lemma shrinks_Handshake s o err :
  shrinks s (HandshakeSuccess ent s o).1 /\ shrinks s (HandshakeFailure ent s o err).1.
Proof.
  assert (shrinks s (update_obj s o set_reported)) as H by by apply shrinks_update.
  unfold HandshakeSuccess, HandshakeFailure. destruct (objs s !! o); [|done].
  split; repeat case_match; try done; (etrans; [apply H|apply shrinks_writeControlFrame]).
Qed.

(** A turn of the receive loop either registers no stream, or accepts one under a
    fresh id. *)
Definition accepts s s' : Prop :=
  exists s1 id, shrinks s s1 /\ streams s1 = streams s /\ receivedSettings s1 = receivedSettings s /\
    streams s !! id = None /\
    (isClient s = false -> receivedSettings s = true /\ Z.of_nat (size (streams s)) < maxServerStreams) /\
    s' = loop_top (add_spawned (set_streams (alloc s1 (newStream id)).1 (<[id := length (objs s1)]> (streams s1)))
           (length (objs s1))).

Definition turns s s' : Prop := shrinks s s' \/ accepts s s'.

Lemma shrinks_finish s : shrinks s (finish s).
Proof. etrans; [apply shrinks_Close|]. by apply (shrinks_same _ (finish s)). Qed.

Lemma shrinks_loop_top s : shrinks s (loop_top s).
Proof. unfold loop_top. destruct (pc s); try done. destruct (die s); [apply shrinks_finish|done]. Qed.

Lemma shrinks_end_turn s (t : Session C * option (option goerror)) : shrinks s t.1 -> shrinks s (end_turn t).
Proof.
  destruct t as [s' [e|]]; simpl; intros H; (etrans; [apply H|]); [apply shrinks_finish|apply shrinks_loop_top].
Qed.

Lemma shrinks_control s s0 f (k : Session C -> Session C * option (option goerror)) :
  shrinks s0 s -> (forall s', shrinks s0 s' -> shrinks s0 (k s').1) ->
  shrinks s0 (match writeControlFrame ent s f with
              | (s', Some e) => return_ s' (Some e) | (s', None) => k s' end).1.
Proof.
  intros Hs Hk. pose proof (shrinks_writeControlFrame s f) as H.
  destruct (writeControlFrame _ _ _) as [s' [e|]]; cbn [fst] in *; [|apply Hk]; by etrans.
Qed.

Lemma shrinks_payload s h d : shrinks s (on_payload ent md5hex clientDebugPaddingScheme s h d).1.
Proof.
  unfold on_payload. repeat (destruct (bool_decide _)); try done.
  - unfold recv_PSH. repeat case_match; try done. simpl.
    by apply shrinks_set_pc, shrinks_update.
  - unfold recv_SYNACK. case_match; [|done]. apply shrinks_closeWithError.
  - unfold recv_Settings. destruct (isClient s); [done|].
    assert (shrinks s (set_receivedSettings s true)) as Hr.
    { split; [split|]; simpl; try done. intros o st Ho. by exists st. }
    assert (forall s' v, shrinks s s' -> shrinks s (check_version ent s' v).1) as Hv.
    { intros s' v Hs'. unfold check_version. repeat (case_match; try done).
      all: match goal with E : writeControlFrame _ ?x ?f = _ |- _ =>
        pose proof (shrinks_writeControlFrame x f) as Hw; rewrite E in Hw; cbn [fst go_on return_] in * end.
      all: etrans; [|apply Hw]; etrans; [apply Hs'|by apply shrinks_same]. }
    cbv zeta. case_match; [by apply Hv|]. apply shrinks_control; [done|]. intros s' Hs'. by apply Hv.
  - unfold recv_UpdatePaddingScheme. repeat case_match; try done. by apply shrinks_same.
  - unfold recv_ServerSettings. repeat case_match; try done; by apply shrinks_same.
Qed.

Lemma turns_header s h : turns s (end_turn (on_header ent s h)).
Proof.
  unfold on_header. set (s1 := if bool_decide (Cmd h = cmdSYNACK) then _ else s).
  assert (shrinks s s1 /\ streams s1 = streams s /\ receivedSettings s1 = receivedSettings s /\
    isClient s1 = isClient s) as (H1 & Hst & Hrs & Hc).
  { subst s1. case_match; [|done]. split; [by apply shrinks_same|done]. }
  clearbody s1. destruct (has_payload h).
  { left. apply shrinks_end_turn. simpl. etrans; [apply H1|by apply shrinks_same]. }
  destruct (bool_decide _); [|left; apply shrinks_end_turn].
  - unfold recv_SYN. destruct (negb _ && _) eqn:Hset.
    { left. pose proof (shrinks_writeControlFrame s1 (Frame cmdAlert 0 (to_bytes "client did not send its settings"))) as H.
      destruct (writeControlFrame _ _ _) as [s2 e]. apply shrinks_end_turn.
      etrans; [apply H1|apply H]. }
    unfold acceptStream. destruct (streams s1 !! StreamID h) as [o|] eqn:Hl; [left; by apply shrinks_end_turn|].
    destruct (negb _ && (_ <=? _)) eqn:Hcap.
    + left. apply shrinks_end_turn. by apply shrinks_control.
    + right. exists s1, (StreamID h). rewrite <- Hst. split_and!; try done.
      rewrite <- Hc, <- Hrs. intros E. rewrite E in Hset, Hcap. simpl in *.
      split; [by destruct (receivedSettings s1)|lia].
  - destruct (bool_decide _).
    + unfold recv_FIN. case_match; (etrans; [apply H1|]); [|apply shrinks_delete].
      etrans; [apply shrinks_delete|apply shrinks_closeLocally].
    + destruct (bool_decide _); [by apply shrinks_control|done].
Qed.

Lemma turns_recv_step s : turns s (recv_step ent md5hex clientDebugPaddingScheme s).
Proof.
  unfold recv_step. destruct (pc s) as [|h|o|] eqn:Hpc; [| | |by left].
  - destruct (read_header _) as [[h r]|]; [|by left].
    destruct (turns_header (set_inp s r) h) as [H|(s1 & id & H & Hrest)]; [left|right; exists s1, id; split; [|done]];
      (etrans; [|apply H]); by apply shrinks_same.
  - destruct (read_full _ _) as [[d r]|]; [|by left]. left.
    apply shrinks_end_turn. etrans; [|apply shrinks_payload]. by apply shrinks_same.
  - left. repeat case_match; try done; (etrans; [|apply shrinks_loop_top]); try (by apply shrinks_same).
    by apply shrinks_set_pc, shrinks_update.
Qed.

Lemma later_accepts s s' : accepts s s' -> later s s'.
Proof.
  intros (s1 & id & [H _] & _ & _ & _ & _ & ->). etrans; [apply H|]. etrans; [|apply shrinks_later, shrinks_loop_top]. split; try done.
  intros o st Ho. exists st. split; [|done]. simpl. by apply lookup_app_l_Some.
Qed.

Lemma later_turns s s' : turns s s' -> later s s'.
Proof. intros [[H _]|H]; [done|by apply later_accepts]. Qed.

Lemma later_same s s' :
  objs s' = objs s -> isClient s' = isClient s -> die s' = die s -> receivedSettings s' = receivedSettings s -> hooks s' = hooks s ->
  (forall o, is_Some (objs s !! o) -> openCalls s !! o = None -> openCalls s' !! o = None) -> later s s'.
Proof. intros Ho ? Hd ? Hh Hop. split; rewrite ?Ho, ?Hd, ?Hh; try done; [intros o st Hst; by exists st|congruence]. Qed.

Lemma later_open_SYN s : later s (open_SYN ent s).1.
Proof.
  unfold open_SYN. destruct (die s) eqn:Hd; [done|]. simpl. set (s2 := if _ && _ then _ else _).
  assert (later s s2) as H2.
  { subst s2. case_match; (split; simpl; [|done..]);
      intros o st Ho; exists st; (split; [by apply lookup_app_l_Some|done]). }
  destruct (shrinks_writeControlFrame s2 (newFrame cmdSYN (uint32 (streamId s + 1)))) as [H3 _].
  destruct (writeControlFrame _ _ _) as [s3 [e|]]; cbn [fst] in *; by etrans.
Qed.

Lemma later_register s id o : later s (open_register s id o).1.
Proof. unfold open_register. destruct (die s) eqn:Hd; [done|]. by apply later_same. Qed.

Lemma later_OpenStream s : later s (OpenStream ent s).1.
Proof.
  unfold OpenStream. pose proof (later_open_SYN s) as H. destruct (open_SYN ent s) as [s1 [[id o]|e]]; [|done].
  etrans; [exact H|]. etrans; [|apply later_register]. by apply later_same.
Qed.

Lemma openCalls_SYN s :
  openCalls (open_SYN ent s).1 = openCalls s /\ match (open_SYN ent s).2 with inl (_, o) => o = length (objs s) | inr _ => True end.
Proof.
  unfold open_SYN. destruct (die s); [done|]. cbn [alloc]. set (s2 := if _ && _ then _ else _).
  assert (openCalls s2 = openCalls s) as E2 by (subst s2; by case_match).
  destruct (shrinks_writeControlFrame s2 (newFrame cmdSYN (uint32 (streamId s + 1)))) as (_ & _ & E).
  destruct (writeControlFrame _ _ _) as [s3 [e|]]; cbn [fst snd] in *; (split; [congruence|done]).
Qed.

Lemma later_open_start s : later s (open_start ent s).
Proof.
  unfold open_start. pose proof (later_open_SYN s) as [H1 H2 H3 H4 H5 H6]. pose proof (openCalls_SYN s) as [_ Ho].
  destruct (open_SYN ent s) as [s1 [[id o]|e]]; [|by split]. cbn [fst snd] in *. split; try done.
  intros i Hi Hn. simpl. rewrite lookup_insert_ne; [by apply H6|]. intros <-. subst o. by apply lookup_lt_is_Some in Hi; lia.
Qed.

Lemma later_open_next s o : later s (open_next s o).
Proof.
  unfold open_next. destruct (openCalls s !! o) as [[id []]|] eqn:E; [..|done].
  - etrans; [apply (later_register s id o)|apply later_same; try done]. intros i _ Hi. simpl. apply lookup_delete_None. right.
    unfold open_register in Hi. by destruct (die s).
  - apply later_same; try done. intros i _ Hi. simpl. rewrite lookup_insert_ne; congruence.
Qed.

(** Parts of a call of [OpenStream]. *)
Definition opens_stream (a : op) : bool := match a with OpOpen | OpOpenNext _ => true | _ => false end.

Lemma exec_shrinks s a :
  opens_stream a = false -> a <> OpRecv -> shrinks s (exec ent md5hex clientDebugPaddingScheme s a).
Proof.
  pose proof (shrinks_finish s) as Hf.
  intros Ho Hr. unfold exec. destruct (held s a); [done|]. destruct a; simpl; try done.
  - by apply shrinks_same.
  - unfold recv_error. by case_match.
  - by apply shrinks_same.
  - apply shrinks_Close.
  - unfold synTimeout. case_match; [apply shrinks_Close|done].
  - apply shrinks_closeWithError.
  - destruct (stream_Read s o k) as [[[s' d] e]|] eqn:E; [|done]. by eapply shrinks_Read.
  - apply shrinks_Write.
  - apply (shrinks_Handshake s o None).
  - apply (shrinks_Handshake s o err).
  - unfold stream_SetReadDeadline. destruct (objs s !! o); [|done].
    destruct (Pipe.SetReadDeadline _ _ _). by apply shrinks_update.
  - by apply shrinks_update.
Qed.

Lemma exec_later s a : later s (exec ent md5hex clientDebugPaddingScheme s a).
Proof.
  destruct (opens_stream a) eqn:Ho; [destruct a; try done; [apply later_open_start|apply later_open_next]|].
  destruct (decide (a = OpRecv)) as [->|Hr]; [apply later_turns, turns_recv_step|].
  by apply exec_shrinks.
Qed.

(** Only the parts of [OpenStream] change which calls of it are under way. *)
Lemma openCalls_exec s a : opens_stream a = false -> openCalls (exec ent md5hex clientDebugPaddingScheme s a) = openCalls s.
Proof.
  intros Ho. destruct (decide (a = OpRecv)) as [->|Hr]; [|by destruct (exec_shrinks s a Ho Hr) as (_ & _ & ?)].
  change (openCalls (recv_step ent md5hex clientDebugPaddingScheme s) = openCalls s).
  destruct (turns_recv_step s) as [(_ & _ & ?)|(s1 & id & (_ & _ & H) & _ & _ & _ & _ & ->)]; [done|].
  destruct (shrinks_loop_top (add_spawned (set_streams (alloc s1 (newStream id)).1 (<[id := length (objs s1)]> (streams s1))) (length (objs s1))))
    as (_ & _ & ->). exact H.
Qed.

Lemma exec_all_later s l : later s (exec_all ent md5hex clientDebugPaddingScheme s l).
Proof. revert s. induction l as [|a l IH]; intros s; [done|]. etrans; [apply exec_later|apply IH]. Qed.

(** C24.  The life of a stream is a one-way street: whatever operations follow, a
    stream keeps its id; once dead it stays dead and keeps the first cause of its
    death, so that every later write fails with it and puts nothing on the
    connection; and its handshake result is reported to the peer at most once: after
    a report, further reports write nothing. *)
Theorem stream_lifecycle s o st ops :
  objs s !! o = Some st ->
  let s' := exec_all ent md5hex clientDebugPaddingScheme s ops in
  exists st', objs s' !! o = Some st' /\ st_id st' = st_id st /\
    (forall de, died st = true -> dieErr st = Some de -> forall b,
       dieErr st' = Some de /\ exists e, stream_Write ent s' o b = (s', 0, Some e) /\
         (Deadline.closed (writeDeadline st') = false -> e = de)) /\
    (reported st = true -> forall err,
       w (HandshakeSuccess ent s' o).1 = w s' /\ w (HandshakeFailure ent s' o err).1 = w s').
Proof.
  intros Ho s'. destruct (exec_all_later s ops) as [Hl _ _ _ _ _].
  destruct (Hl o st Ho) as (st' & Ho' & [Hid Hdied Hrep]). fold s' in Ho'.
  exists st'. split_and!; [done|done| |].
  - intros de Hd He b. destruct (Hdied Hd) as [_ He']. rewrite He in He'. split; [done|].
    unfold stream_Write. rewrite Ho', He'. case_match; eexists; (split; [done|]); congruence.
  - intros Hr err. unfold HandshakeSuccess, HandshakeFailure. rewrite Ho', (Hrep Hr). simpl.
    by case_match.
Qed.

(** ** The limits of a server *)

Record server_ok s : Prop := {
  sv_client : isClient s = false;
  sv_cap : Z.of_nat (size (streams s)) <= maxServerStreams;
  sv_settings : receivedSettings s = false -> streams s = ∅;
  sv_open : openCalls s = ∅
}.

Lemma server_shrinks s s' : shrinks s s' -> server_ok s -> server_ok s'.
Proof.
  intros ([_ Hc _ Hr _ _] & Hs & Ho) [H1 H2 H3 H4]. split; [congruence| | |congruence].
  - apply map_subseteq_size in Hs. lia.
  - intros E. destruct (receivedSettings s); [by rewrite Hr in E|].
    rewrite H3 in Hs by done. apply (anti_symm (⊆)); [done|apply map_empty_subseteq].
Qed.

Lemma server_accepts s s' : accepts s s' -> server_ok s -> server_ok s'.
Proof.
  intros (s1 & id & ([_ Hc _ _ _ _] & _ & Ho) & Hst & Hrs & Hn & Hg & ->) [H1 H2 H3 H4].
  destruct (Hg H1) as [Hset Hcap]. eapply server_shrinks; [apply shrinks_loop_top|]. split; simpl; [..|congruence].
  - congruence.
  - rewrite Hst, map_size_insert_None by done. lia.
  - by rewrite Hrs, Hset.
Qed.

Lemma server_exec s a :
  a <> OpOpen -> server_ok s -> server_ok (exec ent md5hex clientDebugPaddingScheme s a).
Proof.
  intros Ho Hs. destruct (opens_stream a) eqn:Eo.
  { destruct a as [| | | |o| | | | | | | | | |]; try done. unfold exec. cbn [held op_stream run_op]. unfold open_next.
    by rewrite (sv_open s Hs), lookup_empty. }
  destruct (decide (a = OpRecv)) as [->|Hr].
  - destruct (turns_recv_step s) as [H|H]; [by eapply server_shrinks|by eapply server_accepts].
  - eapply server_shrinks; [by apply exec_shrinks|done].
Qed.

(** C23.  A client cannot make a server session hold more than 1024 open streams,
    nor open any stream before it has sent its settings, whatever frames it sends
    and whatever the handlers do. *)
Theorem server_stream_limits c pf order ops :
  OpOpen ∉ ops ->
  let s := exec_all ent md5hex clientDebugPaddingScheme (start ent false c pf order) ops in
  Z.of_nat (size (streams s)) <= maxServerStreams /\ (receivedSettings s = false -> streams s = ∅).
Proof.
  intros Hops s. cut (server_ok s); [by intros []|]. subst s.
  assert (server_ok (start ent false c pf order)) as H0 by by split.
  revert H0. generalize (start ent false c pf order). induction ops as [|a l IH]; [done|].
  intros s0 H0. apply IH; [set_solver|]. apply server_exec; [set_solver|done].
Qed.

End life.

(** ** The receive loop refines a handler of frames *)

Section refine.
Context {C : Type} `{!NetConn C}.
Variable ent : Z -> nat -> Z.
Variable md5hex : bytes -> string.
Variable clientDebugPaddingScheme : bool.
Implicit Types s : Session C.

Abbreviation recv := (recv_step ent md5hex clientDebugPaddingScheme).

(** What a session does with one whole frame, in terms of frames only. *)
Definition handle_frame s (f : frame) : Session C :=
  let c := cmd f in
  end_turn
    (if bool_decide (c = cmdSYN) then recv_SYN ent s (sid f)
     else if bool_decide (c = cmdFIN) then recv_FIN s (sid f)
     else if bool_decide (c = cmdHeartRequest) then recv_HeartRequest ent s (sid f)
     else if bool_decide (c = cmdSYNACK) then
       let s := set_synDone s false in
       match data f with [] => go_on s | d => recv_SYNACK ent s (sid f) d end
     else match data f with
          | [] => go_on s
          | d =>
              if bool_decide (c = cmdPSH) then recv_PSH s (sid f) d
              else if bool_decide (c = cmdSettings) then recv_Settings ent s d
              else if bool_decide (c = cmdAlert) then return_ s None
              else if bool_decide (c = cmdUpdatePaddingScheme) then
                recv_UpdatePaddingScheme md5hex clientDebugPaddingScheme s d
              else if bool_decide (c = cmdServerSettings) then recv_ServerSettings s d
              else go_on s
          end).

Lemma set_inp_same s x : inp s = x -> set_inp s x = s.
Proof. intros <-. by destruct s. Qed.

Lemma recv_no_payload s f r :
  wf_frame f -> pc s = Reading -> data f = [] ->
  recv (set_inp s (encode f ++ r)) = handle_frame (set_inp s r) f.
Proof.
  intros Hf Hpc He. unfold recv_step. cbn [pc set_inp]. rewrite Hpc. cbn [inp set_inp].
  destruct (read_header_encode f r Hf) as (h & -> & Hc & Hid & Hl). rewrite He in *.
  unfold on_header, handle_frame, has_payload. rewrite Hc, Hid, Hl, He, andb_false_r.
  repeat case_bool_decide; first [done | cmd_clash].
Qed.

Lemma recv_payload s f r :
  wf_frame f -> pc s = Reading -> data f <> [] ->
  recv (recv (set_inp s (encode f ++ r))) = handle_frame (set_inp s r) f.
Proof.
  intros Hf Hpc Hne. unfold recv_step at 2. cbn [pc set_inp]. rewrite Hpc. cbn [inp set_inp].
  destruct (read_header_encode f r Hf) as (h & -> & Hc & Hid & Hl).
  assert (carries_data (cmd f) = true) as Hcd.
  { destruct (carries_data (cmd f)) eqn:E; [done|]. by rewrite (wf_data f Hf E) in Hne. }
  assert ((0 <? len (data f)) = true) as Hpos by (destruct (data f); [done|apply Z.ltb_lt; len_lia]).
  unfold on_header, has_payload. rewrite Hc, Hl, Hcd, Hpos. cbn [andb end_turn go_on loop_top pc set_pc].
  assert (forall s0, inp s0 = (data f ++ r)%list -> recv (set_pc s0 (Payload h)) =
    end_turn (on_payload ent md5hex clientDebugPaddingScheme (set_pc (set_inp s0 r) Reading) h (data f))) as Hp.
  { intros s0 Hi0. unfold recv_step. cbn [pc set_pc inp]. by rewrite Hi0, Hl, read_full_app. }
  rewrite Hp by (by case_bool_decide).
  unfold on_payload, handle_frame. rewrite Hc, Hid.
  assert (forall s0 : Session C, pc s0 = Reading -> set_pc s0 Reading = s0) as Hsame
    by (intros []; simpl; by intros ->).
  destruct (data f) as [|b d] eqn:Ed; [done|].
  unfold carries_data in Hcd.
  repeat case_bool_decide; first [done | cmd_clash | by rewrite Hsame].
Qed.

Lemma recv_frame s f r :
  wf_frame f -> pc s = Reading -> inp s = encode f ++ r ->
  Nat.iter (if decide (data f = []) then 1 else 2) recv s = handle_frame (set_inp s r) f.
Proof.
  intros Hf Hpc Hi. rewrite <- (set_inp_same s _ Hi) at 1.
  case_decide; simpl; [by apply recv_no_payload|by apply recv_payload].
Qed.

(** C10.  The receive loop implements the frame handler: when the next bytes are
    the encoding of a frame, the loop reads the header, waits for the data if there is
    any, and reaches the state in which the whole frame has been handled and
    exactly its bytes consumed.  It needs one turn for a frame without data and
    two for a frame with data. *)
Theorem recv_refines_frames s f r :
  wf_frame f -> pc s = Reading -> die s = false -> inp s = encode f ++ r ->
  Nat.iter (if decide (data f = []) then 1 else 2) recv s = handle_frame (set_inp s r) f.
Proof. intros Hf Hpc _ Hi. by apply recv_frame. Qed.

(** Turns the loop takes for a list of frames. *)
Definition frame_turns (fs : list frame) : nat :=
  list_sum (map (fun f => if decide (data f = []) then 1 else 2)%nat fs).

Lemma recv_waste_frame s f r :
  is_waste f -> pc s = Reading -> die s = false -> inp s = encode f ++ r ->
  Nat.iter (if decide (data f = []) then 1 else 2) recv s = set_inp s r.
Proof.
  intros [Hc Hf] Hpc Hd Hi. rewrite (recv_frame s f r) by done.
  unfold handle_frame. rewrite Hc. simpl. assert (loop_top (set_inp s r) = set_inp s r) by by apply loop_top_open. by destruct (data f).
Qed.

(** Padding is invisible to the receiver: any number of waste frames of any
    length, wherever the sender put them, is consumed without any effect on the
    session other than that the bytes are gone. *)
Theorem waste_invisible s ws r :
  Forall is_waste ws -> pc s = Reading -> die s = false -> inp s = encode_all ws ++ r ->
  Nat.iter (frame_turns ws) recv s = set_inp s r.
Proof.
  intros Hws Hpc Hd. revert s Hpc Hd. induction Hws as [|f ws Hf Hws IH]; intros s Hpc Hd Hi.
  - by rewrite set_inp_same.
  - change (frame_turns (f :: ws)) with ((if decide (data f = []) then 1 else 2) + frame_turns ws)%nat.
    rewrite Nat.add_comm, Nat.iter_add. rewrite encode_all_cons, <- app_assoc in Hi.
    rewrite (recv_waste_frame s f _ Hf Hpc Hd Hi). by rewrite IH.
Qed.

(** ** Settings *)

(** Control frames written one after the other, until one fails. *)
Fixpoint control_writes (pf : PaddingFactory) (wr : Writer C) (fs : list frame) : Writer C * option goerror :=
  match fs with
  | [] => (wr, None)
  | f :: fs =>
      match control_write ent pf wr f with
      | (w', Some e) => (w', Some e)
      | (w', None) => control_writes pf w' fs
      end
  end.

(** What a server answers to the settings of a version 2 client: its padding
    scheme unless the client has it, then its own settings. *)
Definition settings_reply (pf : PaddingFactory) (client_md5 : string) : list frame :=
  (if String.eqb client_md5 (Md5 pf) then [] else [Frame cmdUpdatePaddingScheme 0 (RawScheme pf)]) ++
  [Frame cmdServerSettings 0 (StringMap.ToBytes [("v", "2")])].

Lemma writeControlFrame_None s f w' :
  control_write ent (padding s) (w s) f = (w', None) -> writeControlFrame ent s f = (set_w s w', None).
Proof. unfold writeControlFrame. by intros ->. Qed.

Lemma writeControlFrame_Some s f w' e :
  control_write ent (padding s) (w s) f = (w', Some e) ->
  writeControlFrame ent s f = ((Close (set_w s w')).1, Some e).
Proof. unfold writeControlFrame. by intros ->. Qed.

Lemma finish_fields s : die (finish s) = true /\ pc (finish s) = Returned /\ (die s = false -> streams (finish s) = ∅).
Proof. destruct (Close_fields s) as (? & _ & _ & _ & _ & _ & _ & _ & ?). by split_and!. Qed.

Lemma check_version_2 s w' e :
  control_write ent (padding s) (w s) (Frame cmdServerSettings 0 (StringMap.ToBytes [("v", "2")])) = (w', e) ->
  match e with
  | None => check_version ent s "2" = go_on (set_w (set_peerVersion s 2) w')
  | Some e => exists s', check_version ent s "2" = return_ s' (Some e)
  end.
Proof.
  intros E. unfold check_version. change (Atoi "2") with (Some 2). simpl.
  unfold writeControlFrame. cbn [padding w set_peerVersion]. rewrite E. destruct e; eauto.
Qed.

(** Version negotiation on the server: the settings a client of this
    implementation sends, printed in any order, make the server answer exactly
    [settings_reply] (the padding scheme is pushed exactly when the MD5 sums
    differ) and treat the client as version 2; if an answer cannot be written the
    session is closed. *)
Theorem server_settings_reply s r ProgramVersionName (cl : Session C) order w' e :
  isClient s = false -> pc s = Reading -> die s = false ->
  order ≡ₚ map_to_list (client_settings ProgramVersionName cl) ->
  contains_byte StringMap.nl ProgramVersionName = false ->
  contains_byte StringMap.nl (Md5 (padding cl)) = false ->
  len (StringMap.ToBytes order) <= maxUint16 ->
  inp s = encode (Frame cmdSettings 0 (StringMap.ToBytes order)) ++ r ->
  control_writes (padding s) (w s) (settings_reply (padding s) (Md5 (padding cl))) = (w', e) ->
  let s' := Nat.iter 2 recv s in
  match e with
  | None => s' = set_w (set_peerVersion (set_receivedSettings (set_inp s r) true) 2) w'
  | Some _ => die s' = true /\ pc s' = Returned
  end.
Proof.
  intros Hc Hpc Hd Hp Hn1 Hn2 Hlen Hi Hw.
  assert (StringMap.StringMapFromBytes (StringMap.ToBytes order) = client_settings ProgramVersionName cl) as Em.
  { apply StringMap.from_to_bytes_any; [done|]. unfold client_settings.
    repeat (apply map_Forall_insert_2; [done|]). apply map_Forall_empty. }
  destruct (StringMap.ToBytes order) as [|b d] eqn:Eo.
  { apply (f_equal (lookup "v")) in Em. unfold client_settings in Em. by rewrite lookup_insert in Em. }
  assert (wf_frame (Frame cmdSettings 0 (b :: d))) as Hf by (split; simpl; try done; by split).
  pose proof (recv_frame s _ r Hf Hpc Hi) as Hr. rewrite decide_False in Hr by done.
  cbv zeta. rewrite Hr. clear Hr. unfold handle_frame. cbn [cmd data].
  rewrite !bool_decide_false by done. rewrite bool_decide_true by done.
  unfold recv_Settings. cbn [isClient set_inp]. rewrite Hc, Em.
  change (get_or_zero (client_settings ProgramVersionName cl) "v") with "2".
  change (get_or_zero (client_settings ProgramVersionName cl) "padding-md5") with (Md5 (padding cl)).
  cbv zeta. cbn [padding set_receivedSettings set_inp]. unfold settings_reply in Hw.
  assert (forall s1, die s1 = false -> control_writes (padding s1) (w s1)
      [Frame cmdServerSettings 0 (StringMap.ToBytes [("v", "2")])] = (w', e) ->
    match e with
    | None => end_turn (check_version ent s1 "2") = set_w (set_peerVersion s1 2) w'
    | Some _ => die (end_turn (check_version ent s1 "2")) = true /\
                pc (end_turn (check_version ent s1 "2")) = Returned
    end) as Hv.
  { intros s1 Hd1 H1. cbn [control_writes] in H1.
    destruct (control_write ent (padding s1) (w s1) _) as [w1 e1] eqn:E1.
    apply (check_version_2 s1) in E1. destruct e1; simplify_eq.
    - destruct E1 as [s2 ->]. by destruct (finish_fields s2) as (? & ? & _).
    - rewrite E1. by apply loop_top_open. }
  destruct (String.eqb _ _).
  - exact (Hv (set_receivedSettings (set_inp s r) true) Hd Hw).
  - cbn [app control_writes] in Hw. destruct (control_write _ _ _ _) as [w1 [e1|]] eqn:E1.
    + simplify_eq. rewrite (writeControlFrame_Some (set_receivedSettings (set_inp s r) true) _ w' e1) by done.
      simpl. split; [|done]. apply finish_fields.
    + rewrite (writeControlFrame_None (set_receivedSettings (set_inp s r) true) _ w1) by done.
      exact (Hv (set_w (set_receivedSettings (set_inp s r) true) w1) Hd Hw).
Qed.

(** The scheme a client uses after the update [raw]. *)
Definition adopted (cur : PaddingFactory) (raw : bytes) : PaddingFactory :=
  if clientDebugPaddingScheme then cur else default cur (NewPaddingFactory md5hex raw).

Lemma handle_update s pf :
  isClient s = true -> die s = false ->
  handle_frame s (Frame cmdUpdatePaddingScheme 0 (RawScheme pf)) =
    set_padding s (adopted (padding s) (RawScheme pf)).
Proof.
  intros Hc Hd. assert (set_padding s (padding s) = s) as Hsame by by destruct s.
  assert (forall p, end_turn (go_on (set_padding s p)) = set_padding s p) as Het by (intros p; by apply loop_top_open).
  assert (end_turn (go_on s) = s) as Het0 by (by apply loop_top_open).
  unfold handle_frame, adopted. cbn [cmd data]. rewrite !bool_decide_false, bool_decide_true by done.
  destruct (RawScheme pf) as [|b d]; [rewrite Het0; by destruct clientDebugPaddingScheme|].
  unfold recv_UpdatePaddingScheme, UpdatePaddingScheme. rewrite Hc.
  destruct clientDebugPaddingScheme; cbn [negb andb]; [by rewrite Het0|].
  destruct (NewPaddingFactory md5hex (b :: d)); cbn [default]; [apply Het|by rewrite ?Hsame, ?Het, ?Het0, ?Hsame].
Qed.

(** Version negotiation on the client: the answer of a server to its settings
    makes the client adopt version 2 and, when its padding scheme was outdated and
    the debug switch is off, the server's scheme, provided that scheme is well formed;
    nothing else changes. *)
Theorem client_adopts_reply cl pf r :
  isClient cl = true -> pc cl = Reading -> die cl = false -> len (RawScheme pf) <= maxUint16 ->
  inp cl = encode_all (settings_reply pf (Md5 (padding cl))) ++ r ->
  Nat.iter (frame_turns (settings_reply pf (Md5 (padding cl)))) recv cl =
    set_peerVersion
      (set_padding (set_inp cl r)
         (if String.eqb (Md5 (padding cl)) (Md5 pf) then padding cl else adopted (padding cl) (RawScheme pf))) 2.
Proof.
  intros Hc Hpc Hd Hlen Hi. unfold settings_reply in *.
  set (f2 := Frame cmdServerSettings 0 (StringMap.ToBytes [("v", "2")])) in *.
  assert (wf_frame f2) as Hf2 by (by repeat split).
  assert (forall s, isClient s = true -> pc s = Reading -> die s = false -> inp s = encode f2 ++ r ->
    Nat.iter 2 recv s = set_peerVersion (set_inp s r) 2) as H2.
  { intros s Hc' Hpc' Hd' Hi'. pose proof (recv_frame s f2 r Hf2 Hpc' Hi') as E.
    rewrite decide_False in E by done. rewrite E. unfold handle_frame, recv_ServerSettings.
    cbn [isClient set_inp]. rewrite Hc'. by apply loop_top_open. }
  destruct (String.eqb _ _).
  - change (frame_turns ([] ++ [f2])) with 2%nat. cbn [app] in Hi.
    rewrite encode_all_cons, app_nil_r in Hi. rewrite (H2 cl) by done. by destruct cl.
  - set (f1 := Frame cmdUpdatePaddingScheme 0 (RawScheme pf)) in *.
    assert (wf_frame f1) as Hf1 by (split; simpl; try done; by split).
    cbn [app] in *. rewrite !encode_all_cons, <- !app_assoc in Hi. cbn [encode_all map concat app] in Hi.
    change (frame_turns [f1; f2]) with ((if decide (data f1 = []) then 1 else 2) + 2)%nat.
    rewrite Nat.add_comm, Nat.iter_add, (recv_frame cl f1 _ Hf1 Hpc Hi).
    subst f1. rewrite handle_update by done. rewrite H2 by done. done.
Qed.

(** ** Opening streams *)

(** What a server does with a SYN, on every branch: without settings it sends
    an alert and closes the session; a SYN for an open stream changes nothing; below the
    limit a fresh stream is registered under its id and its handler is started;
    at the limit the peer is told (a SYNACK with an error for version 2, a FIN
    before) and nothing else changes, unless that write fails, which closes
    the session. *)
Theorem server_syn s id r :
  isClient s = false -> pc s = Reading -> die s = false -> is_uint32 id ->
  inp s = encode (newFrame cmdSYN id) ++ r ->
  let s' := recv s in
  let s0 := set_inp s r in
  (receivedSettings s = false ->
     die s' = true /\ pc s' = Returned /\ streams s' = ∅) /\
  (receivedSettings s = true ->
     match streams s !! id with
     | Some _ => s' = s0
     | None =>
         if Z.of_nat (size (streams s)) <? 1024 then
           s' = add_spawned (set_streams (set_objs s0 (objs s ++ [newStream id]))
                               (<[id := length (objs s)]> (streams s))) (length (objs s))
         else
           let f := if 2 <=? peerVersion s then Frame cmdSYNACK id (to_bytes "too many streams")
                    else newFrame cmdFIN id in
           match control_write ent (padding s) (w s) f with
           | (w', None) => s' = set_w s0 w'
           | (_, Some _) => die s' = true /\ pc s' = Returned /\ streams s' = ∅
           end
     end).
Proof.
  intros Hc Hpc Hd Hid Hi s' s0.
  assert (wf_frame (newFrame cmdSYN id)) as Hf by by split.
  pose proof (recv_frame s _ r Hf Hpc Hi) as Hr. rewrite decide_True in Hr by done.
  change (s' = handle_frame s0 (newFrame cmdSYN id)) in Hr. rewrite Hr.
  unfold handle_frame. cbn [cmd newFrame sid]. rewrite bool_decide_true by done. unfold recv_SYN.
  cbn [isClient receivedSettings set_inp s0]. rewrite Hc. split; intros Hset; rewrite Hset; cbn [negb andb].
  - pose proof (Close_fields (writeControlFrame ent s0 (Frame cmdAlert 0 (to_bytes "client did not send its settings"))).1) as Hcf.
    unfold writeControlFrame in *. destruct (control_write _ _ _ _) as [w1 [e|]]; cbn [fst] in *.
    + destruct (Close_fields (set_w s0 w1)) as (Hd1 & _ & _ & _ & _ & _ & _ & _ & Hs1).
      destruct (finish_fields (Close (set_w s0 w1)).1) as (? & ? & _). split_and!; [done|done|].
      simpl. unfold Close at 1. rewrite Hd1. by apply Hs1.
    + destruct (finish_fields (set_w s0 w1)) as (? & ? & Hs1). split_and!; [done|done|by apply Hs1].
  - unfold acceptStream. change (streams s0) with (streams s). change (isClient s0) with (isClient s).
    destruct (streams s !! id); [by apply loop_top_open|]. rewrite Hc. cbn [negb andb]. change maxServerStreams with 1024. rewrite Z.ltb_antisym.
    destruct (1024 <=? _); cbn [negb]; [|by apply loop_top_open].
    unfold refuseStream, writeControlFrame. change (peerVersion s0) with (peerVersion s).
    change (padding s0) with (padding s). change (w s0) with (w s).
    destruct (control_write _ _ _ _) as [w1 [e|]]; [|by apply loop_top_open].
    destruct (Close_fields (set_w s0 w1)) as (Hd1 & _ & _ & _ & _ & _ & _ & _ & Hs1).
    destruct (finish_fields (Close (set_w s0 w1)).1) as (? & ? & _). split_and!; [done|done|].
    simpl. unfold Close at 1. rewrite Hd1. by apply Hs1.
Qed.

(** [OpenStream] announces a stream before it registers it: a refusal that comes in between
    finds no stream to close.  It still cancels the SYN watcher, so that the stream is then registered
    as if nothing had happened, and neither an error nor the timeout ends the wait of its user. *)
Theorem early_refusal_lost s o id text r :
  pc s = Reading -> die s = false -> is_uint32 id -> to_bytes text <> [] -> len (to_bytes text) <= maxUint16 ->
  inp s = encode (Frame cmdSYNACK id (to_bytes text)) ++ r ->
  openCalls s !! o = Some (id, true) -> streams s !! id = None ->
  let s' := Nat.iter 2 recv s in
  s' = set_synDone (set_inp s r) false /\ streams (open_next s' o) !! id = Some o /\ objs (open_next s' o) = objs s.
Proof.
  intros Hpc Hd Hid Hne Hlen Hi Ho Hs s'.
  assert (wf_frame (Frame cmdSYNACK id (to_bytes text))) as Hf by by split.
  pose proof (recv_frame s _ r Hf Hpc Hi) as Hr. rewrite decide_False in Hr by done.
  assert (s' = set_synDone (set_inp s r) false) as Es.
  { unfold s'. rewrite Hr. unfold handle_frame. cbn [cmd data sid]. rewrite !bool_decide_false, bool_decide_true by done.
    destruct (to_bytes text) as [|b d]; [done|]. unfold recv_SYNACK. cbn [streams set_synDone set_inp]. rewrite Hs. by apply loop_top_open. }
  split; [done|]. rewrite Es. unfold open_next, open_register. cbn [openCalls set_synDone set_inp die streams objs]. rewrite Ho, Hd.
  split; [|done]. simpl. by rewrite lookup_insert_eq.
Qed.

(** ** Data of a stream *)

(** A reader that reads with a buffer of [k] bytes while data is offered. *)
Fixpoint read_all (fuel : nat) s (o k : nat) : list bytes * Session C :=
  match fuel with
  | O => ([], s)
  | S fuel =>
      match stream_Read s o k with
      | Some (s', d, None) => let '(ds, s'') := read_all fuel s' o k in (d :: ds, s'')
      | _ => ([], s)
      end
  end.

(** The stream [o] is open for reading and the loop offers it [ws]. *)
Record offered s (o : nat) (ws : Pipe.wstate) : Prop := {
  of_stream : exists st, objs s !! o = Some st /\ Pipe.writing (st_pipe st) = Some ws /\
    Pipe.done (st_pipe st) = false /\ Deadline.closed (Pipe.readDeadline (st_pipe st)) = false /\
    dieErr st = None;
  of_pc : pc s = Piping o
}.

(** Reading changes neither the table nor the input nor what is on the wire. *)
Definition same_session s s' : Prop :=
  streams s' = streams s /\ inp s' = inp s /\ w s' = w s /\ die s' = die s.

#[local] Instance same_session_trans : Transitive same_session.
Proof. intros a b c (? & ? & ? & ?) (? & ? & ? & ?). split_and!; congruence. Qed.

Lemma count_tx_offered s o n ws :
  offered s o ws -> offered (count_tx s o n) o ws /\ same_session s (count_tx s o n).
Proof.
  intros [(st & Ho & Hst) Hpc]. unfold count_tx. rewrite Ho.
  set (s1 := if CountIdentity st then _ else s).
  assert (objs s1 = objs s /\ pc s1 = pc s /\ same_session s s1) as (Ho1 & Hp1 & Hs1)
    by (subst s1; by case_match).
  split; [|done]. split; [|by etrans].
  eexists. rewrite lookup_update_obj, decide_True, Ho1, Ho by done. by split.
Qed.

Lemma read_offered s o k ws :
  offered s o ws -> Pipe.wants_reader ws = true ->
  exists s', stream_Read s o k = Some (s', (Pipe.transfer ws k).1, None) /\
    offered s' o (Pipe.transfer ws k).2 /\ same_session s s'.
Proof.
  intros [(st & Ho & Hw & Hd & Hdl & He) Hpc] Hwr. unfold stream_Read, Pipe.read_begin.
  rewrite Ho, Hd, Hdl, Hw, Hwr. destruct (Pipe.transfer ws k) as [d ws'] eqn:Et. cbn [fst snd].
  set (s1 := update_obj s o _).
  assert (offered s1 o ws') as H1.
  { split; [|done]. eexists. subst s1. rewrite lookup_update_obj, decide_True, Ho by done. by split. }
  destruct (count_tx_offered s1 o (len d) ws' H1) as [H2 H3]. rewrite He.
  exists (if 0 <? len d then count_tx s1 o (len d) else s1). split; [by destruct (len d =? 0)|].
  by case_match.
Qed.

Lemma read_all_drain fuel s o k ws :
  offered s o ws ->
  exists s', read_all fuel s o k = ((Pipe.drain fuel k ws).1, s') /\
    (Pipe.wants_reader (Pipe.drain fuel k ws).2 = false -> offered s' o (Pipe.drain fuel k ws).2) /\
    same_session s s'.
Proof.
  revert s ws. induction fuel as [|fuel IH]; intros s ws Hof.
  - exists s. cbn [read_all Pipe.drain]. by destruct (Pipe.wants_reader ws).
  - cbn [read_all Pipe.drain]. destruct (Pipe.wants_reader ws) eqn:Hwr.
    + destruct (read_offered s o k ws Hof Hwr) as (s1 & -> & Hof1 & Hs1).
      destruct (Pipe.transfer ws k) as [d ws']. cbn [fst snd] in *.
      destruct (IH s1 ws' Hof1) as (s2 & -> & Hof2 & Hs2).
      destruct (Pipe.drain fuel k ws') as [ds ws'']. exists s2. split_and!; [done|done|by etrans].
    + exists s. split_and!; [|done|done]. destruct Hof as [(st & Ho & Hw & Hd & Hdl & He) _].
      unfold stream_Read, Pipe.read_begin. by rewrite Ho, Hd, Hdl, Hw, Hwr.
Qed.

(** C11.  Data reaches its stream: when a data frame for an open stream arrives, a
    handler that keeps reading with any non-empty buffer gets exactly the payload,
    in order, the receive loop then goes on with the next frame, and meanwhile the
    loop stands still and neither the table nor the connection changes. *)
Theorem psh_delivered s id o st d r k :
  pc s = Reading -> die s = false -> is_uint32 id -> d <> [] -> len d <= maxUint16 -> (0 < k)%nat ->
  inp s = encode (Frame cmdPSH id d) ++ r ->
  streams s !! id = Some o -> objs s !! o = Some st -> stream_ok st -> died st = false ->
  Deadline.closed (Pipe.readDeadline (st_pipe st)) = false ->
  Deadline.closed (Pipe.writeDeadline (st_pipe st)) = false ->
  let s1 := Nat.iter 2 recv s in
  let '(ds, s2) := read_all (S (length d)) s1 o k in
  recv s1 = s1 /\ concat ds = d /\
  pc (recv s2) = Reading /\ inp (recv s2) = r /\ streams (recv s2) = streams s /\ w (recv s2) = w s.
Proof.
  intros Hpc Hd Hid Hne Hlen Hk Hi Hs Ho Hst Hdd Hrd Hwd.
  assert (wf_frame (Frame cmdPSH id d)) as Hf by by split.
  pose proof (recv_frame s _ r Hf Hpc Hi) as Hr. rewrite decide_False in Hr by done.
  cbv zeta. set (s1 := Nat.iter 2 recv s) in *. set (ws := Pipe.MkWstate d 0 true).
  assert (offered s1 o ws /\ same_session (set_inp s r) s1) as [Hof Hsame].
  { subst s1. rewrite Hr. unfold handle_frame. cbn [cmd data sid]. destruct d as [|b d]; [done|].
    rewrite !bool_decide_false, bool_decide_true by done. unfold recv_PSH. cbn [streams set_inp objs].
    rewrite Hs, Ho. unfold Pipe.write_begin. rewrite Hwd, (so_pipe st Hst), Hdd.
    cbn [end_turn go_on]. split; [|done]. split; [|done]. eexists.
    split; [refine (eq_trans (lookup_update_obj (set_inp s r) o _ o) _); rewrite decide_True by done;
            cbn [objs set_inp]; rewrite Ho; reflexivity|]. split_and!; try done.
    - by rewrite <- Hdd, <- (so_pipe st Hst).
    - destruct (dieErr st) eqn:E; [|done]. exfalso.
      assert (died st = true) by (apply (so_err st Hst); congruence). congruence. }
  destruct (read_all_drain (S (length d)) s1 o k ws Hof) as (s2 & -> & Hof2 & Hs2).
  pose proof (Pipe.drain_complete (S (length d)) k ws Hk) as Hdr.
  destruct (Pipe.drain _ _ _) as [ds ws']. cbn [fst snd] in *.
  destruct Hdr as (Hc & Hwr & _); [simpl; lia|simpl; lia|].
  destruct (Hof2 Hwr) as [(st2 & Ho2 & Hw2 & _) Hpc2].
  destruct Hof as [(st1 & Ho1 & Hw1 & Hd1 & _) Hpc1].
  unfold recv_step. rewrite Hpc1, Hpc2, Ho1, Ho2, Hw1, Hw2, Hwr, Hd1. assert (Pipe.wants_reader ws = true) as -> by done. cbn [negb orb].
  destruct (same_session_trans _ _ _ Hsame Hs2) as (Es & Ei & Ew & Ed). rewrite loop_top_open by (simpl in *; congruence). by split_and!.
Qed.

End refine.

(** ** Sample runs *)

Abbreviation sample := (exec_all sample_ent sample_md5 false sample_server).

Lemma stream_lifecycle_witness :
  let s := sample (sample_ops ++ [OpStreamClose 0]) in
  let s' := exec_all sample_ent sample_md5 false s [OpRecv; OpClose] in
  exists st st', objs s !! 0%nat = Some st /\ objs s' !! 0%nat = Some st' /\ st_id st' = st_id st /\
    (forall de, died st = true -> dieErr st = Some de -> forall b,
       dieErr st' = Some de /\ exists e, stream_Write sample_ent s' 0 b = (s', 0, Some e) /\
         (Deadline.closed (writeDeadline st') = false -> e = de)) /\
    (reported st = true -> forall err,
       w (HandshakeSuccess sample_ent s' 0).1 = w s' /\ w (HandshakeFailure sample_ent s' 0 err).1 = w s').
Proof.
  intros s s'. destruct (objs s !! 0%nat) as [st|] eqn:E; [|exfalso; vm_compute in E; discriminate E].
  destruct (stream_lifecycle sample_ent sample_md5 false s 0 st [OpRecv; OpClose] E) as (st' & H).
  exists st, st'. split; [reflexivity|exact H].
Defined.

Lemma server_stream_limits_witness :
  let s := sample sample_ops in
  Z.of_nat (size (streams s)) <= maxServerStreams /\ (receivedSettings s = false -> streams s = ∅).
Proof.
  apply (server_stream_limits sample_ent sample_md5 false plain_new (default_factory sample_md5) [] sample_ops).
  apply (bool_decide_unpack (OpOpen ∉ sample_ops)). vm_compute. exact I.
Defined.

(** The server after the settings of the client, with [x] still to be read. *)
Definition sample_ready (x : bytes) : Session PlainConn :=
  set_inp (sample [OpArrive sample_input; OpRecv; OpRecv]) x.

Lemma recv_refines_frames_witness :
  Nat.iter 1 (recv_step sample_ent sample_md5 false) (sample_ready (encode (newFrame cmdSYN 7) ++ [x02])) =
  handle_frame sample_ent sample_md5 false (sample_ready [x02]) (newFrame cmdSYN 7).
Proof.
  apply (recv_refines_frames sample_ent sample_md5 false
    (sample_ready (encode (newFrame cmdSYN 7) ++ [x02])) (newFrame cmdSYN 7) [x02]).
  - repeat split; vm_compute; congruence.
  - vm_compute. reflexivity.
  - vm_compute. reflexivity.
  - reflexivity.
Defined.

Lemma waste_invisible_witness :
  Nat.iter (frame_turns [waste_frame 3; waste_frame 0]) (recv_step sample_ent sample_md5 false)
    (sample_ready (encode_all [waste_frame 3; waste_frame 0] ++ [x02])) = sample_ready [x02].
Proof.
  apply (waste_invisible sample_ent sample_md5 false
    (sample_ready (encode_all [waste_frame 3; waste_frame 0] ++ [x02])) [waste_frame 3; waste_frame 0] [x02]).
  - repeat constructor; vm_compute; congruence.
  - vm_compute. reflexivity.
  - vm_compute. reflexivity.
  - reflexivity.
Defined.

(** A client whose scheme differs from the server's. *)
Definition sample_client : Session PlainConn :=
  start sample_ent true plain_new (default_factory (fun _ => "old")) [].

Definition sample_order : list (string * string) :=
  map_to_list (client_settings "anytls/0.0.11" sample_client).

Lemma server_settings_reply_witness :
  let s := set_inp sample_server (encode (Frame cmdSettings 0 (StringMap.ToBytes sample_order)) ++ [x01]) in
  let w' := (control_writes sample_ent (padding s) (w s) (settings_reply (padding s) "old")).1 in
  Nat.iter 2 (recv_step sample_ent sample_md5 false) s =
    set_w (set_peerVersion (set_receivedSettings (set_inp s [x01]) true) 2) w'.
Proof.
  intros s w'.
  apply (server_settings_reply sample_ent sample_md5 false s [x01] "anytls/0.0.11" sample_client sample_order w' None).
  - reflexivity.
  - reflexivity.
  - reflexivity.
  - reflexivity.
  - reflexivity.
  - reflexivity.
  - vm_compute. congruence.
  - reflexivity.
  - vm_compute. reflexivity.
Defined.

Lemma client_adopts_reply_witness :
  let cl := set_inp sample_client
    (encode_all (settings_reply (default_factory sample_md5) "old") ++ [x01]) in
  Nat.iter (frame_turns (settings_reply (default_factory sample_md5) "old"))
      (recv_step sample_ent sample_md5 false) cl =
    set_peerVersion (set_padding (set_inp cl [x01])
      (adopted sample_md5 false (padding cl) (RawScheme (default_factory sample_md5)))) 2.
Proof.
  intros cl. apply (client_adopts_reply sample_ent sample_md5 false cl (default_factory sample_md5) [x01]).
  - reflexivity.
  - reflexivity.
  - reflexivity.
  - vm_compute. congruence.
  - reflexivity.
Defined.

Lemma server_syn_witness :
  let s := sample_ready (encode (newFrame cmdSYN 7) ++ [x02]) in
  recv_step sample_ent sample_md5 false s =
    add_spawned (set_streams (set_objs (set_inp s [x02]) (objs s ++ [newStream 7]))
                   (<[7 := length (objs s)]> (streams s))) (length (objs s)).
Proof.
  intros s.
  assert (streams s !! 7 = None) as E by (vm_compute; reflexivity).
  assert ((Z.of_nat (size (streams s)) <? 1024) = true) as E2 by (vm_compute; reflexivity).
  destruct (server_syn sample_ent sample_md5 false s 7 [x02]) as [_ H].
  - vm_compute. reflexivity.
  - vm_compute. reflexivity.
  - vm_compute. reflexivity.
  - split; vm_compute; congruence.
  - reflexivity.
  - assert (receivedSettings s = true) as E3 by (vm_compute; reflexivity).
    specialize (H E3). rewrite E, E2 in H. exact H.
Defined.

Lemma psh_delivered_witness :
  let s := set_inp (sample [OpArrive sample_input; OpRecv; OpRecv; OpRecv])
             (encode (Frame cmdPSH 1 [x0a; x0b; x0c]) ++ [x01]) in
  let s1 := Nat.iter 2 (recv_step sample_ent sample_md5 false) s in
  let '(ds, s2) := read_all 4 s1 0 2 in
  recv_step sample_ent sample_md5 false s1 = s1 /\ concat ds = [x0a; x0b; x0c] /\
  pc (recv_step sample_ent sample_md5 false s2) = Reading /\
  inp (recv_step sample_ent sample_md5 false s2) = [x01] /\
  streams (recv_step sample_ent sample_md5 false s2) = streams s /\
  w (recv_step sample_ent sample_md5 false s2) = w s.
Proof.
  intros s.
  assert (objs s !! 0%nat = Some (newStream 1)) as E by (vm_compute; reflexivity).
  apply (psh_delivered sample_ent sample_md5 false s 1 0 (newStream 1) [x0a; x0b; x0c] [x01] 2).
  - vm_compute. reflexivity.
  - vm_compute. reflexivity.
  - split; vm_compute; congruence.
  - congruence.
  - vm_compute. congruence.
  - lia.
  - reflexivity.
  - vm_compute. reflexivity.
  - exact E.
  - split; vm_compute; [split; congruence|reflexivity].
  - reflexivity.
  - reflexivity.
  - reflexivity.
Defined.

(** [acceptStream] does not look at [die] as [OpenStream] does: on a session that a
    concurrent [Close] has emptied, a SYN that the loop was reading still registers a stream and
    starts its handler, and no later [Close] reaches it. *)
Theorem accept_after_close (s : Session PlainConn) id r :
  isClient s = false -> receivedSettings s = true -> die s = true -> streams s = ∅ -> pc s = Reading -> is_uint32 id ->
  inp s = encode (newFrame cmdSYN id) ++ r ->
  let s' := recv_step sample_ent sample_md5 false s in
  streams s' = {[id := length (objs s)]} /\ spawned s' = spawned s ++ [length (objs s)] /\
  objs s' !! length (objs s) = Some (newStream id) /\ pc s' = Returned /\ Close s' = (s', Some ErrClosedPipe).
Proof.
  intros Hc Hrs Hd Hs Hpc Hid Hi s'. assert (wf_frame (newFrame cmdSYN id)) as Hf by by split.
  pose proof (recv_frame sample_ent sample_md5 false s _ r Hf Hpc Hi) as Hr. rewrite decide_True in Hr by done.
  change (s' = handle_frame sample_ent sample_md5 false (set_inp s r) (newFrame cmdSYN id)) in Hr. rewrite Hr. clear s' Hr.
  unfold handle_frame. cbn [cmd newFrame sid]. rewrite bool_decide_true by done. unfold recv_SYN, acceptStream.
  cbn [isClient receivedSettings set_inp streams alloc]. rewrite Hc, Hrs, Hs, lookup_empty, map_size_empty.
  change (maxServerStreams <=? Z.of_nat 0) with false. cbn [negb andb end_turn go_on]. unfold loop_top.
  cbn [pc die add_spawned set_streams set_objs set_inp streams]. rewrite Hpc, Hd, finish_die, Hs by done.
  split_and!; [done|done|by apply list_lookup_middle|done|]. unfold Close. simpl. by rewrite Hd.
Qed.

End SessionSpec.
