(* ===== verification/ClientPool.v ===== *)
(** * ClientPool: the pool of sessions of a client (proxy/session/client.go)

    A client keeps its sessions in the map [sessions] and the ones without a stream
    in the skip list [idleSession] under the key [math.MaxUint64 - seq], so that the
    first entry is the youngest session.  [pool] is the heap of session objects, each
    a session of Session.v with its pool fields; [hooked] are the streams that
    [CreateStream] has opened, and [armed] those whose [dieHook] it has set.

    The operations of a session report the callbacks they ran in [hooks]; after
    each operation the client runs its callbacks for the new entries.  A stream's
    callback asks whether its session is closed: no operation closes the session after
    it has run such a callback, so asking after the operation gives the same answer.  The callback
    then inserts the session into the idle list in a second step ([return_session]), and
    anything may happen in between: [returning] are the sessions whose callback has asked
    and has not inserted, and [raced] those that died in that time.  In the same way [CreateStream] sets
    the callback of a stream in a step of its own after it has opened it.  Its call of [OpenStream] is
    one step here (Session.v and Link.v interleave its parts).

    The skip list is third-party code: [OrderedMap] says what the client relies on,
    and [assoc_map] is a concrete instance. *)

From S2P Require Import Prelude GoStrings StringMap Frame Padding NetConn WriteConn Pipe Session SessionSpec.
#[local] Open Scope string_scope.
#[local] Open Scope list_scope.
#[local] Open Scope Z_scope.
#[local] Set Warnings "-clear-no-such-hyp".

(** An ordered map from keys to session objects: [om_list] is its iteration order. *)
Class OrderedMap (M : Type) := {
  om_empty : M;
  om_insert : Z -> nat -> M -> M;
  om_remove : Z -> M -> M;
  om_list : M -> list (Z * nat)
}.

Definition om_map {M} `{!OrderedMap M} (m : M) : gmap Z nat := list_to_map (om_list m).

Class OrderedMapLaws (M : Type) `{!OrderedMap M} : Prop := {
  om_sorted m : StronglySorted (fun a b => a.1 < b.1) (om_list m);
  om_map_empty : om_map om_empty = ∅;
  om_map_insert k v m : om_map (om_insert k v m) = <[k := v]> (om_map m);
  om_map_remove k m : om_map (om_remove k m) = delete k (om_map m)
}.

Module ClientPool.
Import Frame Padding WriteConn Session SessionSpec.

Record PSession (C : Type) := MkPSession {
  sess : Session C;
  seq : Z;
  idleSince : Z;
  hooked : gset nat;
  armed : gset nat
}.
Arguments MkPSession {C}.
Arguments sess {C}.
Arguments seq {C}.
Arguments idleSince {C}.
Arguments hooked {C}.
Arguments armed {C}.

Record Client (C M : Type) := MkClient {
  c_die : bool;
  sessionCounter : Z;
  idleSession : M;
  sessions : gmap Z nat;
  pool : list (PSession C);
  minIdleSession : Z;
  disableReuse : bool;
  returning : gset nat;         (** stream callbacks between their check and their insertion *)
  raced : gset nat              (** sessions that died in the meantime (history only) *)
}.
Arguments MkClient {C M}.
Arguments c_die {C M}.
Arguments sessionCounter {C M}.
Arguments idleSession {C M}.
Arguments sessions {C M}.
Arguments pool {C M}.
Arguments minIdleSession {C M}.
Arguments disableReuse {C M}.
Arguments returning {C M}.
Arguments raced {C M}.

Section client.
Context {C : Type} `{!NetConn C} {M : Type} `{!OrderedMap M}.
Variable ent : Z -> nat -> Z.
Variable md5hex : bytes -> string.
Variable clientDebugPaddingScheme : bool.
Implicit Types (c : Client C M) (ps : PSession C).

Definition set_idle c x : Client C M :=
  MkClient (c_die c) (sessionCounter c) x (sessions c) (pool c) (minIdleSession c) (disableReuse c) (returning c) (raced c).
Definition set_sessions c x : Client C M :=
  MkClient (c_die c) (sessionCounter c) (idleSession c) x (pool c) (minIdleSession c) (disableReuse c) (returning c) (raced c).
Definition set_pool c x : Client C M :=
  MkClient (c_die c) (sessionCounter c) (idleSession c) (sessions c) x (minIdleSession c) (disableReuse c) (returning c) (raced c).
Definition set_returning c x : Client C M :=
  MkClient (c_die c) (sessionCounter c) (idleSession c) (sessions c) (pool c) (minIdleSession c) (disableReuse c) x (raced c).
Definition set_raced c x : Client C M :=
  MkClient (c_die c) (sessionCounter c) (idleSession c) (sessions c) (pool c) (minIdleSession c) (disableReuse c) (returning c) x.

Definition upd c (i : nat) (f : PSession C -> PSession C) : Client C M := set_pool c (alter f i (pool c)).
Definition set_sess (x : Session C) ps := MkPSession x (seq ps) (idleSince ps) (hooked ps) (armed ps).
Definition set_idleSince (t : Z) ps := MkPSession (sess ps) (seq ps) t (hooked ps) (armed ps).
Definition add_hooked (o : nat) ps := MkPSession (sess ps) (seq ps) (idleSince ps) ({[o]} ∪ hooked ps) (armed ps).
Definition add_armed (o : nat) ps := MkPSession (sess ps) (seq ps) (idleSince ps) (hooked ps) ({[o]} ∪ armed ps).

(** [NewClient]; both durations in nanoseconds, at most five seconds is replaced by
    thirty. *)
Definition second : Z := 1000000000.
Definition idle_duration (d : Z) : Z := if d <=? second * 5 then second * 30 else d.

Definition NewClient (minIdle : Z) (noReuse : bool) : Client C M :=
  MkClient false 0 om_empty ∅ [] minIdle noReuse ∅ ∅.

Definition pool_key (q : Z) : Z := maxUint64 - q.

(** [session.dieHook].  A stream callback that is still to insert the session makes it [raced]. *)
Definition session_hook c (i : nat) : Client C M :=
  match pool c !! i with
  | Some ps =>
      let c := if decide (i ∈ returning c) then set_raced c ({[i]} ∪ raced c) else c in
      let c := if disableReuse c then c else set_idle c (om_remove (pool_key (seq ps)) (idleSession c)) in
      set_sessions c (delete (seq ps) (sessions c))
  | None => c
  end.

(** [session.Close()] called by the client.  The streams it closes find their
    session closed, and their callbacks do nothing. *)
Definition close_session c (i : nat) : Client C M :=
  match pool c !! i with
  | Some ps =>
      if die (sess ps) then c
      else session_hook (upd c i (set_sess (Close (sess ps)).1)) i
  | None => c
  end.

(** [stream.dieHook] of a stream of session [i], up to the insertion. *)
Definition stream_hook c (i : nat) : Client C M :=
  match pool c !! i with
  | Some ps =>
      if die (sess ps) then c
      else if disableReuse c then close_session c i
      else if c_die c then close_session c i
      else set_returning c ({[i]} ∪ returning c)
  | None => c
  end.

(** Its insertion under [idleSessionLock], at time [now]. *)
Definition return_session (now : Z) c (i : nat) : Client C M :=
  match pool c !! i with
  | Some ps =>
      if decide (i ∈ returning c) then
        set_returning (set_idle (upd c i (set_idleSince now)) (om_insert (pool_key (seq ps)) i (idleSession c))) (returning c ∖ {[i]})
      else c
  | None => c
  end.

Definition run_hook (i : nat) c (h : hook) : Client C M :=
  match h with
  | HookSession => session_hook c i
  | HookStream o =>
      match pool c !! i with
      | Some ps => if decide (o ∈ armed ps) then stream_hook c i else c
      | None => c
      end
  end.

(** Session [i] has become [s']: runs the callbacks it reports. *)
Definition settle c (i : nat) (s' : Session C) : Client C M :=
  match pool c !! i with
  | Some ps => foldl (run_hook i) (upd c i (set_sess s')) (drop (length (hooks (sess ps))) (hooks s'))
  | None => c
  end.

(** An operation of session [i]: frames from the server, reads, writes and closes of
    its streams, its timers. *)
Definition session_op c (i : nat) (a : op) : Client C M :=
  match pool c !! i with
  | Some ps => settle c i (exec ent md5hex clientDebugPaddingScheme (sess ps) a)
  | None => c
  end.

Definition getIdleSession c : Client C M * option nat :=
  match om_list (idleSession c) with
  | [] => (c, None)
  | (k, i) :: _ => (set_idle c (om_remove k (idleSession c)), Some i)
  end.

(** [createSession]: [underlying] is the result of [dialOut], [None] on failure. *)
Definition createSession c (underlying : option C) (pf : PaddingFactory)
    (order : list (string * string)) : Client C M * option nat :=
  match underlying with
  | None => (c, None)
  | Some conn =>
      let q := uint64 (sessionCounter c + 1) in
      let i := length (pool c) in
      let s := NewClientSession conn pf [] in
      let c := MkClient (c_die c) q (idleSession c) (<[q := i]> (sessions c))
                 (pool c ++ [MkPSession s q 0 ∅ ∅]) (minIdleSession c) (disableReuse c) (returning c) (raced c) in
      (settle c i (Run ent s order), Some i)
  end.

Inductive pool_error := PoolClosed | CreateSessionFailed | CreateStreamFailed.

(** [CreateStream] up to the stream: the session used and the stream object opened on it. *)
Definition open_stream c (underlying : option C) (pf : PaddingFactory)
    (order : list (string * string)) : Client C M * ((nat * nat) + pool_error) :=
  if c_die c then (c, inr PoolClosed)
  else
    let '(c, idle) := if disableReuse c then (c, None) else getIdleSession c in
    let '(c, session) :=
      match idle with
      | Some i => (c, Some i)
      | None => createSession c underlying pf order
      end in
    match session with
    | None => (c, inr CreateSessionFailed)
    | Some i =>
        match pool c !! i with
        | None => (c, inr CreateSessionFailed)
        | Some ps =>
            match OpenStream ent (sess ps) with
            | (s', inr _) => (close_session (settle c i s') i, inr CreateStreamFailed)
            | (s', inl o) => (upd (settle c i s') i (add_hooked o), inl (i, o))
            end
        end
    end.

(** [stream.dieHook = ...]: the rest of [CreateStream]. *)
Definition set_dieHook c (i o : nat) : Client C M := upd c i (add_armed o).

(** [CreateStream] *)
Definition CreateStream c (underlying : option C) (pf : PaddingFactory)
    (order : list (string * string)) : Client C M * ((nat * nat) + pool_error) :=
  match open_stream c underlying pf order with
  | (c, inl (i, o)) => (set_dieHook c i o, inl (i, o))
  | r => r
  end.

(** [Client.Close] *)
Definition close_client c : Client C M :=
  let c' := MkClient true (sessionCounter c) (idleSession c) ∅ (pool c) (minIdleSession c) (disableReuse c) (returning c) (raced c) in
  foldl close_session c' (map snd (map_to_list (sessions c))).

(** The loop of [idleCleanupExpTime] over the idle sessions. *)
Fixpoint cleanup_loop (expTime now : Z) (l : list (Z * nat)) (activeCount : Z) c : Client C M * list nat :=
  match l with
  | [] => (c, [])
  | (k, i) :: l =>
      match pool c !! i with
      | None => cleanup_loop expTime now l activeCount c
      | Some ps =>
          if expTime <=? idleSince ps then cleanup_loop expTime now l (activeCount + 1) c
          else if activeCount <? minIdleSession c then
            cleanup_loop expTime now l (activeCount + 1) (upd c i (set_idleSince now))
          else
            let '(c', closing) :=
              cleanup_loop expTime now l activeCount (set_idle c (om_remove k (idleSession c))) in
            (c', i :: closing)
      end
  end.

Definition idleCleanupExpTime (expTime now : Z) c : Client C M :=
  let '(c', sessionToClose) := cleanup_loop expTime now (om_list (idleSession c)) 0 c in
  foldl close_session c' sessionToClose.

Definition idleCleanup (idleSessionTimeout now : Z) c : Client C M :=
  idleCleanupExpTime (now - idleSessionTimeout) now c.

End client.

(** ** The pool invariant *)

Section pool_inv.
Context {C : Type} `{!NetConn C, !NetConnLaws C} {M : Type} `{!OrderedMap M, !OrderedMapLaws M}.
Variable ent : Z -> nat -> Z.
Variable md5hex : bytes -> string.
Variable clientDebugPaddingScheme : bool.
Implicit Types (c : Client C M) (ps : PSession C).

(** A stream handed out by [CreateStream] that is still open. *)
Definition live ps (o : nat) : Prop :=
  o ∈ hooked ps /\ exists st, objs (sess ps) !! o = Some st /\ died st = false.

(** What the client knows about the session object [i]: it is idle, or about to be
    put there, only while it has no open stream, and is then open unless it died while it was
    about to be put there; it serves one stream at a time; and until the
    client is closed the map [sessions] lists exactly the open sessions. *)
Record ok_at c (i : nat) ps : Prop := {
  oa_sess : session_ok (sess ps);
  oa_seq : seq ps = Z.of_nat i + 1;
  oa_bound o : o ∈ hooked ps -> is_Some (objs (sess ps) !! o);
  oa_free o : o ∈ hooked ps -> openCalls (sess ps) !! o = None;
  oa_armed o : o ∈ armed ps -> o ∈ hooked ps;
  oa_one o1 o2 : live ps o1 -> live ps o2 -> o1 = o2;
  oa_idle k : om_map (idleSession c) !! k = Some i ->
    k = pool_key (seq ps) /\ (die (sess ps) = true -> i ∈ raced c) /\ disableReuse c = false /\ forall o, ~ live ps o;
  oa_return : i ∈ returning c ->
    (forall k, om_map (idleSession c) !! k <> Some i) /\ (die (sess ps) = true -> i ∈ raced c) /\ disableReuse c = false /\ forall o, ~ live ps o;
  oa_raced : i ∈ raced c -> die (sess ps) = true;
  oa_listed q : sessions c !! q = Some i -> q = seq ps /\ die (sess ps) = false;
  oa_open : c_die c = false -> die (sess ps) = false -> sessions c !! seq ps = Some i
}.

Record pool_ok c : Prop := {
  po_at i ps : pool c !! i = Some ps -> ok_at c i ps;
  po_idle k i : om_map (idleSession c) !! k = Some i -> is_Some (pool c !! i);
  po_sessions q i : sessions c !! q = Some i -> is_Some (pool c !! i);
  po_returning i : i ∈ returning c -> is_Some (pool c !! i);
  po_raced i : i ∈ raced c -> is_Some (pool c !! i);
  po_counter : sessionCounter c = Z.of_nat (length (pool c))
}.

(** The session object [i] has died and its callback may not have run yet. *)
Record dead_at c (i : nat) ps : Prop := {
  da_sess : session_ok (sess ps);
  da_die : die (sess ps) = true;
  da_seq : seq ps = Z.of_nat i + 1;
  da_bound o : o ∈ hooked ps -> is_Some (objs (sess ps) !! o);
  da_free o : o ∈ hooked ps -> openCalls (sess ps) !! o = None;
  da_armed o : o ∈ armed ps -> o ∈ hooked ps;
  da_one o1 o2 : live ps o1 -> live ps o2 -> o1 = o2;
  da_idle k : om_map (idleSession c) !! k = Some i -> k = pool_key (seq ps) /\ disableReuse c = false;
  da_return : i ∈ returning c ->
    (forall k, om_map (idleSession c) !! k <> Some i) /\ disableReuse c = false /\ forall o, ~ live ps o;
  da_listed q : sessions c !! q = Some i -> q = seq ps
}.

(** All is well but for the session object [i], which has just died. *)
Record pool_ok_but (i : nat) c : Prop := {
  pb_at j ps : j <> i -> pool c !! j = Some ps -> ok_at c j ps;
  pb_dead ps : pool c !! i = Some ps -> dead_at c i ps;
  pb_idle k j : om_map (idleSession c) !! k = Some j -> is_Some (pool c !! j);
  pb_sessions q j : sessions c !! q = Some j -> is_Some (pool c !! j);
  pb_returning j : j ∈ returning c -> is_Some (pool c !! j);
  pb_raced j : j ∈ raced c -> is_Some (pool c !! j);
  pb_counter : sessionCounter c = Z.of_nat (length (pool c))
}.

Lemma lookup_upd c i f j : pool (upd c i f) !! j = if decide (i = j) then f <$> pool c !! j else pool c !! j.
Proof. simpl. rewrite list_lookup_alter. by case_decide; subst. Qed.

Lemma is_Some_upd c i f j : is_Some (pool c !! j) -> is_Some (pool (upd c i f) !! j).
Proof. rewrite lookup_upd. case_decide; [|done]. by rewrite fmap_is_Some. Qed.

Lemma om_remove_other c (q : Z) i k :
  om_map (om_remove (pool_key q) (idleSession c)) !! k = Some i ->
  k <> pool_key q /\ om_map (idleSession c) !! k = Some i.
Proof. rewrite om_map_remove, lookup_delete_Some. by intros [? ?]. Qed.

(** What the callback of a session does to the client. *)
Lemma session_hook_effect c i ps (c' := session_hook c i) :
  pool c !! i = Some ps ->
  pool c' = pool c /\ sessions c' = delete (seq ps) (sessions c) /\ c_die c' = c_die c /\ disableReuse c' = disableReuse c /\
  sessionCounter c' = sessionCounter c /\ returning c' = returning c /\
  (forall j, j ∈ raced c' <-> j ∈ raced c \/ j = i /\ i ∈ returning c) /\
  om_map (idleSession c') = if disableReuse c then om_map (idleSession c) else delete (pool_key (seq ps)) (om_map (idleSession c)).
Proof.
  intros Hi. unfold c', session_hook. rewrite Hi. set (c0 := if decide (i ∈ returning c) then _ else c).
  assert (pool c0 = pool c /\ sessions c0 = sessions c /\ c_die c0 = c_die c /\ disableReuse c0 = disableReuse c /\ sessionCounter c0 = sessionCounter c /\
    returning c0 = returning c /\ idleSession c0 = idleSession c /\ (forall j, j ∈ raced c0 <-> j ∈ raced c \/ j = i /\ i ∈ returning c))
    as (E1 & E2 & E3 & E4 & E5 & E6 & E7 & E8).
  { subst c0. case_decide; simpl; split_and!; try done; intros j; [rewrite elem_of_union, elem_of_singleton|]; naive_solver. }
  clearbody c0. destruct (disableReuse c0) eqn:Er; simpl; rewrite ?om_map_remove, ?E1, ?E2, ?E3, ?E4, ?E5, ?E6, ?E7, <- E4; by split_and!.
Qed.

(** The callback of a dead session takes it out of both containers. *)
Lemma session_hook_ok c i ps : pool c !! i = Some ps -> pool_ok_but i c -> pool_ok (session_hook c i).
Proof.
  intros Hi [Hat Hdead Hidle Hsess Hret Hrac Hcnt]. destruct (Hdead ps Hi) as [D1 D2 D3 D4 D5 D6 D7 D8 D9 D10].
  destruct (session_hook_effect c i ps Hi) as (E1 & E2 & E3 & E4 & E5 & E6 & E7 & E8). set (c' := session_hook c i) in *. clearbody c'.
  assert (forall k j, om_map (idleSession c') !! k = Some j -> om_map (idleSession c) !! k = Some j /\ j <> i) as Ei.
  { rewrite E8. intros k j Hk. destruct (disableReuse c) eqn:Er; [|apply lookup_delete_Some in Hk as [Hne Hk]];
      (split; [done|]); intros ->; by destruct (D8 k Hk). }
  split; rewrite ?E1, ?E2, ?E5, ?E6.
  - intros j psj Hj. destruct (decide (j = i)) as [->|Hne].
    + assert (psj = ps) as -> by congruence. split; try done; rewrite ?E2, ?E3, ?E4, ?E6.
      * intros k Hk. by destruct (Ei k i Hk).
      * intros Hr. destruct (D9 Hr) as (H1 & H2 & H3). split_and!; try done; [intros k Hk; by destruct (Ei k i Hk)|].
        intros _. apply E7. by right.
      * intros q [Hq Hl]%lookup_delete_Some. by destruct (D10 q Hl).
      * intros _ Hd. congruence.
    + destruct (Hat j psj Hne Hj) as [A1 A2 A3 A4 A5 A6 A7 A8 A9 A10 A11].
      split; try done; rewrite ?E2, ?E3, ?E4, ?E6.
      * intros k [Hk _]%Ei. destruct (A7 k Hk) as (? & H & ? & ?). split_and!; try done. intros Hd. apply E7. left. by apply H.
      * intros Hr. destruct (A8 Hr) as (Hn & H & ? & ?). split_and!; try done; [intros k [Hk _]%Ei; by eapply Hn|].
        intros Hd. apply E7. left. by apply H.
      * intros [Hr|[-> _]]%E7; [by apply A9|done].
      * intros q [Hq Hl]%lookup_delete_Some. by apply A10.
      * intros Hd Hs. rewrite lookup_delete_ne by lia. by apply A11.
  - intros k j [Hk _]%Ei. by eapply Hidle.
  - intros q j [_ Hq]%lookup_delete_Some. by eapply Hsess.
  - done.
  - intros j [Hr|[-> _]]%E7; [by apply Hrac|by eexists].
  - done.
Qed.

(** A session that has got new state, under the same pool fields. *)
Lemma live_later ps s' o :
  later (sess ps) s' -> (forall o, o ∈ hooked ps -> is_Some (objs (sess ps) !! o)) ->
  live (set_sess s' ps) o -> live ps o.
Proof.
  intros [Hobj _ _ _ _ _] Hb [Ho (st' & Ho' & Hd)]. split; [done|]. destruct (Hb o Ho) as [st Hst].
  exists st. split; [done|]. destruct (Hobj o st Hst) as (st1 & H1 & [_ Hg _]). simpl in Ho'.
  simplify_eq. destruct (died st); [|done]. destruct (Hg eq_refl). congruence.
Qed.

Lemma bound_later ps s' o :
  later (sess ps) s' -> (forall o, o ∈ hooked ps -> is_Some (objs (sess ps) !! o)) ->
  o ∈ hooked ps -> is_Some (objs s' !! o).
Proof.
  intros [Hobj _ _ _ _ _] Hb Ho. destruct (Hb o Ho) as [st Hst]. destruct (Hobj o st Hst) as (st' & -> & _). by eexists.
Qed.

Lemma free_later ps s' o :
  later (sess ps) s' -> (forall o, o ∈ hooked ps -> is_Some (objs (sess ps) !! o)) ->
  (forall o, o ∈ hooked ps -> openCalls (sess ps) !! o = None) -> o ∈ hooked ps -> openCalls s' !! o = None.
Proof. intros Hl Hb Hf Ho. apply (lt_open _ _ Hl); auto. Qed.

Lemma upd_dead c i ps s' :
  pool_ok c -> pool c !! i = Some ps -> session_ok s' -> later (sess ps) s' -> die s' = true ->
  pool_ok_but i (upd c i (set_sess s')).
Proof.
  intros [Hat Hidle Hsess Hret Hrac Hcnt] Hi Hs' Hl Hd. destruct (Hat i ps Hi) as [A1 A2 A3 A4 A5 A6 A7 A8 A9 A10 A11].
  split.
  - intros j psj Hne. rewrite lookup_upd, decide_False by done. intros Hj.
    destruct (Hat j psj Hj). by split.
  - intros ps'. rewrite lookup_upd, decide_True, Hi by done. intros [= <-]. split; try done; simpl.
    + intros o Ho. by eapply bound_later.
    + intros o Ho. by eapply free_later.
    + intros o1 o2 H1 H2. apply A6; by eapply live_later.
    + intros k Hk. by destruct (A7 k Hk) as (? & _ & ? & _).
    + intros Hr. destruct (A8 Hr) as (? & _ & ? & Hn). split_and!; try done. intros o Ho. eapply Hn. by eapply live_later.
    + intros q Hq. by destruct (A10 q Hq).
  - intros k j Hk. eapply is_Some_upd, Hidle, Hk.
  - intros q j Hq. eapply is_Some_upd, Hsess, Hq.
  - intros j Hj. eapply is_Some_upd, Hret, Hj.
  - intros j Hj. eapply is_Some_upd, Hrac, Hj.
  - simpl. by rewrite length_alter.
Qed.

Lemma upd_same c i ps s' :
  pool_ok c -> pool c !! i = Some ps -> session_ok s' -> later (sess ps) s' -> die s' = die (sess ps) ->
  pool_ok (upd c i (set_sess s')).
Proof.
  intros [Hat Hidle Hsess Hret Hrac Hcnt] Hi Hs' Hl Hd. destruct (Hat i ps Hi) as [A1 A2 A3 A4 A5 A6 A7 A8 A9 A10 A11].
  split.
  - intros j psj. rewrite lookup_upd. case_decide as E; [subst j|].
    + rewrite Hi. intros [= <-]. split; try done; simpl; rewrite ?Hd; try done.
      * intros o Ho. by eapply bound_later.
      * intros o Ho. by eapply free_later.
      * intros o1 o2 H1 H2. apply A6; by eapply live_later.
      * intros k Hk. destruct (A7 k Hk) as (? & ? & ? & Hn). split_and!; try done.
        intros o Ho. eapply Hn. by eapply live_later.
      * intros Hr. destruct (A8 Hr) as (? & ? & ? & Hn). split_and!; try done.
        intros o Ho. eapply Hn. by eapply live_later.
    + intros Hj. destruct (Hat j psj Hj). by split.
  - intros k j Hk. eapply is_Some_upd, Hidle, Hk.
  - intros q j Hq. eapply is_Some_upd, Hsess, Hq.
  - intros j Hj. eapply is_Some_upd, Hret, Hj.
  - intros j Hj. eapply is_Some_upd, Hrac, Hj.
  - simpl. by rewrite length_alter.
Qed.

Lemma close_session_ok c i : pool_ok c -> pool_ok (close_session c i).
Proof.
  intros Hok. unfold close_session. destruct (pool c !! i) as [ps|] eqn:Hi; [|done].
  destruct (die (sess ps)) eqn:Hd; [done|].
  pose proof (po_at c Hok i ps Hi) as Hat.
  eapply (session_hook_ok _ i (set_sess (Close (sess ps)).1 ps)).
  - by rewrite lookup_upd, decide_True, Hi.
  - eapply upd_dead; try done; [apply Close_ok, Hat|apply shrinks_Close|apply Close_fields].
Qed.

Lemma pool_session_hook c i : pool (session_hook c i) = pool c.
Proof. destruct (pool c !! i) as [ps|] eqn:Hi; [by apply (session_hook_effect c i ps)|]. unfold session_hook. by rewrite Hi. Qed.

(** A stream's callback returns its session to the pool, or closes it. *)
Definition served c (i : nat) : Prop := forall ps, pool c !! i = Some ps -> forall o, ~ live ps o.

(** A session that is neither idle nor serving a stream. *)
Definition reserved c (i : nat) : Prop :=
  served c i /\ forall k, om_map (idleSession c) !! k <> Some i.

Lemma close_session_served c i : pool_ok c -> served c i -> served (close_session c i) i.
Proof.
  intros Hok Hsv ps'. unfold close_session. destruct (pool c !! i) as [ps|] eqn:Hi; [|by rewrite Hi].
  destruct (die (sess ps)); [by apply Hsv|].
  rewrite pool_session_hook, lookup_upd, decide_True, Hi by done. intros [= <-].
  intros o Ho. eapply (Hsv ps Hi o). eapply live_later; [apply shrinks_Close|apply (po_at c Hok i ps Hi)|done].
Qed.

(** Closing sessions only takes entries off the idle list. *)
Lemma close_session_removes c i : om_map (idleSession (close_session c i)) ⊆ om_map (idleSession c).
Proof.
  unfold close_session. destruct (pool c !! i) as [ps|] eqn:Hi; [|done]. destruct (die (sess ps)); [done|].
  set (c1 := upd c i _). assert (pool c1 !! i = Some (set_sess (Close (sess ps)).1 ps)) as H1 by (subst c1; by rewrite lookup_upd, decide_True, Hi).
  destruct (session_hook_effect c1 i _ H1) as (_ & _ & _ & _ & _ & _ & _ & ->). change (idleSession c1) with (idleSession c).
  destruct (disableReuse c1); [done|apply delete_subseteq].
Qed.

Lemma close_session_reserved c i : pool_ok c -> reserved c i -> reserved (close_session c i) i.
Proof.
  intros Hok [Hsv Hn]. split; [by apply close_session_served|]. intros k Hk. eapply (Hn k), lookup_weaken; [exact Hk|apply close_session_removes].
Qed.

Lemma stream_hook_ok c i :
  pool_ok c -> reserved c i -> pool_ok (stream_hook c i) /\ reserved (stream_hook c i) i.
Proof.
  intros Hok Hrv. unfold stream_hook. destruct (pool c !! i) as [ps|] eqn:Hi; [|done].
  destruct (die (sess ps)) eqn:Hd; [done|].
  destruct (disableReuse c) eqn:Hr; [split; [by apply close_session_ok|by apply close_session_reserved]|].
  destruct (c_die c) eqn:Hc; [split; [by apply close_session_ok|by apply close_session_reserved]|].
  pose proof Hok as [Hat Hidle Hsess Hret Hrac Hcnt]. split; [|done]. split; try done; simpl.
  - intros j psj Hj. destruct (Hat j psj Hj) as [A1 A2 A3 A4 A5 A6 A7 A8 A9 A10 A11]. split; try done; simpl.
    intros [?%elem_of_singleton|Hj']%elem_of_union; [subst j|by apply A8]. destruct Hrv as [Hsv Hno]. assert (psj = ps) as -> by congruence.
    split_and!; try done; [by rewrite Hd|]. by apply Hsv.
  - intros j [->%elem_of_singleton|Hj]%elem_of_union; [by rewrite Hi|by apply Hret].
Qed.

(** The insertion: the session has no stream and is not in the list. *)
Lemma return_session_ok now c i : pool_ok c -> pool_ok (return_session now c i).
Proof.
  intros Hok. unfold return_session. destruct (pool c !! i) as [ps|] eqn:Hi; [|done]. case_decide as Hr; [|done].
  pose proof Hok as [Hat Hidle Hsess Hret Hrac Hcnt]. destruct (oa_return _ _ _ (Hat i ps Hi) Hr) as (Hno & Hrc & Hdr & Hlv).
  pose proof (lookup_upd c i (set_idleSince now)) as Hu.
  split; simpl; rewrite ?om_map_insert; try (intros j [Hj _]%elem_of_difference; apply (is_Some_upd c i (set_idleSince now)); by apply Hret).
  - intros j psj Hj. specialize (Hu j). simpl in Hu. rewrite Hu in Hj. case_decide as E; [subst j|].
    + rewrite Hi in Hj. injection Hj as <-. destruct (Hat i ps Hi) as [A1 A2 A3 A4 A5 A6 A7 A8 A9 A10 A11].
      split; try done; simpl; rewrite ?om_map_insert.
      * intros k [[<- _]|[_ Hk]]%lookup_insert_Some; [|by destruct (Hno k)]. by split_and!.
      * intros [_ Hn]%elem_of_difference. by destruct Hn; apply elem_of_singleton.
    + destruct (Hat j psj Hj) as [A1 A2 A3 A4 A5 A6 A7 A8 A9 A10 A11]. split; try done; simpl; rewrite ?om_map_insert.
      * intros k [[_ ?]|[_ Hk]]%lookup_insert_Some; [done|by apply A7].
      * intros [Hj' _]%elem_of_difference. destruct (A8 Hj') as (Hn & ? & ? & ?). split_and!; try done.
        intros k [[_ ?]|[_ Hk]]%lookup_insert_Some; [done|by eapply Hn].
  - intros k j Hk. apply (is_Some_upd c i (set_idleSince now)).
    apply lookup_insert_Some in Hk as [[_ <-]|[_ Hk]]; [by rewrite Hi|by eapply Hidle].
  - intros q j Hq. apply (is_Some_upd c i (set_idleSince now)). by eapply Hsess.
  - intros j Hj. apply (is_Some_upd c i (set_idleSince now)). by apply Hrac.
  - by rewrite length_alter.
Qed.

(** Setting the callback of a stream. *)
Lemma set_dieHook_ok c i o :
  (forall ps, pool c !! i = Some ps -> o ∈ hooked ps) -> pool_ok c -> pool_ok (set_dieHook c i o).
Proof.
  intros Ho [Hat Hidle Hsess Hret Hrac Hcnt]. split.
  - intros j psj. unfold set_dieHook. rewrite lookup_upd. case_decide as E; [subst j|].
    + intros (ps & Hi & ->)%fmap_Some. destruct (Hat i ps Hi) as [A1 A2 A3 A4 A5 A6 A7 A8 A9 A10 A11]. split; try done. simpl.
      intros o' [->%elem_of_singleton|Ho']%elem_of_union; [by apply (Ho ps Hi)|by apply A5].
    + intros Hj. destruct (Hat j psj Hj). by split.
  - intros k j Hk. apply is_Some_upd. by eapply Hidle.
  - intros q j Hq. apply is_Some_upd. by eapply Hsess.
  - intros j Hj. apply is_Some_upd. by apply Hret.
  - intros j Hj. apply is_Some_upd. by apply Hrac.
  - simpl. by rewrite length_alter.
Qed.

Lemma foldl_hooks_dead c i ps l :
  pool c !! i = Some ps -> die (sess ps) = true ->
  foldl (run_hook i) c l = Nat.iter (fired HookSession l) (fun c => session_hook c i) c.
Proof.
  intros Hi Hd. revert c Hi. induction l as [|h l IH]; intros c Hi; [done|]. cbn [foldl].
  unfold fired. rewrite filter_cons. destruct h as [|o].
  - rewrite decide_True by done. cbn [length run_hook]. rewrite IH by (by rewrite pool_session_hook).
    by rewrite Nat.iter_succ_r.
  - rewrite decide_False by done. cbn [run_hook]. rewrite Hi. case_decide; [|by apply IH].
    unfold stream_hook. rewrite Hi, Hd. by apply IH.
Qed.

Lemma foldl_hooks_alive c i l :
  pool_ok c -> HookSession ∉ l ->
  reserved c i \/ (forall ps o, pool c !! i = Some ps -> o ∈ armed ps -> HookStream o ∉ l) ->
  pool_ok (foldl (run_hook i) c l).
Proof.
  revert c. induction l as [|h l IH]; intros c Hok Hns Hor; [done|]. simpl.
  apply not_elem_of_cons in Hns as [Hh Hns]. destruct h as [|o]; [done|]. simpl.
  destruct (pool c !! i) as [ps|] eqn:Hi.
  2: { apply IH; [done|done|]. right. intros ps' o' Hps'. congruence. }
  case_decide as Ho.
  - destruct Hor as [Hrv|Hno].
    + destruct (stream_hook_ok c i Hok Hrv). apply IH; auto.
    + exfalso. eapply (Hno ps o); [done|done|]. apply elem_of_cons; by left.
  - apply IH; [done|done|]. destruct Hor as [Hsv|Hno]; [by left|right].
    intros ps' o' Hps' Ho' Hin. eapply (Hno ps' o'); [congruence|done|]. apply elem_of_cons; by right.
Qed.

Lemma fired_app h l k : fired h (l ++ k) = (fired h l + fired h k)%nat.
Proof. unfold fired. by rewrite filter_app, length_app. Qed.

Lemma fired_elem h l : h ∈ l -> (0 < fired h l)%nat.
Proof.
  unfold fired. induction 1; rewrite filter_cons; case_decide; simpl; try done; lia.
Qed.

(** A stream callback reported by an operation belongs to a stream that was open
    before it and is not any more. *)
Lemma hook_reported s s' new o :
  session_ok s -> session_ok s' -> later s s' -> hooks s' = hooks s ++ new ->
  is_Some (objs s !! o) -> HookStream o ∈ new ->
  exists st st', objs s !! o = Some st /\ died st = false /\ objs s' !! o = Some st' /\ died st' = true.
Proof.
  intros Hs Hs' Hl Hnew [st Ho] Hin%fired_elem.
  destruct (lt_objs _ _ Hl o st Ho) as (st' & Ho' & _). exists st, st'.
  pose proof (ho_hook _ _ (ok_heap s Hs) o st Ho) as H1.
  pose proof (ho_hook _ _ (ok_heap s' Hs') o st' Ho') as H2.
  rewrite Hnew, fired_app in H2. destruct (died st), (died st'); split_and!; try done; lia.
Qed.

Lemma settle_ok c i ps s' :
  pool_ok c -> pool c !! i = Some ps -> session_ok s' -> later (sess ps) s' -> pool_ok (settle c i s').
Proof.
  intros Hok Hi Hs' Hl. unfold settle. rewrite Hi.
  destruct (lt_hooks _ _ Hl) as [new Hnew]. rewrite Hnew, drop_app_length.
  destruct (po_at c Hok i ps Hi) as [Hs _ Hb _ Harm Hone Hidle _ _ _ _].
  pose proof (ho_session _ _ (ok_heap _ Hs')) as Hf'. rewrite Hnew, fired_app in Hf'.
  pose proof (ho_session _ _ (ok_heap _ Hs)) as Hf.
  assert (pool (upd c i (set_sess s')) !! i = Some (set_sess s' ps)) as Hi'
    by (by rewrite lookup_upd, decide_True, Hi).
  destruct (die s') eqn:Hd'.
  - rewrite (foldl_hooks_dead _ i _ new Hi') by done.
    destruct (die (sess ps)) eqn:Hd.
    + replace (fired HookSession new) with 0%nat by lia. apply (upd_same c i ps); congruence.
    + replace (fired HookSession new) with 1%nat by lia.
      apply (session_hook_ok _ _ _ Hi'). by apply (upd_dead c i ps).
  - assert (die (sess ps) = false) as Hd.
    { destruct (die (sess ps)) eqn:E; [|done]. by rewrite (lt_die _ _ Hl E) in Hd'. }
    apply foldl_hooks_alive; [apply (upd_same c i ps); congruence| |].
    { intros Hin%fired_elem. rewrite Hd in Hf. lia. }
    destruct (decide (set_Exists (fun o => HookStream o ∈ new) (armed ps))) as [(o & Ho%Harm & Hin)|Hno].
    + destruct (hook_reported _ _ _ o Hs Hs' Hl Hnew (Hb o Ho) Hin) as (st & st' & E1 & E2 & E3 & E4).
      assert (live ps o) as Hlo by (split; [done|by exists st]). left. split.
      * intros ps' Hps' o2 Hlive. rewrite Hi' in Hps'. injection Hps' as <-.
        assert (o2 = o) as -> by (apply Hone; [by apply (live_later ps s')|done]).
        destruct Hlive as [_ (st2 & E5 & E6)]. simpl in E5. congruence.
      * intros k Hk. by destruct (Hidle k Hk) as (_ & _ & _ & Hn); destruct (Hn o).
    + right. intros ps' o Hps' Ho Hin. rewrite Hi' in Hps'. injection Hps' as <-. apply Hno. by exists o.
Qed.

Lemma foldl_close_ok c l : pool_ok c -> pool_ok (foldl close_session c l).
Proof. revert c. induction l as [|i l IH]; intros c Hc; [done|]. by apply IH, close_session_ok. Qed.

Lemma session_op_ok c i a :
  pool_ok c -> pool_ok (session_op ent md5hex clientDebugPaddingScheme c i a).
Proof.
  intros Hok. unfold session_op. destruct (pool c !! i) as [ps|] eqn:Hi; [|done].
  apply (settle_ok c i ps); try done; [|apply exec_later].
  apply exec_ok, (po_at c Hok i ps Hi).
Qed.

Lemma Run_later (s : Session C) order : later s (Run ent s order).
Proof.
  unfold Run. case_match; (etrans; [|apply shrinks_later, shrinks_loop_top]); [|by apply (shrinks_same s)].
  set (s1 := set_w s _). etrans; [|by apply shrinks_set_pc, shrinks_writeControlFrame].
  by apply (shrinks_same s s1).
Qed.

Lemma append_ok c ps :
  pool_ok c -> session_ok (sess ps) -> seq ps = Z.of_nat (length (pool c)) + 1 -> hooked ps = ∅ -> armed ps = ∅ ->
  die (sess ps) = false ->
  pool_ok (MkClient (c_die c) (seq ps) (idleSession c) (<[seq ps := length (pool c)]> (sessions c))
             (pool c ++ [ps]) (minIdleSession c) (disableReuse c) (returning c) (raced c)).
Proof.
  intros [Hat Hidle Hsess Hret Hrac Hcnt] Hs Hq Hh Ha Hd.
  assert (forall j psj, pool c !! j = Some psj -> (j < length (pool c))%nat) as Hlt
    by (intros; by eapply lookup_lt_Some).
  assert (forall j : nat, is_Some (pool c !! j) -> j <> length (pool c)) as Hne.
  { intros j [psj Hj%lookup_lt_Some]. lia. }
  assert (forall j : nat, is_Some (pool c !! j) -> is_Some ((pool c ++ [ps]) !! j)) as Hgrow.
  { intros j [psj Hj]. exists psj. by apply lookup_app_l_Some. }
  split; simpl; auto.
  - intros j psj [Hj|[Hge Hj]]%lookup_app_Some.
    + destruct (Hat j psj Hj) as [A1 A2 A3 A4 A5 A6 A7 A8 A9 A10 A11]. apply Hlt in Hj. split; try done; simpl.
      * intros q [[_ ?]|[_ Hl]]%lookup_insert_Some; [lia|by apply A10].
      * intros. rewrite lookup_insert_ne by lia. by apply A11.
    + apply list_lookup_singleton_Some in Hj as [Hz <-]. assert (j = length (pool c)) as -> by lia.
      split; try done; simpl.
      * intros o Ho. rewrite Hh in Ho. by apply not_elem_of_empty in Ho.
      * intros o Ho. rewrite Hh in Ho. by apply not_elem_of_empty in Ho.
      * intros o Ho. rewrite Ha in Ho. by apply not_elem_of_empty in Ho.
      * intros o1 o2 [H1 _]. rewrite Hh in H1. by apply not_elem_of_empty in H1.
      * intros k Hk. exfalso. by apply (Hne _ (Hidle _ _ Hk)).
      * intros Hr. exfalso. by apply (Hne _ (Hret _ Hr)).
      * intros Hr. exfalso. by apply (Hne _ (Hrac _ Hr)).
      * intros q [[<- _]|[_ Hl]]%lookup_insert_Some; [done|]. exfalso. by apply (Hne _ (Hsess _ _ Hl)).
      * intros. by rewrite lookup_insert, decide_True.
  - intros k j Hk. by eapply Hgrow, Hidle.
  - intros q j [[_ <-]|[_ Hl]]%lookup_insert_Some; [|by eapply Hgrow, Hsess].
    rewrite lookup_app_r, Nat.sub_diag by done. by eexists.
  - rewrite length_app, Hq. simpl. lia.
Qed.

Lemma createSession_ok c und pf order c' r :
  pool_ok c -> Z.of_nat (length (pool c)) < maxUint64 ->
  createSession ent c und pf order = (c', r) -> pool_ok c'.
Proof.
  intros Hok Hb. unfold createSession. destruct und as [conn|]; [|by intros [= <- _]].
  intros [= <- _]. set (q := uint64 _).
  assert (q = Z.of_nat (length (pool c)) + 1) as Hq.
  { subst q. rewrite (po_counter c Hok). unfold uint64, maxUint64 in *. rewrite Z.mod_small; lia. }
  set (ps := MkPSession (NewClientSession conn pf []) q 0 ∅ ∅).
  assert (pool_ok (MkClient (c_die c) q (idleSession c) (<[q := length (pool c)]> (sessions c))
    (pool c ++ [ps]) (minIdleSession c) (disableReuse c) (returning c) (raced c))) as H1.
  { apply (append_ok c ps); try done. }
  eapply (settle_ok _ _ ps _ H1).
  - simpl. by rewrite lookup_app_r, Nat.sub_diag.
  - apply (start_ok ent true conn pf order).
  - apply Run_later.
Qed.

(** Taking the first idle session off the list. *)
Lemma getIdle_spec c c' i :
  pool_ok c -> getIdleSession c = (c', Some i) ->
  exists k ps, pool c !! i = Some ps /\ om_map (idleSession c) !! k = Some i /\
    c' = set_idle c (om_remove k (idleSession c)) /\
    (forall k', om_map (idleSession c') !! k' <> Some i) /\
    (forall j psj k', om_map (idleSession c) !! k' = Some j -> pool c !! j = Some psj -> seq psj <= seq ps).
Proof.
  intros [Hat Hidle _ _ _ _]. unfold getIdleSession. pose proof (om_sorted (idleSession c)) as Hsort.
  destruct (om_list (idleSession c)) as [|[k i0] l] eqn:El; [done|]. intros [= <- <-].
  assert (om_map (idleSession c) = <[k := i0]> (list_to_map l)) as Em by (unfold om_map; by rewrite El).
  assert (om_map (idleSession c) !! k = Some i0) as Hk by (by rewrite Em, lookup_insert, decide_True).
  destruct (Hidle k i0 Hk) as [ps Hi]. exists k, ps. split_and!; try done.
  - intros k'. simpl. rewrite om_map_remove. intros [Hne Hk']%lookup_delete_Some.
    destruct (oa_idle _ _ _ (Hat i0 ps Hi) k Hk) as [-> _].
    destruct (oa_idle _ _ _ (Hat i0 ps Hi) k' Hk') as [-> _]. done.
  - intros j psj k' Hk' Hj.
    destruct (oa_idle _ _ _ (Hat j psj Hj) k' Hk') as [E' _].
    destruct (oa_idle _ _ _ (Hat i0 ps Hi) k Hk) as [E _].
    rewrite Em in Hk'. apply lookup_insert_Some in Hk' as [[E2 _]|[_ Hk']].
    + unfold pool_key in *. lia.
    + apply elem_of_list_to_map_2 in Hk'. inv Hsort. rewrite Forall_forall in H2.
      specialize (H2 _ Hk'). simpl in H2. unfold pool_key in *. lia.
Qed.

Lemma remove_idle_ok c k : pool_ok c -> pool_ok (set_idle c (om_remove k (idleSession c))).
Proof.
  intros [Hat Hidle Hsess Hret Hrac Hcnt]. split; try done; simpl.
  - intros i ps Hi. destruct (Hat i ps Hi) as [A1 A2 A3 A4 A5 A6 A7 A8 A9 A10 A11]. split; try done; simpl.
    + intros k'. rewrite om_map_remove. intros [_ Hk]%lookup_delete_Some. by apply A7.
    + intros Hr. destruct (A8 Hr) as (Hn & ? & ? & ?). split_and!; try done. intros k'. rewrite om_map_remove.
      intros [_ Hk]%lookup_delete_Some. by eapply Hn.
  - intros k' i. rewrite om_map_remove. intros [_ Hk]%lookup_delete_Some. by eapply Hidle.
Qed.

Lemma OpenStream_inl (s s' : Session C) o :
  OpenStream ent s = (s', inl o) ->
  o = length (objs s) /\ hooks s' = hooks s /\ die s = false /\ die s' = false /\ is_Some (objs s' !! o) /\ openCalls s' = openCalls s.
Proof.
  unfold OpenStream, open_SYN. destruct (die s) eqn:Hd; [done|]. cbn [alloc].
  set (s2 := if (2 <=? _) && _ then _ else _).
  assert (objs s2 = objs s ++ [newStream (uint32 (streamId s + 1))] /\ hooks s2 = hooks s /\ die s2 = false /\ openCalls s2 = openCalls s)
    as (E1 & E2 & E3 & E4) by (subst s2; by case_match).
  unfold writeControlFrame. destruct (control_write _ _ _ _) as [w' [e|]]; [done|]. unfold open_register, open_unbuffer. cbn [die set_w].
  rewrite E3. intros [= <- <-]. simpl. rewrite E1, E2, lookup_app_r, Nat.sub_diag by done. by eauto.
Qed.

Lemma settle_quiet c i ps s' :
  pool c !! i = Some ps -> hooks s' = hooks (sess ps) -> settle c i s' = upd c i (set_sess s').
Proof. intros Hi Hh. unfold settle. by rewrite Hi, Hh, drop_all. Qed.

Lemma top_hooks (s : Session C) : die (loop_top s) = die s /\ hooks (loop_top s) = hooks s.
Proof. unfold loop_top. destruct (pc s); try done. destruct (die s) eqn:Hd; [|done]. by rewrite finish_die. Qed.

Lemma Run_cases (s : Session C) order : die (Run ent s order) = true \/ hooks (Run ent s order) = hooks s.
Proof.
  unfold Run. case_match; [|right; apply (top_hooks (set_pc s Reading))].
  set (s1 := (writeControlFrame ent _ _).1). destruct (top_hooks (set_pc s1 Reading)) as [-> ->]. subst s1. unfold writeControlFrame.
  destruct (control_write _ _ _ _) as [w' [e|]]; cbn [fst]; [left|by right]. apply Close_fields.
Qed.

Lemma settle_dead c i ps s' :
  pool c !! i = Some ps -> die s' = true -> pool (settle c i s') !! i = Some (set_sess s' ps).
Proof.
  intros Hi Hd. assert (pool (upd c i (set_sess s')) !! i = Some (set_sess s' ps)) as Hu
    by (by rewrite lookup_upd, decide_True, Hi).
  unfold settle. rewrite Hi, (foldl_hooks_dead _ _ _ _ Hu) by done.
  generalize (fired HookSession (drop (length (hooks (sess ps))) (hooks s'))).
  induction n as [|n IH]; [done|]. rewrite Nat.iter_succ, pool_session_hook. apply IH.
Qed.

(** A session that a caller of [CreateStream] has for itself. *)
Definition taken c (i : nat) : Prop := reserved c i /\ i ∉ returning c.

Lemma create_taken c und pf order c' i ps :
  pool_ok c -> createSession ent c und pf order = (c', Some i) ->
  pool c' !! i = Some ps -> die (sess ps) = false -> taken c' i.
Proof.
  intros [_ Hidle _ Hret _ _]. unfold createSession. destruct und as [conn|]; [|done].
  set (q := uint64 _). set (s := NewClientSession conn pf []). set (ps0 := MkPSession s q 0 ∅ ∅).
  set (c1 := MkClient _ _ _ _ _ _ _ _ _).
  assert (pool c1 !! length (pool c) = Some ps0) as H0 by (simpl; by rewrite lookup_app_r, Nat.sub_diag by done).
  intros [= <- <-] Hps Hd. destruct (Run_cases s order) as [Hr|Hr].
  - rewrite (settle_dead c1 _ ps0) in Hps by done. injection Hps as <-. change (die (Run ent s order) = false) in Hd. congruence.
  - rewrite (settle_quiet c1 _ ps0) by done. split; [split|].
    + intros ps'. rewrite lookup_upd, decide_True, H0 by done. intros [= <-] o [Ho _]. simpl in Ho. set_solver.
    + intros k Hk. apply Hidle, lookup_lt_is_Some in Hk. lia.
    + intros Hi. apply Hret, lookup_lt_is_Some in Hi. lia.
Qed.

Lemma hand_out_ok c i ps s' o :
  pool_ok c -> taken c i -> pool c !! i = Some ps -> session_ok s' -> later (sess ps) s' ->
  die s' = die (sess ps) -> is_Some (objs s' !! o) -> openCalls s' !! o = None ->
  pool_ok (upd (upd c i (set_sess s')) i (add_hooked o)).
Proof.
  intros Hok [[Hsv Hno] Hnr] Hi Hs' Hl Hd Hso Hoc.
  pose proof (upd_same c i ps s' Hok Hi Hs' Hl Hd) as [Hat Hidle Hsess Hret Hrac Hcnt].
  pose proof (oa_bound _ _ _ (po_at c Hok i ps Hi)) as Hb.
  assert (forall o', live (add_hooked o (set_sess s' ps)) o' -> o' = o) as Hone.
  { intros o' [Hin Hlv]. simpl in Hin. apply elem_of_union in Hin as [?%elem_of_singleton|Ho']; [done|]. exfalso.
    eapply (Hsv ps Hi o'), (live_later ps s'); try done. }
  split.
  - intros j psj. rewrite lookup_upd. case_decide as E; [subst j|].
    + rewrite lookup_upd, decide_True, Hi by done. intros [= <-].
      destruct (Hat i (set_sess s' ps)) as [A1 A2 A3 A4 A5 A6 A7 A8 A9 A10 A11].
      { by rewrite lookup_upd, decide_True, Hi. }
      split; try done; simpl.
      * intros o' [?%elem_of_singleton|Ho']%elem_of_union; [by subst|by apply A3].
      * intros o' [?%elem_of_singleton|Ho']%elem_of_union; [by subst|by apply A4].
      * intros o' Ho'. apply elem_of_union. right. by apply A5.
      * intros o1 o2 H1%Hone H2%Hone. congruence.
      * intros k Hk. by destruct (Hno k).
    + intros Hj. destruct (Hat j psj Hj). by split.
  - intros k j Hk. apply is_Some_upd. by eapply Hidle.
  - intros q j Hq. apply is_Some_upd. by eapply Hsess.
  - intros j Hj. apply is_Some_upd. by apply Hret.
  - intros j Hj. apply is_Some_upd. by apply Hrac.
  - simpl. rewrite length_alter. apply Hcnt.
Qed.

Lemma open_on_ok c i ps :
  pool_ok c -> pool c !! i = Some ps -> (die (sess ps) = false -> taken c i) ->
  pool_ok (match OpenStream ent (sess ps) with
           | (s', inr _) => (close_session (settle c i s') i, inr CreateStreamFailed)
           | (s', inl o) => (upd (settle c i s') i (add_hooked o), inl (i, o))
           end : Client C M * ((nat * nat) + pool_error)).1.
Proof.
  intros Hok Hi Hres. pose proof (oa_sess _ _ _ (po_at c Hok i ps Hi)) as Hs.
  pose proof (OpenStream_ok ent (sess ps) Hs) as Hs'. pose proof (later_OpenStream ent (sess ps)) as Hl.
  destruct (OpenStream ent (sess ps)) as [s' [o|e]] eqn:E; cbn [fst] in *.
  - apply OpenStream_inl in E as (-> & Hh & Hd & Hd' & Ho & Hoc).
    rewrite (settle_quiet c i ps) by done. apply (hand_out_ok c i ps); try done; [by apply Hres|congruence|].
    rewrite Hoc. apply (fresh_openCalls (sess ps)); [done|by apply lookup_ge_None].
  - apply close_session_ok, (settle_ok c i ps); done.
Qed.

Lemma open_stream_ok c und pf order :
  pool_ok c -> Z.of_nat (length (pool c)) < maxUint64 ->
  pool_ok (open_stream ent c und pf order).1.
Proof.
  intros Hok Hb. unfold open_stream. destruct (c_die c); [done|].
  assert (forall c1, pool_ok c1 -> Z.of_nat (length (pool c1)) < maxUint64 ->
    pool_ok (let '(c, session) := createSession ent c1 und pf order in
      match session with
      | None => (c, inr CreateSessionFailed)
      | Some i => match pool c !! i with
          | None => (c, inr CreateSessionFailed)
          | Some ps => match OpenStream ent (sess ps) with
              | (s', inr _) => (close_session (settle c i s') i, inr CreateStreamFailed)
              | (s', inl o) => (upd (settle c i s') i (add_hooked o), inl (i, o)) end end end).1) as Hnew.
  { intros c1 Hok1 Hb1. destruct (createSession ent c1 und pf order) as [c2 [i|]] eqn:E;
      pose proof (createSession_ok c1 und pf order _ _ Hok1 Hb1 E) as Hok2; [|done].
    destruct (pool c2 !! i) as [ps|] eqn:Hi; [|done]. apply open_on_ok; try done.
    intros Hd. exact (create_taken c1 und pf order c2 i ps Hok1 E Hi Hd). }
  destruct (disableReuse c); [by apply Hnew|].
  destruct (getIdleSession c) as [c1 [i|]] eqn:E.
  - destruct (getIdle_spec c c1 i Hok E) as (k & ps & Hi & Hk & -> & Hno & _). cbn [pool set_idle].
    rewrite Hi. apply open_on_ok; try done; [by apply remove_idle_ok|].
    pose proof (po_at c Hok i ps Hi) as Hat. intros _. split; [split; [|done]|].
    + intros ps' Hps'. simpl in Hps'. assert (ps' = ps) as -> by congruence. apply (oa_idle _ _ _ Hat k Hk).
    + intros Hr. by destruct (oa_return _ _ _ Hat Hr) as (Hn & _); destruct (Hn k).
  - unfold getIdleSession in E. destruct (om_list (idleSession c)) as [|[? ?]]; simplify_eq. by apply Hnew.
Qed.

Lemma open_stream_hooked c und pf order c' i o :
  open_stream ent c und pf order = (c', inl (i, o)) -> exists ps, pool c' !! i = Some ps /\ o ∈ hooked ps.
Proof.
  unfold open_stream. destruct (c_die c); [done|]. destruct (if disableReuse c then _ else _) as [c0 idle].
  destruct (match idle with Some i => _ | None => _ end) as [c1 [i1|]]; [|done]. destruct (pool c1 !! i1) as [ps|] eqn:Hi; [|done].
  destruct (OpenStream ent (sess ps)) as [s' [o1|e]] eqn:E; [|done]. intros [= <- -> ->].
  apply OpenStream_inl in E as (_ & Hh & _). rewrite (settle_quiet c1 i ps) by done.
  rewrite lookup_upd, decide_True, lookup_upd, decide_True, Hi by done. eexists. split; [done|]. simpl. set_solver.
Qed.

Lemma CreateStream_ok c und pf order :
  pool_ok c -> Z.of_nat (length (pool c)) < maxUint64 ->
  pool_ok (CreateStream ent c und pf order).1.
Proof.
  intros Hok Hb. unfold CreateStream. pose proof (open_stream_ok c und pf order Hok Hb) as H1.
  destruct (open_stream ent c und pf order) as [c1 [[i o]|e]] eqn:E; [|done]. apply set_dieHook_ok; [|done]. cbn [fst] in H1.
  intros ps Hi. apply open_stream_hooked in E as (ps' & Hi' & Ho). congruence.
Qed.

(** ** Closing idle sessions *)

Lemma idleSince_ok c i t : pool_ok c -> pool_ok (upd c i (set_idleSince t)).
Proof.
  intros [Hat Hidle Hsess Hret Hrac Hcnt]. split.
  - intros j psj. rewrite lookup_upd. case_decide as E; [subst j|].
    + intros (ps & Hi & ->)%fmap_Some. destruct (Hat i ps Hi). by split.
    + intros Hj. destruct (Hat j psj Hj). by split.
  - intros k j Hk. apply is_Some_upd. by eapply Hidle.
  - intros q j Hq. apply is_Some_upd. by eapply Hsess.
  - intros j Hj. apply is_Some_upd. by apply Hret.
  - intros j Hj. apply is_Some_upd. by apply Hrac.
  - simpl. by rewrite length_alter.
Qed.

(** What the loop does: which entries it takes off the list, in terms of the idle
    times it finds. *)
Fixpoint expired_entries (expTime minIdle : Z) (since : nat -> option Z) (l : list (Z * nat)) (activeCount : Z)
  : list (Z * nat) :=
  match l with
  | [] => []
  | (k, i) :: l =>
      match since i with
      | None => expired_entries expTime minIdle since l activeCount
      | Some t =>
          if expTime <=? t then expired_entries expTime minIdle since l (activeCount + 1)
          else if activeCount <? minIdle then expired_entries expTime minIdle since l (activeCount + 1)
          else (k, i) :: expired_entries expTime minIdle since l activeCount
      end
  end.

Definition since_of c (i : nat) : option Z := idleSince <$> pool c !! i.

Lemma expired_entries_ext expTime minIdle f g l a :
  (forall k i, (k, i) ∈ l -> f i = g i) ->
  expired_entries expTime minIdle f l a = expired_entries expTime minIdle g l a.
Proof.
  revert a. induction l as [|[k i] l IH]; intros a H; [done|]. simpl.
  rewrite (H k i) by (apply elem_of_cons; by left).
  assert (forall a, expired_entries expTime minIdle f l a = expired_entries expTime minIdle g l a) as E.
  { intros a'. apply IH. intros k' i' Hin. apply (H k' i'). apply elem_of_cons. by right. }
  repeat case_match; by rewrite ?E.
Qed.

Lemma cleanup_loop_spec expTime now l a c :
  NoDup l.*2 ->
  let E := expired_entries expTime (minIdleSession c) (since_of c) l a in
  let '(c', closing) := cleanup_loop expTime now l a c in
  closing = E.*2 /\
  (forall k, om_map (idleSession c') !! k = if decide (k ∈ E.*1) then None else om_map (idleSession c) !! k) /\
  sess <$> pool c' = sess <$> pool c /\ (pool_ok c -> pool_ok c').
Proof.
  revert a c. induction l as [|[k i] l IH]; intros a c Hnd; [done|]. simpl. inv Hnd.
  destruct (pool c !! i) as [ps|] eqn:Hi.
  - assert (since_of c i = Some (idleSince ps)) as -> by (unfold since_of; by rewrite Hi). destruct (expTime <=? idleSince ps); [by apply IH|].
    destruct (a <? minIdleSession c) eqn:Ea.
    + specialize (IH (a + 1) (upd c i (set_idleSince now)) H2). cbv zeta in IH.
      rewrite (expired_entries_ext _ _ (since_of c) (since_of (upd c i (set_idleSince now)))).
      2: { intros k' i' Hin. unfold since_of. rewrite lookup_upd, decide_False; [done|].
           intros ->. apply H1. apply list_elem_of_fmap. by exists (k', i'). }
      destruct (cleanup_loop _ _ _ _ _) as [c' closing]. destruct IH as (I1 & I2 & I3 & I4).
      split_and!; [done|done| |intros; by apply I4, idleSince_ok].
      rewrite I3. simpl. apply list_eq. intros j. rewrite !list_lookup_fmap, list_lookup_alter.
      case_decide; [subst|done]. by rewrite Hi.
    + specialize (IH a (set_idle c (om_remove k (idleSession c))) H2). cbv zeta in IH. simpl in IH.
      change (since_of (set_idle c (om_remove k (idleSession c)))) with (since_of c) in IH.
      destruct (cleanup_loop _ _ _ _ _) as [c' closing]. destruct IH as (I1 & I2 & I3 & I4). simpl.
      split_and!; [by f_equal| |done|intros; by apply I4, remove_idle_ok].
      intros k'. rewrite I2, om_map_remove. rewrite lookup_delete.
      destruct (decide (k = k')) as [->|Hne].
      * rewrite (decide_True (P := k' ∈ k' :: _)) by (apply elem_of_cons; by left). by case_decide.
      * destruct (decide (k' ∈ _)) as [Hin|Hin].
        -- by rewrite decide_True by (apply elem_of_cons; by right).
        -- rewrite decide_False; [done|]. intros [?|?]%elem_of_cons; done.
  - assert (since_of c i = None) as -> by (unfold since_of; by rewrite Hi). by apply IH.
Qed.

Lemma close_session_pool c i j ps' :
  pool (close_session c i) !! j = Some ps' ->
  exists ps, pool c !! j = Some ps /\ (die (sess ps) = true -> die (sess ps') = true) /\
    (j = i -> die (sess ps') = true).
Proof.
  unfold close_session. destruct (pool c !! i) as [ps|] eqn:Hi.
  - destruct (die (sess ps)) eqn:Hd.
    + intros Hj. exists ps'. split_and!; try done. intros ->. congruence.
    + rewrite pool_session_hook, lookup_upd. case_decide as E; [subst j|].
      * rewrite Hi. intros [= <-]. exists ps. pose proof (Close_fields (sess ps)) as [H _]. by split_and!.
      * intros Hj. exists ps'. split_and!; try done.
  - intros Hj. exists ps'. split_and!; try done. intros ->. congruence.
Qed.

Lemma foldl_close_pool c l j ps' :
  pool (foldl close_session c l) !! j = Some ps' ->
  exists ps, pool c !! j = Some ps /\ (die (sess ps) = true -> die (sess ps') = true) /\
    (j ∈ l -> die (sess ps') = true).
Proof.
  revert c. induction l as [|i l IH]; intros c; simpl.
  - intros Hj. exists ps'. split_and!; try done. by intros ?%elem_of_nil.
  - intros (ps1 & H1 & Hm1 & Hl1)%IH. apply close_session_pool in H1 as (ps & H & Hm & Hl).
    exists ps. split_and!; try done; [auto|]. intros [->|?]%elem_of_cons; auto.
Qed.

Lemma close_session_idle c i :
  pool_ok c -> (forall k, om_map (idleSession c) !! k <> Some i) ->
  om_map (idleSession (close_session c i)) = om_map (idleSession c).
Proof.
  intros Hok Hno. unfold close_session. destruct (pool c !! i) as [ps|] eqn:Hi; [|done].
  destruct (die (sess ps)); [done|]. set (c1 := upd c i _).
  assert (pool c1 !! i = Some (set_sess (Close (sess ps)).1 ps)) as H1 by (subst c1; by rewrite lookup_upd, decide_True, Hi).
  destruct (session_hook_effect c1 i _ H1) as (_ & _ & _ & _ & _ & _ & _ & ->). change (idleSession c1) with (idleSession c).
  destruct (disableReuse c1); [done|]. apply delete_id. simpl.
  destruct (om_map (idleSession c) !! pool_key (seq ps)) as [j|] eqn:Ej; [|done]. exfalso.
  destruct (po_idle c Hok _ _ Ej) as [psj Hj].
  destruct (oa_idle _ _ _ (po_at c Hok j psj Hj) _ Ej) as [Ek _].
  pose proof (oa_seq _ _ _ (po_at c Hok j psj Hj)). pose proof (oa_seq _ _ _ (po_at c Hok i ps Hi)).
  unfold pool_key in Ek. apply (Hno (pool_key (seq ps))). rewrite Ej. f_equal. lia.
Qed.

Lemma foldl_close_idle c l :
  pool_ok c -> (forall i k, i ∈ l -> om_map (idleSession c) !! k <> Some i) ->
  om_map (idleSession (foldl close_session c l)) = om_map (idleSession c).
Proof.
  revert c. induction l as [|i l IH]; intros c Hok Hno; [done|]. simpl.
  assert (om_map (idleSession (close_session c i)) = om_map (idleSession c)) as E.
  { apply close_session_idle; [done|]. intros k. apply Hno. apply elem_of_cons. by left. }
  rewrite IH; [done|by apply close_session_ok|]. intros j k Hj. rewrite E. apply Hno. apply elem_of_cons. by right.
Qed.

Lemma idle_nodup c : pool_ok c -> NoDup (om_list (idleSession c)).*1 /\ NoDup (om_list (idleSession c)).*2.
Proof.
  intros Hok. pose proof (om_sorted (idleSession c)) as Hs.
  assert (NoDup (om_list (idleSession c)).*1) as H1.
  { clear Hok. induction Hs as [|x l Hs IH Hx]; [constructor|]. simpl. constructor; [|done].
    intros (y & Hy & Hin)%list_elem_of_fmap. rewrite Forall_forall in Hx. specialize (Hx y Hin). lia. }
  split; [done|]. apply NoDup_fmap_2_strong; [|by apply NoDup_fmap_1 in H1].
  intros [k1 i1] [k2 i2] Hin1 Hin2 E. simpl in E. subst i2.
  apply (elem_of_list_to_map_1 _ _ _ H1) in Hin1, Hin2. destruct (po_idle c Hok _ _ Hin1) as [ps Hps].
  destruct (oa_idle _ _ _ (po_at c Hok _ _ Hps) k1 Hin1) as [-> _].
  destruct (oa_idle _ _ _ (po_at c Hok _ _ Hps) k2 Hin2) as [-> _]. done.
Qed.

Lemma expired_entries_spec expTime minIdle f l a :
  let E := expired_entries expTime minIdle f l a in
  E ⊆+ l /\ (forall k i, (k, i) ∈ E -> exists t, f i = Some t /\ t < expTime) /\
  (E = [] \/ minIdle <= a + (len l - len E)).
Proof.
  revert a. induction l as [|[k i] l IH]; intros a; simpl.
  { split_and!; [done| |by left]. by intros ? ? ?%elem_of_nil. }
  destruct (f i) as [t|] eqn:Ef.
  2: { destruct (IH a) as (I1 & I2 & I3). split_and!; [by apply submseteq_cons|done|].
       destruct I3; [by left|right]. len_lia. }
  destruct (Z.leb_spec expTime t); [|destruct (Z.ltb_spec a minIdle)].
  1,2: destruct (IH (a + 1)) as (I1 & I2 & I3); split_and!; [by apply submseteq_cons|done|];
    destruct I3; [by left|right]; len_lia.
  destruct (IH a) as (I1 & I2 & I3). split_and!; [by apply submseteq_skip| |right].
  - intros k' i' [[= -> ->]|Hin]%elem_of_cons; [by exists t|by eapply I2].
  - apply submseteq_length in I1. destruct I3 as [->|]; len_lia.
Qed.

(** C39.  Idle cleanup closes exactly the sessions it should: the entries
    [expired_entries] names are off the list and their sessions closed, all other idle
    sessions stay on it; each of those closed had been idle since before [expTime];
    and unless nothing was closed, at least [minIdleSession] sessions stay. *)
Theorem idle_cleanup_spec expTime now c :
  pool_ok c ->
  let E := expired_entries expTime (minIdleSession c) (since_of c) (om_list (idleSession c)) 0 in
  let c' := idleCleanupExpTime expTime now c in
  pool_ok c' /\
  (forall k, om_map (idleSession c') !! k = if decide (k ∈ E.*1) then None else om_map (idleSession c) !! k) /\
  (forall k i, (k, i) ∈ E -> om_map (idleSession c) !! k = Some i /\
     (exists ps, pool c !! i = Some ps /\ idleSince ps < expTime) /\
     (forall ps', pool c' !! i = Some ps' -> die (sess ps') = true)) /\
  (E = [] \/ minIdleSession c <= len (om_list (idleSession c)) - len E).
Proof.
  intros Hok E c'. destruct (idle_nodup c Hok) as [Hnd1 Hnd2].
  pose proof (cleanup_loop_spec expTime now (om_list (idleSession c)) 0 c Hnd2) as Hl. cbv zeta in Hl.
  fold E in Hl. subst c'. unfold idleCleanupExpTime.
  destruct (cleanup_loop expTime now _ 0 c) as [c1 closing]. destruct Hl as (-> & Hidle & Hsess & Hok1).
  specialize (Hok1 Hok).
  destruct (expired_entries_spec expTime (minIdleSession c) (since_of c) (om_list (idleSession c)) 0)
    as (HE & Hexp & Hmin). fold E in HE, Hexp, Hmin.
  assert (forall k i, (k, i) ∈ E -> om_map (idleSession c) !! k = Some i) as Hin.
  { intros k i H. apply elem_of_list_to_map_1; [done|]. by eapply elem_of_submseteq. }
  assert (om_map (idleSession (foldl close_session c1 E.*2)) = om_map (idleSession c1)) as Ei.
  { apply foldl_close_idle; [done|]. intros i k ([k' i'] & -> & H)%list_elem_of_fmap. simpl.
    rewrite Hidle. case_decide as Hd; [done|]. intros Hk. apply Hin in H as Hk'.
    destruct (po_idle c Hok _ _ Hk) as [ps Hps].
    destruct (oa_idle _ _ _ (po_at c Hok _ _ Hps) k Hk) as [-> _].
    destruct (oa_idle _ _ _ (po_at c Hok _ _ Hps) k' Hk') as [-> _].
    apply Hd. apply list_elem_of_fmap. by exists (pool_key (seq ps), i'). }
  split_and!.
  - by apply foldl_close_ok.
  - intros k. rewrite Ei. apply Hidle.
  - intros k i H. split_and!; [by apply Hin| |].
    + destruct (Hexp k i H) as (t & Ht & Hlt). unfold since_of in Ht.
      apply fmap_Some in Ht as (ps & Hps & ->). by exists ps.
    + intros ps' Hps'. apply foldl_close_pool in Hps' as (ps & _ & _ & Hd). apply Hd.
      apply list_elem_of_fmap. by exists (k, i).
  - destruct Hmin; [by left|right]. lia.
Qed.

(** ** Runs of a client *)

(** The steps of a client, in any order: the two parts of [CreateStream], operations of sessions and
    streams, the second part of a stream's callback, cleanups, and the close of the client. *)
Inductive pool_op :=
  | PoCreate (underlying : option C) (pf : PaddingFactory) (order : list (string * string))
  | PoHook (i o : nat)
  | PoSession (i : nat) (a : op)
  | PoReturn (now : Z) (i : nat)
  | PoCleanup (expTime now : Z)
  | PoClose.

(** [CreateStream] has opened stream [o] on session [i]. *)
Definition opened c (i o : nat) : bool :=
  match pool c !! i with Some ps => bool_decide (o ∈ hooked ps) | None => false end.

Definition pool_exec c (a : pool_op) : Client C M :=
  match a with
  | PoCreate und pf order => (open_stream ent c und pf order).1
  | PoHook i o => if opened c i o then set_dieHook c i o else c
  | PoSession i a => session_op ent md5hex clientDebugPaddingScheme c i a
  | PoReturn now i => return_session now c i
  | PoCleanup expTime now => idleCleanupExpTime expTime now c
  | PoClose => close_client c
  end.

Definition pool_run c (l : list pool_op) : Client C M := foldl pool_exec c l.

Lemma close_client_ok c : pool_ok c -> pool_ok (close_client c).
Proof.
  intros [Hat Hidle Hsess Hret Hrac Hcnt]. unfold close_client. apply foldl_close_ok. split; try done; simpl.
  - intros i ps Hi. destruct (Hat i ps Hi). by split.
Qed.

Lemma cleanup_ok expTime now c : pool_ok c -> pool_ok (idleCleanupExpTime expTime now c).
Proof.
  intros Hok. destruct (idle_nodup c Hok) as [_ Hnd].
  pose proof (cleanup_loop_spec expTime now (om_list (idleSession c)) 0 c Hnd) as Hl. cbv zeta in Hl.
  unfold idleCleanupExpTime. destruct (cleanup_loop _ _ _ _ _) as [c1 cl].
  apply foldl_close_ok. by apply Hl.
Qed.

Lemma pool_exec_ok c a :
  pool_ok c -> Z.of_nat (length (pool c)) < maxUint64 -> pool_ok (pool_exec c a).
Proof.
  intros Hok Hb. destruct a as [| i o| | | |]; simpl;
    [by apply open_stream_ok| |by apply session_op_ok|by apply return_session_ok|by apply cleanup_ok|by apply close_client_ok].
  unfold opened. destruct (pool c !! i) as [ps|] eqn:Hi; [|done]. case_bool_decide as Ho; [|done].
  apply set_dieHook_ok; [|done]. intros ps' Hps'. congruence.
Qed.

Lemma length_session_hook c i : length (pool (session_hook c i)) = length (pool c).
Proof. by rewrite pool_session_hook. Qed.

Lemma length_close_session c i : length (pool (close_session c i)) = length (pool c).
Proof. unfold close_session. repeat case_match; try done. rewrite pool_session_hook. apply length_alter. Qed.

Lemma length_foldl_close c l : length (pool (foldl close_session c l)) = length (pool c).
Proof. revert c. induction l as [|i l IH]; intros c; [done|]. simpl. by rewrite IH, length_close_session. Qed.

Lemma length_settle c i s' : length (pool (settle c i s')) = length (pool c).
Proof.
  unfold settle. destruct (pool c !! i) as [ps|]; [|done].
  assert (forall l c1, length (pool (foldl (run_hook i) c1 l)) = length (pool c1)) as Hl.
  { induction l as [|h l IH]; intros c1; [done|]. simpl. rewrite IH. destruct h; simpl.
    - apply length_session_hook.
    - repeat case_match; try done. unfold stream_hook. repeat case_match; try done; apply length_close_session. }
  rewrite Hl. apply length_alter.
Qed.

Lemma length_cleanup_loop expTime now l a c :
  length (pool (cleanup_loop expTime now l a c).1) = length (pool c).
Proof.
  revert a c. induction l as [|[k i] l IH]; intros a c; [done|]. simpl.
  repeat case_match; try apply IH; [rewrite IH; apply length_alter|].
  match goal with E : cleanup_loop _ _ _ ?a ?c = _ |- _ => specialize (IH a c); rewrite E in IH end. exact IH.
Qed.

Lemma length_pool_exec c a : (length (pool (pool_exec c a)) <= S (length (pool c)))%nat.
Proof.
  destruct a; simpl.
  - unfold open_stream, getIdleSession, createSession. repeat case_match; simplify_eq/=;
      rewrite ?length_alter, ?length_close_session, ?length_settle; simpl; rewrite ?length_app; simpl; lia.
  - unfold set_dieHook. case_match; [simpl; rewrite length_alter|]; lia.
  - unfold session_op. case_match; [|lia]. rewrite length_settle. lia.
  - unfold return_session. repeat case_match; simpl; rewrite ?length_alter; lia.
  - unfold idleCleanupExpTime. pose proof (length_cleanup_loop expTime now (om_list (idleSession c)) 0 c) as H.
    destruct (cleanup_loop _ _ _ _ _). simpl in H. rewrite length_foldl_close. lia.
  - unfold close_client. rewrite length_foldl_close. simpl. lia.
Qed.

Lemma NewClient_ok minIdle noReuse : pool_ok (NewClient minIdle noReuse).
Proof.
  split; simpl; try done; try (intros i Hi; by apply not_elem_of_empty in Hi).
  intros k i. by rewrite om_map_empty, lookup_empty.
Qed.

Lemma pool_run_ok c l :
  pool_ok c -> Z.of_nat (length (pool c) + length l) <= maxUint64 -> pool_ok (pool_run c l).
Proof.
  revert c. induction l as [|a l IH]; intros c Hok Hb; [done|]. simpl in *. apply IH.
  - apply pool_exec_ok; [done|lia].
  - pose proof (length_pool_exec c a). lia.
Qed.

(** C12.  The pool invariant: whatever the order of stream creations, frames from
    servers, stream and session closes, timeouts and cleanups, with stream callbacks interrupted between
    their check and their insertion and [CreateStream] interrupted before it sets the callback, an idle session has
    no open stream of the pool, so that no two callers ever share a
    session; it is open, unless it died between the check and the insertion of the callback that made it
    idle; a session serves at most one pool stream at a time; and until the client is
    closed its map lists exactly the open sessions.  The run has at most 2^64 - 1 steps, so that session numbers do not wrap. *)
Theorem pool_invariant minIdle noReuse ops :
  len ops <= maxUint64 -> pool_ok (pool_run (NewClient minIdle noReuse) ops).
Proof. intros Hb. apply pool_run_ok; [apply NewClient_ok|done]. Qed.

(** The youngest idle session is reused: while a session is idle, a new
    stream is opened without dialing, on the idle session created last, and when that
    fails the caller gets an error. *)
Theorem reuse_newest c und pf order :
  pool_ok c -> c_die c = false -> disableReuse c = false -> om_map (idleSession c) <> ∅ ->
  exists i ps k, om_map (idleSession c) !! k = Some i /\ pool c !! i = Some ps /\
    (forall j psj k', om_map (idleSession c) !! k' = Some j -> pool c !! j = Some psj -> seq psj <= seq ps) /\
    (CreateStream ent c und pf order).2 =
      match (OpenStream ent (sess ps)).2 with inl o => inl (i, o) | inr _ => inr CreateStreamFailed end.
Proof.
  intros Hok Hd Hr Hne. destruct (getIdleSession c) as [c1 [i|]] eqn:E.
  - destruct (getIdle_spec c c1 i Hok E) as (k & ps & Hi & Hk & Hc1 & _ & Hnew).
    exists i, ps, k. split_and!; try done. unfold CreateStream, open_stream. rewrite Hd, Hr, E, Hc1. cbn [pool set_idle].
    rewrite Hi. by destruct (OpenStream ent (sess ps)) as [s' [o|e]].
  - exfalso. apply Hne. unfold getIdleSession in E. unfold om_map.
    by destruct (om_list (idleSession c)) as [|[? ?]].
Qed.

(** Closing the client closes every session it ever made, leaves on the list
    of idle sessions only those that died while they were put there, and no stream can be created afterwards. *)
Theorem close_client_all c :
  pool_ok c -> c_die c = false ->
  let c' := close_client c in
  (forall i ps, pool c' !! i = Some ps -> die (sess ps) = true) /\
  (forall k i, om_map (idleSession c') !! k = Some i -> i ∈ raced c') /\
  forall und pf order, CreateStream ent c' und pf order = (c', inr PoolClosed).
Proof.
  intros Hok Hd c'.
  assert (forall i ps, pool c' !! i = Some ps -> die (sess ps) = true) as Hall.
  { intros i ps' Hi'. subst c'. unfold close_client in Hi'.
    apply foldl_close_pool in Hi' as (ps & Hi & Hm & Hl). simpl in Hi.
    destruct (die (sess ps)) eqn:E; [by apply Hm|]. apply Hl.
    pose proof (oa_open _ _ _ (po_at c Hok i ps Hi) Hd E) as Hs.
    apply list_elem_of_fmap. exists (seq ps, i). split; [done|]. by apply elem_of_map_to_list. }
  split; [done|]. split.
  - intros k i Ek. destruct (po_idle c' (close_client_ok c Hok) k i Ek) as [ps Hi].
    destruct (oa_idle _ _ _ (po_at c' (close_client_ok c Hok) i ps Hi) k Ek) as (_ & Hf & _). apply Hf. by apply (Hall i ps).
  - intros. unfold CreateStream, open_stream.
    assert (c_die c' = true) as ->; [|done]. subst c'. unfold close_client.
    assert (forall l c0, c_die (foldl close_session c0 l) = c_die c0) as Hcd; [|by rewrite Hcd].
    induction l as [|i l IH]; intros c0; [done|]. simpl. rewrite IH.
    unfold close_session, session_hook. by repeat case_match.
Qed.

End pool_inv.

(** ** A concrete ordered map: an association list sorted by key *)

Record assoc_map := MkAssoc {
  entries : list (Z * nat);
  entries_sorted : StronglySorted (fun a b : Z * nat => a.1 < b.1) entries
}.

Fixpoint assoc_insert (key : Z) (i : nat) (m : list (Z * nat)) : list (Z * nat) :=
  match m with
  | e :: rest =>
      if e.1 <? key then e :: assoc_insert key i rest
      else if e.1 =? key then (key, i) :: rest
      else (key, i) :: m
  | [] => [(key, i)]
  end.

Definition assoc_remove (k : Z) (l : list (Z * nat)) : list (Z * nat) := filter (fun kv => kv.1 <> k) l.

Lemma assoc_insert_in k v l x : x ∈ assoc_insert k v l -> x = (k, v) \/ x ∈ l.
Proof.
  induction l as [|[k' v'] l IH]; simpl.
  - intros ->%list_elem_of_singleton. by left.
  - zcases; rewrite ?elem_of_cons; intuition.
Qed.

Lemma assoc_insert_sorted k v l :
  StronglySorted (fun a b : Z * nat => a.1 < b.1) l -> StronglySorted (fun a b : Z * nat => a.1 < b.1) (assoc_insert k v l).
Proof.
  induction 1 as [|[k' v'] l Hs IH Hx]; simpl; [by repeat constructor|].
  rewrite Forall_forall in Hx. zcases.
  - constructor; [done|]. apply Forall_forall. intros y [->|Hy]%assoc_insert_in; simpl; [lia|by apply Hx].
  - subst. constructor; [done|]. by apply Forall_forall.
  - constructor; [constructor; [done|by apply Forall_forall]|]. apply Forall_forall.
    intros y [->|Hy]%elem_of_cons; simpl; [lia|]. specialize (Hx y Hy). simpl in Hx. lia.
Qed.

Lemma assoc_remove_sorted k l :
  StronglySorted (fun a b : Z * nat => a.1 < b.1) l -> StronglySorted (fun a b : Z * nat => a.1 < b.1) (assoc_remove k l).
Proof.
  induction 1 as [|x l Hs IH Hx]; [constructor|]. unfold assoc_remove. rewrite filter_cons.
  case_decide; [|done]. constructor; [done|]. rewrite Forall_forall in *.
  intros y [_ Hy]%list_elem_of_filter. by apply Hx.
Qed.

#[export] Instance assoc_ordered : OrderedMap assoc_map := {
  om_empty := MkAssoc [] (SSorted_nil _);
  om_insert k v m := MkAssoc (assoc_insert k v (entries m)) (assoc_insert_sorted k v _ (entries_sorted m));
  om_remove k m := MkAssoc (assoc_remove k (entries m)) (assoc_remove_sorted k _ (entries_sorted m));
  om_list := entries
}.

#[export] Instance assoc_ordered_laws : OrderedMapLaws assoc_map.
Proof.
  split; unfold om_map; simpl.
  - intros m. apply entries_sorted.
  - done.
  - intros k v [l Hs]. simpl. induction Hs as [|[k' v'] l Hs IH Hx]; [done|]. simpl. zcases.
    + simpl. rewrite IH. apply insert_insert_ne. lia.
    + subst. simpl. by rewrite insert_insert_eq.
  - intros k [l Hs]. simpl. induction Hs as [|[k' v'] l Hs IH Hx]; [symmetry; apply delete_empty|].
    unfold assoc_remove in *. rewrite filter_cons. case_decide as E; simpl in *.
    + rewrite IH. by rewrite delete_insert_ne.
    + assert (k' = k) as -> by lia. rewrite delete_insert_eq, IH. done.
Qed.

(** ** A sample run: two sessions, both idle again, then one reused *)

Definition sample_pf : PaddingFactory := default_factory sample_md5.

Definition pool_ops : list (pool_op (C := PlainConn)) :=
  [PoCreate (Some plain_new) sample_pf []; PoHook 0 0; PoCreate (Some plain_new) sample_pf []; PoHook 1 0;
   PoSession 0 (OpStreamClose 0); PoReturn 2 0; PoSession 1 (OpStreamClose 0); PoReturn 9 1].

Definition sample_pool : Client PlainConn assoc_map :=
  pool_run sample_ent sample_md5 false (NewClient 0 false) pool_ops.

Lemma pool_invariant_witness : pool_ok sample_pool /\ length (om_list (idleSession sample_pool)) = 2%nat.
Proof.
  split; [|vm_compute; reflexivity].
  apply (pool_invariant sample_ent sample_md5 false 0 false pool_ops). vm_compute. congruence.
Defined.

Lemma sample_pool_ok : pool_ok sample_pool.
Proof. apply pool_run_ok; [apply NewClient_ok|vm_compute; congruence]. Qed.

Lemma reuse_newest_witness :
  exists i ps k, om_map (idleSession sample_pool) !! k = Some i /\ pool sample_pool !! i = Some ps /\
    (forall j psj k', om_map (idleSession sample_pool) !! k' = Some j -> pool sample_pool !! j = Some psj -> seq psj <= seq ps) /\
    (CreateStream sample_ent sample_pool None sample_pf []).2 =
      match (OpenStream sample_ent (sess ps)).2 with inl o => inl (i, o) | inr _ => inr CreateStreamFailed end.
Proof.
  apply (reuse_newest sample_ent sample_pool None sample_pf []).
  - exact sample_pool_ok.
  - vm_compute. reflexivity.
  - vm_compute. reflexivity.
  - intros E. apply (f_equal (lookup (maxUint64 - 1))) in E. vm_compute in E. discriminate E.
Defined.

Lemma idle_cleanup_spec_witness :
  let E := expired_entries 5 0 (since_of sample_pool) (om_list (idleSession sample_pool)) 0 in
  let c' := idleCleanupExpTime 5 10 sample_pool in
  E = [(maxUint64 - 1, 0%nat)] /\
  pool_ok c' /\
  (forall k, om_map (idleSession c') !! k = if decide (k ∈ E.*1) then None else om_map (idleSession sample_pool) !! k) /\
  (forall k i, (k, i) ∈ E -> om_map (idleSession sample_pool) !! k = Some i /\
     (exists ps, pool sample_pool !! i = Some ps /\ idleSince ps < 5) /\
     (forall ps', pool c' !! i = Some ps' -> die (sess ps') = true)) /\
  (E = [] \/ 0 <= len (om_list (idleSession sample_pool)) - len E).
Proof.
  split; [vm_compute; reflexivity|]. apply (idle_cleanup_spec 5 10 sample_pool). exact sample_pool_ok.
Defined.

Lemma close_client_all_witness :
  let c' := close_client sample_pool in
  (forall i ps, pool c' !! i = Some ps -> die (sess ps) = true) /\
  (forall k i, om_map (idleSession c') !! k = Some i -> i ∈ raced c') /\
  forall und pf order, CreateStream sample_ent c' und pf order = (c', inr PoolClosed).
Proof.
  apply (close_client_all sample_ent sample_pool); [exact sample_pool_ok|vm_compute; reflexivity].
Defined.

(** A session that dies between the check and the insertion of a callback is dead and idle, and the
    next stream is refused although a new session could be made. *)
Definition raced_ops : list (pool_op (C := PlainConn)) :=
  [PoCreate (Some plain_new) sample_pf []; PoHook 0 0; PoSession 0 (OpStreamClose 0); PoSession 0 OpReadError; PoReturn 2 0].

Theorem dead_session_idle :
  let c := pool_run sample_ent sample_md5 false (NewClient 0 false) raced_ops : Client PlainConn assoc_map in
  om_list (idleSession c) = [(maxUint64 - 1, 0%nat)] /\ sessions c = ∅ /\
  (die ∘ sess) <$> pool c !! 0%nat = Some true /\
  (CreateStream sample_ent c (Some plain_new) sample_pf []).2 = inr CreateStreamFailed.
Proof. vm_compute. by split_and!. Qed.

(** A stream that ends before [CreateStream] has set its callback leaves its session open and off the idle list for good. *)
Definition unhooked_ops : list (pool_op (C := PlainConn)) :=
  [PoCreate (Some plain_new) sample_pf []; PoSession 0 (OpArrive (encode (newFrame cmdFIN 1))); PoSession 0 OpRecv; PoHook 0 0;
   PoSession 0 (OpStreamClose 0)].

Theorem callback_too_late :
  let c := pool_run sample_ent sample_md5 false (NewClient 0 false) unhooked_ops : Client PlainConn assoc_map in
  om_list (idleSession c) = [] /\ returning c = ∅ /\ sessions c = {[1 := 0%nat]} /\
  (fun ps => (die (sess ps), streams (sess ps))) <$> pool c !! 0%nat = Some (false, ∅).
Proof. vm_compute. by split_and!. Qed.

End ClientPool.
