(* ===== verification/AclParse.v ===== *)
(** * AclParse: the text of an access-control list (acl/parse.go)

    [match_line] reads the groups of [linePattern] by hand; [line_match] is the
    regular expression itself, as a relation, and the two are proved equal.
    [ParseTextRules] goes through the lines, cutting comments and blanks, and stops at
    the first line that is not a rule. *)

From S2P Require Import Prelude GoStrings.
#[local] Open Scope string_scope.
#[local] Open Scope Z_scope.

Module AclParse.

Record TextRule := MkTextRule {
  Outbound : string;
  Address : string;
  ProtoPort : string;
  HijackAddress : string;
  LineNum : Z
}.

(** ** The pattern *)

(** [\w] *)
Definition word_char (a : ascii) : bool :=
  let n := Z.of_nat (nat_of_ascii a) in
  ((48 <=? n) && (n <=? 57)) || ((65 <=? n) && (n <=? 90)) || (n =? 95) || ((97 <=? n) && (n <=? 122)).

(** [[^,]+] *)
Definition field (s : string) : Prop := s <> "" /\ contains_byte "," s = false.

Definition opt_field (o : option string) : string :=
  match o with Some s => "," +:+ s | None => "" end.

(** [^(\w+)\s*\(([^,]+)(?:,([^,]+))?(?:,([^,]+))?\)$] matches [line] with the four
    groups; of the two optional groups the first is taken first. *)
Record line_match (line o a : string) (p h : option string) : Prop := {
  lm_line : exists ws, all_chars re_space ws = true /\
    line = o +:+ (ws +:+ ("(" +:+ (a +:+ (opt_field p +:+ (opt_field h +:+ ")")))));
  lm_word : o <> "" /\ all_chars word_char o = true;
  lm_address : field a;
  lm_proto : forall s, p = Some s -> field s;
  lm_hijack : forall s, h = Some s -> field s /\ p <> None
}.

(** The text before a final [c]. *)
Fixpoint strip_last (c : ascii) (s : string) : option string :=
  match s with
  | EmptyString => None
  | String a EmptyString => if Ascii.eqb a c then Some "" else None
  | String a r => option_map (String a) (strip_last c r)
  end.

Definition groups (parts : list string) : option (string * option string * option string) :=
  match parts with
  | [a] => if String.eqb a "" then None else Some (a, None, None)
  | [a; p] => if String.eqb a "" || String.eqb p "" then None else Some (a, Some p, None)
  | [a; p; h] =>
      if String.eqb a "" || String.eqb p "" || String.eqb h "" then None else Some (a, Some p, Some h)
  | _ => None
  end.

(** [linePattern.FindStringSubmatch] *)
Definition match_line (line : string) : option (string * (string * option string * option string)) :=
  let '(o, r) := span word_char line in
  if String.eqb o "" then None
  else
    match (span re_space r).2 with
    | String c r' =>
        if Ascii.eqb c "(" then
          match strip_last ")" r' with
          | Some body => option_map (pair o) (groups (Split "," body))
          | None => None
          end
        else None
    | EmptyString => None
    end.

(** ** Lines *)

Definition parseLine (line : string) (num : Z) : option TextRule :=
  match match_line line with
  | None => None
  | Some (o, (a, p, h)) =>
      Some {| Outbound := o; Address := TrimSpace a; ProtoPort := TrimSpace (default "" p);
              HijackAddress := TrimSpace (default "" h); LineNum := num |}
  end.

Definition strip_comment (line : string) : string :=
  match cut "#" line with Some (x, _) => x | None => line end.

(** The loop of [ParseTextRules]: the rules, or the line and number of an
    [InvalidSyntaxError]. *)
Fixpoint parse_lines (lineNum : Z) (lines : list string) : (string * Z) + list TextRule :=
  match lines with
  | [] => inr []
  | line :: rest =>
      let num := lineNum + 1 in
      let line := TrimSpace (strip_comment line) in
      if String.eqb line "" then parse_lines num rest
      else match parseLine line num with
           | None => inl (line, num)
           | Some rule =>
               match parse_lines num rest with
               | inl e => inl e
               | inr rules => inr (rule :: rules)
               end
           end
  end.

Definition nl : ascii := "010".

Definition ParseTextRules (text : string) : (string * Z) + list TextRule :=
  parse_lines 0 (Split nl text).

(** ** The hand-written matcher is the regular expression *)

Lemma strip_last_app c x : strip_last c (x +:+ String c "") = Some x.
Proof.
  induction x as [|a x IH]; [simpl; by rewrite Ascii.eqb_refl|]. rewrite string_app_cons.
  simpl. rewrite IH. by destruct x.
Qed.

Lemma strip_last_Some c s x : strip_last c s = Some x -> s = x +:+ String c "".
Proof.
  revert x. induction s as [|a s IH]; intros x; [done|]. destruct s as [|b s].
  - simpl. destruct (Ascii.eqb_spec a c) as [->|]; [|done]. by intros [= <-].
  - intros H. change (option_map (String a) (strip_last c (String b s)) = Some x) in H.
    destruct (strip_last c (String b s)) as [y|]; [|done]. injection H as <-.
    rewrite string_app_cons. f_equal. by apply IH.
Qed.

Lemma Split_two x y :
  contains_byte "," x = false -> contains_byte "," y = false -> Split "," (x +:+ ("," +:+ y)) = [x; y].
Proof. intros Hx Hy. rewrite string_app_cons, string_app_nil, Split_app by done. by rewrite Split_none. Qed.

Lemma groups_complete a p h :
  field a -> (forall s, p = Some s -> field s) -> (forall s, h = Some s -> field s /\ p <> None) ->
  groups (Split "," (a +:+ (opt_field p +:+ opt_field h))) = Some (a, p, h).
Proof.
  intros [Ha Hac] Hp Hh. unfold opt_field. apply String.eqb_neq in Ha.
  destruct p as [p|]; [destruct (Hp p eq_refl) as [Hp1 Hp2]; apply String.eqb_neq in Hp1|].
  - destruct h as [h|].
    + destruct (Hh h eq_refl) as [[Hh1 Hh2] _]. apply String.eqb_neq in Hh1.
      rewrite !string_app_cons, !string_app_nil, Split_app by done. rewrite Split_app, Split_none by done.
      simpl. by rewrite Ha, Hp1, Hh1.
    + rewrite string_app_nil_r, Split_two by done. simpl. by rewrite Ha, Hp1.
  - destruct h as [h|]; [by destruct (Hh h eq_refl)|]. rewrite !string_app_nil, string_app_nil_r.
    rewrite Split_none by done. simpl. by rewrite Ha.
Qed.

Lemma groups_sound body a p h :
  groups (Split "," body) = Some (a, p, h) ->
  body = a +:+ (opt_field p +:+ opt_field h) /\ field a /\
  (forall s, p = Some s -> field s) /\ (forall s, h = Some s -> field s /\ p <> None).
Proof.
  pose proof (Join_Split "," body) as HJ. pose proof (Split_parts "," body) as Hp.
  unfold groups, field. destruct (Split "," body) as [|x [|y [|z [|]]]]; try done; intros H; inv Hp;
    repeat match goal with H : Forall _ (_ :: _) |- _ => inv H end;
    repeat match type of H with context [String.eqb ?u ?v] => destruct (String.eqb_spec u v) end; try done;
    simpl in H; simplify_eq; simpl in *; rewrite ?string_app_nil_r; split_and!; try done; try naive_solver.
Qed.

Lemma word_not_space a : word_char a = true -> re_space a = false.
Proof.
  unfold word_char, re_space. set (n := Z.of_nat _). intros H.
  repeat match goal with |- context [?x =? ?y] => destruct (Z.eqb_spec x y); [subst|] end; try done;
    exfalso; rewrite e in H; done.
Qed.

Lemma spaces_stop_word ws s :
  all_chars re_space ws = true -> stops word_char s -> stops word_char (ws +:+ s).
Proof.
  destruct ws as [|a ws]; [done|]. rewrite string_app_cons. simpl. intros [Ha _]%andb_true_iff _.
  destruct (word_char a) eqn:E; [|done]. by rewrite (word_not_space a E) in Ha.
Qed.

Lemma match_line_complete line o a p h :
  line_match line o a p h -> match_line line = Some (o, (a, p, h)).
Proof.
  intros [(ws & Hws & ->) [Ho How] Ha Hp Hh]. unfold match_line.
  rewrite span_app by (try done; by apply spaces_stop_word).
  apply String.eqb_neq in Ho. rewrite Ho, span_app by done. cbn [snd].
  rewrite string_app_cons, string_app_nil. cbn [Ascii.eqb Bool.eqb].
  replace (a +:+ (opt_field p +:+ (opt_field h +:+ ")"))) with ((a +:+ (opt_field p +:+ opt_field h)) +:+ ")")
    by (by rewrite !string_app_assoc).
  rewrite strip_last_app, groups_complete by done. done.
Qed.

Lemma match_line_sound line o a p h :
  match_line line = Some (o, (a, p, h)) -> line_match line o a p h.
Proof.
  unfold match_line. pose proof (span_spec word_char line) as [Hl Hw].
  destruct (span word_char line) as [o' r] eqn:E1. cbn [fst snd] in *.
  destruct (String.eqb_spec o' "") as [|Hne]; [done|].
  pose proof (span_spec re_space r) as [Hr Hs]. destruct (span re_space r) as [ws r2]. cbn [fst snd] in *.
  destruct r2 as [|c r2]; [done|]. destruct (Ascii.eqb_spec c "(") as [->|]; [|done].
  destruct (strip_last ")" r2) as [body|] eqn:E2; [|done]. apply strip_last_Some in E2.
  destruct (groups _) as [[[a' p'] h']|] eqn:E3; [|done]. simpl. intros [= -> -> -> ->].
  apply groups_sound in E3 as (Hb & Ha & Hp & Hh). split; try done. exists ws. split; [done|].
  rewrite Hl, Hr, E2, Hb, !string_app_assoc. by rewrite string_app_cons, string_app_nil.
Qed.

(** C38.  The rule lines accepted, and the groups they are cut into, are those of the
    regular expression: the matcher succeeds with given groups exactly when the
    expression matches the line that way, which also shows that a line can match in
    only one way. *)
Theorem match_line_regex line o a p h :
  match_line line = Some (o, (a, p, h)) <-> line_match line o a p h.
Proof. split; [apply match_line_sound|apply match_line_complete]. Qed.

(** ** Printing and parsing *)

(** A rule as a user would write it. *)
Definition print_rule (r : TextRule) : string :=
  Outbound r +:+ ("(" +:+ (Address r +:+
    ((if String.eqb (ProtoPort r) "" then "" else "," +:+ ProtoPort r) +:+
     ((if String.eqb (HijackAddress r) "" then "" else "," +:+ HijackAddress r) +:+ ")")))).

(** A field without separator, comment sign or newline and without blanks at its
    ends. *)
Definition clean (s : string) : Prop :=
  contains_byte "," s = false /\ contains_byte "#" s = false /\ contains_byte nl s = false /\ trimmed s.

Record printable_rule (r : TextRule) : Prop := {
  pr_outbound : Outbound r <> "" /\ all_chars word_char (Outbound r) = true;
  pr_address : Address r <> "" /\ clean (Address r);
  pr_proto : clean (ProtoPort r);
  pr_hijack : clean (HijackAddress r) /\ (HijackAddress r <> "" -> ProtoPort r <> "")
}.

Definition opt_of (s : string) : option string := if String.eqb s "" then None else Some s.

Lemma print_rule_match r :
  printable_rule r ->
  match_line (print_rule r) = Some (Outbound r, (Address r, opt_of (ProtoPort r), opt_of (HijackAddress r))).
Proof.
  intros [Ho [Ha1 [Ha2 _]] [Hp _] [[Hh _] Hhp]]. apply match_line_complete. unfold opt_of. split; try done.
  - exists "". split; [done|]. unfold print_rule, opt_field. by repeat case_match.
  - intros s. destruct (String.eqb_spec (ProtoPort r) ""); [done|]. intros [= <-]. by split.
  - intros s. destruct (String.eqb_spec (HijackAddress r) ""); [done|]. intros [= <-].
    split; [by split|]. destruct (String.eqb_spec (ProtoPort r) ""); [by apply Hhp in n|done].
Qed.

Lemma default_opt_of s : default "" (opt_of s) = s.
Proof. unfold opt_of. by destruct (String.eqb_spec s "") as [->|]. Qed.

Lemma parseLine_print r num :
  printable_rule r ->
  parseLine (print_rule r) num =
    Some {| Outbound := Outbound r; Address := Address r; ProtoPort := ProtoPort r;
            HijackAddress := HijackAddress r; LineNum := num |}.
Proof.
  intros H. unfold parseLine. rewrite print_rule_match, !default_opt_of by done.
  destruct H as [_ [_ (_ & _ & _ & Ha)] (_ & _ & _ & Hp) [(_ & _ & _ & Hh) _]]. unfold trimmed in *.
  by rewrite Ha, Hp, Hh.
Qed.

(** An ASCII byte that is not a blank is not trimmed. *)
Definition solid (a : ascii) : bool := (Z.of_nat (nat_of_ascii a) <? 128) && negb (is_space1 a).

Lemma trim_solid back a r : solid a = true -> trim_space_list back (a :: r) = a :: r.
Proof.
  unfold solid. intros [Hn%Z.ltb_lt Hs%negb_true_iff]%andb_true_iff. cbn [trim_space_list]. rewrite Hs.
  destruct r as [|b r]; [done|].
  assert (is_space2 a b = false /\ is_space2 b a = false) as [E1 E2].
  { unfold is_space2. set (n := Z.of_nat (nat_of_ascii a)) in *. split; apply andb_false_iff.
    - left. apply Z.eqb_neq. lia.
    - right. apply orb_false_iff. split; apply Z.eqb_neq; lia. }
  replace (if back then is_space2 b a else is_space2 a b) with false by (by destruct back).
  destruct r as [|c r]; [done|].
  assert (is_space3 a b c = false /\ is_space3 c b a = false) as [E3 E4].
  { unfold is_space3. set (n := Z.of_nat (nat_of_ascii a)) in *.
    split; repeat (apply orb_false_iff; split); apply andb_false_iff.
    - left. apply andb_false_iff. left. apply Z.eqb_neq. lia.
    - left. apply andb_false_iff. left. apply Z.eqb_neq. lia.
    - left. apply andb_false_iff. left. apply Z.eqb_neq. lia.
    - left. apply andb_false_iff. left. apply Z.eqb_neq. lia.
    - right. apply Z.eqb_neq. lia.
    - right. repeat (apply orb_false_iff; split); try (apply Z.eqb_neq; lia).
      apply andb_false_iff. left. apply Z.leb_gt. lia.
    - right. apply Z.eqb_neq. lia.
    - right. apply Z.eqb_neq. lia. }
  replace (if back then is_space3 c b a else is_space3 a b c) with false by (by destruct back).
  done.
Qed.

Lemma TrimSpace_solid a s b :
  solid a = true -> solid b = true -> TrimSpace (String a (s +:+ String b "")) = String a (s +:+ String b "").
Proof.
  intros Ha Hb. unfold TrimSpace.
  assert (list_ascii_of_string (String a (s +:+ String b "")) = (a :: list_ascii_of_string s) ++ [b])%list as E.
  { simpl. f_equal. clear. induction s as [|x s IH]; [done|]. rewrite string_app_cons. simpl. by rewrite IH. }
  rewrite E. rewrite <- app_comm_cons, trim_solid by done.
  change (a :: list_ascii_of_string s ++ [b])%list with ((a :: list_ascii_of_string s) ++ [b])%list.
  rewrite rev_app_distr. change (rev [b] ++ ?l)%list with (b :: l). rewrite trim_solid by done.
  assert (forall l, rev (b :: rev l) = l ++ [b])%list as -> by (intros; simpl; by rewrite rev_involutive).
  rewrite <- E. apply string_of_list_ascii_of_string.
Qed.

Lemma print_rule_ends r :
  printable_rule r -> exists a s, solid a = true /\ print_rule r = String a (s +:+ ")").
Proof.
  intros [[Ho How] _ _ _]. destruct (Outbound r) as [|a o] eqn:E; [done|].
  exists a. eexists. split.
  - simpl in How. apply andb_true_iff in How as [Ha _]. revert Ha. unfold word_char, solid, is_space1.
    set (n := Z.of_nat _). intros H. destruct (Z.ltb_spec n 128); [|exfalso; revert H].
    + destruct (Z.leb_spec 9 n), (Z.leb_spec n 13), (Z.eqb_spec n 32); simpl; try done; exfalso; revert H;
        repeat match goal with |- context [?x <=? ?y] => destruct (Z.leb_spec x y) end;
        repeat match goal with |- context [?x =? ?y] => destruct (Z.eqb_spec x y) end; try done; lia.
    + repeat match goal with |- context [?x <=? ?y] => destruct (Z.leb_spec x y) end;
        repeat match goal with |- context [?x =? ?y] => destruct (Z.eqb_spec x y) end; try done; lia.
  - unfold print_rule. rewrite E, string_app_cons. f_equal. rewrite <- !string_app_assoc. reflexivity.
Qed.

Lemma word_no_byte c o : word_char c = false -> all_chars word_char o = true -> contains_byte c o = false.
Proof.
  intros Hc. induction o as [|a o IH]; [done|]. simpl. intros [Ha Ho]%andb_true_iff.
  rewrite (IH Ho), orb_false_r. apply Ascii.eqb_neq. congruence.
Qed.

Lemma print_rule_bytes r c :
  printable_rule r -> (c = "#"%char \/ c = nl) -> contains_byte c (print_rule r) = false.
Proof.
  intros [[_ Ho] [_ (_ & A1 & A2 & _)] (_ & P1 & P2 & _) [(_ & H1 & H2 & _) _]] Hc.
  unfold print_rule. rewrite !contains_byte_app.
  rewrite (word_no_byte c (Outbound r)) by (done || by destruct Hc; subst).
  destruct Hc; subst c; repeat case_match; rewrite ?contains_byte_app, ?A1, ?A2, ?P1, ?P2, ?H1, ?H2; done.
Qed.

Definition renumber (num : Z) (r : TextRule) : TextRule :=
  {| Outbound := Outbound r; Address := Address r; ProtoPort := ProtoPort r;
     HijackAddress := HijackAddress r; LineNum := num |}.

Lemma parse_lines_print rules n :
  Forall printable_rule rules ->
  parse_lines n (map print_rule rules) = inr (imap (fun i r => renumber (n + 1 + Z.of_nat i) r) rules).
Proof.
  revert n. induction rules as [|r rules IH]; intros n Hr; [done|]. inv Hr.
  destruct (print_rule_ends r) as (a & s & Ha & E); [done|]. cbn [map parse_lines].
  assert (TrimSpace (strip_comment (print_rule r)) = print_rule r) as ->.
  { unfold strip_comment. destruct (cut "#" (print_rule r)) as [[x y]|] eqn:Ec.
    - exfalso. assert (cut "#" (print_rule r) = None) by (apply cut_none, print_rule_bytes; auto). congruence.
    - rewrite E. by apply TrimSpace_solid. }
  assert (String.eqb (print_rule r) "" = false) as -> by (by rewrite E).
  rewrite parseLine_print by done. rewrite IH by done. cbn [imap]. unfold renumber. f_equal.
  rewrite Z.add_0_r. f_equal. apply imap_ext. intros i x _. simpl. unfold renumber. f_equal. lia.
Qed.

(** C37.  Printing rules and parsing the text gives the rules back, numbered by their lines, for every non-empty list
    of printable rules: the outbound is a word, the address is not empty, the fields are trimmed and
    hold no comma, hash sign or line break, and a rule with a hijack address also has a protocol or
    port (without one the address would be read as the protocol). *)
Theorem parse_print_rules rules :
  rules <> [] -> Forall printable_rule rules ->
  ParseTextRules (Join nl (map print_rule rules)) = inr (imap (fun i r => renumber (1 + Z.of_nat i) r) rules).
Proof.
  intros Hne Hr. unfold ParseTextRules. rewrite Split_Join.
  - by rewrite parse_lines_print.
  - by destruct rules.
  - apply Forall_map. eapply Forall_impl; [done|]. intros r Hp. apply print_rule_bytes; auto.
Qed.

Definition sample_rules : list TextRule :=
  [MkTextRule "reject" "geoip:cn" "" "" 7; MkTextRule "direct" "*.example.com" "tcp/443" "" 7;
   MkTextRule "proxy_1" "all" "udp/53" "10.0.0.1" 7].

Lemma parse_print_rules_witness :
  ParseTextRules (Join nl (map print_rule sample_rules)) =
    inr [MkTextRule "reject" "geoip:cn" "" "" 1; MkTextRule "direct" "*.example.com" "tcp/443" "" 2;
         MkTextRule "proxy_1" "all" "udp/53" "10.0.0.1" 3].
Proof.
  apply (parse_print_rules sample_rules); [done|].
  repeat constructor; try (vm_compute; congruence).
Defined.

(** What a failed run of the loop says about the lines. *)
Definition fails_at (m : Z) (lines : list string) (line : string) (n : Z) : Prop :=
  exists before raw after, lines = (before ++ raw :: after)%list /\
    n = m + len before + 1 /\ line = TrimSpace (strip_comment raw) /\ line <> "" /\ match_line line = None /\
    Forall (fun l => TrimSpace (strip_comment l) = "" \/ match_line (TrimSpace (strip_comment l)) <> None) before.

Lemma fails_at_cons m l lines line n :
  TrimSpace (strip_comment l) = "" \/ match_line (TrimSpace (strip_comment l)) <> None ->
  fails_at (m + 1) lines line n <-> fails_at m (l :: lines) line n.
Proof.
  intros Hl. split; intros (before & raw & after & E & En & Eline & Hne & Hm & Hb).
  - exists (l :: before), raw, after. rewrite E, len_cons. split_and!; try done; [lia|by constructor].
  - destruct before as [|x before]; simplify_eq/=.
    + destruct Hl; congruence.
    + inv Hb. exists before, raw, after. rewrite len_cons. split_and!; try done. lia.
Qed.

Lemma parse_lines_fails lines m line n : parse_lines m lines = inl (line, n) <-> fails_at m lines line n.
Proof.
  revert m. induction lines as [|l lines IH]; intros m.
  - split; [done|]. by intros ([|] & ? & ? & ? & _).
  - cbn [parse_lines]. destruct (String.eqb_spec (TrimSpace (strip_comment l)) "") as [E|E].
    { rewrite IH. apply fails_at_cons. by left. }
    unfold parseLine. destruct (match_line (TrimSpace (strip_comment l))) as [[o [[a p] h]]|] eqn:Em.
    + rewrite <- (fails_at_cons m l) by (right; congruence). rewrite <- IH.
      destruct (parse_lines (m + 1) lines); [done|split; discriminate].
    + split.
      * intros [= <- <-]. exists [], l, lines. rewrite len_nil. split_and!; try done. lia.
      * intros (before & raw & after & El & En & Eline & Hne & Hm & Hb).
        destruct before as [|x before]; simplify_eq/=; [rewrite len_nil; do 2 f_equal; lia|].
        inv Hb. by destruct H1.
Qed.

(** Errors point at the first bad line: parsing fails with line [n] exactly
    when all lines before it are blank, comments or rules, and line [n], without its
    comment and blanks, is neither empty nor matched by the pattern. *)
Theorem parse_error_line text line n :
  ParseTextRules text = inl (line, n) <->
  exists before raw after, Split nl text = (before ++ raw :: after)%list /\
    n = 0 + len before + 1 /\ line = TrimSpace (strip_comment raw) /\ line <> "" /\ match_line line = None /\
    Forall (fun l => TrimSpace (strip_comment l) = "" \/ match_line (TrimSpace (strip_comment l)) <> None) before.
Proof. apply parse_lines_fails. Qed.

End AclParse.
