(* ===== verification/AclMatch.v ===== *)
(** * AclMatch: host matchers (acl/matchers.go, acl/matchers_v2geo.go)

    A [net.IP] is a list of bytes: four, sixteen, or none for nil.  The functions of
    package net the matchers use are written out.  [idna.ToUnicode] is third-party
    code and a parameter, as is the compiler of regular expressions used for
    geosite lists; [sort.Slice] is a merge sort, which gives the same result as any
    other sort when the addresses differ. *)

From S2P Require Import Prelude GoStrings.
#[local] Open Scope string_scope.
#[local] Open Scope list_scope.
#[local] Open Scope Z_scope.

Module AclMatch.

(** ** Addresses *)

Abbreviation IP := bytes.

Definition v4InV6Prefix : bytes := replicate 10 x00 ++ [xff; xff].

(** [ip.To4()]; [[]] is nil. *)
Definition To4 (ip : IP) : IP :=
  if len ip =? 4 then ip
  else if (len ip =? 16) && bool_decide (take 12 ip = v4InV6Prefix) then drop 12 ip
  else [].

(** [ip.Equal(x)] *)
Definition IP_Equal (ip x : IP) : bool :=
  if len ip =? len x then bool_decide (ip = x)
  else if (len ip =? 4) && (len x =? 16) then bool_decide (take 12 x = v4InV6Prefix) && bool_decide (ip = drop 12 x)
  else if (len ip =? 16) && (len x =? 4) then bool_decide (take 12 ip = v4InV6Prefix) && bool_decide (drop 12 ip = x)
  else false.

Record IPNet := MkIPNet { net_IP : IP; net_Mask : bytes }.

(** [^byte(0xff >> n)] *)
Definition mask_byte (n : Z) : byte := Zbyte (255 - Z.shiftr 255 n).

(** The bytes of [net.CIDRMask]: [n] ones in [l] bytes. *)
Fixpoint mask_bytes (l : nat) (n : Z) : bytes :=
  match l with
  | O => []
  | S l => if 8 <=? n then xff :: mask_bytes l (n - 8) else mask_byte n :: mask_bytes l 0
  end.

Definition CIDRMask (ones bits : Z) : bytes :=
  if negb ((bits =? 32) || (bits =? 128)) then []
  else if (ones <? 0) || (bits <? ones) then []
  else mask_bytes (Z.to_nat (bits / 8)) ones.

(** [networkNumberAndMask]; [([], [])] is (nil, nil). *)
Definition networkNumberAndMask (n : IPNet) : IP * bytes :=
  let ip4 := To4 (net_IP n) in
  let ip := if len ip4 =? 0 then net_IP n else ip4 in
  if negb (len ip =? 4) && negb (len ip =? 16) then ([], [])
  else
    let m := net_Mask n in
    if len m =? 4 then (if len ip =? 4 then (ip, m) else ([], []))
    else if len m =? 16 then (if len ip =? 4 then (ip, drop 12 m) else (ip, m))
    else ([], []).

Definition land_byte (a b : byte) : Z := Z.land (byteZ a) (byteZ b).

(** The loop of [Contains]. *)
Fixpoint masked_equal (nn m ip : bytes) : bool :=
  match nn, m, ip with
  | a :: nn, k :: m, b :: ip => (land_byte a k =? land_byte b k) && masked_equal nn m ip
  | _, _, _ => true
  end.

Definition Contains_IP (n : IPNet) (ip : IP) : bool :=
  let '(nn, m) := networkNumberAndMask n in
  let ip4 := To4 ip in
  let ip := if len ip4 =? 0 then ip else ip4 in
  if negb (len ip =? len nn) then false else masked_equal nn m ip.

(** [bytes.Compare(a, b) < 0] *)
Fixpoint bytes_lt (a b : bytes) : bool :=
  match a, b with
  | _, [] => false
  | [], _ => true
  | x :: a, y :: b => if byteZ x =? byteZ y then bytes_lt a b else byteZ x <? byteZ y
  end.

(** ** Host matchers *)

Record HostInfo := MkHostInfo { Name : string; IPv4 : IP; IPv6 : IP }.

Definition star : Z := 42.

(** [deepMatchRune(str, pattern)], with the pattern first so that the recursion is
    structural. *)
Fixpoint deepMatchRune (pattern : list Z) : list Z -> bool :=
  match pattern with
  | [] => fun str => match str with [] => true | _ => false end
  | p :: ps =>
      if p =? star then
        fix skip (str : list Z) : bool :=
          deepMatchRune ps str || match str with [] => false | _ :: str' => skip str' end
      else fun str => match str with [] => false | c :: str' => (c =? p) && deepMatchRune ps str' end
  end.

Inductive domainMode := domainMatchExact | domainMatchWildcard | domainMatchSuffix.

(** geosite.dat and geoip.dat as read by the generated code of acl/v2geo. *)
Record CIDR := MkCIDR { cidr_Ip : IP; cidr_Prefix : Z }.
Record GeoIP := MkGeoIP { Cidr : list CIDR; InverseMatch : bool }.

Inductive Domain_Type := Domain_Plain | Domain_Regex | Domain_RootDomain | Domain_Full | Domain_Other (n : Z).
Record Domain := MkDomain { d_Type : Domain_Type; d_Value : string; d_Attribute : list string }.
Record GeoSite := MkGeoSite { g_Domain : list Domain }.

Record geoipMatcher := MkGeoip { N4 : list IPNet; N6 : list IPNet; Inverse : bool }.

Inductive geositeKind :=
  | geositeDomainPlain (value : string)
  | geositeDomainRegex (regex : string -> bool)
  | geositeDomainRoot (value : string)
  | geositeDomainFull (value : string).

Record geositeDomain := MkGeositeDomain { gd_kind : geositeKind; gd_Attrs : gset string }.
Record geositeMatcher := MkGeosite { gm_Domains : list geositeDomain; gm_Attrs : list string }.

(** The values of the interface [hostMatcher]. *)
Inductive hostMatcher :=
  | ipMatcher (ip : IP)
  | cidrMatcher (n : IPNet)
  | domainMatcher (pattern : string) (mode : domainMode)
  | allMatcher
  | geoip (m : geoipMatcher)
  | geosite (m : geositeMatcher).

(** ** GeoIP *)

(** The binary search of [matchIP]: [left] and [right] are [int]s, and the interval
    shrinks in every round, so its length is enough fuel. *)
Fixpoint search (fuel : nat) (n : list IPNet) (ip : IP) (left right : Z) : bool :=
  match fuel with
  | O => false
  | S fuel =>
      if left <=? right then
        let mid := (left + right) / 2 in
        match n !! Z.to_nat mid with
        | None => false
        | Some x =>
            if Contains_IP x ip then true
            else if bytes_lt (net_IP x) ip then search fuel n ip (mid + 1) right
            else search fuel n ip left (mid - 1)
        end
      else false
  end.

Definition matchIP (m : geoipMatcher) (ip : IP) : bool :=
  let ip4 := To4 ip in
  let '(ip, n) := if len ip4 =? 0 then (ip, N6 m) else (ip4, N4 m) in
  search (S (length n)) n ip 0 (len n - 1).

Definition geoip_Match (m : geoipMatcher) (host : HostInfo) : bool :=
  if negb (len (IPv4 host) =? 0) && matchIP m (IPv4 host) then negb (Inverse m)
  else if negb (len (IPv6 host) =? 0) && matchIP m (IPv6 host) then negb (Inverse m)
  else Inverse m.

(** The order [sort.Slice] is given. *)
Definition net_le (a b : IPNet) : Prop := bytes_lt (net_IP b) (net_IP a) = false.

#[export] Instance net_le_dec a b : Decision (net_le a b).
Proof. unfold net_le. apply _. Defined.

(** The loop over [list.Cidr]: [None] on an address of another length. *)
Fixpoint split_cidrs (l : list CIDR) : option (list IPNet * list IPNet) :=
  match l with
  | [] => Some ([], [])
  | c :: l =>
      if len (cidr_Ip c) =? 4 then
        option_map (fun '(n4, n6) => (MkIPNet (cidr_Ip c) (CIDRMask (cidr_Prefix c) 32) :: n4, n6)) (split_cidrs l)
      else if len (cidr_Ip c) =? 16 then
        option_map (fun '(n4, n6) => (n4, MkIPNet (cidr_Ip c) (CIDRMask (cidr_Prefix c) 128) :: n6)) (split_cidrs l)
      else None
  end.

Definition newGeoIPMatcher (list_ : GeoIP) : option geoipMatcher :=
  match split_cidrs (Cidr list_) with
  | None => None
  | Some (n4, n6) => Some (MkGeoip (merge_sort net_le n4) (merge_sort net_le n6) (InverseMatch list_))
  end.

(** ** GeoSite *)

Section geosite.
(** [regexp.Compile] and [MatchString] of the result *)
Variable regexp_Compile : string -> option (string -> bool).

Definition matchDomain (m : geositeMatcher) (domain : geositeDomain) (host : HostInfo) : bool :=
  if (0 <? len (gm_Attrs m)) && bool_decide (gd_Attrs domain = ∅) then false
  else if negb (forallb (fun attr => bool_decide (attr ∈ gd_Attrs domain)) (gm_Attrs m)) then false
  else match gd_kind domain with
       | geositeDomainPlain v => Contains (Name host) v
       | geositeDomainRegex r => r (Name host)
       | geositeDomainFull v => String.eqb (Name host) v
       | geositeDomainRoot v => String.eqb (Name host) v || HasSuffix ("." +:+ v) (Name host)
       end.

Definition geosite_Match (m : geositeMatcher) (host : HostInfo) : bool :=
  existsb (fun domain => matchDomain m domain host) (gm_Domains m).

Definition domainAttributeToMap (attrs : list string) : gset string := list_to_set attrs.

Definition newGeositeDomain (domain : Domain) : option geositeDomain :=
  let attrs := domainAttributeToMap (d_Attribute domain) in
  match d_Type domain with
  | Domain_Plain => Some (MkGeositeDomain (geositeDomainPlain (d_Value domain)) attrs)
  | Domain_Regex => option_map (fun r => MkGeositeDomain (geositeDomainRegex r) attrs) (regexp_Compile (d_Value domain))
  | Domain_Full => Some (MkGeositeDomain (geositeDomainFull (d_Value domain)) attrs)
  | Domain_RootDomain => Some (MkGeositeDomain (geositeDomainRoot (d_Value domain)) attrs)
  | Domain_Other _ => None
  end.

Definition newGeositeMatcher (list_ : GeoSite) (attrs : list string) : option geositeMatcher :=
  match mapM newGeositeDomain (g_Domain list_) with
  | Some domains => Some (MkGeosite domains attrs)
  | None => None
  end.

End geosite.

(** ** The interface method *)

Section matchers.
(** [idna.ToUnicode]; [None] is an error *)
Variable idna_ToUnicode : string -> option string.

Definition domain_Match (pattern : string) (mode : domainMode) (host : HostInfo) : bool :=
  let name := default (Name host) (idna_ToUnicode (Name host)) in
  match mode with
  | domainMatchExact => String.eqb name pattern
  | domainMatchWildcard => deepMatchRune (runes pattern) (runes name)
  | domainMatchSuffix => String.eqb name pattern || HasSuffix ("." +:+ pattern) name
  end.

Definition hostMatch (m : hostMatcher) (host : HostInfo) : bool :=
  match m with
  | ipMatcher ip => IP_Equal ip (IPv4 host) || IP_Equal ip (IPv6 host)
  | cidrMatcher n => Contains_IP n (IPv4 host) || Contains_IP n (IPv6 host)
  | domainMatcher p mode => domain_Match p mode host
  | allMatcher => true
  | geoip m => geoip_Match m host
  | geosite m => geosite_Match m host
  end.

End matchers.

(** ** Wildcards *)

(** The strings a pattern stands for: [*] is any string, any other rune itself. *)
Fixpoint pattern_lang (pattern : list Z) (str : list Z) : Prop :=
  match pattern with
  | [] => str = []
  | p :: ps =>
      if p =? star then exists x y, str = x ++ y /\ pattern_lang ps y
      else exists str', str = p :: str' /\ pattern_lang ps str'
  end.

(** The wildcard matcher decides the language of the pattern: it accepts a
    name exactly when the name arises from the pattern by replacing each [*] with some
    string. *)
Theorem deepMatchRune_lang pattern str : deepMatchRune pattern str = true <-> pattern_lang pattern str.
Proof.
  revert str. induction pattern as [|p ps IH]; intros str; cbn [deepMatchRune pattern_lang].
  { by destruct str. }
  destruct (p =? star).
  - induction str as [|c str IHs].
    + rewrite orb_false_r, IH. split.
      * intros H. by exists [], [].
      * intros ([|] & y & E & H); [|done]. simpl in E. by subst y.
    + rewrite orb_true_iff, IH, IHs. split.
      * intros [H|(x & y & -> & H)]; [by exists [], (c :: str)|by exists (c :: x), y].
      * intros ([|d x] & y & E & H); simplify_eq/=; [by left|right; by exists x, y].
  - destruct str as [|c str].
    + split; [done|]. by intros (? & ? & _).
    + rewrite andb_true_iff, IH, Z.eqb_eq. split.
      * intros [-> H]. by exists str.
      * intros (str' & E & H). by simplify_eq.
Qed.

(** ** Networks as intervals *)

(** The number an address is. *)
Fixpoint value (ip : bytes) : Z :=
  match ip with [] => 0 | a :: r => byteZ a * 256 ^ len r + value r end.

Lemma value_range ip : 0 <= value ip < 256 ^ len ip.
Proof.
  induction ip as [|a r IH]; [done|]. simpl. rewrite len_cons, Z.pow_add_r by (pose proof (len_nonneg r); lia).
  pose proof (byteZ_range a). nia.
Qed.

Lemma bytes_lt_value a b : len a = len b -> bytes_lt a b = (value a <? value b).
Proof.
  revert b. induction a as [|x a IH]; intros [|y b] H; [done|len_lia|len_lia|].
  assert (len a = len b) as Hl by (rewrite !len_cons in H; lia). simpl. rewrite IH, Hl by done.
  pose proof (value_range a) as Ha. pose proof (value_range b) as Hb. rewrite Hl in Ha.
  set (P := 256 ^ len b) in *. destruct (Z.eqb_spec (byteZ x) (byteZ y)) as [->|Hne].
  - destruct (Z.ltb_spec (value a) (value b)), (Z.ltb_spec (byteZ y * P + value a) (byteZ y * P + value b)); done || lia.
  - destruct (Z.ltb_spec (byteZ x) (byteZ y)), (Z.ltb_spec (byteZ x * P + value a) (byteZ y * P + value b)); try done; nia.
Qed.

(** Masking a byte with [n] leading ones keeps its top [n] bits. *)
Lemma land_mask_byte a n : 0 <= n < 8 -> land_byte a (mask_byte n) = byteZ a / 2 ^ (8 - n) * 2 ^ (8 - n).
Proof.
  intros Hn. assert (n ∈ seqZ 0 8) as Hin by (apply elem_of_seqZ; lia). clear Hn. revert n Hin.
  apply Forall_forall. vm_compute seqZ. repeat constructor; destruct a; vm_compute; reflexivity.
Qed.

Lemma land_mask_full a : land_byte a xff = byteZ a.
Proof. destruct a; vm_compute; reflexivity. Qed.

Lemma masked_equal_none l a b : length a = l -> length b = l -> masked_equal a (mask_bytes l 0) b = true.
Proof.
  revert a b. induction l as [|l IH]; intros [|x a] [|y b]; try done. simpl. intros [= Ha] [= Hb].
  rewrite !land_mask_byte by lia. change (2 ^ (8 - 0)) with 256.
  pose proof (byteZ_range x). pose proof (byteZ_range y). rewrite !Z.div_small by done. simpl. by apply IH.
Qed.

Lemma div_pow_split q r m k : 0 <= k <= m -> (q * 2 ^ m + r) / 2 ^ k = q * 2 ^ (m - k) + r / 2 ^ k.
Proof.
  intros H. replace m with ((m - k) + k) at 1 by lia. rewrite Z.pow_add_r by lia.
  rewrite Z.mul_assoc, Z.div_add_l; [done|]. apply Z.pow_nonzero; lia.
Qed.

(** Equal under a mask of [n] ones means equal after dropping the other bits. *)
Lemma masked_equal_value l n a b :
  length a = l -> length b = l -> 0 <= n <= 8 * Z.of_nat l ->
  masked_equal a (mask_bytes l n) b = true <->
  value a / 2 ^ (8 * Z.of_nat l - n) = value b / 2 ^ (8 * Z.of_nat l - n).
Proof.
  revert n a b. induction l as [|l IH]; intros n [|x a] [|y b] Ha Hb Hn; try done.
  injection Ha as Ha. injection Hb as Hb. cbn [mask_bytes value].
  assert (len a = Z.of_nat l /\ len b = Z.of_nat l) as [-> ->] by (unfold len; lia).
  change 256 with (2 ^ 8). rewrite <- Z.pow_mul_r by lia.
  pose proof (value_range a) as Ra. pose proof (value_range b) as Rb.
  assert (len a = Z.of_nat l /\ len b = Z.of_nat l) as [Ea Eb] by (unfold len; lia). rewrite Ea in Ra. rewrite Eb in Rb.
  change 256 with (2 ^ 8) in Ra, Rb. rewrite <- Z.pow_mul_r in Ra, Rb by lia.
  destruct (Z.leb_spec 8 n).
  - cbn [masked_equal]. rewrite !land_mask_full, andb_true_iff, Z.eqb_eq, IH by (lia || done).
    replace (8 * Z.of_nat (S l) - n) with (8 * Z.of_nat l - (n - 8)) by lia.
    rewrite !div_pow_split by lia. set (k := 8 * Z.of_nat l - (n - 8)). set (P := 2 ^ (8 * Z.of_nat l - k)).
    assert (0 <= value a / 2 ^ k < P) as Ra'.
    { split; [apply Z.div_pos; lia|]. apply Z.div_lt_upper_bound; [lia|]. subst P.
      rewrite <- Z.pow_add_r by lia. replace (k + (8 * Z.of_nat l - k)) with (8 * Z.of_nat l) by lia. lia. }
    assert (0 <= value b / 2 ^ k < P) as Rb'.
    { split; [apply Z.div_pos; lia|]. apply Z.div_lt_upper_bound; [lia|]. subst P.
      rewrite <- Z.pow_add_r by lia. replace (k + (8 * Z.of_nat l - k)) with (8 * Z.of_nat l) by lia. lia. }
    split; [intros [-> ->]; done|]. intros E. assert (byteZ x = byteZ y) by nia. split; [done|nia].
  - cbn [masked_equal]. rewrite masked_equal_none, andb_true_r, Z.eqb_eq by done.
    rewrite !land_mask_byte by lia. set (L := 8 * Z.of_nat l) in *.
    replace (8 * Z.of_nat (S l) - n) with (L + (8 - n)) by lia.
    rewrite Z.pow_add_r by lia. rewrite <- !Z.div_div by (try apply Z.pow_nonzero; lia).
    rewrite !Z.div_add_l by (apply Z.pow_nonzero; lia). rewrite !(Z.div_small _ (2 ^ L)) by lia.
    rewrite !Z.add_0_r. pose proof (Z.pow_pos_nonneg 2 (8 - n)). nia.
Qed.

(** ** GeoIP: the binary search *)

(** A network of [l] bytes with prefix length [p], given by its first address; an
    IPv6 network does not lie in the range of mapped IPv4 addresses. *)
Record wf_net (l : nat) (p : Z) (n : IPNet) : Prop := {
  wn_family : l = 4%nat \/ l = 16%nat /\ To4 (net_IP n) = [];
  wn_len : length (net_IP n) = l;
  wn_prefix : 0 <= p <= 8 * Z.of_nat l;
  wn_mask : net_Mask n = mask_bytes l p;
  wn_base : value (net_IP n) mod 2 ^ (8 * Z.of_nat l - p) = 0
}.

(** An address of family [l] in the form [matchIP] searches for. *)
Definition wf_ip (l : nat) (ip : IP) : Prop := length ip = l /\ (l = 4%nat \/ l = 16%nat /\ To4 ip = []).

Lemma To4_len4 ip : length ip = 4%nat -> To4 ip = ip.
Proof. intros H. unfold To4, len. by rewrite H. Qed.

Lemma length_mask_bytes l n : length (mask_bytes l n) = l.
Proof. revert n. induction l as [|l IH]; intros n; [done|]. simpl. case_match; simpl; by rewrite IH. Qed.

Lemma norm_ip l ip : wf_ip l ip -> (if len (To4 ip) =? 0 then ip else To4 ip) = ip.
Proof. intros [Hl [->|[-> E]]]; [|by rewrite E]. rewrite To4_len4 by done. by case_match. Qed.

Lemma network_wf l p n : wf_net l p n -> networkNumberAndMask n = (net_IP n, mask_bytes l p).
Proof.
  intros [Hf Hl Hp Hm _]. unfold networkNumberAndMask.
  rewrite (norm_ip l) by (split; [done|]; destruct Hf as [|[? ?]]; auto). rewrite Hm. unfold len.
  rewrite Hl, length_mask_bytes. by destruct Hf as [->|[-> _]].
Qed.

Definition net_size (l : nat) (p : Z) : Z := 2 ^ (8 * Z.of_nat l - p).

(** A network contains the addresses of an interval. *)
Lemma Contains_interval l p n ip :
  wf_net l p n -> wf_ip l ip ->
  Contains_IP n ip = true <-> value (net_IP n) <= value ip < value (net_IP n) + net_size l p.
Proof.
  intros Hn Hip. unfold Contains_IP. rewrite (network_wf l p n Hn), (norm_ip l ip Hip).
  destruct Hn as [_ Hl Hp _ Hb], Hip as [Hi _]. unfold len. rewrite Hl, Hi, Z.eqb_refl. cbn [negb].
  rewrite masked_equal_value by done. unfold net_size. set (P := 2 ^ _) in *.
  assert (0 < P) as HP by (apply Z.pow_pos_nonneg; lia).
  assert (P <> 0 -> value (net_IP n) = P * (value (net_IP n) / P)) as H
    by (intros Hz; pose proof (Z.div_mod (value (net_IP n)) P Hz); lia).
  pose proof (Z.div_mod (value ip) P).
  pose proof (Z.mod_pos_bound (value ip) P HP). split; intros E.
  - nia.
  - apply (Z.div_unique _ _ _ (value ip - value (net_IP n))); [lia|]. rewrite <- H by lia. lia.
Qed.

(** A list of networks one after the other. *)
Definition in_order (l : nat) (ns : list IPNet) : Prop :=
  (forall i x, ns !! i = Some x -> exists p, wf_net l p x) /\
  forall i j x y, (i < j)%nat -> ns !! i = Some x -> ns !! j = Some y ->
    forall ip, wf_ip l ip -> Contains_IP x ip = true -> value ip < value (net_IP y).

Lemma search_complete l ns ip fuel left right j x :
  in_order l ns -> wf_ip l ip ->
  0 <= left -> right < len ns -> right - left + 1 <= Z.of_nat fuel ->
  left <= Z.of_nat j <= right -> ns !! j = Some x -> Contains_IP x ip = true ->
  search fuel ns ip left right = true.
Proof.
  intros [Hwf Hord] Hip. revert left right.
  induction fuel as [|fuel IH]; intros left right Hl Hr Hf Hj Hx Hc; [lia|]. cbn [search].
  destruct (Z.leb_spec left right); [|lia]. set (mid := (left + right) / 2).
  assert (left <= mid <= right) as Hm by (subst mid; split; [apply Z.div_le_lower_bound|apply Z.div_le_upper_bound]; lia).
  destruct (ns !! Z.to_nat mid) as [y|] eqn:Hy.
  2: { apply lookup_ge_None in Hy. unfold len in Hr. lia. }
  destruct (Contains_IP y ip) eqn:Hcy; [done|].
  destruct (Hwf _ _ Hx) as [px Wx]. destruct (Hwf _ _ Hy) as [py Wy].
  apply (Contains_interval l px) in Hc as Hcx; [|done|done].
  assert (j <> Z.to_nat mid) as Hne by (intros ->; congruence).
  assert (len (net_IP y) = len ip) as Hlen by (unfold len; destruct Wy, Hip; congruence).
  rewrite bytes_lt_value by done. destruct (Z.ltb_spec (value (net_IP y)) (value ip)).
  - apply IH; try done; try lia. split; [|lia].
    destruct (decide (j < Z.to_nat mid)%nat); [|lia].
    specialize (Hord j (Z.to_nat mid) x y ltac:(done) Hx Hy ip Hip Hc). lia.
  - apply IH; try done; try lia. split; [lia|].
    destruct (decide (Z.to_nat mid < j)%nat); [|lia]. exfalso.
    assert (wf_ip l (net_IP y)) as Wip.
    { destruct Wy as [Hfam Hly _ _ _]. split; [done|]. destruct Hfam; auto. }
    assert (Contains_IP y (net_IP y) = true) as Hself.
    { apply (Contains_interval l py); [done|done|]. unfold net_size. destruct Wy.
      pose proof (Z.pow_pos_nonneg 2 (8 * Z.of_nat l - py)). lia. }
    specialize (Hord (Z.to_nat mid) j y x ltac:(done) Hy Hx (net_IP y) Wip Hself). lia.
Qed.

Lemma search_sound ns ip fuel left right :
  search fuel ns ip left right = true -> exists x, x ∈ ns /\ Contains_IP x ip = true.
Proof.
  revert left right. induction fuel as [|fuel IH]; intros left right; [done|]. cbn [search].
  destruct (left <=? right); [|done]. destruct (ns !! _) as [x|] eqn:Hx; [|done].
  destruct (Contains_IP x ip) eqn:Hc; [|by case_match; apply IH].
  intros _. exists x. split; [by eapply list_elem_of_lookup_2|done].
Qed.

Lemma search_correct l ns ip :
  in_order l ns -> wf_ip l ip ->
  search (S (length ns)) ns ip 0 (len ns - 1) = existsb (fun x => Contains_IP x ip) ns.
Proof.
  intros Hord Hip. apply eq_iff_eq_true. rewrite existsb_exists. split.
  - intros (x & Hx & Hc)%search_sound. exists x. split; [|done]. by apply list_elem_of_In.
  - intros (x & Hx & Hc). apply list_elem_of_In, list_elem_of_lookup_1 in Hx as [j Hj].
    apply (search_complete l _ _ _ _ _ j x); try done; unfold len in *;
      apply lookup_lt_Some in Hj; lia.
Qed.

Lemma bytes_lt_cons x a y b :
  bytes_lt (x :: a) (y :: b) = if byteZ x =? byteZ y then bytes_lt a b else byteZ x <? byteZ y.
Proof. reflexivity. Qed.

Lemma bytes_le_trans a b c : bytes_lt b a = false -> bytes_lt c b = false -> bytes_lt c a = false.
Proof.
  revert b c. induction a as [|x a IH]; intros [|y b] [|z c]; try done.
  rewrite !bytes_lt_cons. intros H1 H2. zcases; try done; try lia. by eapply IH.
Qed.

Lemma bytes_lt_asym a b : bytes_lt a b = true -> bytes_lt b a = false.
Proof. revert b. induction a as [|x a IH]; intros [|y b]; try done. rewrite !bytes_lt_cons. intros H. zcases. by apply IH. Qed.

#[export] Instance net_le_trans : Transitive net_le.
Proof. intros a b c. unfold net_le. intros H1 H2. by eapply bytes_le_trans. Qed.

#[export] Instance net_le_total : Total net_le.
Proof.
  intros a b. unfold net_le. destruct (bytes_lt (net_IP b) (net_IP a)) eqn:E; [right|by left].
  by apply bytes_lt_asym.
Qed.

(** The network of an entry of the list. *)
Definition net_of (c : CIDR) : IPNet := MkIPNet (cidr_Ip c) (CIDRMask (cidr_Prefix c) (8 * len (cidr_Ip c))).

(** An entry as geoip.dat has it: the first address of a network of either family. *)
Definition wf_cidr (c : CIDR) : Prop := exists l, wf_net l (cidr_Prefix c) (net_of c).

(** No address lies in two networks of a list. *)
Definition apart (x y : IPNet) : Prop := forall ip, Contains_IP x ip = true -> Contains_IP y ip = true -> False.

Definition disjoint_nets (ns : list IPNet) : Prop := StronglySorted apart ns.

Lemma StronglySorted_at {A} (R : A -> A -> Prop) l i j x y :
  StronglySorted R l -> (i < j)%nat -> l !! i = Some x -> l !! j = Some y -> R x y.
Proof.
  intros Hs. revert i j. induction Hs as [|z l Hs IH Hz]; intros i j Hij Hx Hy; [done|].
  destruct j as [|j]; [lia|]. destruct i as [|i]; simpl in *.
  - simplify_eq. rewrite Forall_lookup in Hz. by eapply Hz.
  - eapply (IH i j); [lia|done|done].
Qed.

Lemma disjoint_perm ns ms : ns ≡ₚ ms -> disjoint_nets ns -> disjoint_nets ms.
Proof.
  unfold disjoint_nets. induction 1 as [|x l k Hp IH|x y l|l1 l2 l3 _ IH1 _ IH2]; intros Hd; [done| | |auto].
  - inv Hd. constructor; [auto|]. by rewrite <- Hp.
  - inv Hd. inv H1. inv H2. repeat constructor; try done. intros ip ? ?. by eapply H1.
Qed.

Lemma sorted_in_order l ns :
  (forall x, x ∈ ns -> exists p, wf_net l p x) -> disjoint_nets ns -> StronglySorted net_le ns -> in_order l ns.
Proof.
  intros Hwf Hd Hs. split.
  - intros i x Hx. apply Hwf. by eapply list_elem_of_lookup_2.
  - intros i j x y Hij Hx Hy ip Hip Hc.
    destruct (Hwf x) as [px Wx]; [by eapply list_elem_of_lookup_2|].
    destruct (Hwf y) as [py Wy]; [by eapply list_elem_of_lookup_2|].
    assert (net_le x y) as Hle by (by eapply StronglySorted_at).
    unfold net_le in Hle. rewrite bytes_lt_value in Hle by (unfold len; destruct Wx, Wy; congruence).
    apply Z.ltb_ge in Hle. apply (Contains_interval l px) in Hc as Hi; [|done|done].
    destruct (Z.ltb_spec (value ip) (value (net_IP y))); [done|exfalso].
    assert (wf_ip l (net_IP y)) as Wip.
    { destruct Wy as [Hfam Hly _ _ _]. split; [done|]. destruct Hfam; auto. }
    eapply (StronglySorted_at _ _ i j x y Hd Hij Hx Hy (net_IP y)).
    + apply (Contains_interval l px); [done|done|]. lia.
    + apply (Contains_interval l py); [done|done|]. unfold net_size. destruct Wy.
      pose proof (Z.pow_pos_nonneg 2 (8 * Z.of_nat l - py)). lia.
Qed.

(** The entries of one family. *)
Definition family (l : Z) (cs : list CIDR) : list IPNet := map net_of (filter (fun c => len (cidr_Ip c) = l) cs).

Lemma split_cidrs_wf cs :
  Forall wf_cidr cs -> split_cidrs cs = Some (family 4 cs, family 16 cs).
Proof.
  induction 1 as [|c cs Hc Hcs IH]; [done|]. simpl. rewrite IH. unfold family, wf_cidr in *.
  rewrite !filter_cons. destruct Hc as [l [Hf Hl _ _ _]]. simpl in Hl.
  destruct Hf as [->|[-> _]].
  - assert (len (cidr_Ip c) = 4) as E by (unfold len; lia).
    rewrite E, decide_True, decide_False by done. cbn [map option_map].
    by assert (net_of c = MkIPNet (cidr_Ip c) (CIDRMask (cidr_Prefix c) 32)) as -> by (unfold net_of; by rewrite E).
  - assert (len (cidr_Ip c) = 16) as E by (unfold len; lia).
    rewrite E, decide_False, decide_True by done. cbn [map option_map].
    by assert (net_of c = MkIPNet (cidr_Ip c) (CIDRMask (cidr_Prefix c) 128)) as -> by (unfold net_of; by rewrite E).
Qed.

Lemma family_in l cs x : x ∈ family l cs -> exists c, c ∈ cs /\ x = net_of c /\ len (cidr_Ip c) = l.
Proof.
  unfold family. intros (c & -> & Hc)%list_elem_of_fmap. apply list_elem_of_filter in Hc as [Hl Hc]. by exists c.
Qed.

Lemma family_disjoint l cs : disjoint_nets (map net_of cs) -> disjoint_nets (family l cs).
Proof.
  unfold disjoint_nets, family. induction cs as [|c cs IH]; intros Hd; [constructor|]. inv Hd.
  rewrite filter_cons. case_decide; simpl; [|by apply IH]. constructor; [by apply IH|].
  rewrite Forall_forall in *. intros x (c' & -> & Hc')%list_elem_of_fmap.
  apply H2, list_elem_of_fmap. apply list_elem_of_filter in Hc' as [_ ?]. by exists c'.
Qed.

Lemma family_in_order l cs :
  Forall wf_cidr cs -> disjoint_nets (map net_of cs) ->
  in_order l (merge_sort net_le (family (Z.of_nat l) cs)).
Proof.
  intros Hcs Hd. apply sorted_in_order.
  - intros x Hx. rewrite merge_sort_Permutation in Hx. apply family_in in Hx as (c & Hc & -> & Hl).
    rewrite Forall_forall in Hcs. destruct (Hcs c Hc) as [l' Hw]. exists (cidr_Prefix c).
    assert (l' = l) as -> by (destruct Hw as [_ Hl' _ _ _]; simpl in Hl'; unfold len in Hl; lia). done.
  - eapply disjoint_perm; [symmetry; apply merge_sort_Permutation|]. by apply family_disjoint.
  - apply StronglySorted_merge_sort; apply _.
Qed.

Lemma Contains_other l p x l' ip : wf_net l p x -> wf_ip l' ip -> l <> l' -> Contains_IP x ip = false.
Proof.
  intros Hx Hip Hne. unfold Contains_IP. rewrite (network_wf l p x Hx), (norm_ip l' ip Hip).
  destruct Hx as [_ Hl _ _ _], Hip as [Hi _]. unfold len. rewrite Hl, Hi.
  destruct (Z.eqb_spec (Z.of_nat l') (Z.of_nat l)); [lia|done].
Qed.

Lemma family_exists l cs ip :
  Forall wf_cidr cs -> wf_ip l ip ->
  existsb (fun x => Contains_IP x ip) (merge_sort net_le (family (Z.of_nat l) cs)) =
  existsb (fun c => Contains_IP (net_of c) ip) cs.
Proof.
  intros Hcs Hip. apply eq_iff_eq_true. rewrite !existsb_exists. setoid_rewrite <- list_elem_of_In. split.
  - intros (x & Hx & Hc). rewrite merge_sort_Permutation in Hx. apply family_in in Hx as (c & Hin & -> & _). by exists c.
  - intros (c & Hin & Hc). exists (net_of c). split; [|done]. rewrite merge_sort_Permutation.
    apply list_elem_of_fmap. exists c. split; [done|]. apply list_elem_of_filter. split; [|done].
    rewrite Forall_forall in Hcs. destruct (Hcs c Hin) as [l' Hw].
    destruct (decide (l' = l)) as [->|Hne].
    + destruct Hw as [_ Hl _ _ _]. simpl in Hl. unfold len. lia.
    + by rewrite (Contains_other l' _ _ l ip Hw Hip Hne) in Hc.
Qed.

Definition valid_ip (ip : IP) : Prop := length ip = 0%nat \/ length ip = 4%nat \/ length ip = 16%nat.

Lemma To4_cases ip : To4 ip = [] \/ length (To4 ip) = 4%nat.
Proof.
  unfold To4. destruct (Z.eqb_spec (len ip) 4); [right; unfold len in *; lia|].
  destruct (Z.eqb_spec (len ip) 16); simpl; [|by left].
  case_bool_decide; [right; rewrite length_drop; unfold len in *; lia|by left].
Qed.

Lemma Contains_norm x ip : Contains_IP x ip = Contains_IP x (if len (To4 ip) =? 0 then ip else To4 ip).
Proof.
  destruct (To4_cases ip) as [E|E]; [by rewrite E|].
  unfold Contains_IP. assert ((len (To4 ip) =? 0) = false) as H by (apply Z.eqb_neq; unfold len; lia).
  rewrite H, (To4_len4 (To4 ip)), H by done. done.
Qed.

Lemma matchIP_correct cs inv ip :
  Forall wf_cidr cs -> disjoint_nets (map net_of cs) -> valid_ip ip -> ip <> [] ->
  matchIP (MkGeoip (merge_sort net_le (family 4 cs)) (merge_sort net_le (family 16 cs)) inv) ip =
  existsb (fun c => Contains_IP (net_of c) ip) cs.
Proof.
  intros Hcs Hd Hv Hne. unfold matchIP. cbn [N4 N6].
  transitivity (existsb (fun c => Contains_IP (net_of c) (if len (To4 ip) =? 0 then ip else To4 ip)) cs).
  2: { induction cs as [|c cs IH]; [done|]. inv Hcs. inv Hd. simpl. by rewrite <- Contains_norm, IH. }
  destruct (To4_cases ip) as [E|E].
  - assert ((len (To4 ip) =? 0) = true) as -> by (by rewrite E). assert (wf_ip 16 ip) as Hip.
    { split; [|by right]. destruct Hv as [H|[H|H]]; [by destruct ip| |done].
      rewrite To4_len4 in E by done. by subst. }
    rewrite (search_correct 16) by (try done; by apply (family_in_order 16)). by apply (family_exists 16).
  - assert ((len (To4 ip) =? 0) = false) as -> by (apply Z.eqb_neq; unfold len; lia).
    assert (wf_ip 4 (To4 ip)) as Hip by (split; [done|by left]).
    rewrite (search_correct 4) by (try done; by apply (family_in_order 4)). by apply (family_exists 4).
Qed.

(** Some entry contains the address; nil is in none. *)
Definition listed (cs : list CIDR) (ip : IP) : bool :=
  negb (len ip =? 0) && existsb (fun c => Contains_IP (net_of c) ip) cs.

(** C36.  The binary search finds what a linear search would: for a list of
    networks given by their first addresses of which no two overlap, a geoip matcher
    accepts a host exactly when one of its addresses lies in one of the networks, or
    none does if the list is inverted. *)
Theorem geoip_matches_list list_ host :
  Forall wf_cidr (Cidr list_) -> disjoint_nets (map net_of (Cidr list_)) ->
  valid_ip (IPv4 host) -> valid_ip (IPv6 host) ->
  exists m, newGeoIPMatcher list_ = Some m /\
    geoip_Match m host = xorb (InverseMatch list_) (listed (Cidr list_) (IPv4 host) || listed (Cidr list_) (IPv6 host)).
Proof.
  intros Hcs Hd H4 H6. unfold newGeoIPMatcher. rewrite split_cidrs_wf by done. eexists. split; [done|].
  assert (forall ip, valid_ip ip -> negb (len ip =? 0) &&
    matchIP (MkGeoip (merge_sort net_le (family 4 (Cidr list_))) (merge_sort net_le (family 16 (Cidr list_)))
      (InverseMatch list_)) ip = listed (Cidr list_) ip) as Hm.
  { intros ip Hv. unfold listed. destruct ip as [|b ip]; [done|]. by rewrite matchIP_correct. }
  unfold geoip_Match. rewrite !Hm by done. simpl.
  by destruct (listed _ (IPv4 host)), (listed _ (IPv6 host)), (InverseMatch list_).
Qed.

(** 1.0.0.0/8 and two networks inside it. *)
Definition nested_list : GeoIP :=
  MkGeoIP [MkCIDR [x01; x00; x00; x00] 8; MkCIDR [x01; x01; x00; x00] 16; MkCIDR [x01; x02; x00; x00] 16] false.

(** Overlapping networks break the search: 1.3.0.0 lies in the first network of
    the list and is not found. *)
Theorem geoip_nested_miss :
  exists m, newGeoIPMatcher nested_list = Some m /\
    listed (Cidr nested_list) [x01; x03; x00; x00] = true /\
    geoip_Match m (MkHostInfo "" [x01; x03; x00; x00] []) = false.
Proof. eexists. split; [vm_compute; reflexivity|]. split; vm_compute; reflexivity. Qed.

Definition sample_geoip : GeoIP := MkGeoIP [MkCIDR [x0a; x00; x00; x00] 8; MkCIDR [xc0; xa8; x00; x00] 16] true.

Lemma sample_wf : Forall wf_cidr (Cidr sample_geoip).
Proof. repeat constructor; exists 4%nat; (split; [by left|done|split; vm_compute; congruence|done|done]). Qed.

Lemma sample_disjoint : disjoint_nets (map net_of (Cidr sample_geoip)).
Proof.
  repeat constructor. intros ip H1 H2. unfold Contains_IP in *.
  change (networkNumberAndMask _) with ([x0a; x00; x00; x00], [xff; x00; x00; x00]) in H1.
  change (networkNumberAndMask _) with ([xc0; xa8; x00; x00], [xff; xff; x00; x00]) in H2.
  cbv zeta in H1, H2. destruct (if len (To4 ip) =? 0 then ip else To4 ip) as [|b ip']; [done|].
  destruct (negb _) in H1; [done|]. destruct (negb _) in H2; [done|].
  cbn [masked_equal] in H1, H2. apply andb_true_iff in H1 as [H1%Z.eqb_eq _], H2 as [H2%Z.eqb_eq _].
  rewrite !land_mask_full in *. rewrite <- H1 in H2. done.
Qed.

Lemma geoip_matches_list_witness :
  exists m, newGeoIPMatcher sample_geoip = Some m /\
    geoip_Match m (MkHostInfo "example.com" [x0a; x01; x02; x03] []) = false.
Proof.
  destruct (geoip_matches_list sample_geoip (MkHostInfo "example.com" [x0a; x01; x02; x03] [])) as (m & E & H).
  - exact sample_wf.
  - exact sample_disjoint.
  - right. left. reflexivity.
  - left. reflexivity.
  - exists m. split; [exact E|]. rewrite H. vm_compute. reflexivity.
Defined.

End AclMatch.
