(* ===== verification/AclCompile.v ===== *)
(** * AclCompile: compiled rules, their cache and the engine (acl/compile.go, acl/engine.go)

    [Compile] turns parsed rules into matchers; a rule set looks up the first rule
    that matches and keeps results in an LRU cache keyed by the printed host, protocol
    and port.  The cache is third-party code: [LRU] says what the rule set relies on.
    Parameters stand for the Unicode tables of [strings.ToLower], for [net.ParseIP] and
    [net.ParseCIDR], for [idna.ToUnicode], for the regular expressions of geosite lists
    and for the geo databases.  [IPPrinter] is what the cache key relies on from
    [net.IP.String]. *)

From S2P Require Import Prelude GoStrings AclParse AclMatch.
#[local] Open Scope string_scope.
#[local] Open Scope list_scope.
#[local] Open Scope Z_scope.

(** A cache from [K] to [V]: [lru_content] is what it holds now.  It may forget
    entries at any time but never invents or mixes them up. *)
Class LRU (K V T : Type) := {
  lru_new : T;
  lru_get : T -> K -> T * option V;
  lru_add : T -> K -> V -> T;
  lru_content : T -> K -> option V
}.

Class LRULaws (K V T : Type) `{!LRU K V T} : Prop := {
  lru_new_empty k : lru_content lru_new k = None;
  lru_get_result t k : (lru_get t k).2 = lru_content t k;
  lru_get_keeps t k k' v : lru_content (lru_get t k).1 k' = Some v -> lru_content t k' = Some v;
  lru_add_content t k v k' v' :
    lru_content (lru_add t k v) k' = Some v' -> (k' = k /\ v' = v) \/ lru_content t k' = Some v'
}.

Module AclCompile.
Import AclMatch.

Inductive Protocol := ProtocolBoth | ProtocolTCP | ProtocolUDP.

#[export] Instance Protocol_eq_dec : EqDecision Protocol.
Proof. solve_decision. Defined.

Record compiledRule (O : Type) := MkRule {
  r_Outbound : O;
  r_HostMatcher : hostMatcher;
  r_Protocol : Protocol;
  r_StartPort : Z;
  r_EndPort : Z;
  r_HijackAddress : IP
}.
Arguments MkRule {O}.
Arguments r_Outbound {O}.
Arguments r_HostMatcher {O}.
Arguments r_Protocol {O}.
Arguments r_StartPort {O}.
Arguments r_EndPort {O}.
Arguments r_HijackAddress {O}.

(** ** Protocol and port *)

Section compile.
Variable unicode_lower : string -> string.
Variable ParseIP : string -> option IP.
Variable ParseCIDR : string -> option IPNet.
Variable regexp_Compile : string -> option (string -> bool).
Variable idna_ToUnicode : string -> option string.
Variable IP_String : IP -> string.
(** The databases of the [GeoLoader], keyed by lower-case name; [None] is an error. *)
Variable LoadGeoIP : option (gmap string GeoIP).
Variable LoadGeoSite : option (gmap string GeoSite).

Abbreviation lower := (ToLower unicode_lower).

(** The switch over the protocol name. *)
Definition proto_of (s : string) : option Protocol :=
  if String.eqb s "tcp" then Some ProtocolTCP
  else if String.eqb s "udp" then Some ProtocolUDP
  else if String.eqb s "*" then Some ProtocolBoth
  else None.

(** The port part: start and end port, [0, 0] for [*]. *)
Definition ports_of (s : string) : option (Z * Z) :=
  if String.eqb s "*" then Some (0, 0)
  else match SplitN2 "-" (TrimSpace s) with
       | [a; b] =>
           match ParseUint 16 a with
           | None => None
           | Some start =>
               match ParseUint 16 b with
               | None => None
               | Some end_ => if end_ <? start then None else Some (start, end_)
               end
           end
       | _ => match ParseUint 16 s with Some p => Some (p, p) | None => None end
       end.

(** [None] stands for a false fourth result. *)
Definition parseProtoPort (protoPort : string) : option (Protocol * Z * Z) :=
  let protoPort := lower protoPort in
  if String.eqb protoPort "" || String.eqb protoPort "*" || String.eqb protoPort "*/*" then
    Some (ProtocolBoth, 0, 0)
  else match SplitN2 "/" protoPort with
       | [proto; port] =>
           match proto_of proto with
           | None => None
           | Some p => match ports_of port with Some (a, b) => Some (p, a, b) | None => None end
           end
       | _ =>
           if String.eqb protoPort "tcp" then Some (ProtocolTCP, 0, 0)
           else if String.eqb protoPort "udp" then Some (ProtocolUDP, 0, 0)
           else None
       end.

(** ** Host patterns *)

Inductive compile_error :=
  | OutboundNotFound (name : string)
  | EmptyGeoIPCode
  | GeoLoadFailed
  | GeoNotFound (name : string)
  | GeoInvalid
  | EmptyGeoSiteName
  | EmptySuffix
  | InvalidCIDR (addr : string)
  | InvalidProtoPort (s : string)
  | InvalidHijack (s : string).

(** [s[n:]] *)
Fixpoint str_from (n : nat) (s : string) : string :=
  match n, s with S n, String _ r => str_from n r | _, _ => s end.

Definition parseGeoSiteName (s : string) : string * list string :=
  match Split "@" s with
  | base :: attrs => (TrimSpace base, map TrimSpace attrs)
  | [] => ("", [])
  end.

(** The normal form of host names and patterns. *)
Definition normalize (s : string) : string := TrimRight "." (lower s).

Definition compile_geoip (country : string) : compile_error + hostMatcher :=
  if String.eqb country "" then inl EmptyGeoIPCode
  else match LoadGeoIP with
       | None => inl GeoLoadFailed
       | Some gMap =>
           match gMap !! country with
           | None => inl (GeoNotFound country)
           | Some list_ =>
               match newGeoIPMatcher list_ with Some m => inr (geoip m) | None => inl GeoInvalid end
           end
       end.

Definition compile_geosite (s : string) : compile_error + hostMatcher :=
  let '(name, attrs) := parseGeoSiteName s in
  if String.eqb name "" then inl EmptyGeoSiteName
  else match LoadGeoSite with
       | None => inl GeoLoadFailed
       | Some gMap =>
           match gMap !! name with
           | None => inl (GeoNotFound name)
           | Some list_ =>
               match newGeositeMatcher regexp_Compile list_ attrs with
               | Some m => inr (geosite m)
               | None => inl GeoInvalid
               end
           end
       end.

Definition compileHostMatcher (addr : string) : compile_error + hostMatcher :=
  let addr := normalize addr in
  if String.eqb addr "*" || String.eqb addr "all" then inr allMatcher
  else if HasPrefix "geoip:" addr then compile_geoip (str_from 6 addr)
  else if HasPrefix "geosite:" addr then compile_geosite (str_from 8 addr)
  else if HasPrefix "suffix:" addr then
    let suffix := str_from 7 addr in
    if String.eqb suffix "" then inl EmptySuffix else inr (domainMatcher suffix domainMatchSuffix)
  else if contains_byte "/" addr then
    match ParseCIDR addr with Some n => inr (cidrMatcher n) | None => inl (InvalidCIDR addr) end
  else match ParseIP addr with
       | Some ip => inr (ipMatcher ip)
       | None =>
           if contains_byte "*" addr then inr (domainMatcher addr domainMatchWildcard)
           else inr (domainMatcher addr domainMatchExact)
       end.

(** ** Compiling rules *)

Context {O : Type}.

(** The body of the loop of [Compile]. *)
Definition compile_rule (outbounds : gmap string O) (rule : AclParse.TextRule) : compile_error + compiledRule O :=
  match outbounds !! lower (AclParse.Outbound rule) with
  | None => inl (OutboundNotFound (AclParse.Outbound rule))
  | Some ob =>
      match compileHostMatcher (AclParse.Address rule) with
      | inl e => inl e
      | inr hm =>
          match parseProtoPort (AclParse.ProtoPort rule) with
          | None => inl (InvalidProtoPort (AclParse.ProtoPort rule))
          | Some (proto, startPort, endPort) =>
              if String.eqb (AclParse.HijackAddress rule) "" then inr (MkRule ob hm proto startPort endPort [])
              else match ParseIP (AclParse.HijackAddress rule) with
                   | None => inl (InvalidHijack (AclParse.HijackAddress rule))
                   | Some ip => inr (MkRule ob hm proto startPort endPort ip)
                   end
          end
      end
  end.

(** The rules, or the line and cause of the first that does not compile. *)
Fixpoint compile_rules (outbounds : gmap string O) (rules : list AclParse.TextRule)
  : (Z * compile_error) + list (compiledRule O) :=
  match rules with
  | [] => inr []
  | rule :: rest =>
      match compile_rule outbounds rule with
      | inl e => inl (AclParse.LineNum rule, e)
      | inr r =>
          match compile_rules outbounds rest with
          | inl e => inl e
          | inr rs => inr (r :: rs)
          end
      end
  end.

(** ** Matching *)

Definition rule_Match (r : compiledRule O) (host : HostInfo) (proto : Protocol) (port : Z) : bool :=
  if negb (bool_decide (r_Protocol r = ProtocolBoth)) && negb (bool_decide (r_Protocol r = proto)) then false
  else if negb (r_StartPort r =? 0) && ((port <? r_StartPort r) || (r_EndPort r <? port)) then false
  else hostMatch idna_ToUnicode (r_HostMatcher r) host.

(** [host.String()] *)
Definition HostInfo_String (h : HostInfo) : string :=
  Name h +:+ ("|" +:+ (IP_String (IPv4 h) +:+ ("|" +:+ IP_String (IPv6 h)))).

Abbreviation cache_key := (string * Protocol * Z)%type.
(** [None] when no rule matched. *)
Abbreviation result := (option (O * IP)).

(** The loop over the rules. *)
Definition first_match (rules : list (compiledRule O)) (host : HostInfo) (proto : Protocol) (port : Z) : result :=
  match find (fun r => rule_Match r host proto port) rules with
  | Some r => Some (r_Outbound r, r_HijackAddress r)
  | None => None
  end.

Definition normal_host (host : HostInfo) : HostInfo := MkHostInfo (normalize (Name host)) (IPv4 host) (IPv6 host).

Context {T : Type} `{!LRU cache_key result T}.

Definition Match (rules : list (compiledRule O)) (cache : T) (host : HostInfo) (proto : Protocol) (port : Z)
  : T * result :=
  let host := normal_host host in
  let key := (HostInfo_String host, proto, port) in
  match lru_get cache key with
  | (cache, Some res) => (cache, res)
  | (cache, None) =>
      let res := first_match rules host proto port in
      (lru_add cache key res, res)
  end.

(** ** The engine *)

Record Engine := MkEngine { e_rules : list (compiledRule O); e_cache : T; e_Default : O }.

Inductive engine_error := NoDefault | SyntaxError (line : string) (num : Z) | CompilationError (num : Z) (e : compile_error).

(** [any(ob) == nil]: no value of [O] is nil here, so that a nil outbound named "default" is a missing one. *)
Definition NewEngineFromString (rules : string) (outbounds : gmap string O) : engine_error + Engine :=
  match outbounds !! "default" with
  | None => inl NoDefault
  | Some dflt =>
      match AclParse.ParseTextRules rules with
      | inl (line, num) => inl (SyntaxError line num)
      | inr trs =>
          match compile_rules outbounds trs with
          | inl (num, e) => inl (CompilationError num e)
          | inr rs => inr (MkEngine rs lru_new dflt)
          end
      end
  end.

(** [Lookup]: the engine with its cache after the call, the outbound and the
    hijack address. *)
Definition Lookup (e : Engine) (host : string) (ipv4 ipv6 : IP) (proto : Protocol) (port : Z) : Engine * O * IP :=
  let '(cache, res) := Match (e_rules e) (e_cache e) (MkHostInfo host ipv4 ipv6) proto port in
  let e := MkEngine (e_rules e) cache (e_Default e) in
  match res with
  | Some (ob, hijack) => (e, ob, hijack)
  | None => (e, e_Default e, [])
  end.

End compile.

(** ** The cache is invisible *)

(** The form of an address that matching depends on. *)
Definition canon (ip : IP) : IP := if len (To4 ip) =? 0 then ip else To4 ip.

Lemma To4_canon ip : To4 (canon ip) = To4 ip.
Proof.
  unfold canon. destruct (To4_cases ip) as [E|E]; [by rewrite E|].
  assert ((len (To4 ip) =? 0) = false) as -> by (apply Z.eqb_neq; unfold len; lia). by apply To4_len4.
Qed.

Lemma canon_To4 a b : canon a = canon b -> To4 a = To4 b.
Proof. intros E. by rewrite <- (To4_canon a), E, To4_canon. Qed.

Lemma canon_nil a : (len (canon a) =? 0) = (len a =? 0).
Proof.
  unfold canon. destruct (To4_cases a) as [E|E]; [by rewrite E|].
  assert (len (To4 a) = 4) as H by (unfold len; lia). rewrite H. cbn [Z.eqb]. rewrite H.
  destruct a; [done|]. symmetry. apply Z.eqb_neq. rewrite len_cons. pose proof (len_nonneg a). lia.
Qed.

Lemma matchIP_canon m a b : canon a = canon b -> matchIP m a = matchIP m b.
Proof.
  intros E. pose proof (canon_To4 a b E) as E4. unfold matchIP, canon in *. rewrite E4 in E |- *.
  destruct (len (To4 b) =? 0); [by rewrite E|done].
Qed.

Lemma To4_16 ip : length ip = 16%nat -> To4 ip = if bool_decide (take 12 ip = v4InV6Prefix) then drop 12 ip else [].
Proof. intros H. unfold To4, len. rewrite H. simpl. done. Qed.

(** [Equal] compares canonical forms. *)
Lemma IP_Equal_canon x ip : valid_ip x -> x <> [] -> valid_ip ip -> IP_Equal x ip = bool_decide (canon x = canon ip).
Proof.
  intros Hx Hne Hip.
  assert (forall u, length u = 4%nat -> canon u = u) as C4.
  { intros u Hu. unfold canon. rewrite To4_len4 by done. by case_match. }
  assert (forall u, length u = 16%nat -> canon u = if bool_decide (take 12 u = v4InV6Prefix) then drop 12 u else u) as C16.
  { intros u Hu. unfold canon. rewrite To4_16 by done. case_bool_decide; [|done].
    assert (len (drop 12 u) = 4) as -> by (unfold len; rewrite length_drop; lia). done. }
  assert (forall u : IP, length u = 16%nat -> u = take 12 u ++ drop 12 u) as Hsplit by (intros; by rewrite take_drop).
  unfold IP_Equal, len.
  destruct Hx as [Hx|[Hx|Hx]]; [by destruct x| |]; destruct Hip as [Hi|[Hi|Hi]]; rewrite Hx, Hi; cbn [Z.eqb Pos.eqb Z.of_nat Pos.of_succ_nat Pos.succ andb].
  - destruct ip; [|done]. rewrite C4 by done. change (canon []) with (@nil byte). by rewrite bool_decide_false.
  - by rewrite !C4.
  - rewrite C4, C16 by done. destruct (bool_decide (take 12 ip = _)); [done|]. rewrite bool_decide_false; [done|congruence].
  - destruct ip; [|done]. rewrite C16 by done. change (canon []) with (@nil byte).
    symmetry. apply bool_decide_false. destruct (bool_decide _); [|done].
    intros E%(f_equal length). rewrite length_drop in E. simpl in E. lia.
  - rewrite C16, C4 by done. destruct (bool_decide (take 12 x = _)); [done|]. rewrite bool_decide_false; [done|congruence].
  - rewrite !C16 by done. destruct (decide (x = ip)) as [->|Hn].
    { rewrite (bool_decide_true (ip = ip)) by done. symmetry. by apply bool_decide_true. }
    rewrite (bool_decide_false (x = ip)) by done. symmetry. apply bool_decide_false.
    repeat case_bool_decide; intros E; try done.
    + apply Hn. rewrite (Hsplit x), (Hsplit ip) by done. congruence.
    + apply (f_equal length) in E. rewrite length_drop in E. lia.
    + apply (f_equal length) in E. rewrite length_drop in E. lia.
Qed.

(** What the cache key needs from [net.IP.String]: no bar, and different text for
    different addresses. *)
Class IPPrinter (IP_String : IP -> string) : Prop := {
  ip_no_bar ip : contains_byte "|" (IP_String ip) = false;
  ip_string_canon a b : valid_ip a -> valid_ip b -> IP_String a = IP_String b -> canon a = canon b
}.

Lemma last_bar c x y x' y' :
  contains_byte c y = false -> contains_byte c y' = false ->
  x +:+ String c y = x' +:+ String c y' -> x = x' /\ y = y'.
Proof.
  intros Hy Hy'. revert x'. induction x as [|a x IH]; intros [|b x'] E; autorewrite with go_str in E.
  - by injection E as ->.
  - injection E as -> ->. rewrite contains_byte_app in Hy. simpl in Hy.
    by rewrite Ascii.eqb_refl, orb_true_r in Hy.
  - injection E as -> <-. rewrite contains_byte_app in Hy'. simpl in Hy'.
    by rewrite Ascii.eqb_refl, orb_true_r in Hy'.
  - injection E as -> E. by destruct (IH x' E) as [-> ->].
Qed.

Section cache.
Variable unicode_lower : string -> string.
Variable idna_ToUnicode : string -> option string.
Context {IP_String : IP -> string} `{!IPPrinter IP_String}.
Context {O T : Type} `{!LRU (string * Protocol * Z) (option (O * IP)) T, !LRULaws (string * Protocol * Z) (option (O * IP)) T}.

Definition valid_host (h : HostInfo) : Prop := valid_ip (IPv4 h) /\ valid_ip (IPv6 h).

Lemma key_canon h h' :
  valid_host h -> valid_host h' -> HostInfo_String IP_String h = HostInfo_String IP_String h' ->
  Name h = Name h' /\ canon (IPv4 h) = canon (IPv4 h') /\ canon (IPv6 h) = canon (IPv6 h').
Proof.
  intros [V4 V6] [V4' V6']. unfold HostInfo_String. autorewrite with go_str. intros E.
  change (Name h +:+ String "|" ?x) with (Name h +:+ (String "|" x)) in E.
  assert (forall n a b : string, n +:+ String "|" (a +:+ String "|" b) = (n +:+ String "|" a) +:+ String "|" b) as Ha.
  { intros n a b. rewrite string_app_assoc. by autorewrite with go_str. }
  rewrite !Ha in E. apply last_bar in E as [E E6]; [|apply ip_no_bar|apply ip_no_bar].
  apply last_bar in E as [En E4]; [|apply ip_no_bar|apply ip_no_bar].
  split_and!; [done|by apply ip_string_canon|by apply ip_string_canon].
Qed.

(** An address to compare with is a real address. *)
Definition rule_ok (r : compiledRule O) : Prop :=
  match r_HostMatcher r with ipMatcher ip => valid_ip ip /\ ip <> [] | _ => True end.

Lemma hostMatch_canon m h h' :
  match m with ipMatcher ip => valid_ip ip /\ ip <> [] | _ => True end ->
  valid_host h -> valid_host h' ->
  Name h = Name h' -> canon (IPv4 h) = canon (IPv4 h') -> canon (IPv6 h) = canon (IPv6 h') ->
  hostMatch idna_ToUnicode m h = hostMatch idna_ToUnicode m h'.
Proof.
  intros Hm [V4 V6] [V4' V6'] En E4 E6. destruct m as [ip|n|p mode| |g|g]; simpl.
  - destruct Hm. rewrite !IP_Equal_canon by done. by rewrite E4, E6.
  - rewrite (Contains_norm n (IPv4 h)), (Contains_norm n (IPv6 h)), (Contains_norm n (IPv4 h')), (Contains_norm n (IPv6 h')).
    unfold canon in *. by rewrite E4, E6.
  - unfold domain_Match. by rewrite En.
  - done.
  - unfold geoip_Match. rewrite <- (canon_nil (IPv4 h)), <- (canon_nil (IPv6 h)), E4, E6, !canon_nil.
    by rewrite (matchIP_canon g _ _ E4), (matchIP_canon g _ _ E6).
  - unfold geosite_Match. induction (gm_Domains g) as [|d ds IH]; [done|]. cbn [existsb]. rewrite IH. f_equal.
    unfold matchDomain. by rewrite En.
Qed.

Lemma first_match_canon rules h h' proto port :
  Forall rule_ok rules -> valid_host h -> valid_host h' ->
  HostInfo_String IP_String h = HostInfo_String IP_String h' ->
  first_match idna_ToUnicode rules h proto port = first_match idna_ToUnicode rules h' proto port.
Proof.
  intros Hr V V' E. destruct (key_canon h h' V V' E) as (En & E4 & E6). unfold first_match.
  assert (find (fun r => rule_Match idna_ToUnicode r h proto port) rules =
          find (fun r => rule_Match idna_ToUnicode r h' proto port) rules) as ->; [|done].
  induction Hr as [|r rules Hr1 Hr IH]; [done|]. simpl. rewrite IH.
  assert (rule_Match idna_ToUnicode r h proto port = rule_Match idna_ToUnicode r h' proto port) as ->; [|done].
  unfold rule_Match. by rewrite (hostMatch_canon (r_HostMatcher r) h h').
Qed.

(** Every cached entry is the answer for every host printed that way. *)
Definition cache_ok (rules : list (compiledRule O)) (t : T) : Prop :=
  forall k proto port r, lru_content t (k, proto, port) = Some r ->
    forall h, valid_host h -> HostInfo_String IP_String h = k -> r = first_match idna_ToUnicode rules h proto port.

Lemma Match_ok rules t host proto port :
  Forall rule_ok rules -> valid_host host -> cache_ok rules t ->
  let '(t', r) := Match unicode_lower idna_ToUnicode IP_String rules t host proto port in
  r = first_match idna_ToUnicode rules (normal_host unicode_lower host) proto port /\ cache_ok rules t'.
Proof.
  intros Hr Hv Ht. unfold Match. set (h := normal_host unicode_lower host).
  assert (valid_host h) as Hh by done. set (key := (HostInfo_String IP_String h, proto, port)).
  pose proof (lru_get_result t key) as Hg. pose proof (lru_get_keeps t key) as Hk.
  destruct (lru_get t key) as [t1 [r|]]; cbn [fst snd] in *.
  - split; [by eapply Ht|]. intros k p q r' Hc. eapply Ht, Hk, Hc.
  - split; [done|]. intros k p q r' Hc h' Hh' E.
    apply lru_add_content in Hc as [[Ek ->]|Hc].
    + injection Ek as -> -> ->. by apply first_match_canon.
    + eapply Ht; [by apply Hk|done|done].
Qed.

(** A rule set answering queries in turn. *)
Fixpoint answers (rules : list (compiledRule O)) (t : T) (qs : list (HostInfo * Protocol * Z)) : list (option (O * IP)) :=
  match qs with
  | [] => []
  | (host, proto, port) :: qs =>
      let '(t', r) := Match unicode_lower idna_ToUnicode IP_String rules t host proto port in r :: answers rules t' qs
  end.

(** The cache is invisible: however many requests a rule set has answered, its
    answer is the first rule that matches the normalized host, protocol and port; an
    entry stored for one destination is never used for another one with a
    different name or address. *)
Theorem match_cache_transparent rules qs :
  Forall rule_ok rules -> Forall (fun q => valid_host q.1.1) qs ->
  answers rules lru_new qs =
    map (fun '(host, proto, port) => first_match idna_ToUnicode rules (normal_host unicode_lower host) proto port) qs.
Proof.
  intros Hr Hq. assert (cache_ok rules lru_new) as H0 by (intros k p q r; by rewrite lru_new_empty).
  revert H0. generalize lru_new. induction Hq as [|[[host proto] port] qs Hv Hq IH]; intros t Ht; [done|]. simpl.
  pose proof (Match_ok rules t host proto port Hr Hv Ht) as H.
  destruct (Match _ _ _ _ _ _ _ _) as [t' r]. destruct H as [-> Ht']. by rewrite IH.
Qed.

End cache.

(** ** Ports *)

(** A character that neither trimming nor lower-casing changes. *)
Definition simple_char (a : ascii) : bool :=
  AclParse.solid a && Ascii.eqb (lower_ascii a) a.

Lemma trim_simple back (l : list ascii) : forallb simple_char l = true -> trim_space_list back l = l.
Proof.
  destruct l as [|a r]; [done|]. simpl. intros [[Ha _]%andb_true_iff _]%andb_true_iff. by apply AclParse.trim_solid.
Qed.

Lemma simple_list s : all_chars simple_char s = forallb simple_char (list_ascii_of_string s).
Proof. induction s as [|a s IH]; [done|]. simpl. by rewrite IH. Qed.

Lemma TrimSpace_simple s : all_chars simple_char s = true -> TrimSpace s = s.
Proof.
  rewrite simple_list. intros H. unfold TrimSpace. rewrite (trim_simple false) by done.
  rewrite (trim_simple true).
  - rewrite rev_involutive. apply string_of_list_ascii_of_string.
  - rewrite forallb_forall in *. intros x Hx. apply H. by apply in_rev.
Qed.

Lemma ToLower_simple ul s : all_chars simple_char s = true -> ToLower ul s = s.
Proof.
  intros H. unfold ToLower, is_ascii.
  assert (forallb (fun a => Z.of_nat (nat_of_ascii a) <? 128) (list_ascii_of_string s) = true) as ->.
  { rewrite simple_list in H. rewrite forallb_forall in *. intros x Hx.
    specialize (H x Hx). apply andb_true_iff in H as [H _]. by apply andb_true_iff in H as [H _]. }
  induction s as [|a s IH]; [done|]. simpl in *. apply andb_true_iff in H as [[_ Ha%Ascii.eqb_eq]%andb_true_iff Hs].
  by rewrite Ha, IH.
Qed.

Lemma all_chars_app f x y : all_chars f (x +:+ y) = all_chars f x && all_chars f y.
Proof. induction x as [|a x IH]; [done|]. rewrite string_app_cons. simpl. by rewrite IH, andb_assoc. Qed.

Lemma digit_simple a : is_digit a = true -> simple_char a = true /\ a <> "-"%char /\ a <> "/"%char.
Proof. destruct a as [[] [] [] [] [] [] [] []]; intros H; try discriminate H; (split; [reflexivity|split; discriminate]). Qed.

Lemma digits_simple s :
  all_digits s = true ->
  all_chars simple_char s = true /\ contains_byte "-" s = false /\ contains_byte "/" s = false.
Proof.
  induction s as [|a s IH]; [done|]. simpl. intros [Ha Hs]%andb_true_iff.
  destruct (IH Hs) as (-> & -> & ->). destruct (digit_simple a Ha) as (-> & Hd & Hs').
  apply Ascii.eqb_neq in Hd, Hs'. by rewrite Hd, Hs'.
Qed.

Definition proto_name (p : Protocol) : string :=
  match p with ProtocolTCP => "tcp" | ProtocolUDP => "udp" | ProtocolBoth => "*" end.

(** [proto/a-b] *)
Definition print_range (p : Protocol) (a b : Z) : string :=
  proto_name p +:+ ("/" +:+ (Itoa a +:+ ("-" +:+ Itoa b))).

Lemma ports_of_range a b : 0 <= a <= b -> b <= maxUint16 -> ports_of (Itoa a +:+ ("-" +:+ Itoa b)) = Some (a, b).
Proof.
  intros Ha Hb. unfold maxUint16 in Hb.
  destruct (digits_simple (Itoa a)) as (S1 & S2 & _); [apply Itoa_digits; lia|].
  destruct (digits_simple (Itoa b)) as (S3 & S4 & _); [apply Itoa_digits; lia|].
  unfold ports_of.
  assert (String.eqb (Itoa a +:+ ("-" +:+ Itoa b)) "*" = false) as ->.
  { apply String.eqb_neq. intros E. apply (f_equal (contains_byte "-")) in E.
    rewrite contains_byte_app in E. autorewrite with go_str in E. simpl in E. by rewrite orb_true_r in E. }
  rewrite TrimSpace_simple by (rewrite !all_chars_app, S1, S3; done).
  unfold SplitN2. autorewrite with go_str. rewrite cut_app by done.
  rewrite !ParseUint_Itoa by (change (2 ^ 16) with 65536; lia). by destruct (Z.ltb_spec b a); [lia|].
Qed.

Lemma parseProtoPort_range ul p a b :
  0 <= a <= b -> b <= maxUint16 -> parseProtoPort ul (print_range p a b) = Some (p, a, b).
Proof.
  intros Ha Hb. pose proof (ports_of_range a b Ha Hb) as Hr. unfold maxUint16 in Hb.
  destruct (digits_simple (Itoa a)) as (S1 & S2 & _); [apply Itoa_digits; lia|].
  destruct (digits_simple (Itoa b)) as (S3 & S4 & _); [apply Itoa_digits; lia|].
  assert (all_chars simple_char (print_range p a b) = true) as Hs.
  { unfold print_range. rewrite !all_chars_app, S1, S3. by destruct p. }
  unfold parseProtoPort. rewrite ToLower_simple by done.
  assert (contains_byte "-" (print_range p a b) = true) as Hdash.
  { unfold print_range. rewrite !contains_byte_app. simpl. by rewrite !orb_true_r. }
  assert (forall s, contains_byte "-" s = false -> String.eqb (print_range p a b) s = false) as Hne.
  { intros s E. apply String.eqb_neq. intros <-. congruence. }
  rewrite !Hne by done. cbn [orb].
  assert (SplitN2 "/" (print_range p a b) = [proto_name p; Itoa a +:+ ("-" +:+ Itoa b)]) as ->.
  { unfold SplitN2, print_range. rewrite (string_app_cons "/"), string_app_nil, cut_app; [done|by destruct p]. }
  assert (proto_of (proto_name p) = Some p) as -> by (by destruct p). by rewrite Hr.
Qed.

Lemma parseProtoPort_bounds ul s p a b :
  parseProtoPort ul s = Some (p, a, b) -> 0 <= a <= b /\ b <= maxUint16.
Proof.
  unfold parseProtoPort, ports_of, maxUint16.
  intros H; repeat case_match; simplify_eq; try lia;
    repeat match goal with E : ParseUint 16 _ = Some _ |- _ => apply ParseUint_range in E end;
    repeat match goal with E : (_ <? _) = false |- _ => apply Z.ltb_ge in E end;
    change (2 ^ 16) with 65536 in *; lia.
Qed.

(** Protocol and port of a rule: every accepted text gives a range within 0 to
    65535; every range written as [proto/a-b] is read back; and a rule with it
    applies to a request of that protocol for exactly the ports [a] to [b], except
    that a range which starts at 0 applies to every port. *)
Theorem proto_port_spec ul idna {O} (ob : O) hm hijack :
  (forall s p a b, parseProtoPort ul s = Some (p, a, b) -> 0 <= a <= b /\ b <= maxUint16) /\
  forall p a b, 0 <= a <= b -> b <= maxUint16 ->
    parseProtoPort ul (print_range p a b) = Some (p, a, b) /\
    forall host proto port, rule_Match idna (MkRule ob hm p a b hijack) host proto port = true <->
      (p = ProtocolBoth \/ p = proto) /\ (a = 0 \/ a <= port <= b) /\ hostMatch idna hm host = true.
Proof.
  split; [intros s p a b; apply parseProtoPort_bounds|]. intros p a b Ha Hb.
  split; [by apply parseProtoPort_range|]. intros host proto port. unfold rule_Match. simpl.
  destruct (negb (bool_decide (p = ProtocolBoth)) && negb (bool_decide (p = proto))) eqn:Ep.
  { apply andb_true_iff in Ep as [E1%negb_true_iff%bool_decide_eq_false E2%negb_true_iff%bool_decide_eq_false].
    split; [done|]. by intros [[?|?] _]. }
  assert (p = ProtocolBoth \/ p = proto) as Hp.
  { apply andb_false_iff in Ep as [E%negb_false_iff%bool_decide_eq_true|E%negb_false_iff%bool_decide_eq_true]; auto. }
  destruct (Z.eqb_spec a 0) as [->|Hz]; simpl.
  { split; [intros Hh; split_and!; auto|by intros (_ & _ & ?)]. }
  destruct (Z.ltb_spec port a), (Z.ltb_spec b port); simpl;
    (split; [intros Hh; try done; split_and!; auto with lia|intros (_ & Hr & Hh); try done; exfalso; lia]).
Qed.

(** A rule for the ports 0 to 1023 applies to port 8080. *)
Example port_zero_range_matches_all idna :
  rule_Match idna (MkRule tt allMatcher ProtocolTCP 0 1023 []) (MkHostInfo "example.com" [] []) ProtocolTCP 8080 = true.
Proof. reflexivity. Qed.

(** ** The engine as a whole *)

Section engine.
Variable unicode_lower : string -> string.
Variable ParseIP : string -> option IP.
Variable ParseCIDR : string -> option IPNet.
Variable regexp_Compile : string -> option (string -> bool).
Variable idna_ToUnicode : string -> option string.
Context {IP_String : IP -> string} `{!IPPrinter IP_String}.
Variable LoadGeoIP : option (gmap string GeoIP).
Variable LoadGeoSite : option (gmap string GeoSite).
Context {O T : Type} `{!LRU (string * Protocol * Z) (option (O * IP)) T, !LRULaws (string * Protocol * Z) (option (O * IP)) T}.

Hypothesis ParseIP_valid : forall s ip, ParseIP s = Some ip -> valid_ip ip /\ ip <> [].

Abbreviation compile := (compile_rule unicode_lower ParseIP ParseCIDR regexp_Compile LoadGeoIP LoadGeoSite (O := O)).
Abbreviation new_engine :=
  (NewEngineFromString unicode_lower ParseIP ParseCIDR regexp_Compile LoadGeoIP LoadGeoSite (O := O) (T := T)).
Abbreviation lookup_ := (Lookup unicode_lower idna_ToUnicode IP_String (O := O) (T := T)).

Lemma compile_rules_Forall2 outbounds trs rs :
  compile_rules unicode_lower ParseIP ParseCIDR regexp_Compile LoadGeoIP LoadGeoSite outbounds trs = inr rs ->
  Forall2 (fun t r => compile outbounds t = inr r) trs rs.
Proof.
  revert rs. induction trs as [|t trs IH]; intros rs; simpl; [intros [= <-]; constructor|].
  destruct (compile outbounds t) eqn:E; [done|].
  destruct (compile_rules _ _ _ _ _ _ _ trs); [done|]. intros [= <-]. constructor; auto.
Qed.

Lemma compile_rule_ok outbounds (t : AclParse.TextRule) (r : compiledRule O) :
  compile outbounds t = inr r -> rule_ok r.
Proof.
  unfold compile_rule, rule_ok, compileHostMatcher, compile_geoip, compile_geosite.
  intros H; repeat case_match; simplify_eq/=; simplify_eq; try done; by eapply ParseIP_valid.
Qed.

(** What the compiled rules decide for one request. *)
Definition decision (rs : list (compiledRule O)) (dflt : O) (q : HostInfo * Protocol * Z) : O * IP :=
  default (dflt, []) (first_match idna_ToUnicode rs (normal_host unicode_lower q.1.1) q.1.2 q.2).

(** The same, told of the rules in order: the first one that matches decides, and
    the default if none does. *)
Inductive decides (rs : list (compiledRule O)) (dflt : O) (q : HostInfo * Protocol * Z) : O * IP -> Prop :=
  | by_rule pre r post :
      rs = pre ++ r :: post ->
      Forall (fun r => rule_Match idna_ToUnicode r (normal_host unicode_lower q.1.1) q.1.2 q.2 = false) pre ->
      rule_Match idna_ToUnicode r (normal_host unicode_lower q.1.1) q.1.2 q.2 = true ->
      decides rs dflt q (r_Outbound r, r_HijackAddress r)
  | by_default :
      Forall (fun r => rule_Match idna_ToUnicode r (normal_host unicode_lower q.1.1) q.1.2 q.2 = false) rs ->
      decides rs dflt q (dflt, []).

Lemma find_first {A} (f : A -> bool) l :
  match find f l with
  | Some x => exists pre post, l = pre ++ x :: post /\ Forall (fun y => f y = false) pre /\ f x = true
  | None => Forall (fun y => f y = false) l
  end.
Proof.
  induction l as [|a l IH]; simpl; [constructor|]. destruct (f a) eqn:E.
  - exists [], l. split; [done|]. split; [constructor|done].
  - destruct (find f l) as [x|]; [|by constructor]. destruct IH as (pre & post & -> & Hp & Hx).
    exists (a :: pre), post. split; [done|]. split; [by constructor|done].
Qed.

Lemma decision_decides rs dflt q : decides rs dflt q (decision rs dflt q).
Proof.
  unfold decision, first_match.
  pose proof (find_first (fun r => rule_Match idna_ToUnicode r (normal_host unicode_lower q.1.1) q.1.2 q.2) rs) as H.
  destruct (find _ rs) as [r|]; simpl; [|by constructor]. destruct H as (pre & post & H & Hp & Hr). by apply (by_rule _ _ _ pre r post).
Qed.

Fixpoint lookups (e : Engine) (qs : list (HostInfo * Protocol * Z)) : list (O * IP) :=
  match qs with
  | [] => []
  | (h, proto, port) :: qs =>
      let '(e', ob, hijack) := lookup_ e (Name h) (IPv4 h) (IPv6 h) proto port in (ob, hijack) :: lookups e' qs
  end.

(** C13.  An engine built from a text decides every request by the rules of that
    text: each rule line was compiled against the outbound it names, in order, and
    whatever requests came before, a request gets the outbound and the hijack
    address of the first rule that matches it, or the default outbound. *)
Theorem engine_decides text outbounds e :
  new_engine text outbounds = inr e ->
  exists trs rs dflt, AclParse.ParseTextRules text = inr trs /\
    Forall2 (fun t r => compile outbounds t = inr r) trs rs /\ outbounds !! "default" = Some dflt /\
    forall qs, Forall (fun q => valid_host q.1.1) qs -> Forall2 (decides rs dflt) qs (lookups e qs).
Proof.
  unfold NewEngineFromString. destruct (outbounds !! "default") as [dflt|] eqn:Ed; [|done].
  destruct (AclParse.ParseTextRules text) as [[? ?]|trs]; [done|].
  destruct (compile_rules _ _ _ _ _ _ _ _) as [[? ?]|rs] eqn:Er; [done|]. intros [= <-].
  apply compile_rules_Forall2 in Er. exists trs, rs, dflt. split_and!; try done.
  assert (Forall rule_ok rs) as Hrs.
  { clear -Er ParseIP_valid. induction Er; constructor; [by eapply compile_rule_ok|done]. }
  intros qs Hq. assert (cache_ok (IP_String := IP_String) idna_ToUnicode rs lru_new) as H0
    by (intros k p q r; by rewrite lru_new_empty).
  revert H0. generalize (lru_new (T := T)). induction Hq as [|[[host proto] port] qs Hv Hq IH]; intros t Ht; [done|].
  cbn [lookups]. unfold Lookup. cbn [e_rules e_cache e_Default].
  pose proof (Match_ok unicode_lower idna_ToUnicode rs t host proto port Hrs Hv Ht) as H.
  replace (MkHostInfo (Name host) (IPv4 host) (IPv6 host)) with host by (by destruct host).
  destruct (Match _ _ _ _ _ _ _ _) as [t' r]. destruct H as [-> Ht'].
  pose proof (decision_decides rs dflt (host, proto, port)) as Hd. unfold decision in Hd. cbn [fst snd] in Hd.
  destruct (first_match _ _ _ _ _) as [[ob hijack]|]; simpl in *; constructor; auto.
Qed.

End engine.

(** ** Concrete instances *)

(** A cache of at most two entries. *)
#[export] Instance list_lru {K V} `{!EqDecision K} : LRU K V (list (K * V)) := {
  lru_new := [];
  lru_content t k := snd <$> List.find (fun kv => bool_decide (kv.1 = k)) t;
  lru_get t k := (t, snd <$> List.find (fun kv => bool_decide (kv.1 = k)) t);
  lru_add t k v := (k, v) :: take 1 t
}.

#[export] Instance list_lru_laws {K V} `{!EqDecision K} : LRULaws K V (list (K * V)).
Proof.
  split; simpl; try done. intros t k v k' v'. destruct (bool_decide_reflect (k = k')) as [->|]; simpl.
  - intros [= <-]. by left.
  - destruct t as [|[k1 v1] t]; simpl; [done|]. destruct (bool_decide (k1 = k')); simpl; [auto|done].
Qed.

(** Two letters for each byte of the canonical address. *)
Definition letter (n : Z) : ascii := ascii_of_nat (Z.to_nat (97 + n)).

Fixpoint letters (ip : bytes) : string :=
  match ip with
  | [] => ""
  | b :: r => String (letter (byteZ b / 16)) (String (letter (byteZ b mod 16)) (letters r))
  end.

Fixpoint unletters (s : string) : bytes :=
  match s with
  | String x (String y r) =>
      Zbyte ((Z.of_nat (nat_of_ascii x) - 97) * 16 + (Z.of_nat (nat_of_ascii y) - 97)) :: unletters r
  | _ => []
  end.

Lemma unletters_letters ip : unletters (letters ip) = ip.
Proof. induction ip as [|b ip IH]; [done|]. cbn [letters unletters]. rewrite IH. f_equal. destruct b; reflexivity. Qed.

Definition letter_string (ip : IP) : string := letters (canon ip).

#[export] Instance letter_printer : IPPrinter letter_string.
Proof.
  split.
  - intros ip. unfold letter_string. induction (canon ip) as [|b l IH]; [done|]. cbn [letters contains_byte].
    rewrite IH, orb_false_r. destruct b; reflexivity.
  - intros a b _ _ E. unfold letter_string in E. by rewrite <- (unletters_letters (canon a)), E, unletters_letters.
Qed.

(** An address parser that knows one address. *)
Definition sample_ParseIP (s : string) : option IP :=
  if String.eqb s "10.0.0.1" then Some [x0a; x00; x00; x01] else None.

Lemma sample_ParseIP_valid s ip : sample_ParseIP s = Some ip -> valid_ip ip /\ ip <> [].
Proof. unfold sample_ParseIP. case_match; [|done]. intros [= <-]. split; [right; by left|done]. Qed.

Definition sample_rule (hm : hostMatcher) (ob : Z) : compiledRule Z := MkRule ob hm ProtocolBoth 0 0 [].

Lemma match_cache_transparent_witness :
  let rules := [sample_rule (ipMatcher [x0a; x00; x00; x01]) 1; sample_rule (domainMatcher "a.com" domainMatchSuffix) 2] in
  let qs := [(MkHostInfo "X.A.com." [] [], ProtocolTCP, 80); (MkHostInfo "x" [x0a; x00; x00; x01] [], ProtocolTCP, 80);
             (MkHostInfo "x.a.com" [] [], ProtocolTCP, 80)] in
  answers (fun s => s) Some (IP_String := letter_string) rules lru_new qs = [Some (2, []); Some (1, []); Some (2, [])].
Proof.
  intros rules qs. rewrite (match_cache_transparent (fun s => s) Some (IP_String := letter_string) rules qs).
  - vm_compute. reflexivity.
  - constructor; [split; [right; left; reflexivity|discriminate]|constructor; [exact I|constructor]].
  - repeat apply Forall_cons_2; try apply Forall_nil_2; (split; first [left; reflexivity | right; left; reflexivity]).
Defined.

Lemma engine_decides_witness :
  exists e trs rs dflt,
    AclParse.ParseTextRules "reject(10.0.0.1)" = inr trs /\
    Forall2 (fun t r => compile_rule (fun s => s) sample_ParseIP (fun _ => None) (fun _ => None) None None
      {["default" := 0; "reject" := 1]} t = inr r) trs rs /\
    ({["default" := 0; "reject" := 1]} : gmap string Z) !! "default" = Some dflt /\
    forall qs, Forall (fun q => valid_host q.1.1) qs ->
      Forall2 (decides (fun s => s) Some rs dflt) qs (lookups (fun s => s) Some (IP_String := letter_string) e qs).
Proof.
  destruct (NewEngineFromString (fun s => s) sample_ParseIP (fun _ => None) (fun _ => None) None None
    (O := Z) (T := list (string * Protocol * Z * option (Z * IP)))
    "reject(10.0.0.1)" {["default" := 0; "reject" := 1]}) as [e|e] eqn:E.
  - exfalso. vm_compute in E. discriminate E.
  - exists e. apply (engine_decides (fun s => s) sample_ParseIP (fun _ => None) (fun _ => None) Some None None
      sample_ParseIP_valid "reject(10.0.0.1)" {["default" := 0; "reject" := 1]} e E).
Defined.

Lemma proto_port_spec_witness :
  parseProtoPort (fun s => s) (print_range ProtocolTCP 80 443) = Some (ProtocolTCP, 80, 443) /\
  rule_Match Some (MkRule 1 allMatcher ProtocolTCP 80 443 []) (MkHostInfo "x" [] []) ProtocolTCP 100 = true.
Proof.
  destruct (proto_port_spec (fun s => s) Some 1 allMatcher []) as [_ H].
  destruct (H ProtocolTCP 80 443) as [H1 H2]; [lia|vm_compute; congruence|].
  split; [exact H1|]. apply H2. split; [right; reflexivity|]. split; [right; lia|reflexivity].
Defined.

End AclCompile.
