(* ===== verification/Policy.v ===== *)
(** * Policy: which outbound serves a request, and with which address
      (cmd/server/acl.go, cmd/server/private.go, cmd/server/outbound.go)

    [selectRoute] combines the access-control rules, the resolver and the filter for
    private destinations; [routedPacketConn] applies it per packet of a UDP stream.
    The decision function of the ACL engine is the one AclCompile.v proves [Lookup]
    to compute.  A destination is an address or a name with a port; the resolver and
    the system's lookup are functions from names to results, and
    [IP_String] stands for [net.IP.String].  [netip] predicates are written out. *)

From S2P Require Import Prelude GoStrings AclMatch AclCompile.
From Stdlib Require Import Btauto.
#[local] Open Scope string_scope.
#[local] Open Scope list_scope.
#[local] Open Scope Z_scope.

Module Policy.
Import AclMatch AclCompile.

(** ** Private addresses *)

Definition b4 (ip : IP) (i : nat) : Z := byteZ (nth i ip x00).

Definition is4 (ip : IP) : bool := len ip =? 4.
Definition is6 (ip : IP) : bool := len ip =? 16.

(** [addr.Unmap()] on the bytes of a [netip.Addr] *)
Definition Unmap (ip : IP) : IP := canon ip.

Definition all_zero (ip : bytes) : bool := forallb (fun b => byteZ b =? 0) ip.

Definition IsLoopback (ip : IP) : bool :=
  if is4 ip then b4 ip 0 =? 127 else is6 ip && all_zero (take 15 ip) && (b4 ip 15 =? 1).

Definition IsPrivate (ip : IP) : bool :=
  if is4 ip then
    (b4 ip 0 =? 10) || ((b4 ip 0 =? 172) && (Z.land (b4 ip 1) 240 =? 16)) || ((b4 ip 0 =? 192) && (b4 ip 1 =? 168))
  else is6 ip && (Z.land (b4 ip 0) 254 =? 252).

Definition IsUnspecified (ip : IP) : bool := (is4 ip || is6 ip) && all_zero ip.

Definition IsLinkLocalUnicast (ip : IP) : bool :=
  if is4 ip then (b4 ip 0 =? 169) && (b4 ip 1 =? 254)
  else is6 ip && (b4 ip 0 =? 254) && (Z.land (b4 ip 1) 192 =? 128).

Definition IsMulticast (ip : IP) : bool :=
  if is4 ip then Z.land (b4 ip 0) 240 =? 224 else is6 ip && (b4 ip 0 =? 255).

(** A CIDR block by address and prefix length. *)
Definition block (ip : IP) (p : Z) : IPNet := MkIPNet ip (mask_bytes (length ip) p).

Definition nonPublicPrefixes : list IPNet :=
  [block [x00; x00; x00; x00] 8; block [x64; x40; x00; x00] 10; block [xff; xff; xff; xff] 32].

Definition isPrivateAddr (addr : IP) : bool :=
  let addr := Unmap addr in
  if IsLoopback addr || IsPrivate addr || IsUnspecified addr || IsLinkLocalUnicast addr || IsMulticast addr
  then true
  else existsb (fun prefix => Contains_IP prefix addr) nonPublicPrefixes.

(** ** Outbounds *)

(** [Direct] and [SOCKS5] are pointers, told apart by identity. *)
Inductive outbound :=
  | Reject
  | Direct (id : Z)
  | SOCKS5 (id : Z).

#[export] Instance outbound_eq_dec : EqDecision outbound.
Proof. solve_decision. Defined.

Definition RemoteResolve (o : outbound) : bool := match o with SOCKS5 _ => true | _ => false end.

(** [outboundMap(entries, direct)] *)
Definition add_missing (k : string) (o : outbound) (m : gmap string outbound) : gmap string outbound :=
  match m !! k with Some _ => m | None => <[k := o]> m end.

Definition outboundMap (unicode_lower : string -> string) (entries : list (string * outbound)) (direct : outbound)
  : gmap string outbound :=
  let m := foldl (fun m e => <[ToLower unicode_lower e.1 := e.2]> m) ∅ entries in
  let m := add_missing "direct" direct m in
  let m := add_missing "reject" Reject m in
  match m !! "default" with
  | Some _ => m
  | None =>
      match entries with
      | e :: _ => <["default" := e.2]> m
      | [] => <["default" := default direct (m !! "direct")]> m
      end
  end.

(** ** Routes *)

Inductive Socksaddr :=
  | SockIP (addr : IP) (port : Z)
  | SockFqdn (name : string) (port : Z).

Definition Port (d : Socksaddr) : Z := match d with SockIP _ p => p | SockFqdn _ p => p end.

Record Result := MkResult { res_IPv4 : IP; res_IPv6 : IP; res_Err : bool }.

Definition no_result : Result := MkResult [] [] false.

Inductive route_error := errACLRejected | errResolve | errPrivateDestination.

Record route := MkRoute { rt_outbound : outbound; rt_target : Socksaddr }.

Record outboundPolicy := MkPolicy {
  p_acl : option (HostInfo -> Protocol -> Z -> outbound * IP);
  p_resolver : option (string -> Result);
  p_blockPrivate : bool;
  p_fallback : outbound
}.

(** [newOutboundPolicy]; [fresh] is the outbound made when there is no fallback. *)
Definition newOutboundPolicy acl resolver blockPrivate (fallback : option outbound) (fresh : outbound) : outboundPolicy :=
  MkPolicy acl resolver blockPrivate (default fresh fallback).

Section route.
Variable IP_String : IP -> string.
(** [Socksaddr.IsIPv4] of an address and [Socksaddr.IsFqdn] of a name *)
Variable IsIPv4 : IP -> bool.
Variable IsFqdn : string -> bool.
(** [net.DefaultResolver.LookupIP] *)
Variable LookupIP : string -> option (list IP).

(** The loop of [systemResolve]. *)
Definition keep_first (r : Result) (ip : IP) : Result :=
  if negb (len (To4 ip) =? 0) then
    if len (res_IPv4 r) =? 0 then MkResult (To4 ip) (res_IPv6 r) (res_Err r) else r
  else if len (res_IPv6 r) =? 0 then MkResult (res_IPv4 r) ip (res_Err r)
  else r.

Definition systemResolve (host : string) : Result :=
  match LookupIP host with
  | None => MkResult [] [] true
  | Some ips => foldl keep_first no_result ips
  end.

Definition hostInfo (p : outboundPolicy) (destination : Socksaddr) : string * Result * bool :=
  match destination with
  | SockIP ip _ =>
      if IsIPv4 ip then (IP_String ip, MkResult ip [] false, false)
      else (IP_String ip, MkResult [] ip false, false)
  | SockFqdn name _ =>
      if negb (IsFqdn name) then (IP_String [], no_result, false)
      else
        match p_resolver p with
        | Some resolve => (name, resolve name, true)
        | None =>
            if negb (bool_decide (is_Some (p_acl p))) && negb (p_blockPrivate p) then (name, no_result, false)
            else (name, systemResolve name, true)
        end
  end.

(** [netip.AddrFromSlice] and [Unmap]; [[]] is the zero [Addr]. *)
Definition ipToNetip (ip : IP) : IP := if is4 ip || is6 ip then Unmap ip else [].

Definition pickDialAddr (destination : Socksaddr) (result : Result) (attempted : bool) : route_error + Socksaddr :=
  if negb (len (res_IPv4 result) =? 0) then inr (SockIP (ipToNetip (res_IPv4 result)) (Port destination))
  else if negb (len (res_IPv6 result) =? 0) then inr (SockIP (ipToNetip (res_IPv6 result)) (Port destination))
  else if attempted then inl errResolve
  else inr destination.

Definition isPrivateIP (ip : IP) : bool := negb (len ip =? 0) && isPrivateAddr (ipToNetip ip).

Definition reachesPrivate (ob : outbound) (addr : Socksaddr) (result : Result) : bool :=
  if RemoteResolve ob then isPrivateIP (res_IPv4 result) || isPrivateIP (res_IPv6 result)
  else match addr with SockIP a _ => negb (len a =? 0) && isPrivateAddr a | SockFqdn _ _ => false end.

(** The part of [selectRoute] after the ACL has chosen [ob] without a hijack. *)
Definition finish_route (p : outboundPolicy) (destination : Socksaddr) (ob : outbound) (result : Result) (attempted : bool)
  : route_error + route :=
  match pickDialAddr destination result attempted with
  | inl err =>
      if negb (RemoteResolve ob) || p_blockPrivate p then inl err else inr (MkRoute ob destination)
  | inr addr =>
      if p_blockPrivate p && reachesPrivate ob addr result then inl errPrivateDestination
      else if RemoteResolve ob then inr (MkRoute ob destination)
      else inr (MkRoute ob addr)
  end.

Definition selectRoute (p : outboundPolicy) (destination : Socksaddr) (proto : Protocol) : route_error + route :=
  let '(host, result, attempted) := hostInfo p destination in
  match p_acl p with
  | None => finish_route p destination (p_fallback p) result attempted
  | Some lookup =>
      let '(ob, hijack) := lookup (MkHostInfo host (res_IPv4 result) (res_IPv6 result)) proto (Port destination) in
      if bool_decide (ob = Reject) then inl errACLRejected
      else if negb (len hijack =? 0) then inr (MkRoute ob (SockIP (ipToNetip hijack) (Port destination)))
      else finish_route p destination ob result attempted
  end.

End route.

(** ** UDP streams *)

Definition maxSessionACLCache : Z := 256.

Record policyDecision := MkDecision { d_rejected : bool; d_route : route }.

Record routedPacketConn := MkPacketConn {
  rp_cache : gmap string policyDecision;
  rp_conn : option outbound;               (** the open socket, by its outbound *)
  rp_closed : bool;
  rp_ready : bool;                         (** the channel is closed *)
  rp_sent : list (Socksaddr * Socksaddr)   (** packets given to the socket: destination, target *)
}.

Definition newRoutedPacketConn : routedPacketConn := MkPacketConn ∅ None false false [].

Definition set_cache (c : routedPacketConn) (m : gmap string policyDecision) : routedPacketConn :=
  MkPacketConn m (rp_conn c) (rp_closed c) (rp_ready c) (rp_sent c).

(** Map iteration starts at any key: at [victim], if it is there. *)
Definition evict (cache : gmap string policyDecision) (victim : string) : gmap string policyDecision :=
  if maxSessionACLCache <=? Z.of_nat (size cache) then
    match cache !! victim with
    | Some _ => delete victim cache
    | None => match map_to_list cache with (k, _) :: _ => delete k cache | [] => cache end
    end
  else cache.

Inductive packet_result := PacketSent | PacketDropped | PacketClosed | PacketListenFailed.

Section packets.
Variable IP_String : IP -> string.
Variable IsIPv4 : IP -> bool.
Variable IsFqdn : string -> bool.
(** [Socksaddr.String] *)
Variable Socksaddr_String : Socksaddr -> string.

(** What happens while a packet is handled: the policy's resolver and the system's
    lookup answer as they do now, the map iteration starts at some key and
    [ListenUDP] succeeds or fails. *)
Record moment := MkMoment {
  now_policy : outboundPolicy;
  now_lookup : string -> option (list IP);
  now_victim : string;
  now_listens : bool
}.

(** [routedPacketConn.decide] *)
Definition packet_route (m : moment) (destination : Socksaddr) : route_error + route :=
  selectRoute IP_String IsIPv4 IsFqdn (now_lookup m) (now_policy m) destination ProtocolUDP.

Definition decide_packet (m : moment) (destination : Socksaddr) : policyDecision :=
  match packet_route m destination with
  | inl _ => MkDecision true (MkRoute Reject (SockIP [] 0))
  | inr r => MkDecision false r
  end.

Definition cached_decision (m : moment) (c : routedPacketConn) (destination : Socksaddr)
  : routedPacketConn * policyDecision :=
  let key := Socksaddr_String destination in
  match rp_cache c !! key with
  | Some d => (c, d)
  | None =>
      let d := decide_packet m destination in
      (set_cache c (<[key := d]> (evict (rp_cache c) (now_victim m))), d)
  end.

Definition WritePacket (m : moment) (c : routedPacketConn) (destination : Socksaddr)
  : routedPacketConn * packet_result :=
  let '(c, d) := cached_decision m c destination in
  if d_rejected d then (c, PacketDropped)
  else if rp_closed c then (c, PacketClosed)
  else
    let ob := rt_outbound (d_route d) in
    let sent := rp_sent c ++ [(destination, rt_target (d_route d))] in
    match rp_conn c with
    | None =>
        if now_listens m then (MkPacketConn (rp_cache c) (Some ob) false true sent, PacketSent)
        else (c, PacketListenFailed)
    | Some bound =>
        if bool_decide (ob = bound) then (MkPacketConn (rp_cache c) (Some bound) false (rp_ready c) sent, PacketSent)
        else (c, PacketDropped)
    end.

(** [ReadPacket]: [None] while it waits for [ready], then the error of a stream
    without a socket or the socket to read from. *)
Definition ReadPacket (c : routedPacketConn) : option (option outbound) :=
  if rp_ready c then Some (rp_conn c) else None.

(** [Close]; the socket, if any, is closed with it. *)
Definition rp_Close (c : routedPacketConn) : routedPacketConn :=
  if rp_closed c then c else MkPacketConn (rp_cache c) (rp_conn c) true true (rp_sent c).

(** The methods that only reach the socket: [currentConn] is the open one, and a method is
    forwarded to it, or answered with [none] while there is none. *)
Definition currentConn (c : routedPacketConn) : option outbound := rp_conn c.

Definition forwarded {A : Type} (none : A) (method : outbound -> A) (c : routedPacketConn) : A :=
  match currentConn c with Some conn => method conn | None => none end.

(** [&net.UDPAddr{}] prints as an unspecified address. *)
Definition rp_LocalAddr (LocalAddr : outbound -> string) : routedPacketConn -> string := forwarded ":0" LocalAddr.
Definition rp_SetDeadline (SetDeadline : outbound -> option goerror) : routedPacketConn -> option goerror := forwarded None SetDeadline.
Definition rp_SetReadDeadline (SetReadDeadline : outbound -> option goerror) : routedPacketConn -> option goerror := forwarded None SetReadDeadline.
Definition rp_SetWriteDeadline (SetWriteDeadline : outbound -> option goerror) : routedPacketConn -> option goerror := forwarded None SetWriteDeadline.

Inductive packet_op :=
  | OpPacket (m : moment) (destination : Socksaddr)
  | OpClosePacket.

Definition packet_exec (c : routedPacketConn) (o : packet_op) : routedPacketConn :=
  match o with OpPacket m d => (WritePacket m c d).1 | OpClosePacket => rp_Close c end.

Definition packet_run (c : routedPacketConn) (ops : list packet_op) : routedPacketConn := foldl packet_exec c ops.

End packets.

(** ** Which addresses are private *)

(** The blocks that are not public. *)
Definition private_blocks : list IPNet :=
  [block [x00; x00; x00; x00] 8; block [x0a; x00; x00; x00] 8; block [x64; x40; x00; x00] 10;
   block [x7f; x00; x00; x00] 8; block [xa9; xfe; x00; x00] 16; block [xac; x10; x00; x00] 12;
   block [xc0; xa8; x00; x00] 16; block [xe0; x00; x00; x00] 4; block [xff; xff; xff; xff] 32;
   block (replicate 16 x00) 128; block (replicate 15 x00 ++ [x01]) 128;
   block (xfc :: replicate 15 x00) 7; block (xfe :: x80 :: replicate 14 x00) 10;
   block (xff :: replicate 15 x00) 8].

Lemma land_byte_0 a : land_byte a x00 = 0.
Proof. by destruct a. Qed.

Lemma eqb_byte a b : (byteZ a =? byteZ b) = bool_decide (a = b).
Proof.
  case_bool_decide as E; [subst; apply Z.eqb_refl|]. apply Z.eqb_neq. intros H. by apply byteZ_inj in H.
Qed.

(** Membership in a block, on canonical addresses. *)
Lemma Contains_block l n p l' ip :
  wf_ip l n -> wf_ip l' ip ->
  Contains_IP (block n p) ip = if (l =? l')%nat then masked_equal n (mask_bytes l p) ip else false.
Proof.
  intros Hn Hip.
  assert (networkNumberAndMask (block n p) = (n, mask_bytes l p)) as E.
  { unfold networkNumberAndMask, block. cbn [net_IP net_Mask]. rewrite (norm_ip l n Hn).
    destruct Hn as [Hn Hl]. unfold len. rewrite !Hn, length_mask_bytes. by destruct Hl as [->|[-> _]]. }
  unfold Contains_IP. rewrite E, (norm_ip l' ip Hip). destruct Hn as [Hn _], Hip as [Hi _]. unfold len.
  rewrite Hn, Hi. destruct (Nat.eqb_spec l l') as [->|Hne]; [by rewrite Z.eqb_refl|].
  destruct (Z.eqb_spec (Z.of_nat l') (Z.of_nat l)); [lia|done].
Qed.

Lemma canon_wf ip : valid_ip ip -> ip <> [] -> wf_ip 4 (canon ip) \/ wf_ip 16 (canon ip).
Proof.
  intros Hv Hne. unfold canon. destruct (To4_cases ip) as [E|E].
  - right. rewrite E. split; [|by right]. destruct Hv as [H|[H|H]]; [by destruct ip| |done].
    rewrite To4_len4 in E by done. by subst.
  - left. assert ((len (To4 ip) =? 0) = false) as -> by (apply Z.eqb_neq; unfold len; lia). split; [done|by left].
Qed.

(** Rewrites membership in constant blocks into comparisons of single bytes. *)
Ltac byte_tests :=
  repeat match goal with |- context [mask_bytes ?l ?p] =>
    let m := eval vm_compute in (mask_bytes l p) in change (mask_bytes l p) with m end;
  cbn [masked_equal replicate app];
  rewrite ?land_mask_full, ?land_byte_0, ?Z.eqb_refl;
  repeat match goal with
  | |- context [byteZ ?k =? byteZ ?v] => is_var v; rewrite (Z.eqb_sym (byteZ k) (byteZ v))
  | |- context [land_byte ?k ?m =? land_byte ?v ?m] => is_var v; rewrite (Z.eqb_sym (land_byte k m) (land_byte v m))
  end;
  unfold land_byte;
  repeat match goal with |- context [byteZ ?k] =>
    assert_fails (is_var k); let z := eval vm_compute in (byteZ k) in change (byteZ k) with z end;
  change (Z.land 64 192) with 64; change (Z.land 16 240) with 16; change (Z.land 224 240) with 224;
  change (Z.land 252 254) with 252; change (Z.land 128 192) with 128;
  rewrite ?andb_true_r, ?orb_false_r.

Lemma wf4 a b c d : wf_ip 4 [a; b; c; d].
Proof. split; [done|by left]. Qed.

Lemma private4 a b c d :
  isPrivateAddr [a; b; c; d] = existsb (fun n => Contains_IP n [a; b; c; d]) private_blocks.
Proof.
  unfold isPrivateAddr, private_blocks, nonPublicPrefixes, Unmap. change (canon [a; b; c; d]) with [a; b; c; d].
  cbn [existsb].
  rewrite !(fun n p H => Contains_block 4 n p 4 [a; b; c; d] H (wf4 a b c d)) by (split; [reflexivity|by left]).
  rewrite !(fun n p H => Contains_block 16 n p 4 [a; b; c; d] H (wf4 a b c d)) by (split; [reflexivity|by right]).
  cbn [Nat.eqb].
  change (IsLoopback [a; b; c; d]) with (byteZ a =? 127).
  change (IsPrivate [a; b; c; d]) with
    ((byteZ a =? 10) || ((byteZ a =? 172) && (Z.land (byteZ b) 240 =? 16)) || ((byteZ a =? 192) && (byteZ b =? 168))).
  change (IsUnspecified [a; b; c; d]) with
    ((byteZ a =? 0) && ((byteZ b =? 0) && ((byteZ c =? 0) && ((byteZ d =? 0) && true)))).
  change (IsLinkLocalUnicast [a; b; c; d]) with ((byteZ a =? 169) && (byteZ b =? 254)).
  change (IsMulticast [a; b; c; d]) with (Z.land (byteZ a) 240 =? 224).
  byte_tests. btauto.
Qed.

Lemma private16 ip :
  wf_ip 16 ip -> isPrivateAddr ip = existsb (fun n => Contains_IP n ip) private_blocks.
Proof.
  intros Hip. pose proof (norm_ip 16 ip Hip) as Hc. unfold isPrivateAddr, Unmap.
  change (canon ip) with (if len (To4 ip) =? 0 then ip else To4 ip). rewrite Hc. clear Hc.
  unfold private_blocks, nonPublicPrefixes. cbn [existsb].
  rewrite !(fun n p H => Contains_block 4 n p 16 ip H Hip) by (split; [reflexivity|by left]).
  rewrite !(fun n p H => Contains_block 16 n p 16 ip H Hip) by (split; [reflexivity|by right]).
  cbn [Nat.eqb]. destruct Hip as [Hl _].
  do 16 (destruct ip as [|? ip]; [discriminate Hl|]). destruct ip; [|discriminate Hl].
  unfold IsLoopback, IsPrivate, IsUnspecified, IsLinkLocalUnicast, IsMulticast, is4, is6, b4, all_zero.
  cbn [nth forallb take]. 
  match goal with |- context [len ?l] => change (len l) with 16 end. cbn [Z.eqb Pos.eqb orb andb].
  byte_tests. rewrite <- !andb_assoc.
  repeat match goal with |- context [(byteZ ?x =? 0) && ?y] => generalize ((byteZ x =? 0) && y); intros end.
  btauto.
Qed.

(** The private-destination filter blocks exactly these networks: for every
    IPv4 or IPv6 address, also an IPv4 address in IPv6 form, the tests of
    [isPrivateAddr] agree with membership in the table of blocks, which holds the
    loopback, private, shared, link-local, multicast, unspecified and broadcast ranges. *)
Theorem private_table ip :
  valid_ip ip -> ip <> [] ->
  isPrivateAddr ip = existsb (fun n => Contains_IP n (canon ip)) private_blocks.
Proof.
  intros Hv Hne. assert (isPrivateAddr ip = isPrivateAddr (canon ip)) as ->.
  { unfold isPrivateAddr, Unmap. assert (canon (canon ip) = canon ip) as ->; [|done].
    unfold canon at 1. rewrite To4_canon. unfold canon. by destruct (len (To4 ip) =? 0). }
  destruct (canon_wf ip Hv Hne) as [H|H]; [|by apply private16].
  destruct H as [Hl _]. destruct (canon ip) as [|a [|b [|c [|d [|]]]]]; try discriminate Hl. apply private4.
Qed.

Lemma private_table_witness :
  isPrivateAddr (v4InV6Prefix ++ [xac; x1f; x00; x09]) =
    existsb (fun n => Contains_IP n (canon (v4InV6Prefix ++ [xac; x1f; x00; x09]))) private_blocks /\
  isPrivateAddr (v4InV6Prefix ++ [xac; x1f; x00; x09]) = true /\ isPrivateAddr [x08; x08; x08; x08] = false.
Proof.
  split; [apply private_table; [right; right; reflexivity|discriminate]|]. split; vm_compute; reflexivity.
Defined.

(** ** What routes promise *)

Section route_spec.
Variable IP_String : IP -> string.
Variable IsIPv4 : IP -> bool.
Variable IsFqdn : string -> bool.
Variable LookupIP : string -> option (list IP).
Abbreviation select := (selectRoute IP_String IsIPv4 IsFqdn LookupIP).
Abbreviation info := (hostInfo IP_String IsIPv4 IsFqdn LookupIP).

(** The rule that decided, if the policy has rules. *)
Definition acl_choice (p : outboundPolicy) (destination : Socksaddr) (proto : Protocol) : outbound * IP :=
  let '(host, result, _) := info p destination in
  match p_acl p with
  | None => (p_fallback p, [])
  | Some lookup => lookup (MkHostInfo host (res_IPv4 result) (res_IPv6 result)) proto (Port destination)
  end.

(** The ACL has the first word: a request whose rule rejects it is refused
    whether or not its name resolves, and a request whose rule carries a hijack
    address goes to that address and the original port, also when its name does not
    resolve or the filter would block it; only other requests are subject to
    resolution and the private filter. *)
Theorem acl_decides_first p destination proto lookup ob hijack :
  p_acl p = Some lookup -> acl_choice p destination proto = (ob, hijack) ->
  (ob = Reject -> select p destination proto = inl errACLRejected) /\
  (ob <> Reject -> hijack <> [] ->
     select p destination proto = inr (MkRoute ob (SockIP (ipToNetip hijack) (Port destination)))) /\
  (ob <> Reject -> hijack = [] -> exists result attempted, (info p destination).1.2 = result /\
     (info p destination).2 = attempted /\
     select p destination proto = finish_route p destination ob result attempted).
Proof.
  intros Ha. unfold acl_choice, selectRoute. destruct (info p destination) as [[host result] attempted]. rewrite Ha.
  intros ->. split_and!.
  - intros ->. done.
  - intros Hne Hh. rewrite bool_decide_false by done.
    assert ((len hijack =? 0) = false) as -> by (apply Z.eqb_neq; intros E%len_zero_nil; done). done.
  - intros Hne ->. rewrite bool_decide_false by done. by exists result, attempted.
Qed.

Lemma ipToNetip_nonempty ip : valid_ip ip -> ip <> [] -> ipToNetip ip <> [].
Proof.
  intros Hv Hne. unfold ipToNetip, is4, is6, Unmap, len.
  assert ((Z.of_nat (length ip) =? 4) || (Z.of_nat (length ip) =? 16) = true) as ->.
  { destruct Hv as [H|[H|H]]; [by destruct ip|by rewrite H|by rewrite H]. }
  intros E. pose proof (canon_nil ip) as H. rewrite E in H. symmetry in H. apply Z.eqb_eq in H.
  by apply len_zero_nil in H.
Qed.

(** Results of a resolver are addresses. *)
Definition valid_result (r : Result) : Prop := valid_ip (res_IPv4 r) /\ valid_ip (res_IPv6 r).

(** The destination holds an address, or a name [IsFqdn] accepts. *)
Definition valid_destination (d : Socksaddr) : Prop :=
  match d with SockIP ip _ => valid_ip ip /\ ip <> [] | SockFqdn name _ => IsFqdn name = true end.

Lemma len_nonnil {A} (l : list A) : l <> [] -> (len l =? 0) = false.
Proof. intros Hne. apply Z.eqb_neq. intros E%len_zero_nil. done. Qed.

(** What the filter lets through. *)
Definition filtered (destination : Socksaddr) (result : Result) (r : route) : Prop :=
  if RemoteResolve (rt_outbound r) then
    rt_target r = destination /\
    (res_IPv4 result <> [] \/ res_IPv6 result <> []) /\
    (res_IPv4 result <> [] -> isPrivateAddr (ipToNetip (res_IPv4 result)) = false) /\
    (res_IPv6 result <> [] -> isPrivateAddr (ipToNetip (res_IPv6 result)) = false)
  else exists a, rt_target r = SockIP a (Port destination) /\ isPrivateAddr a = false.

Lemma isPrivateIP_false ip : isPrivateIP ip = false -> ip <> [] -> isPrivateAddr (ipToNetip ip) = false.
Proof. unfold isPrivateIP. intros H Hne. by rewrite len_nonnil in H. Qed.

Lemma filtered_remote ob destination result :
  RemoteResolve ob = true -> res_IPv4 result <> [] \/ res_IPv6 result <> [] ->
  isPrivateIP (res_IPv4 result) || isPrivateIP (res_IPv6 result) = false ->
  filtered destination result (MkRoute ob destination).
Proof.
  intros Hr Hne [H4 H6]%orb_false_iff. unfold filtered. simpl. rewrite Hr. split_and!; try done;
    intros; by apply isPrivateIP_false.
Qed.

Lemma finish_route_filtered p destination ob result attempted r :
  p_blockPrivate p = true -> valid_result result ->
  (res_IPv4 result = [] -> res_IPv6 result = [] -> attempted = true) ->
  finish_route p destination ob result attempted = inr r -> filtered destination result r.
Proof.
  intros Hb [V4 V6] Hatt. unfold finish_route, pickDialAddr. rewrite Hb, orb_true_r.
  assert (forall ip, valid_ip ip -> ip <> [] -> (res_IPv4 result <> [] \/ res_IPv6 result <> []) ->
    (if true && reachesPrivate ob (SockIP (ipToNetip ip) (Port destination)) result then inl errPrivateDestination
     else if RemoteResolve ob then inr (MkRoute ob destination)
     else inr (MkRoute ob (SockIP (ipToNetip ip) (Port destination)))) = inr r -> filtered destination result r) as Hgo.
  { intros ip Hv Hne Hany. unfold reachesPrivate. cbn [andb]. destruct (RemoteResolve ob) eqn:Hr.
    - destruct (isPrivateIP _ || isPrivateIP _) eqn:E; [done|]. intros [= <-]. by apply filtered_remote.
    - rewrite len_nonnil by (by apply ipToNetip_nonempty). cbn [negb andb].
      destruct (isPrivateAddr (ipToNetip ip)) eqn:E; [done|]. intros [= <-]. unfold filtered. simpl. rewrite Hr. eauto. }
  destruct (decide (res_IPv4 result = [])) as [E4|E4].
  - rewrite E4. cbn [len length Z.of_nat Z.eqb negb]. destruct (decide (res_IPv6 result = [])) as [E6|E6].
    + rewrite E6, (Hatt E4 E6). cbn [len length Z.of_nat Z.eqb negb orb]. done.
    + rewrite (len_nonnil _ E6). cbn [negb]. apply Hgo; auto.
  - rewrite (len_nonnil _ E4). cbn [negb]. apply Hgo; auto.
Qed.


(** DNS stays pinned: when the policy resolves names (a resolver is configured,
    or rules or the filter need addresses), an outbound that dials by itself is
    never handed a name, so a failed lookup is an error and never falls back to
    the dialer's own lookup. *)
Theorem no_silent_lookup p name port proto r :
  IsFqdn name = true ->
  p_resolver p <> None \/ p_acl p <> None \/ p_blockPrivate p = true ->
  RemoteResolve (rt_outbound r) = false ->
  select p (SockFqdn name port) proto = inr r ->
  exists a, rt_target r = SockIP a port.
Proof.
  intros Hn Hp Hrem Hr.
  assert ((info p (SockFqdn name port)).2 = true) as Hatt.
  { simpl. rewrite Hn. simpl. destruct (p_resolver p); [done|]. case_bool_decide as Ha; [done|].
    destruct (p_blockPrivate p); [done|]. destruct Hp as [?|[Hp|?]]; [done| |done].
    apply eq_None_not_Some in Ha. done. }
  assert (forall ob result, finish_route p (SockFqdn name port) ob result true = inr r ->
    exists a, rt_target r = SockIP a port) as Hf.
  { intros ob result. unfold finish_route, pickDialAddr. cbn [Port].
    repeat case_match; intros; simplify_eq; simpl in *; try congruence; eauto;
      match goal with H : _ || _ = false |- _ => apply orb_false_iff in H as [? _] end;
      by rewrite Hrem in *. }
  unfold selectRoute in Hr. destruct (info p (SockFqdn name port)) as [[host res] att]. cbn [fst snd] in *. subst att.
  destruct (p_acl p) as [lookup|]; [|by eapply Hf]. destruct (lookup _ _ _) as [ob hijack].
  case_bool_decide; [done|]. case_match; [|by eapply Hf]. simplify_eq. simpl. eauto.
Qed.

(** The other names: a destination that is neither an address nor a name [IsFqdn]
    accepts is not resolved, the rules see no name, and without rules the filter
    lets it through as it is. *)
Lemma non_fqdn_unfiltered p name port proto :
  IsFqdn name = false -> p_acl p = None ->
  info p (SockFqdn name port) = (IP_String [], no_result, false) /\
  select p (SockFqdn name port) proto = inr (MkRoute (p_fallback p) (SockFqdn name port)).
Proof.
  intros Hn Ha. assert (info p (SockFqdn name port) = (IP_String [], no_result, false)) as Hi by (simpl; by rewrite Hn).
  split; [done|]. unfold selectRoute. rewrite Hi, Ha. unfold finish_route, reachesPrivate. simpl.
  destruct (RemoteResolve _); simpl; by rewrite andb_false_r.
Qed.

End route_spec.

(** A policy with rules for three names and a resolver that knows one private name. *)
Definition sample_acl (h : HostInfo) (_ : Protocol) (_ : Z) : outbound * IP :=
  if bool_decide (Name h = "ads.example") then (Reject, [])
  else if bool_decide (Name h = "moved.example") then (Direct 1, [x0a; x00; x00; x01])
  else if bool_decide (Name h = "far.example") then (SOCKS5 2, [])
  else (Direct 1, []).

Definition sample_resolver (name : string) : Result :=
  if bool_decide (name = "intranet.example") then MkResult [x0a; x00; x00; x05] [] false
  else if bool_decide (name = "gone.example") then MkResult [] [] true
  else MkResult [x08; x08; x08; x08] [] false.

Definition sample_policy : outboundPolicy := MkPolicy (Some sample_acl) (Some sample_resolver) true (Direct 1).

Definition sample_IP_String (ip : IP) : string := String.concat "." (map (fun b => Itoa (byteZ b)) ip).

Definition sample_select := selectRoute sample_IP_String is4 (fun _ => true) (fun _ => None) sample_policy.

Lemma acl_decides_first_witness :
  sample_select (SockFqdn "ads.example" 80) ProtocolTCP = inl errACLRejected /\
  sample_select (SockFqdn "moved.example" 80) ProtocolTCP = inr (MkRoute (Direct 1) (SockIP [x0a; x00; x00; x01] 80)) /\
  sample_select (SockFqdn "gone.example" 80) ProtocolTCP = inl errResolve.
Proof.
  split; [|split].
  - apply (acl_decides_first sample_IP_String is4 (fun _ => true) (fun _ => None) sample_policy
      (SockFqdn "ads.example" 80) ProtocolTCP sample_acl Reject []); vm_compute; reflexivity.
  - apply (acl_decides_first sample_IP_String is4 (fun _ => true) (fun _ => None) sample_policy
      (SockFqdn "moved.example" 80) ProtocolTCP sample_acl (Direct 1) [x0a; x00; x00; x01]);
      first [discriminate|vm_compute; reflexivity].
  - vm_compute. reflexivity.
Defined.


Lemma no_silent_lookup_witness : exists a, rt_target (MkRoute (Direct 1) (SockIP [x08; x08; x08; x08] 80)) = SockIP a 80.
Proof.
  apply (no_silent_lookup sample_IP_String is4 (fun _ => true) (fun _ => None) sample_policy "ok.example" 80 ProtocolTCP);
    [reflexivity|right; right; reflexivity|reflexivity|vm_compute; reflexivity].
Defined.

(** ** What UDP streams promise *)

Section packet_spec.
Variable IP_String : IP -> string.
Variable IsIPv4 : IP -> bool.
Variable IsFqdn : string -> bool.
Variable Socksaddr_String : Socksaddr -> string.
Abbreviation exec := (packet_exec IP_String IsIPv4 IsFqdn Socksaddr_String).
Abbreviation run := (packet_run IP_String IsIPv4 IsFqdn Socksaddr_String).
Abbreviation route_of := (packet_route IP_String IsIPv4 IsFqdn).
Abbreviation decision := (decide_packet IP_String IsIPv4 IsFqdn).

(** A decision the policy took for a packet with that key. *)
Definition decided (ops : list packet_op) (key : string) (d : policyDecision) : Prop :=
  exists m destination, OpPacket m destination ∈ ops /\ Socksaddr_String destination = key /\ d = decision m destination.

Record packet_inv (ops : list packet_op) (c : routedPacketConn) : Prop := {
  pi_cache : forall key d, rp_cache c !! key = Some d -> decided ops key d;
  pi_size : Z.of_nat (size (rp_cache c)) <= maxSessionACLCache;
  pi_sent : forall destination target, (destination, target) ∈ rp_sent c ->
    exists ob, rp_conn c = Some ob /\ decided ops (Socksaddr_String destination) (MkDecision false (MkRoute ob target));
  pi_conn : forall ob, rp_conn c = Some ob -> rp_ready c = true /\
    exists key target, decided ops key (MkDecision false (MkRoute ob target));
  pi_ready : rp_ready c = true <-> rp_closed c = true \/ rp_conn c <> None
}.

Lemma decided_mono ops o key d : decided ops key d -> decided (ops ++ [o]) key d.
Proof. intros (m & t & Hin & Hk). exists m, t. split; [|done]. apply elem_of_app. by left. Qed.

Lemma decided_last ops m destination :
  decided (ops ++ [OpPacket m destination]) (Socksaddr_String destination) (decision m destination).
Proof. exists m, destination. split; [|done]. apply elem_of_app. right. by apply list_elem_of_singleton. Qed.

#[local] Hint Resolve decided_mono decided_last : core.

Lemma packet_inv_mono ops o c : packet_inv ops c -> packet_inv (ops ++ [o]) c.
Proof.
  intros [H1 H2 H3 H4 H5]. split; auto.
  - intros d t Hin. destruct (H3 d t Hin) as (ob & ? & ?). eauto.
  - intros ob Hob. destruct (H4 ob Hob) as (? & k & t & ?). eauto.
Qed.

Lemma evict_lookup cache victim key d : evict cache victim !! key = Some d -> cache !! key = Some d.
Proof.
  unfold evict. repeat case_match; try done; intros H'; by apply lookup_delete_Some in H' as [_ ?].
Qed.

Lemma evict_size cache victim :
  Z.of_nat (size cache) <= maxSessionACLCache -> Z.of_nat (size (evict cache victim)) < maxSessionACLCache.
Proof.
  intros Hs. unfold evict. destruct (Z.leb_spec maxSessionACLCache (Z.of_nat (size cache))) as [Hge|Hlt]; [|done].
  destruct (cache !! victim) eqn:E.
  - rewrite map_size_delete, E. simpl. unfold maxSessionACLCache in *. lia.
  - destruct (map_to_list cache) as [|[k d] l] eqn:El.
    + apply map_to_list_empty_iff in El. subst. unfold maxSessionACLCache in *. rewrite map_size_empty in Hge. lia.
    + assert (cache !! k = Some d) as Hk. { apply elem_of_map_to_list. rewrite El. by left. }
      rewrite map_size_delete, Hk. simpl. unfold maxSessionACLCache in *. lia.
Qed.

Lemma set_cache_inv ops c m destination :
  packet_inv ops c ->
  packet_inv (ops ++ [OpPacket m destination])
    (set_cache c (<[Socksaddr_String destination := decision m destination]> (evict (rp_cache c) (now_victim m)))).
Proof.
  intros Hc. destruct (packet_inv_mono ops (OpPacket m destination) c Hc) as [H1 H2 H3 H4 H5].
  split; simpl; auto.
  - intros key d. rewrite lookup_insert. case_decide as E; [intros [= <-]; subst; auto|].
    intros Hl. apply H1. by eapply evict_lookup.
  - rewrite map_size_insert. pose proof (evict_size (rp_cache c) (now_victim m) H2). case_match; unfold id; lia.
Qed.

(** The cached or fresh decision of a packet. *)
Lemma cached_decision_inv ops c m destination c' d :
  packet_inv ops c -> cached_decision IP_String IsIPv4 IsFqdn Socksaddr_String m c destination = (c', d) ->
  packet_inv (ops ++ [OpPacket m destination]) c' /\
  decided (ops ++ [OpPacket m destination]) (Socksaddr_String destination) d /\
  rp_conn c' = rp_conn c /\ rp_closed c' = rp_closed c /\ rp_sent c' = rp_sent c /\ rp_ready c' = rp_ready c.
Proof.
  intros Hc. unfold cached_decision. destruct (rp_cache c !! _) as [d0|] eqn:E; intros [= <- <-].
  - split_and!; auto; [by apply packet_inv_mono|]. apply decided_mono. by apply (pi_cache ops c Hc).
  - split_and!; auto. by apply set_cache_inv.
Qed.

Lemma exec_packet_inv ops c o : packet_inv ops c -> packet_inv (ops ++ [o]) (exec c o).
Proof.
  intros Hc. destruct o as [m destination|]; simpl.
  2:{ unfold rp_Close. pose proof (packet_inv_mono ops OpClosePacket c Hc) as Hi. destruct (rp_closed c); [done|].
      destruct Hi as [H1 H2 H3 H4 H5]. split; simpl; auto; [|tauto]. intros ob Hob. destruct (H4 ob Hob); auto. }
  unfold WritePacket. destruct (cached_decision _ _ _ _ m c destination) as [c' d] eqn:E.
  destruct (cached_decision_inv ops c m destination c' d Hc E) as (Hi & Hd & _). clear E Hc c.
  destruct d as [rej [ob t]]. simpl. destruct rej; [done|]. destruct (rp_closed c'); [done|].
  pose proof Hi as [H1 H2 H3 H4 H5]. destruct (rp_conn c') as [bound|] eqn:Ec.
  - case_bool_decide as Eb; [|done]. subst bound. split; simpl; auto.
    + intros d' t' [Hin|Hin]%elem_of_app; [auto|]. apply list_elem_of_singleton in Hin. simplify_eq. eauto.
    + rewrite H5. split; intros _; by right.
  - destruct (now_listens m); [|done]. split; simpl; auto.
    + intros d' t' [Hin|Hin]%elem_of_app; [destruct (H3 _ _ Hin) as (? & ? & _); done|].
      apply list_elem_of_singleton in Hin. simplify_eq. eauto.
    + intros ob' [= <-]. eauto.
    + split; [intros _; by right|done].
Qed.

Lemma run_packet_inv ops : packet_inv ops (run newRoutedPacketConn ops).
Proof.
  induction ops as [|o ops IH] using rev_ind.
  - split; simpl; try done; [intros ? ? H%elem_of_nil; done|]. split; [done|]. by intros [?|?].
  - unfold packet_run in *. rewrite foldl_app. by apply exec_packet_inv.
Qed.

(** C34.  A UDP stream leaves through one outbound: after any sequence of packets and
    closes, every packet that was given to a socket was given to the stream's only
    one, whose outbound, and the target address, are what the policy decided for
    a packet of that destination; the cache of decisions never holds more than 256. *)
Theorem udp_one_outbound ops destination target :
  (destination, target) ∈ rp_sent (run newRoutedPacketConn ops) ->
  Z.of_nat (size (rp_cache (run newRoutedPacketConn ops))) <= maxSessionACLCache /\
  exists ob m d, rp_conn (run newRoutedPacketConn ops) = Some ob /\ OpPacket m d ∈ ops /\
    Socksaddr_String d = Socksaddr_String destination /\ route_of m d = inr (MkRoute ob target).
Proof.
  intros Hin. pose proof (run_packet_inv ops) as Hi. split; [apply (pi_size _ _ Hi)|].
  destruct (pi_sent _ _ Hi _ _ Hin) as (ob & Hob & m & d & Hop & Hk & Hd). exists ob, m, d. split_and!; auto.
  unfold decide_packet in Hd. destruct (route_of m d); [done|]. by injection Hd as <-.
Qed.

Lemma exec_closed c o : rp_closed c = true -> rp_closed (exec c o) = true /\ rp_sent (exec c o) = rp_sent c /\
  rp_conn (exec c o) = rp_conn c.
Proof.
  intros Hc. destruct o as [m d|]; simpl; [|unfold rp_Close; by rewrite Hc].
  unfold WritePacket, cached_decision, set_cache. destruct (rp_cache c !! _); simpl; rewrite Hc; by case_match.
Qed.

Lemma run_closed c ops : rp_closed c = true -> rp_closed (run c ops) = true /\ rp_sent (run c ops) = rp_sent c /\
  rp_conn (run c ops) = rp_conn c.
Proof.
  revert c. induction ops as [|o ops IH]; intros c Hc; [done|]. simpl.
  destruct (exec_closed c o Hc) as (H1 & <- & <-). by apply IH.
Qed.

(** A stream opens no socket it may not have: if the policy refuses every
    packet of a stream (a rule rejects it, its name does not resolve or it is
    private), no socket is opened and nothing is sent, also when packets are written again
    after a close; and once a stream is closed, a read no longer waits, and no later
    packet opens a socket or is sent. *)
Theorem udp_stays_closed before after :
  ((forall m d, OpPacket m d ∈ before -> exists err, route_of m d = inl err) ->
     rp_conn (run newRoutedPacketConn before) = None /\ rp_sent (run newRoutedPacketConn before) = []) /\
  ReadPacket (rp_Close (run newRoutedPacketConn before)) <> None /\
  rp_conn (run (rp_Close (run newRoutedPacketConn before)) after) = rp_conn (run newRoutedPacketConn before) /\
  rp_sent (run (rp_Close (run newRoutedPacketConn before)) after) = rp_sent (run newRoutedPacketConn before).
Proof.
  pose proof (run_packet_inv before) as Hi. set (c := run newRoutedPacketConn before) in *.
  assert (rp_closed (rp_Close c) = true /\ rp_conn (rp_Close c) = rp_conn c /\ rp_sent (rp_Close c) = rp_sent c)
    as (H1 & H2 & H3) by (unfold rp_Close; by destruct (rp_closed c) eqn:E).
  destruct (run_closed (rp_Close c) after H1) as (_ & -> & ->). split_and!; try done.
  - intros Hrej. assert (rp_conn c = None) as Hn.
    { destruct (rp_conn c) as [ob|] eqn:E; [|done]. exfalso.
      destruct (pi_conn _ _ Hi _ E) as (_ & key & t & m & d & Hop & _ & Hd). destruct (Hrej _ _ Hop) as [err Herr].
      unfold decide_packet in Hd. by rewrite Herr in Hd. }
    split; [done|]. destruct (rp_sent c) as [|[d t] l] eqn:E; [done|]. exfalso.
    destruct (pi_sent _ _ Hi d t) as (ob & Hob & _); [rewrite E; by left|congruence].
  - assert (rp_ready (rp_Close c) = true) as Hr.
    { unfold rp_Close. destruct (rp_closed c) eqn:E; [|done]. apply (pi_ready _ _ Hi). by left. }
    unfold ReadPacket. by rewrite Hr.
Qed.

End packet_spec.

Definition sample_socks_string (d : Socksaddr) : string :=
  match d with SockIP ip p => sample_IP_String ip ++ ":" ++ Itoa p | SockFqdn n p => n ++ ":" ++ Itoa p end.

Definition sample_moment : moment := MkMoment sample_policy (fun _ => None) "" true.

Definition sample_packets : list packet_op :=
  [OpPacket sample_moment (SockFqdn "ads.example" 53); OpPacket sample_moment (SockFqdn "ok.example" 53);
   OpPacket sample_moment (SockFqdn "far.example" 53); OpPacket sample_moment (SockIP [x01; x01; x01; x01] 53);
   OpClosePacket; OpPacket sample_moment (SockFqdn "ok.example" 53)].

Definition sample_stream : routedPacketConn :=
  packet_run sample_IP_String is4 (fun _ => true) sample_socks_string newRoutedPacketConn sample_packets.

(** Two of the five packets are sent: one is rejected, one belongs to another
    outbound, and the last comes after the close. *)
Lemma udp_one_outbound_witness :
  rp_sent sample_stream = [(SockFqdn "ok.example" 53, SockIP [x08; x08; x08; x08] 53);
                           (SockIP [x01; x01; x01; x01] 53, SockIP [x01; x01; x01; x01] 53)] /\
  exists ob m d, rp_conn sample_stream = Some ob /\ OpPacket m d ∈ sample_packets /\
    sample_socks_string d = sample_socks_string (SockFqdn "ok.example" 53) /\
    packet_route sample_IP_String is4 (fun _ => true) m d = inr (MkRoute ob (SockIP [x08; x08; x08; x08] 53)).
Proof.
  assert (rp_sent sample_stream = [(SockFqdn "ok.example" 53, SockIP [x08; x08; x08; x08] 53);
                           (SockIP [x01; x01; x01; x01] 53, SockIP [x01; x01; x01; x01] 53)]) as E
    by (vm_compute; reflexivity).
  split; [exact E|].
  apply (udp_one_outbound sample_IP_String is4 (fun _ => true) sample_socks_string sample_packets).
  fold sample_stream. rewrite E. left.
Defined.

Lemma udp_stays_closed_witness :
  rp_conn (packet_run sample_IP_String is4 (fun _ => true) sample_socks_string newRoutedPacketConn
    [OpPacket sample_moment (SockFqdn "ads.example" 53)]) = None.
Proof.
  refine (proj1 (proj1 (udp_stays_closed sample_IP_String is4 (fun _ => true) sample_socks_string
    [OpPacket sample_moment (SockFqdn "ads.example" 53)] []) _)).
  intros m d Hin. apply list_elem_of_singleton in Hin. injection Hin as -> ->. exists errACLRejected.
  vm_compute. reflexivity.
Defined.

(** ** The names rules can use *)

(** The last entry with that name. *)
Definition named_entry (unicode_lower : string -> string) (entries : list (string * outbound)) (k : string)
  : option outbound :=
  snd <$> last (filter (fun e => ToLower unicode_lower e.1 = k) entries).

Lemma entries_lookup ul entries (m : gmap string outbound) k :
  foldl (fun m e => <[ToLower ul e.1 := e.2]> m) m entries !! k =
  match named_entry ul entries k with Some o => Some o | None => m !! k end.
Proof.
  unfold named_entry. induction entries as [|e entries IH] using rev_ind; [done|].
  rewrite foldl_app, filter_app. simpl. rewrite lookup_insert, filter_cons, filter_nil. case_decide; simpl.
  - by rewrite last_snoc.
  - by rewrite app_nil_r.
Qed.

Lemma add_missing_lookup k o m k' :
  add_missing k o m !! k' = match m !! k' with Some v => Some v | None => if decide (k = k') then Some o else None end.
Proof.
  unfold add_missing. destruct (m !! k) eqn:E.
  - case_decide; [subst; by rewrite E|by destruct (m !! k')].
  - rewrite lookup_insert. case_decide; [subst; by rewrite E|by destruct (m !! k')].
Qed.

(** Which outbound a name means: the last configured entry of that name, letter
    case aside; a name without an entry means the built-in [direct] or [reject], and
    [default] means the first configured entry, or [direct] when there is none; no other
    name is defined. *)
Theorem outboundMap_spec ul entries direct k :
  outboundMap ul entries direct !! k =
  match named_entry ul entries k with
  | Some o => Some o
  | None =>
      if decide (k = "direct") then Some direct
      else if decide (k = "reject") then Some Reject
      else if decide (k = "default") then Some (default direct (snd <$> head entries))
      else None
  end.
Proof.
  unfold outboundMap. rewrite !add_missing_lookup, !entries_lookup, !lookup_empty.
  destruct (named_entry ul entries "default") eqn:Ed; simpl.
  - rewrite !add_missing_lookup, entries_lookup, lookup_empty. destruct (named_entry ul entries k) eqn:Ek; [done|].
    destruct (decide (k = "default")) as [->|]; [congruence|].
    by repeat (case_decide; subst; try done).
  - destruct entries as [|e entries]; rewrite lookup_insert, !add_missing_lookup, entries_lookup, lookup_empty.
    + simpl. by repeat (case_decide; subst; try done).
    + case_decide as E; [subst; by rewrite Ed|]. destruct (named_entry ul (e :: entries) k); [done|].
      by repeat (case_decide; subst; try done).
Qed.

End Policy.
