(* ===== verification/RefTable.v ===== *)
(** * RefTable: reference-counted records by key

    limiter/limiter.go and stats/registry.go keep one record per device, a
    credential with a source IP, shared by all sessions of the device: the first
    session creates it, the last one to leave removes it.  Both are instances of the
    table here, whose records live in a heap because the sessions hold pointers
    to them.

    [table_ok] is the contract under the rule of the source that every release is
    paired with an acquire: the count of a record is the number of references held,
    a key is in the table exactly while one of its references is held, and all
    references of a key are to the same record. *)

From S2P Require Import Prelude GoStrings.
From stdpp Require Import gmultiset.
#[local] Open Scope string_scope.
#[local] Open Scope list_scope.
#[local] Open Scope Z_scope.

(** [deviceKey] *)
Record deviceKey := MkKey { auth : string; ip : string }.

#[export] Instance deviceKey_eq_dec : EqDecision deviceKey.
Proof. solve_decision. Defined.

#[export] Instance deviceKey_countable : Countable deviceKey.
Proof.
  apply (inj_countable' (fun k => (auth k, ip k)) (fun p => MkKey p.1 p.2)). by intros [].
Defined.

(** [hostOnly(addr)] *)
Definition hostOnly (addr : string) : string :=
  match SplitHostPort addr with Some (host, _) => host | None => addr end.

(** The connections of one device differ in their source port only. *)
Lemma hostOnly_join host port :
  no_brackets host -> no_brackets port -> contains_byte ":" port = false ->
  hostOnly (JoinHostPort host port) = host.
Proof. intros. unfold hostOnly. by rewrite Split_JoinHostPort. Qed.

Module RefTable.

(** A record with its key and reference count. *)
Record entry (P : Type) := MkEntry { e_key : deviceKey; e_val : P; e_refs : Z }.
Arguments MkEntry {P}.
Arguments e_key {P}.
Arguments e_val {P}.
Arguments e_refs {P}.

Record table (P : Type) := MkTable { devices : gmap deviceKey nat; heap : list (entry P) }.
Arguments MkTable {P}.
Arguments devices {P}.
Arguments heap {P}.

Section ops.
Context {P : Type}.
Implicit Types (t : table P) (held : gmultiset nat).

Definition empty_table : table P := MkTable ∅ [].

Definition add_refs (n : Z) (e : entry P) : entry P := MkEntry (e_key e) (e_val e) (e_refs e + n).

(** [Acquire]: the record of the key, made from [fresh] on first use. *)
Definition acquire t (key : deviceKey) (fresh : P) : table P * nat :=
  match devices t !! key with
  | Some p => (MkTable (devices t) (alter (add_refs 1) p (heap t)), p)
  | None =>
      let p := length (heap t) in
      (MkTable (<[key := p]> (devices t)) (heap t ++ [MkEntry key fresh 1]), p)
  end.

(** [Release] *)
Definition release t (p : nat) : table P :=
  let h := alter (add_refs (-1)) p (heap t) in
  match h !! p with
  | Some e => MkTable (if e_refs e <=? 0 then delete (e_key e) (devices t) else devices t) h
  | None => t
  end.

(** ** The contract *)

Record table_ok t held : Prop := {
  ok_refs p e : heap t !! p = Some e -> e_refs e = Z.of_nat (multiplicity p held);
  ok_held p : p ∈ held -> exists e, heap t !! p = Some e /\ devices t !! e_key e = Some p;
  ok_devices k p : devices t !! k = Some p -> p ∈ held /\ exists e, heap t !! p = Some e /\ e_key e = k
}.

Lemma held_add held p q : q ∈ held ⊎ {[+ p +]} <-> q ∈ held \/ q = p.
Proof. rewrite gmultiset_elem_of_disj_union, gmultiset_elem_of_singleton. done. Qed.

Lemma held_sub held p q : q ∈ held ∖ {[+ p +]} -> q ∈ held.
Proof. rewrite !elem_of_multiplicity, multiplicity_difference. lia. Qed.

Lemma empty_ok : table_ok empty_table ∅.
Proof. split; [done|intros p H; by apply gmultiset_elem_of_empty in H|done]. Qed.

(** Counting leaves the keys alone. *)
Lemma alter_key q n (h : list (entry P)) p e :
  h !! p = Some e -> exists e', alter (add_refs n) q h !! p = Some e' /\ e_key e' = e_key e.
Proof.
  intros He. rewrite list_lookup_alter. case_decide; [subst|]; rewrite He; simpl; eauto.
Qed.

Lemma acquire_ok t held key fresh t' p :
  table_ok t held -> acquire t key fresh = (t', p) -> table_ok t' (held ⊎ {[+ p +]}).
Proof.
  intros [Hr Hh Hd]. unfold acquire. destruct (devices t !! key) as [q|] eqn:E; intros [= <- <-].
  - split; simpl.
    + intros p e. rewrite list_lookup_alter. rewrite multiplicity_disj_union, multiplicity_singleton.
      case_decide as Ep; [subst q|]; destruct (heap t !! p) as [e0|] eqn:Ee; intros ?; simplify_eq/=;
        rewrite (Hr p _ Ee); case_decide; simplify_eq; lia.
    + intros p Hp. assert (p ∈ held) as Hp' by (apply held_add in Hp as [?| ->]; [done|by destruct (Hd _ _ E)]).
      destruct (Hh p Hp') as (e & He & Hk). destruct (alter_key q 1 _ _ _ He) as (e' & He' & Hk'). exists e'. by rewrite Hk'.
    + intros k p Hk. destruct (Hd k p Hk) as [Hp (e & He & Hek)]. split; [apply held_add; by left|].
      destruct (alter_key q 1 _ _ _ He) as (e' & He' & Hk'). exists e'. by rewrite Hk'.
  - assert (forall p e, heap t !! p = Some e -> p <> length (heap t)) as Hlt
      by (intros p e Hp; apply lookup_lt_Some in Hp; lia).
    assert (length (heap t) ∉ held) as Hnew by (intros Hin; destruct (Hh _ Hin) as (e & He & _); by eapply Hlt).
    split; simpl.
    + intros p e He. rewrite multiplicity_disj_union, multiplicity_singleton. apply lookup_app_Some in He as [He|[Hge He]].
      * rewrite decide_False by (by eapply Hlt). rewrite (Hr p e He). lia.
      * apply list_lookup_singleton_Some in He as [Hp <-]. assert (p = length (heap t)) as -> by lia.
        rewrite decide_True by done. rewrite elem_of_multiplicity in Hnew. simpl. lia.
    + intros p Hp. destruct (decide (p = length (heap t))) as [->|Hne].
      * eexists. split; [by apply list_lookup_middle|]. simpl. rewrite lookup_insert, decide_True; done.
      * assert (p ∈ held) as Hp' by (by apply held_add in Hp as [?|?]). destruct (Hh p Hp') as (e & He & Hk).
        exists e. split; [by apply lookup_app_l_Some|]. rewrite lookup_insert. case_decide; [congruence|done].
    + intros k p. rewrite lookup_insert. case_decide as Ek; [intros [= <-]; subst|].
      * split; [apply held_add; by right|]. eexists. split; [by apply list_lookup_middle|done].
      * intros Hk. destruct (Hd k p Hk) as [Hp (e & He & Hek)]. split; [apply held_add; by left|].
        exists e. split; [by apply lookup_app_l_Some|done].
Qed.

Lemma release_ok t held p :
  table_ok t held -> p ∈ held -> table_ok (release t p) (held ∖ {[+ p +]}).
Proof.
  intros [Hr Hh Hd] Hp. destruct (Hh p Hp) as (e & He & Hk). pose proof (Hr p e He) as Hn. unfold release.
  rewrite list_lookup_alter, decide_True, He by done. simpl.
  assert (1 <= multiplicity p held)%nat as H1 by (rewrite elem_of_multiplicity in Hp; lia).
  split; simpl.
  - intros q e' Hq. rewrite multiplicity_difference, multiplicity_singleton. rewrite list_lookup_alter in Hq.
    case_decide as Eq; [subst q; rewrite He in Hq; simplify_eq/=; rewrite decide_True by done; lia|].
    rewrite (Hr _ _ Hq), decide_False by congruence. lia.
  - intros q Hq. assert (q ∈ held) as Hq' by (by eapply held_sub). destruct (Hh q Hq') as (e' & He' & Hk').
    rewrite list_lookup_alter. destruct (decide (p = q)) as [->|Hne]; rewrite ?He; simpl.
    + assert (e' = e) as -> by congruence. exists (add_refs (-1) e). split; [done|]. simpl.
      assert (1 < multiplicity q held)%nat.
      { rewrite elem_of_multiplicity, multiplicity_difference, multiplicity_singleton_eq in Hq. lia. }
      destruct (Z.leb_spec (e_refs e + -1) 0); [lia|done].
    + exists e'. split; [done|]. case_match; [|done]. rewrite lookup_delete. case_decide; [congruence|done].
  - intros k q Hq. assert (devices t !! k = Some q /\ (q = p -> 1 < multiplicity p held)%nat) as [Hkq Hm].
    { destruct (Z.leb_spec (e_refs e + -1) 0) as [Hle|Hgt].
      - apply lookup_delete_Some in Hq as [Hne Hq]. split; [done|]. intros ->.
        destruct (Hd k p Hq) as [_ (e' & He' & Hek)]. congruence.
      - split; [done|]. intros _. lia. }
    destruct (Hd k q Hkq) as [Hq' (e' & He' & Hek)]. split.
    + apply elem_of_multiplicity. rewrite multiplicity_difference, multiplicity_singleton.
      rewrite elem_of_multiplicity in Hq'. case_decide; [specialize (Hm ltac:(done)); subst|]; lia.
    + rewrite list_lookup_alter. case_decide; [subst q; rewrite He; simpl; eexists; (split; [done|]); simpl; congruence|eauto].
Qed.

(** References of one key are to one record. *)
Lemma held_unique t held p q ep eq :
  table_ok t held -> p ∈ held -> q ∈ held -> heap t !! p = Some ep -> heap t !! q = Some eq ->
  e_key ep = e_key eq -> p = q.
Proof.
  intros [_ Hh _] Hp Hq Ep Eq Hk. destruct (Hh p Hp) as (? & ? & H1), (Hh q Hq) as (? & ? & H2). congruence.
Qed.

End ops.
End RefTable.
