(* ===== verification/Limiter.v ===== *)
(** * Limiter: bandwidth limits per device
      (limiter/limiter.go, limiter/conn.go)

    A device gets one pair of token buckets for all of its sessions.  The bucket
    is [rate.Limiter] of golang.org/x/time, an interface here with the behaviour its
    documentation states: [WaitN] fails if the context is cancelled or more tokens
    than the burst are asked for, and otherwise waits until they are there.

    [limitedConn] wraps a connection.  It keeps the contract of NetConn.v, so all
    theorems about sessions hold for limited connections too. *)

From S2P Require Import Prelude GoStrings NetConn RefTable.
From stdpp Require Import gmultiset.
#[local] Open Scope string_scope.
#[local] Open Scope list_scope.
#[local] Open Scope Z_scope.

(** [rate.Limiter]; the second argument of [WaitN] says whether the context is
    cancelled. *)
Class RateLimiter (L : Type) := {
  NewLimiter : Z -> Z -> L;
  Burst : L -> Z;
  WaitN : L -> bool -> Z -> L * option goerror
}.

Class RateLimiterLaws (L : Type) `{!RateLimiter L} : Prop := {
  burst_new limit b : Burst (NewLimiter limit b) = b;
  burst_wait l c n : Burst (WaitN l c n).1 = Burst l;
  wait_granted l n : 0 <= n <= Burst l -> (WaitN l false n).2 = None;
  wait_cancelled l n : (WaitN l true n).2 <> None
}.

Module Limiter.

Definition minBurst : Z := 64 * 1024.

(** [int(n)] of a [uint64] *)
Definition int_of_uint64 (n : Z) : Z := if n <=? maxInt64 then n else n - 18446744073709551616.

Section limiter.
Context {L : Type} `{!RateLimiter L}.

Definition newLimiter (bytesPerSec : Z) : option L :=
  if bytesPerSec =? 0 then None
  else
    let burst := int_of_uint64 bytesPerSec in
    let burst := if burst <? minBurst then minBurst else burst in
    Some (NewLimiter bytesPerSec burst).

(** ** The registry *)

Record Device := MkDevice { up : option L; down : option L }.

Record Registry := MkRegistry { upBytes : Z; downBytes : Z; table : RefTable.table Device }.

Definition NewRegistry (upBps downBps : Z) : option Registry :=
  if (upBps =? 0) && (downBps =? 0) then None
  else Some (MkRegistry (upBps / 8) (downBps / 8) RefTable.empty_table).

Definition Acquire (r : Registry) (authID remoteAddr : string) : Registry * nat :=
  let key := MkKey authID (hostOnly remoteAddr) in
  let '(t, d) := RefTable.acquire (table r) key (MkDevice (newLimiter (upBytes r)) (newLimiter (downBytes r))) in
  (MkRegistry (upBytes r) (downBytes r) t, d).

Definition Release (r : Registry) (d : option nat) : Registry :=
  match d with
  | None => r
  | Some d => MkRegistry (upBytes r) (downBytes r) (RefTable.release (table r) d)
  end.

(** ** The connection *)

Section conn.
Context {C : Type} `{!NetConn C}.

Record limitedConn := MkLimited {
  lc_Conn : C;
  lc_up : option L;
  lc_down : option L;
  lc_cancelled : bool
}.

(** [WrapConn]: [inr] when the connection is returned as it is. *)
Definition WrapConn (c : C) (d : option Device) : limitedConn + C :=
  match d with
  | None => inr c
  | Some d =>
      match up d, down d with
      | None, None => inr c
      | u, w => inl (MkLimited c u w false)
      end
  end.

Definition set_Conn (c : limitedConn) (x : C) : limitedConn := MkLimited x (lc_up c) (lc_down c) (lc_cancelled c).
Definition set_up (c : limitedConn) (l : L) : limitedConn := MkLimited (lc_Conn c) (Some l) (lc_down c) (lc_cancelled c).
Definition set_down (c : limitedConn) (l : L) : limitedConn := MkLimited (lc_Conn c) (lc_up c) (Some l) (lc_cancelled c).

(** [Read] of at most [size] bytes; [rd] is the [Read] of the wrapped connection. *)
Definition Read (rd : C -> Z -> C * bytes * option goerror) (c : limitedConn) (size : Z)
  : limitedConn * bytes * option goerror :=
  let size :=
    match lc_down c with
    | Some l => if Burst l <? size then Burst l else size
    | None => size
    end in
  let '(x, d, err) := rd (lc_Conn c) size in
  let c := set_Conn c x in
  match lc_down c with
  | Some l => if 0 <? len d then (set_down c (WaitN l (lc_cancelled c) (len d)).1, d, err) else (c, d, err)
  | None => (c, d, err)
  end.

(** The loop of [WaitWrite]; every round takes a token, so [n] rounds are enough. *)
Fixpoint wait_loop (fuel : nat) (burst : Z) (cancelled : bool) (l : L) (n : Z) : L * option goerror :=
  if n <=? 0 then (l, None)
  else
    match fuel with
    | O => (l, Some ErrOutOfFuel)
    | S fuel =>
        let chunk := if burst <? n then burst else n in
        match WaitN l cancelled chunk with
        | (l, Some e) => (l, Some e)
        | (l, None) => wait_loop fuel burst cancelled l (n - chunk)
        end
    end.

Definition WaitWrite (c : limitedConn) (n : Z) : limitedConn * option goerror :=
  match lc_up c with
  | None => (c, None)
  | Some l =>
      if n <=? 0 then (c, None)
      else let '(l, e) := wait_loop (Z.to_nat n) (Burst l) (lc_cancelled c) l n in (set_up c l, e)
  end.

(** The loop of [WriteUnlimited]. *)
Fixpoint write_loop (fuel : nat) (burst : Z) (x : C) (b : bytes) (written : Z) : C * Z * option goerror :=
  if len b =? 0 then (x, written, None)
  else
    match fuel with
    | O => (x, written, Some ErrOutOfFuel)
    | S fuel =>
        let chunk := if burst <? len b then burst else len b in
        match conn_write x (slice_to chunk b) with
        | (x, n, Some e) => (x, written + n, Some e)
        | (x, n, None) => write_loop fuel burst x (slice_from chunk b) (written + n)
        end
    end.

Definition WriteUnlimited (c : limitedConn) (b : bytes) : limitedConn * Z * option goerror :=
  let '(x, n, e) :=
    match lc_up c with
    | None => conn_write (lc_Conn c) b
    | Some l => write_loop (length b) (Burst l) (lc_Conn c) b 0
    end in
  (set_Conn c x, n, e).

Definition Write (c : limitedConn) (b : bytes) : limitedConn * Z * option goerror :=
  match lc_up c with
  | None => let '(x, n, e) := conn_write (lc_Conn c) b in (set_Conn c x, n, e)
  | Some _ =>
      match WaitWrite c (len b) with
      | (c, Some e) => (c, 0, Some e)
      | (c, None) => WriteUnlimited c b
      end
  end.

Definition Close (c : limitedConn) : limitedConn := MkLimited (conn_close (lc_Conn c)) (lc_up c) (lc_down c) true.

#[export] Instance limited_netconn : NetConn limitedConn := {
  conn_write := Write;
  conn_wait := Some WaitWrite;
  conn_unlimited := Some WriteUnlimited;
  conn_close := Close;
  conn_open c := conn_open (lc_Conn c);
  conn_wire c := conn_wire (lc_Conn c)
}.

(** ** The contract of a limited connection *)

Lemma WaitWrite_Conn c n c' e : WaitWrite c n = (c', e) -> lc_Conn c' = lc_Conn c.
Proof. unfold WaitWrite. repeat case_match; intros; simplify_eq; done. Qed.

Context `{!NetConnLaws C}.

Lemma write_loop_contract fuel burst x b w x' n e :
  write_loop fuel burst x b w = (x', n, e) ->
  match e with
  | None => conn_wire x' = conn_wire x ++ b /\ n = w + len b
  | Some _ => exists k, conn_wire x' = conn_wire x ++ take k b
  end.
Proof.
  revert x b w. induction fuel as [|fuel IH]; intros x b w; cbn [write_loop];
    (destruct (Z.eqb_spec (len b) 0) as [Hz|Hz];
      [apply len_zero_nil in Hz as ->; intros [= <- <- <-]; rewrite app_nil_r, len_nil; split; [done|lia]|]).
  { intros [= <- <- <-]. exists 0%nat. by rewrite take_0, app_nil_r. }
  set (chunk := if burst <? len b then burst else len b).
  destruct (conn_write x (slice_to chunk b)) as [[x1 n1] [e1|]] eqn:Ew; pose proof law_write as [Hok Herr _].
  - intros [= <- <- <-]. destruct (Herr _ _ _ _ _ Ew) as [k Hk]. unfold slice_to in Hk. rewrite take_take in Hk. eauto.
  - apply Hok in Ew as [Hw ->]. intros H%IH. rewrite Hw in H. destruct e as [e|].
    + destruct H as [k Hk]. exists (Z.to_nat chunk + k)%nat. unfold slice_to, slice_from in Hk.
      rewrite Hk, <- app_assoc. f_equal. by rewrite <- take_take_drop.
    + destruct H as [-> ->]. rewrite <- app_assoc, slice_to_from. split; [done|].
      rewrite <- (slice_to_from chunk b) at 3. rewrite len_app. lia.
Qed.

Lemma write_loop_closed fuel burst x b w x' n e :
  conn_open x = false -> write_loop fuel burst x b w = (x', n, e) ->
  conn_wire x' = conn_wire x /\ conn_open x' = false /\ (b <> [] -> e <> None).
Proof.
  revert x b w. induction fuel as [|fuel IH]; intros x b w Ho; cbn [write_loop];
    (destruct (Z.eqb_spec (len b) 0) as [Hz|Hz];
      [apply len_zero_nil in Hz as ->; intros [= <- <- <-]; done|]).
  { by intros [= <- <- <-]. }
  set (chunk := if burst <? len b then burst else len b).
  destruct (conn_write x (slice_to chunk b)) as [[x1 n1] e1] eqn:Ew.
  destruct (wc_closed _ law_write _ _ _ _ _ Ho Ew) as (Hw & Ho1 & Hne).
  destruct e1 as [e1|]; [by intros [= <- <- <-]|]. intros H. destruct (IH _ _ _ Ho1 H) as (-> & Ho' & Hne').
  split; [done|]. split; [done|]. intros Hb. apply Hne'. intros E.
  destruct (slice_to chunk b) eqn:Es; [|by apply Hne]. apply Hb. by rewrite <- (slice_to_from chunk b), Es, E.
Qed.

Context `{!RateLimiterLaws L}.

Lemma WaitWrite_cancelled c l n :
  lc_up c = Some l -> lc_cancelled c = true -> 0 < n -> (WaitWrite c n).2 <> None.
Proof.
  intros Hu Hc Hn. unfold WaitWrite. rewrite Hu, Hc. destruct (Z.leb_spec n 0); [lia|].
  destruct (Z.to_nat n) as [|f] eqn:Ef; [lia|]. cbn [wait_loop]. destruct (Z.leb_spec n 0); [lia|].
  set (chunk := if Burst l <? n then Burst l else n). pose proof (wait_cancelled l chunk) as Hw.
  by destruct (WaitN l true chunk) as [l' [e|]].
Qed.

(** The chunks [WaitWrite] asks for and [WriteUnlimited] writes. *)
Fixpoint chunks (fuel : nat) (burst n : Z) : list Z :=
  if n <=? 0 then []
  else
    match fuel with
    | O => []
    | S fuel => let chunk := if burst <? n then burst else n in chunk :: chunks fuel burst (n - chunk)
    end.

Definition total (l : list Z) : Z := foldr Z.add 0 l.

Lemma chunks_spec fuel burst n :
  1 <= burst -> n <= Z.of_nat fuel ->
  Forall (fun k => 1 <= k <= burst) (chunks fuel burst n) /\ total (chunks fuel burst n) = Z.max 0 n.
Proof.
  intros Hb. revert n. induction fuel as [|fuel IH]; intros n Hn; cbn [chunks]; destruct (Z.leb_spec n 0);
    try (split; [constructor|unfold total; simpl; lia]); try lia.
  set (chunk := if burst <? n then burst else n).
  assert (1 <= chunk <= burst /\ chunk <= n) as [Hc Hle] by (subst chunk; destruct (Z.ltb_spec burst n); lia).
  destruct (IH (n - chunk)) as [IH1 IH2]; [lia|]. split; [by constructor|]. simpl. fold (total (chunks fuel burst (n - chunk))).
  lia.
Qed.

(** One [WaitN] per chunk, until one fails. *)
Fixpoint wait_all (cancelled : bool) (l : L) (ks : list Z) : L * option goerror :=
  match ks with
  | [] => (l, None)
  | k :: ks => match WaitN l cancelled k with (l, Some e) => (l, Some e) | (l, None) => wait_all cancelled l ks end
  end.

Lemma wait_loop_all fuel burst cancelled l n :
  1 <= burst -> n <= Z.of_nat fuel ->
  wait_loop fuel burst cancelled l n = wait_all cancelled l (chunks fuel burst n).
Proof.
  intros Hb. revert l n. induction fuel as [|fuel IH]; intros l n Hn; cbn [chunks wait_loop]; destruct (Z.leb_spec n 0);
    try done; [lia|]. cbn [wait_all]. destruct (WaitN l cancelled _) as [l' [e|]]; [done|]. apply IH.
  destruct (Z.ltb_spec burst n); lia.
Qed.

Lemma wait_all_granted l burst ks :
  Burst l = burst -> Forall (fun k => 1 <= k <= burst) ks ->
  (wait_all false l ks).2 = None /\ Burst (wait_all false l ks).1 = burst.
Proof.
  intros Hb Hks. revert l Hb. induction Hks as [|k ks Hk Hks IH]; intros l Hb; [done|]. cbn [wait_all].
  assert (0 <= k <= Burst l) as Hkb by (rewrite Hb; lia). pose proof (wait_granted l k Hkb) as Hg. pose proof (burst_wait l false k) as Hw.
  destruct (WaitN l false k) as [l' e]. simpl in *. subst e. apply IH. lia.
Qed.

(** ** Devices *)

Lemma newLimiter_burst n l : newLimiter n = Some l -> minBurst <= Burst l.
Proof.
  unfold newLimiter. destruct (n =? 0); [done|]. intros [= <-]. rewrite burst_new.
  destruct (Z.ltb_spec (int_of_uint64 n) minBurst); lia.
Qed.

(** The calls of the registry, with the references handed out and not released. *)
Inductive reg_op :=
  | OpAcquire (authID remoteAddr : string)
  | OpRelease (d : nat).

Definition reg_exec (s : Registry * gmultiset nat) (o : reg_op) : Registry * gmultiset nat :=
  let '(r, held) := s in
  match o with
  | OpAcquire a ip => let '(r, d) := Acquire r a ip in (r, held ⊎ {[+ d +]})
  | OpRelease d => if decide (d ∈ held) then (Release r (Some d), held ∖ {[+ d +]}) else (r, held)
  end.

Definition reg_run (r : Registry) (ops : list reg_op) : Registry * gmultiset nat := foldl reg_exec (r, ∅) ops.

(** Every device of the registry has the buckets of the registry's limits. *)
Definition fair (u w : Z) (r : Registry) : Prop :=
  upBytes r = u /\ downBytes r = w /\
  Forall (fun e => RefTable.e_val e = MkDevice (newLimiter u) (newLimiter w)) (RefTable.heap (table r)).

Lemma Forall_alter_val (f : RefTable.entry Device -> RefTable.entry Device) Q h p :
  (forall e, Q e -> Q (f e)) -> Forall Q h -> Forall Q (alter f p h).
Proof.
  intros Hf Hh. apply Forall_lookup. intros i e Hi. rewrite list_lookup_alter in Hi.
  case_decide; [|by eapply Forall_lookup_1].
  apply fmap_Some in Hi as (e0 & He0 & ->). apply Hf. by eapply Forall_lookup_1.
Qed.

Lemma reg_exec_ok u w r held o r' held' :
  RefTable.table_ok (table r) held -> fair u w r -> reg_exec (r, held) o = (r', held') ->
  RefTable.table_ok (table r') held' /\ fair u w r'.
Proof.
  intros Ht (Hu & Hw & Hf) H. destruct o as [a addr|d]; cbn [reg_exec] in H.
  - unfold Acquire in H. rewrite Hu, Hw in H.
    destruct (RefTable.acquire _ _ _) as [t d] eqn:E. simplify_eq. simpl. split; [by eapply RefTable.acquire_ok|].
    split; [done|]. split; [done|]. simpl. unfold RefTable.acquire in E. destruct (_ !! _); simplify_eq; simpl.
    + by apply Forall_alter_val.
    + apply Forall_app. split; [done|]. by repeat constructor.
  - case_decide; simplify_eq; [|done]. simpl. split; [by apply RefTable.release_ok|].
    split; [done|]. split; [done|]. simpl. unfold RefTable.release. case_match; [|done]. simpl. by apply Forall_alter_val.
Qed.

Lemma reg_run_ok u w r ops :
  RefTable.table_ok (table r) ∅ -> fair u w r ->
  RefTable.table_ok (table (reg_run r ops).1) (reg_run r ops).2 /\ fair u w (reg_run r ops).1.
Proof.
  intros Ht Hf. induction ops as [|o ops IH] using rev_ind; [done|]. unfold reg_run in *. rewrite foldl_app. simpl.
  destruct (foldl reg_exec (r, ∅) ops) as [r1 held1]. destruct IH as [IH1 IH2]; try done.
  destruct (reg_exec (r1, held1) o) as [r2 held2] eqn:E. simpl. by eapply reg_exec_ok.
Qed.

End conn.
End limiter.

Arguments limitedConn : clear implicits.
Arguments Registry : clear implicits.

(** ** What the limiter promises *)

Section claims.
Context {L C : Type} `{!RateLimiter L, !RateLimiterLaws L, !NetConn C, !NetConnLaws C}.

(** C35.  A rate-limited connection is a connection: on top of any connection that
    keeps the contract of [net.Conn], all three ways to write through the wrapper keep
    it: a write without an error has sent exactly the bytes given, in order and however
    they were cut, a failed one a prefix of them, waiting for tokens sends nothing, and a
    closed connection sends nothing more. *)
Theorem limited_conn_laws : NetConnLaws (limitedConn L C).
Proof.
  assert (write_contract WriteUnlimited) as [U1 U2 U3].
  { split; unfold conn_wire, conn_open; simpl; unfold WriteUnlimited.
    - intros c b c' n. destruct (lc_up c) as [l|].
      + destruct (write_loop _ _ _ _ _) as [[x k] e] eqn:E. intros [= <- <- ->]. apply write_loop_contract in E.
        simpl. destruct E. split; [done|lia].
      + destruct (conn_write _ _) as [[x k] e] eqn:E. intros [= <- <- ->]. by apply (wc_ok _ law_write) in E.
    - intros c b c' n e. destruct (lc_up c) as [l|].
      + destruct (write_loop _ _ _ _ _) as [[x k] e'] eqn:E. intros [= <- <- ->]. by apply write_loop_contract in E.
      + destruct (conn_write _ _) as [[x k] e'] eqn:E. intros [= <- <- ->]. by apply (wc_err _ law_write) in E.
    - intros c b c' n e Ho. destruct (lc_up c) as [l|].
      + destruct (write_loop _ _ _ _ _) as [[x k] e'] eqn:E. intros [= <- <- ->]. by apply write_loop_closed in E.
      + destruct (conn_write _ _) as [[x k] e'] eqn:E. intros [= <- <- ->]. by apply (wc_closed _ law_write) in E. }
  assert (forall c b c' n e, Write c b = (c', n, e) ->
    (exists c1, lc_Conn c1 = lc_Conn c /\ WriteUnlimited c1 b = (c', n, e)) \/
    lc_Conn c' = lc_Conn c /\ e <> None) as HW.
  { intros c b c' n e. unfold Write. destruct (lc_up c) as [l|] eqn:Eu.
    - destruct (WaitWrite c (len b)) as [c1 [e1|]] eqn:E; apply WaitWrite_Conn in E.
      + intros [= <- <- <-]. by right.
      + intros H. left. by exists c1.
    - intros H. left. exists c. split; [done|]. unfold WriteUnlimited. by rewrite Eu. }
  split.
  - split; unfold conn_wire, conn_open; simpl.
    + intros c b c' n H. destruct (HW _ _ _ _ _ H) as [(c1 & <- & H1)|[_ ?]]; [by apply (U1 c1 b c' n)|done].
    + intros c b c' n e H. destruct (HW _ _ _ _ _ H) as [(c1 & <- & H1)|[-> _]]; [by apply (U2 c1 b c' n e)|].
      exists 0%nat. by rewrite take_0, app_nil_r.
    + intros c b c' n e Ho H. destruct (HW _ _ _ _ _ H) as [(c1 & Hc & H1)|[-> ?]]; [|done].
      rewrite <- Hc in Ho |- *. by apply (U3 c1 b c' n e).
  - intros wf [= <-]. by split.
  - intros wt c k c' e [= <-] H. unfold conn_wire, conn_open. simpl. by rewrite (WaitWrite_Conn c k c' e H).
  - intros c. unfold conn_wire, conn_open. simpl. apply law_close.
Qed.

(** Waiting for the bandwidth ends: a bucket that the registry made has a burst
    of at least 64 KiB; on an open connection with such a bucket, [WaitWrite]
    succeeds for every number of bytes, asking for them in chunks that the bucket can
    grant and that add up to that number; once the connection is closed, it fails
    instead of waiting. *)
Theorem wait_write_granted (c : limitedConn L C) rate l n :
  newLimiter rate = Some l -> lc_up c = Some l -> 0 < n ->
  let ks := chunks (Z.to_nat n) (Burst l) n in
  minBurst <= Burst l /\ Forall (fun k => 1 <= k <= Burst l) ks /\ total ks = n /\
  (lc_cancelled c = false -> WaitWrite c n = (set_up c (wait_all false l ks).1, None)) /\
  (WaitWrite (Close c) n).2 <> None.
Proof.
  intros Hr Hu Hn. pose proof (newLimiter_burst rate l Hr) as Hb. assert (1 <= Burst l) as Hb1 by (unfold minBurst in Hb; lia).
  destruct (chunks_spec (Z.to_nat n) (Burst l) n) as [H1 H2]; [done|lia|]. split_and!; try done; [lia| |].
  - intros Hc. unfold WaitWrite. rewrite Hu, Hc. destruct (Z.leb_spec n 0); [lia|].
    rewrite wait_loop_all by lia. destruct (wait_all_granted l (Burst l) _ eq_refl H1) as [H3 _].
    destruct (wait_all false l _) as [l' e]. simpl in *. by rewrite H3.
  - by apply (WaitWrite_cancelled (Close c) l).
Qed.

(** A device has one pair of buckets: after any calls of [Acquire] and [Release]
    on a registry, where every release gives back a reference that was handed
    out, two references held for the same credential and source IP, whatever the
    port, are to the same device, its buckets are those of the configured limits, and a device
    is known exactly as long as a reference to it is held. *)
Theorem device_shared upBps downBps (r : Registry L) ops :
  NewRegistry upBps downBps = Some r ->
  let r' := (reg_run r ops).1 in
  let held := (reg_run r ops).2 in
  (forall p q ep eq, p ∈ held -> q ∈ held -> RefTable.heap (table r') !! p = Some ep ->
     RefTable.heap (table r') !! q = Some eq -> RefTable.e_key ep = RefTable.e_key eq -> p = q) /\
  (forall p, p ∈ held -> exists e, RefTable.heap (table r') !! p = Some e /\
     RefTable.e_val e = MkDevice (newLimiter (upBps / 8)) (newLimiter (downBps / 8)) /\
     RefTable.e_refs e = Z.of_nat (multiplicity p held) /\ RefTable.devices (table r') !! RefTable.e_key e = Some p) /\
  (forall k p, RefTable.devices (table r') !! k = Some p -> p ∈ held).
Proof.
  intros Hr r' held. assert (RefTable.table_ok (table r') held /\ fair (upBps / 8) (downBps / 8) r') as [Ht (_ & _ & Hf)].
  { apply reg_run_ok; unfold NewRegistry in Hr; destruct (_ && _); simplify_eq; simpl; [apply RefTable.empty_ok|].
    split; [done|]. split; [done|]. constructor. }
  split_and!.
  - intros p q ep eq Hp Hq. by apply (RefTable.held_unique (table r') held).
  - intros p Hp. destruct (RefTable.ok_held _ _ Ht p Hp) as (e & He & Hk). exists e. split_and!; try done.
    + by apply (Forall_lookup_1 _ _ _ _ Hf He).
    + by apply (RefTable.ok_refs _ _ Ht).
  - intros k p Hk. by destruct (RefTable.ok_devices _ _ Ht k p Hk).
Qed.

End claims.

(** A limit below 8 bits per second is no limit: it is rounded down to zero bytes,
    which stands for unlimited. *)
Lemma tiny_limit_unlimited {L} `{!RateLimiter L} bps :
  0 < bps < 8 -> exists r : Registry L, NewRegistry bps bps = Some r /\
    newLimiter (L := L) (upBytes r) = None /\ newLimiter (L := L) (downBytes r) = None.
Proof.
  intros Hb. unfold NewRegistry. destruct (Z.eqb_spec bps 0); [lia|]. eexists. split; [reflexivity|]. simpl.
  by rewrite (Z.div_small bps 8) by lia.
Qed.

(** ** A concrete bucket *)

(** Grants what it may and keeps the amounts it granted. *)
Record ledger := MkLedger { lg_rate : Z; lg_burst : Z; lg_granted : list Z }.

#[export] Instance ledger_limiter : RateLimiter ledger := {
  NewLimiter r b := MkLedger r b [];
  Burst := lg_burst;
  WaitN l cancelled n :=
    if cancelled then (l, Some ErrCanceled)
    else if lg_burst l <? n then (l, Some ErrCanceled)
    else (MkLedger (lg_rate l) (lg_burst l) (lg_granted l ++ [n]), None)
}.

#[export] Instance ledger_laws : RateLimiterLaws ledger.
Proof.
  split; simpl; try done.
  - intros l [] n; simpl; [done|]. by destruct (lg_burst l <? n).
  - intros l n Hn. destruct (Z.ltb_spec (lg_burst l) n); [lia|done].
Qed.

Definition sample_conn : limitedConn ledger PlainConn := MkLimited plain_new (newLimiter 1000) None false.

Lemma limited_conn_laws_witness :
  NetConnLaws (limitedConn ledger PlainConn) /\
  (let '(c, n, e) := conn_write sample_conn [x01; x02] in conn_wire c = [x01; x02] /\ n = 2 /\ e = None).
Proof. split; [apply limited_conn_laws|]. split; [reflexivity|]. split; reflexivity. Defined.

Lemma wait_write_granted_witness :
  WaitWrite sample_conn 100000 =
    (MkLimited plain_new (Some (MkLedger 1000 65536 [65536; 34464])) None false, None).
Proof.
  destruct (wait_write_granted sample_conn 1000 (MkLedger 1000 65536 []) 100000) as (_ & _ & _ & H & _);
    [reflexivity|reflexivity|lia|]. rewrite H by reflexivity. vm_compute. reflexivity.
Defined.

Lemma device_shared_witness :
  let r := reg_run (MkRegistry (L := ledger) 125000 0 RefTable.empty_table)
             [OpAcquire "alice" "10.0.0.1:5000"; OpAcquire "alice" "10.0.0.1:5001"; OpAcquire "alice" "10.0.0.2:5000";
              OpRelease 0] in
  (forall k p, RefTable.devices (table r.1) !! k = Some p -> p ∈ r.2) /\
  RefTable.devices (table r.1) !! MkKey "alice" "10.0.0.1" = Some 0%nat.
Proof.
  intros r. split; [|vm_compute; reflexivity].
  refine (proj2 (proj2 (device_shared (L := ledger) 1000000 0 (MkRegistry 125000 0 RefTable.empty_table)
    [OpAcquire "alice" "10.0.0.1:5000"; OpAcquire "alice" "10.0.0.1:5001"; OpAcquire "alice" "10.0.0.2:5000";
     OpRelease 0] _))). vm_compute. reflexivity.
Defined.

End Limiter.
