(* ===== verification/Stats.v ===== *)
(** * Stats: traffic accounting and online devices
      (stats/registry.go, stats/stream.go)

    [Registry] keeps one [UserStat] per user id and one [StreamStats] per traced
    stream.  Both are shared: a session holds the pointer to its user's counters, a
    stream the one to its own record, so they live in heaps.  The connection ids of
    devices are an instance of RefTable.v.

    The main theorem is about billing: no byte counted by a live session is lost or
    reported twice, however reports with [Clear], reconnects and
    disconnects interleave. *)

From S2P Require Import Prelude GoStrings RefTable.
From stdpp Require Import gmultiset.
#[local] Open Scope string_scope.
#[local] Open Scope list_scope.
#[local] Open Scope Z_scope.

(** Addition on [int64] wraps around. *)
Definition int64 (z : Z) : Z := (z + 9223372036854775808) mod 18446744073709551616 - 9223372036854775808.

Module Stats.

Record sessionInfo := MkInfo { remote : string; started : Z }.

(** Sessions are told apart by identity. *)
Record UserStat := MkUser { u_ID : string; u_Tx : Z; u_Rx : Z; u_sessions : gmap nat sessionInfo }.

Inductive StreamState :=
  | StreamStateInitial | StreamStateHooking | StreamStateConnecting | StreamStateEstablished | StreamStateClosed.

Definition StreamState_String (s : StreamState) : string :=
  match s with
  | StreamStateInitial => "init"
  | StreamStateHooking => "hook"
  | StreamStateConnecting => "connect"
  | StreamStateEstablished => "estab"
  | StreamStateClosed => "closed"
  end.

Record StreamStats := MkStreamStats {
  authID : string; connID : Z; streamID : Z; initialTime : Z;
  state : StreamState; reqAddr : option string; tx : Z; rx : Z; lastActive : Z
}.

(** [Conn]: its id and the last stream number handed out *)
Record Conn := MkConn { c_id : Z; streamSeq : Z }.

Record Registry := MkRegistry {
  users : gmap string nat;
  ustats : list UserStat;
  streams : gset nat;
  sstats : list StreamStats;
  conns : RefTable.table Conn
}.

Definition NewRegistry : Registry := MkRegistry ∅ [] ∅ [] RefTable.empty_table.

Definition set_users r x y := MkRegistry x y (streams r) (sstats r) (conns r).
Definition set_streams r x y := MkRegistry (users r) (ustats r) x y (conns r).
Definition set_conns r x := MkRegistry (users r) (ustats r) (streams r) (sstats r) x.

(** ** Users *)

Definition add_tx (n : Z) (u : UserStat) : UserStat := MkUser (u_ID u) (int64 (u_Tx u + n)) (u_Rx u) (u_sessions u).
Definition add_rx (n : Z) (u : UserStat) : UserStat := MkUser (u_ID u) (u_Tx u) (int64 (u_Rx u + n)) (u_sessions u).
Definition set_sessions (m : gmap nat sessionInfo) (u : UserStat) : UserStat := MkUser (u_ID u) (u_Tx u) (u_Rx u) m.
Definition zero (u : UserStat) : UserStat := MkUser (u_ID u) 0 0 (u_sessions u).

(** [UserStat.AddTx], [UserStat.AddRx] through a pointer *)
Definition AddTx (r : Registry) (p : nat) (n : Z) : Registry := set_users r (users r) (alter (add_tx n) p (ustats r)).
Definition AddRx (r : Registry) (p : nat) (n : Z) : Registry := set_users r (users r) (alter (add_rx n) p (ustats r)).

Definition attach_session (sess : nat) (info : sessionInfo) (u : UserStat) : UserStat :=
  set_sessions (<[sess := info]> (u_sessions u)) u.

Definition Attach (r : Registry) (id rem : string) (sess : nat) (now : Z) : Registry * nat :=
  let '(r, p) :=
    match users r !! id with
    | Some p => (r, p)
    | None =>
        let p := length (ustats r) in
        (set_users r (<[id := p]> (users r)) (ustats r ++ [MkUser id 0 0 ∅]), p)
    end in
  (set_users r (users r) (alter (attach_session sess (MkInfo rem now)) p (ustats r)), p).

Definition detach_session (sess : nat) (u : UserStat) : UserStat :=
  set_sessions (delete sess (u_sessions u)) u.

Definition Detach (r : Registry) (id : string) (sess : nat) : Registry :=
  match users r !! id with
  | None => r
  | Some p => set_users r (users r) (alter (detach_session sess) p (ustats r))
  end.

(** [TrafficEntry] *)
Record TrafficEntry := MkTraffic { t_Tx : Z; t_Rx : Z }.

Definition traffic (u : UserStat) : TrafficEntry := MkTraffic (u_Tx u) (u_Rx u).

Definition Snapshot (r : Registry) : gmap string TrafficEntry :=
  omap (fun p => traffic <$> ustats r !! p) (users r).

(** One round of the loop of [Clear]. *)
Definition clear_user (st : Registry * gmap string TrafficEntry) (e : string * nat)
  : Registry * gmap string TrafficEntry :=
  let '(r, out) := st in
  let '(id, p) := e in
  match ustats r !! p with
  | None => (r, out)
  | Some u =>
      let r' := set_users r (users r) (alter zero p (ustats r)) in
      (if decide (size (u_sessions u) = 0%nat) then set_users r' (delete id (users r')) (ustats r') else r',
       <[id := traffic u]> out)
  end.

Definition Clear (r : Registry) : Registry * gmap string TrafficEntry :=
  foldl clear_user (r, ∅) (map_to_list (users r)).

Definition user_ips (u : UserStat) : gset string :=
  list_to_set (map (fun e => hostOnly (remote e.2)) (map_to_list (u_sessions u))).

Definition online_of (u : UserStat) : option Z :=
  if decide (size (user_ips u) = 0%nat) then None else Some (Z.of_nat (size (user_ips u))).

Definition Online (r : Registry) : gmap string Z :=
  omap (fun p => ustats r !! p ≫= online_of) (users r).

(** [Kick]: the sessions it closes. *)
Definition Kick (r : Registry) (ids : list string) : list nat :=
  concat (map (fun id =>
    match users r !! id ≫= (fun p => ustats r !! p) with
    | Some u => map fst (map_to_list (u_sessions u))
    | None => []
    end) ids).

(** ** Streams *)

Definition TraceStream (r : Registry) (auth : string) (conn strm now : Z) : Registry * nat :=
  let p := length (sstats r) in
  (set_streams r ({[p]} ∪ streams r)
     (sstats r ++ [MkStreamStats auth conn strm now StreamStateConnecting None 0 0 now]), p).

Definition SetState (st : StreamState) (s : StreamStats) : StreamStats :=
  MkStreamStats (authID s) (connID s) (streamID s) (initialTime s) st (reqAddr s) (tx s) (rx s) (lastActive s).

Definition SetReqAddr (addr : string) (s : StreamStats) : StreamStats :=
  MkStreamStats (authID s) (connID s) (streamID s) (initialTime s) (state s) (Some addr) (tx s) (rx s) (lastActive s).

(** [StreamStats.AddTx], [StreamStats.AddRx] with [touch] *)
Definition stream_AddTx (n now : Z) (s : StreamStats) : StreamStats :=
  MkStreamStats (authID s) (connID s) (streamID s) (initialTime s) (state s) (reqAddr s) (int64 (tx s + n)) (rx s) now.

Definition stream_AddRx (n now : Z) (s : StreamStats) : StreamStats :=
  MkStreamStats (authID s) (connID s) (streamID s) (initialTime s) (state s) (reqAddr s) (tx s) (int64 (rx s + n)) now.

Definition UntraceStream (r : Registry) (s : option nat) : Registry :=
  match s with
  | None => r
  | Some p => set_streams r (streams r ∖ {[p]}) (alter (SetState StreamStateClosed) p (sstats r))
  end.

(** [StreamEntry], without the two texts of times *)
Record StreamEntry := MkStreamEntry {
  State : string; Auth : string; Connection : Z; Stream : Z; ReqAddr : string; HookedReqAddr : string;
  se_Tx : Z; se_Rx : Z; se_initialTime : Z; se_lastActive : Z
}.

Definition entry (s : StreamStats) : StreamEntry :=
  MkStreamEntry (StreamState_String (state s)) (authID s) (connID s) (streamID s) (default "" (reqAddr s)) ""
    (tx s) (rx s) (initialTime s) (lastActive s).

(** The comparison of [DumpStreams]; Go compares strings by bytes. *)
Definition entry_le (a b : StreamEntry) : Prop :=
  match String.compare (Auth a) (Auth b) with
  | Lt => True
  | Gt => False
  | Eq => Connection a < Connection b \/ Connection a = Connection b /\ Stream a <= Stream b
  end.

#[export] Instance entry_le_dec a b : Decision (entry_le a b).
Proof. unfold entry_le. destruct (String.compare _ _); apply _. Defined.

Definition DumpStreams (r : Registry) : list StreamEntry :=
  merge_sort entry_le (omap (fun p => entry <$> sstats r !! p) (elements (streams r))).

(** ** Connections of devices *)

Definition in_use (t : RefTable.table Conn) (id : Z) : bool :=
  existsb (fun e => match RefTable.heap t !! e.2 with Some c => c_id (RefTable.e_val c) =? id | None => false end)
    (map_to_list (RefTable.devices t)).

(** [freshConnID] tries the numbers of [draws], those [rand.Uint32] returns; [None]
    when they end before an unused one. *)
Fixpoint freshConnID (t : RefTable.table Conn) (draws : list Z) : option Z :=
  match draws with
  | [] => None
  | id :: rest => if in_use t id then freshConnID t rest else Some id
  end.

(** [AcquireConn]; [None] while no unused id has been drawn. *)
Definition AcquireConn (r : Registry) (authID remoteAddr : string) (draws : list Z) : option (Registry * nat) :=
  let key := MkKey authID (hostOnly remoteAddr) in
  let acquire id := let '(t, c) := RefTable.acquire (conns r) key (MkConn id 0) in (set_conns r t, c) in
  match RefTable.devices (conns r) !! key with
  | Some _ => Some (acquire 0)
  | None => acquire <$> freshConnID (conns r) draws
  end.

Definition ReleaseConn (r : Registry) (c : option nat) : Registry :=
  match c with
  | None => r
  | Some c => set_conns r (RefTable.release (conns r) c)
  end.

(** [NextStreamID] of the connection [p] *)
Definition next_seq (e : RefTable.entry Conn) : RefTable.entry Conn :=
  let c := RefTable.e_val e in
  RefTable.MkEntry (RefTable.e_key e) (MkConn (c_id c) (uint32 (streamSeq c + 1))) (RefTable.e_refs e).

Definition NextStreamID (r : Registry) (p : nat) : Registry * Z :=
  let h := alter next_seq p (RefTable.heap (conns r)) in
  (set_conns r (RefTable.MkTable (RefTable.devices (conns r)) h),
   match h !! p with Some e => streamSeq (RefTable.e_val e) | None => 0 end).

(** ** No byte is lost or reported twice *)

Definition no_traffic : TrafficEntry := MkTraffic 0 0.
Definition plus (a b : TrafficEntry) : TrafficEntry := MkTraffic (t_Tx a + t_Tx b) (t_Rx a + t_Rx b).

(** Equality of [int64] counters. *)
Definition eqm (a b : Z) : Prop := a mod 18446744073709551616 = b mod 18446744073709551616.
Definition same_traffic (a b : TrafficEntry) : Prop := eqm (t_Tx a) (t_Tx b) /\ eqm (t_Rx a) (t_Rx b).

(** What is counted for [id] and not yet reported. *)
Definition current (r : Registry) (id : string) : TrafficEntry :=
  match users r !! id ≫= (fun p => ustats r !! p) with Some u => traffic u | None => no_traffic end.

(** The user has a session right now. *)
Definition attached (r : Registry) (p : nat) : bool :=
  match ustats r !! p with Some u => negb (bool_decide (size (u_sessions u) = 0%nat)) | None => false end.

Inductive traffic_op :=
  | OpAttach (id rem : string) (sess : nat) (now : Z)
  | OpDetach (id : string) (sess : nat)
  | OpTx (p : nat) (n : Z)
  | OpRx (p : nat) (n : Z)
  | OpClear.

(** A registry with all the traffic its live sessions have counted for an id, and
    the traffic the reports have named for it. *)
Record books := MkBooks { reg : Registry; counted : string -> TrafficEntry; reported : string -> TrafficEntry }.

Definition book (f : string -> TrafficEntry) (id : string) (t : TrafficEntry) : string -> TrafficEntry :=
  fun id' => if decide (id' = id) then plus (f id') t else f id'.

Definition book_all (f : string -> TrafficEntry) (out : gmap string TrafficEntry) : string -> TrafficEntry :=
  fun id => plus (f id) (default no_traffic (out !! id)).

Definition count (b : books) (p : nat) (op : Registry -> Registry) (t : TrafficEntry) : books :=
  match ustats (reg b) !! p with
  | Some u => if attached (reg b) p then MkBooks (op (reg b)) (book (counted b) (u_ID u) t) (reported b) else b
  | None => b
  end.

Definition traffic_exec (b : books) (o : traffic_op) : books :=
  match o with
  | OpAttach id rem sess now => MkBooks (Attach (reg b) id rem sess now).1 (counted b) (reported b)
  | OpDetach id sess => MkBooks (Detach (reg b) id sess) (counted b) (reported b)
  | OpTx p n => count b p (fun r => AddTx r p n) (MkTraffic n 0)
  | OpRx p n => count b p (fun r => AddRx r p n) (MkTraffic 0 n)
  | OpClear => let '(r, out) := Clear (reg b) in MkBooks r (counted b) (book_all (reported b) out)
  end.

Definition open_books : books := MkBooks NewRegistry (fun _ => no_traffic) (fun _ => no_traffic).

Record reg_ok (r : Registry) : Prop := {
  ro_users id p : users r !! id = Some p -> exists u, ustats r !! p = Some u /\ u_ID u = id;
  ro_live p u : ustats r !! p = Some u -> u_sessions u <> ∅ -> users r !! u_ID u = Some p
}.

Definition balanced (r : Registry) (cnt rep : string -> TrafficEntry) : Prop :=
  forall id, same_traffic (cnt id) (plus (rep id) (current r id)).

#[export] Instance eqm_equiv : Equivalence eqm.
Proof. unfold eqm. split; intros ?; congruence. Qed.

#[export] Instance eqm_add : Proper (eqm ==> eqm ==> eqm) Z.add.
Proof. unfold eqm. intros a b Hab c d Hcd. rewrite Z.add_mod, Hab, Hcd, <- Z.add_mod; lia. Qed.

Lemma eqm_int64 z : eqm (int64 z) z.
Proof.
  unfold eqm, int64. rewrite Zminus_mod, Zmod_mod, <- Zminus_mod. f_equal. lia.
Qed.

(** The user an id points to. *)
Lemma current_user r id p u : users r !! id = Some p -> ustats r !! p = Some u -> current r id = traffic u.
Proof. intros Hp Hu. unfold current. rewrite Hp. simpl. by rewrite Hu. Qed.

(** Changing one user in place, keeping its id and its sessions alive only where they were. *)
Lemma alter_ok r p f :
  reg_ok r -> (forall u, u_ID (f u) = u_ID u) ->
  (forall u, ustats r !! p = Some u -> u_sessions (f u) <> ∅ -> users r !! u_ID u = Some p) ->
  reg_ok (set_users r (users r) (alter f p (ustats r))).
Proof.
  intros [H1 H2] Hid Hs. split; simpl.
  - intros id q Hq. destruct (H1 id q Hq) as (u & Hu & Hi). rewrite list_lookup_alter. case_decide; [subst|eauto].
    rewrite Hu. simpl. eexists. split; [done|]. by rewrite Hid.
  - intros q u Hq Hne. rewrite list_lookup_alter in Hq. case_decide; [subst|eauto].
    apply fmap_Some in Hq as (u0 & Hu0 & ->). rewrite Hid. by apply Hs.
Qed.

Lemma current_alter r p f id :
  current (set_users r (users r) (alter f p (ustats r))) id =
  match users r !! id ≫= (fun q => ustats r !! q) with
  | Some u => if decide (users r !! id = Some p) then traffic (f u) else traffic u
  | None => no_traffic
  end.
Proof.
  unfold current. simpl. destruct (users r !! id) as [q|]; simpl; [|done]. rewrite list_lookup_alter.
  destruct (decide (p = q)) as [->|Hne]; destruct (ustats r !! q); simpl; try done.
  - by rewrite decide_True.
  - rewrite decide_False; [done|]. congruence.
Qed.

(** In-place changes that leave the counters alone. *)
Lemma alter_balanced r p f cnt rep :
  (forall u, traffic (f u) = traffic u) -> balanced r cnt rep ->
  balanced (set_users r (users r) (alter f p (ustats r))) cnt rep.
Proof.
  intros Hf Hb id. rewrite current_alter. specialize (Hb id). unfold current in Hb.
  destruct (users r !! id ≫= _) as [u|]; [|done]. rewrite Hf. by destruct (decide _).
Qed.

Lemma Attach_ok r id rem sess now cnt rep :
  reg_ok r -> balanced r cnt rep ->
  reg_ok (Attach r id rem sess now).1 /\ balanced (Attach r id rem sess now).1 cnt rep.
Proof.
  intros Hr Hb. unfold Attach.
  assert (forall r1 p, reg_ok r1 -> users r1 !! id = Some p -> balanced r1 cnt rep ->
    let r2 := set_users r1 (users r1) (alter (attach_session sess (MkInfo rem now)) p (ustats r1)) in
    reg_ok r2 /\ balanced r2 cnt rep) as Hgo.
  { intros r1 p Hr1 Hp Hb1. split; [|by apply alter_balanced]. apply alter_ok; [done|done|].
    intros u Hu _. destruct (ro_users _ Hr1 id p Hp) as (u' & Hu' & <-). congruence. }
  destruct (users r !! id) as [p|] eqn:E; [by apply Hgo|]. cbv zeta beta iota. cbn [fst].
  apply (Hgo (set_users r (<[id := length (ustats r)]> (users r)) (ustats r ++ [MkUser id 0 0 ∅])) (length (ustats r))).
  - destruct Hr as [H1 H2]. split; simpl.
    + intros id' q. rewrite lookup_insert. case_decide; [intros [= <-]|].
      * eexists. split; [by apply list_lookup_middle|done].
      * intros Hq. destruct (H1 id' q Hq) as (u & Hu & Hi). exists u. split; [by apply lookup_app_l_Some|done].
    + intros q u Hq Hne. apply lookup_app_Some in Hq as [Hq|[_ Hq]].
      * rewrite lookup_insert. case_decide as Ei; [|by apply H2]. specialize (H2 q u Hq Hne). congruence.
      * apply list_lookup_singleton_Some in Hq as [_ <-]. done.
  - simpl. rewrite lookup_insert. by rewrite decide_True.
  - intros id'. specialize (Hb id'). unfold current in *. simpl. rewrite lookup_insert. case_decide as Ei.
    + subst id'. rewrite E in Hb. simpl. rewrite list_lookup_middle by done. done.
    + destruct (users r !! id') as [q|] eqn:Eq; simpl in *; [|done].
      destruct (ro_users _ Hr id' q Eq) as (u & Hu & _). rewrite Hu in Hb. by rewrite (lookup_app_l_Some _ _ _ _ Hu).
Qed.

Lemma Detach_ok r id sess cnt rep :
  reg_ok r -> balanced r cnt rep -> reg_ok (Detach r id sess) /\ balanced (Detach r id sess) cnt rep.
Proof.
  intros Hr Hb. unfold Detach. destruct (users r !! id) as [p|] eqn:E; [|done]. split; [|by apply alter_balanced].
  apply alter_ok; [done|done|]. intros u Hu _. destruct (ro_users _ Hr id p E) as (u' & Hu' & <-). congruence.
Qed.

(** Counting on a user with a session. *)
Lemma count_traffic_ok r p u f t cnt rep :
  reg_ok r -> balanced r cnt rep -> ustats r !! p = Some u -> attached r p = true ->
  (forall v, u_ID (f v) = u_ID v /\ u_sessions (f v) = u_sessions v /\ same_traffic (traffic (f v)) (plus (traffic v) t)) ->
  reg_ok (set_users r (users r) (alter f p (ustats r))) /\
  balanced (set_users r (users r) (alter f p (ustats r))) (book cnt (u_ID u) t) rep.
Proof.
  intros Hr Hb Hu Ha Hf. assert (users r !! u_ID u = Some p) as Hp.
  { apply (ro_live _ Hr p u Hu). unfold attached in Ha. rewrite Hu in Ha. intros E. rewrite E, map_size_empty in Ha. done. }
  split.
  - apply alter_ok; [done|intros; apply Hf|]. intros v Hv _. congruence.
  - intros id. rewrite current_alter. specialize (Hb id). unfold current in Hb. unfold book.
    destruct (decide (id = u_ID u)) as [->|Hne].
    + rewrite Hp in Hb |- *. simpl in *. rewrite Hu in Hb |- *. rewrite decide_True by done.
      destruct Hb as [B1 B2], (Hf u) as (_ & _ & F1 & F2). unfold plus in *. simpl in *.
      split; simpl; [rewrite B1, F1|rewrite B2, F2]; by rewrite Z.add_assoc.
    + destruct (users r !! id ≫= _) as [v|] eqn:Ev; [|done]. rewrite decide_False; [done|].
      intros Hq. destruct (ro_users _ Hr id p Hq) as (w & Hw & <-). congruence.
Qed.

(** One round of [Clear]. *)
Lemma clear_user_ok r out id p cnt rep :
  reg_ok r -> balanced r cnt (book_all rep out) -> users r !! id = Some p -> out !! id = None ->
  let '(r', out') := clear_user (r, out) (id, p) in
  reg_ok r' /\ balanced r' cnt (book_all rep out') /\
  (forall id', id' <> id -> users r' !! id' = users r !! id' /\ out' !! id' = out !! id').
Proof.
  intros Hr Hb Hp Ho. destruct (ro_users _ Hr id p Hp) as (u & Hu & Hid). unfold clear_user. rewrite Hu.
  set (r1 := set_users r (users r) (alter zero p (ustats r))).
  assert (reg_ok r1) as Hr1.
  { apply alter_ok; [done|done|]. intros v Hv Hne. apply (ro_live _ Hr p v Hv). by destruct v. }
  assert (balanced r1 cnt (book_all rep (<[id := traffic u]> out))) as Hb1.
  { intros id'. unfold r1. rewrite current_alter. specialize (Hb id'). unfold book_all, current in *. rewrite lookup_insert.
    destruct (decide (id = id')) as [<-|Hne].
    - rewrite Hp in Hb |- *. simpl in *. rewrite Hu, Ho in Hb. rewrite Hu, decide_True by done.
      destruct Hb as [B1 B2]. split; simpl in *; [rewrite B1|rewrite B2]; by rewrite !Z.add_0_r.
    - destruct (users r !! id' ≫= _) as [v|] eqn:Ev; [|done]. rewrite decide_False; [done|].
      intros Hq. destruct (ro_users _ Hr id' p Hq) as (w & Hw & <-). congruence. }
  case_decide as Hs.
  - apply map_size_empty_inv in Hs. split_and!.
    + split; simpl.
      * intros id' q [Hne Hq]%lookup_delete_Some. by apply (ro_users _ Hr1).
      * intros q v Hq Hne. rewrite lookup_delete. case_decide as E; [|by apply (ro_live _ Hr1)].
        exfalso. pose proof (ro_live _ Hr1 q v Hq Hne) as Hl. rewrite <- E in Hl. simpl in Hl.
        assert (q = p) as -> by congruence. simpl in Hq. rewrite list_lookup_alter, decide_True, Hu in Hq by done.
        injection Hq as <-. by apply Hne.
    + intros id'. specialize (Hb1 id'). unfold current in *. simpl. rewrite lookup_delete. case_decide as E; [|done].
      subst id'. simpl in *. rewrite Hp in Hb1. simpl in Hb1. rewrite list_lookup_alter, decide_True, Hu in Hb1 by done. done.
    + intros id' Hne. simpl. rewrite lookup_delete, lookup_insert, !decide_False by done. done.
  - split_and!; try done. intros id' Hne. simpl. rewrite lookup_insert, decide_False by done. done.
Qed.

Lemma clear_loop_ok l r out cnt rep :
  reg_ok r -> balanced r cnt (book_all rep out) -> NoDup l.*1 ->
  (forall id p, (id, p) ∈ l -> users r !! id = Some p /\ out !! id = None) ->
  let '(r', out') := foldl clear_user (r, out) l in reg_ok r' /\ balanced r' cnt (book_all rep out').
Proof.
  revert r out. induction l as [|[id p] l IH]; intros r out Hr Hb Hnd Hl; [done|]. cbn [foldl].
  inv Hnd. rename select (id ∉ _) into Hnin. rename select (NoDup _) into Hnd. destruct (Hl id p) as [Hp Ho]; [by left|].
  pose proof (clear_user_ok r out id p cnt rep Hr Hb Hp Ho) as H. destruct (clear_user (r, out) (id, p)) as [r1 out1].
  destruct H as (H1 & H2 & H3). apply IH; try done. intros id' p' Hin.
  destruct (Hl id' p') as [Hp' Ho']; [by right|]. destruct (H3 id') as [-> ->]; [|done].
  intros ->. apply Hnin. apply list_elem_of_fmap. by exists (id, p').
Qed.

Lemma Clear_ok r cnt rep :
  reg_ok r -> balanced r cnt rep ->
  reg_ok (Clear r).1 /\ balanced (Clear r).1 cnt (book_all rep (Clear r).2).
Proof.
  intros Hr Hb. unfold Clear. pose proof (clear_loop_ok (map_to_list (users r)) r ∅ cnt rep) as H.
  destruct (foldl _ _ _) as [r' out]. apply H; [done| |apply NoDup_fst_map_to_list|].
  - intros id. specialize (Hb id). unfold book_all, plus in *. rewrite lookup_empty. simpl in *. by rewrite !Z.add_0_r.
  - intros id p Hin. by apply elem_of_map_to_list in Hin.
Qed.

(** Sessions that attach, count, detach and are reported keep the books balanced. *)
Lemma traffic_run_ok ops :
  let b := foldl traffic_exec open_books ops in reg_ok (reg b) /\ balanced (reg b) (counted b) (reported b).
Proof.
  intros b.
  subst b. induction ops as [|o ops [Hr Hb]] using rev_ind.
  - simpl. split; [split; simpl; intros; simplify_map_eq|]. intros id'. by split.
  - rewrite foldl_app. simpl. destruct (foldl traffic_exec open_books ops) as [r cnt rep]. simpl in *.
    destruct o as [id' rem sess now|id' sess|p n|p n|]; simpl.
    + by apply Attach_ok.
    + by apply Detach_ok.
    + unfold count. simpl. destruct (ustats r !! p) as [u|] eqn:Hu; [|done]. destruct (attached r p) eqn:Ha; [|done].
      apply count_traffic_ok; try done. intros v. split; [done|]. split; [done|].
      split; simpl; [apply eqm_int64|by rewrite Z.add_0_r].
    + unfold count. simpl. destruct (ustats r !! p) as [u|] eqn:Hu; [|done]. destruct (attached r p) eqn:Ha; [|done].
      apply count_traffic_ok; try done. intros v. split; [done|]. split; [done|].
      split; simpl; [by rewrite Z.add_0_r|apply eqm_int64].
    + pose proof (Clear_ok r cnt rep Hr Hb) as H. by destruct (Clear r) as [r' out].
Qed.

(** C17.  Billing is exact: start with an empty registry and let sessions attach and
    detach, count bytes while they are attached, and reports with [Clear] happen, in
    any order; then for every user id, the bytes counted are the bytes all
    reports named plus those the registry holds now, as 64-bit counters. *)
Theorem traffic_conserved ops id :
  let b := foldl traffic_exec open_books ops in
  same_traffic (counted b id) (plus (reported b id) (current (reg b) id)).
Proof. apply (traffic_run_ok ops). Qed.

(** The hypothesis that counting stops with the session matters: bytes counted on
    a detached user after a report has freed it are in no later report. *)
Example late_traffic_lost :
  let r := (Attach NewRegistry "alice" "10.0.0.1:5" 1 0).1 in
  let r := AddTx (Clear (Detach r "alice" 1)).1 0 100 in
  Snapshot r = ∅ /\ Snapshot (Attach r "alice" "10.0.0.1:6" 2 1).1 = {["alice" := MkTraffic 0 0]}.
Proof. vm_compute. split; reflexivity. Qed.

(** ** Connection ids *)

Inductive conn_op :=
  | OpAcquireConn (authID remoteAddr : string) (draws : list Z)
  | OpReleaseConn (c : nat)
  | OpNextStreamID (c : nat).

Definition conn_exec (s : Registry * gmultiset nat) (o : conn_op) : Registry * gmultiset nat :=
  let '(r, held) := s in
  match o with
  | OpAcquireConn a addr draws =>
      match AcquireConn r a addr draws with Some (r, c) => (r, held ⊎ {[+ c +]}) | None => (r, held) end
  | OpReleaseConn c => if decide (c ∈ held) then (ReleaseConn r (Some c), held ∖ {[+ c +]}) else (r, held)
  | OpNextStreamID c => ((NextStreamID r c).1, held)
  end.

(** The id of the connection a key points to. *)
Definition conn_id (t : RefTable.table Conn) (k : deviceKey) : option Z :=
  p ← RefTable.devices t !! k; c_id ∘ RefTable.e_val <$> RefTable.heap t !! p.

Definition ids_unique (t : RefTable.table Conn) : Prop :=
  forall k1 k2 id, conn_id t k1 = Some id -> conn_id t k2 = Some id -> k1 = k2.

(** In-place changes that keep ids, keys and counts. *)
Lemma conn_id_alter t h f p k :
  h = alter f p (RefTable.heap t) -> (forall e, c_id (RefTable.e_val (f e)) = c_id (RefTable.e_val e)) ->
  conn_id (RefTable.MkTable (RefTable.devices t) h) k = conn_id t k.
Proof.
  intros -> Hf. unfold conn_id. simpl. destruct (RefTable.devices t !! k) as [q|]; simpl; [|done].
  rewrite list_lookup_alter. case_decide; [subst|done]. destruct (RefTable.heap t !! q); simpl; [|done]. by rewrite Hf.
Qed.

Lemma in_use_spec t k id : conn_id t k = Some id -> in_use t id = true.
Proof.
  intros H. unfold conn_id in H. apply bind_Some in H as (p & Hp & H). apply fmap_Some in H as (e & He & ->).
  apply existsb_exists. exists (k, p). split; [by apply list_elem_of_In, elem_of_map_to_list|]. simpl. rewrite He.
  apply Z.eqb_refl.
Qed.

Lemma freshConnID_unused t draws id : freshConnID t draws = Some id -> in_use t id = false.
Proof.
  induction draws as [|d draws IH]; simpl; [done|]. destruct (in_use t d) eqn:E; [done|]. by intros [= <-].
Qed.

Lemma freshConnID_total t draws id : id ∈ draws -> in_use t id = false -> is_Some (freshConnID t draws).
Proof.
  intros Hin Hu. induction draws as [|d draws IH]; [by apply elem_of_nil in Hin|]. simpl.
  apply elem_of_cons in Hin as [->|Hin]; [rewrite Hu; by eexists|]. destruct (in_use t d); [by apply IH|by eexists].
Qed.

(** A new key with an unused id. *)
Lemma ids_unique_new t key id :
  ids_unique t -> RefTable.devices t !! key = None -> in_use t id = false ->
  (forall k p, RefTable.devices t !! k = Some p -> is_Some (RefTable.heap t !! p)) ->
  ids_unique (RefTable.acquire t key (MkConn id 0)).1.
Proof.
  intros Hu Hk Hf Hd. unfold RefTable.acquire. rewrite Hk. cbn [fst].
  assert (forall k, conn_id (RefTable.MkTable (<[key := length (RefTable.heap t)]> (RefTable.devices t))
    (RefTable.heap t ++ [RefTable.MkEntry key (MkConn id 0) 1])) k = if decide (key = k) then Some id else conn_id t k) as Hc.
  { intros k. unfold conn_id. simpl. rewrite lookup_insert. case_decide; simpl.
    - by rewrite list_lookup_middle.
    - destruct (RefTable.devices t !! k) as [p|] eqn:Ep; simpl; [|done].
      destruct (Hd k p Ep) as [e He]. by rewrite He, (lookup_app_l_Some _ _ _ _ He). }
  intros k1 k2 i. rewrite !Hc. repeat case_decide; subst; try done; intros H1 H2; simplify_eq.
  - apply in_use_spec in H2. congruence.
  - apply in_use_spec in H1. congruence.
  - by apply (Hu k1 k2 i).
Qed.

Lemma next_seq_ok (t : RefTable.table Conn) held c :
  RefTable.table_ok t held ->
  RefTable.table_ok (RefTable.MkTable (RefTable.devices t) (alter next_seq c (RefTable.heap t))) held.
Proof.
  intros [H1 H2 H3]. split; simpl.
  - intros p e Hp. rewrite list_lookup_alter in Hp. case_decide; [subst|eauto].
    apply fmap_Some in Hp as (e0 & He0 & ->). simpl. by apply H1.
  - intros p Hp. destruct (H2 p Hp) as (e & He & Hk). rewrite list_lookup_alter. case_decide; [subst|eauto].
    rewrite He. simpl. eexists. by split.
  - intros k p Hk. destruct (H3 k p Hk) as [Hp (e & He & Hek)]. split; [done|]. rewrite list_lookup_alter.
    case_decide; [subst|eauto]. rewrite He. simpl. eexists. by split.
Qed.

Lemma conn_exec_ok r held o r' held' :
  RefTable.table_ok (conns r) held -> ids_unique (conns r) -> conn_exec (r, held) o = (r', held') ->
  RefTable.table_ok (conns r') held' /\ ids_unique (conns r').
Proof.
  intros Ht Hu. destruct o as [a addr draws|c|c]; cbn [conn_exec].
  - unfold AcquireConn. set (key := MkKey a (hostOnly addr)).
    assert (forall id, (RefTable.devices (conns r) !! key = None -> in_use (conns r) id = false) ->
      RefTable.table_ok (RefTable.acquire (conns r) key (MkConn id 0)).1
        (held ⊎ {[+ (RefTable.acquire (conns r) key (MkConn id 0)).2 +]}) /\
      ids_unique (RefTable.acquire (conns r) key (MkConn id 0)).1) as Hgo.
    { intros id Hid. split; [eapply RefTable.acquire_ok; [done|apply surjective_pairing]|].
      destruct (RefTable.devices (conns r) !! key) as [p|] eqn:E.
      - unfold RefTable.acquire. rewrite E. simpl. intros k1 k2 i.
        rewrite !(conn_id_alter (conns r) _ (RefTable.add_refs 1) p) by done. apply Hu.
      - apply ids_unique_new; try done; [by apply Hid|]. intros k p Hk.
        destruct (RefTable.ok_devices _ _ Ht k p Hk) as [_ (e & He & _)]. eauto. }
    destruct (RefTable.devices (conns r) !! key) as [p|] eqn:E.
    + specialize (Hgo 0 ltac:(done)). destruct (RefTable.acquire _ _ _) as [t c]. by intros [= <- <-].
    + destruct (freshConnID (conns r) draws) as [id|] eqn:Ef; simpl; [|by intros [= <- <-]].
      specialize (Hgo id (fun _ => freshConnID_unused _ _ _ Ef)). destruct (RefTable.acquire _ _ _) as [t c].
      by intros [= <- <-].
  - case_decide; intros [= <- <-]; [|done]. simpl. split; [by apply RefTable.release_ok|].
    unfold RefTable.release. destruct (_ !! c) as [e|]; [|done]. intros k1 k2 i. revert k1 k2 i.
    assert (forall k id, conn_id (RefTable.MkTable (if RefTable.e_refs e <=? 0 then delete (RefTable.e_key e) (RefTable.devices (conns r))
        else RefTable.devices (conns r)) (alter (RefTable.add_refs (-1)) c (RefTable.heap (conns r)))) k = Some id ->
      conn_id (conns r) k = Some id) as Hsub.
    { intros k id. rewrite <- (conn_id_alter (conns r) _ (RefTable.add_refs (-1)) c k eq_refl) by done.
      unfold conn_id. simpl. case_match; [|done]. rewrite lookup_delete. by case_decide. }
    intros k1 k2 i H1%Hsub H2%Hsub. by apply (Hu k1 k2 i).
  - intros [= <- <-]. simpl. split; [by apply next_seq_ok|]. intros k1 k2 i.
    rewrite !(conn_id_alter (conns r) _ next_seq c) by done. apply Hu.
Qed.

(** Connection ids tell devices apart: after any calls of [AcquireConn],
    [ReleaseConn] and [NextStreamID], where only references that were handed out are
    released, two devices that are online never have the same connection id,
    and their counts are the references held; and [AcquireConn] returns as soon as
    the random source has produced an id no device has. *)
Theorem conn_ids_unique ops :
  let s := foldl conn_exec (NewRegistry, ∅) ops in
  ids_unique (conns s.1) /\ RefTable.table_ok (conns s.1) s.2 /\
  (forall a addr draws id, id ∈ draws -> in_use (conns s.1) id = false -> is_Some (AcquireConn s.1 a addr draws)).
Proof.
  intros s. enough (RefTable.table_ok (conns s.1) s.2 /\ ids_unique (conns s.1)) as [H1 H2].
  { split_and!; try done. intros a addr draws id Hin Hf. unfold AcquireConn. case_match; [eauto|].
    destruct (freshConnID_total _ _ _ Hin Hf) as [x ->]. eauto. }
  subst s. induction ops as [|o ops [IH1 IH2]] using rev_ind.
  - split; [apply RefTable.empty_ok|]. intros k1 k2 id H. done.
  - rewrite foldl_app. simpl. destruct (foldl conn_exec (NewRegistry, ∅) ops) as [r held].
    destruct (conn_exec (r, held) o) as [r' held'] eqn:E. simpl in *. by eapply conn_exec_ok.
Qed.

End Stats.
