(* ===== verification/Auth.v ===== *)
(** * Auth: who may open a session
      (auth/password.go, auth/cache.go, auth/limit.go, auth/http.go and the handshakes of
      cmd/client/myclient.go and cmd/server/inbound_tcp.go)

    A connection starts with the hash of the password and some padding.  The server
    hands the hash to an [Authenticator]: one password, or a backend behind a limit
    on concurrent calls and a cache of its answers.

    [sha256] is a parameter.  The cache is [expirable.LRU] of golang-lru, an interface
    here: what it returns was added for that key, not longer ago than its time to
    live if that is positive; with another one nothing expires.  It may forget at any
    time.  The capacity of the packet buffer of the sing library is a parameter. *)

From S2P Require Import Prelude GoStrings Padding.
Import Padding.
#[local] Open Scope string_scope.
#[local] Open Scope list_scope.
#[local] Open Scope Z_scope.

(** [expirable.LRU] with string keys; times are instants. *)
Class TTLCache (V T : Type) := {
  tc_new : Z -> Z -> T;
  tc_get : T -> Z -> string -> T * option V;
  tc_add : T -> Z -> string -> V -> T;
  tc_ttl : T -> Z;
  (** the value was added for the key at that instant and is still in the cache *)
  tc_holds : T -> string -> V -> Z -> Prop
}.

Class TTLCacheLaws (V T : Type) `{!TTLCache V T} : Prop := {
  new_holds size ttl k v t : ~ tc_holds (tc_new size ttl) k v t;
  new_ttl size ttl : tc_ttl (tc_new size ttl) = ttl;
  get_holds c now k c' o : tc_get c now k = (c', o) -> tc_ttl c' = tc_ttl c /\
    (forall k v t, tc_holds c' k v t -> tc_holds c k v t) /\
    (forall v, o = Some v -> exists t, tc_holds c k v t /\ (0 < tc_ttl c -> now <= t + tc_ttl c));
  add_holds c now k v : tc_ttl (tc_add c now k v) = tc_ttl c /\
    (forall k' v' t, tc_holds (tc_add c now k v) k' v' t -> (k' = k /\ v' = v /\ t = now) \/ tc_holds c k' v' t)
}.

Module Auth.

(** What [Authenticate] returns: the id, whether the credential is valid, an error
    of the infrastructure. *)
Record answer := MkAnswer { a_id : string; a_ok : bool; a_err : option goerror }.

Definition rejected : answer := MkAnswer "" false None.

(** ** [hex.EncodeToString] *)

Definition hex_digit (n : Z) : ascii := ascii_of_nat (Z.to_nat (if n <? 10 then 48 + n else 87 + n)).

Fixpoint hex_encode (b : bytes) : string :=
  match b with
  | [] => ""
  | x :: r => String (hex_digit (byteZ x / 16)) (String (hex_digit (byteZ x mod 16)) (hex_encode r))
  end.

(** ** One password *)

Section password.
Variable sha256 : bytes -> bytes.

Record PasswordAuthenticator := MkPassword { passwordHex : string; pa_id : string }.

Definition NewPasswordAuthenticator (password : string) : PasswordAuthenticator :=
  let hash := sha256 (to_bytes password) in
  MkPassword (hex_encode hash) ("pw-" +:+ hex_encode (take 8 (sha256 hash))).

Definition password_Authenticate (p : PasswordAuthenticator) (authBlob : string) : answer :=
  if negb (Nat.eqb (String.length authBlob) (String.length (passwordHex p))) then rejected
  else if negb (String.eqb authBlob (passwordHex p)) then rejected
  else MkAnswer (pa_id p) true None.
End password.

(** ** A backend over HTTP *)

Definition maxIdleBackendConns : Z := 64.
Definition authVariant : string := "geekdada/anytls-go".

(** The JSON object sent to the backend. *)
Record HTTPAuthRequest := MkAuthRequest { rq_addr : string; rq_auth : string; rq_tx : Z; rq_variant : string }.

(** The authenticator: the endpoint and what its [http.Client] is set to. *)
Record HTTPAuthenticator := MkHTTP { h_url : string; h_InsecureSkipVerify : bool; h_MaxIdleConnsPerHost : Z; h_Timeout : Z }.

Definition NewHTTPAuthenticator (url : string) (insecure : bool) : HTTPAuthenticator :=
  MkHTTP url insecure maxIdleBackendConns (10 * 1000000000).

(** The request [Authenticate] sends: method, URL, content type and body. *)
Definition auth_request (h : HTTPAuthenticator) (addr authBlob : string) (tx : Z) : string * string * string * HTTPAuthRequest :=
  ("POST", h_url h, "application/json", MkAuthRequest addr authBlob tx authVariant).

(** What the call of the backend came to. *)
Inductive backend :=
  | MarshalFailed | RequestFailed | CallFailed
  | Status (code : Z)                 (** a response with a status other than 200 *)
  | BadBody                           (** a 200 whose body is not the JSON expected *)
  | Decoded (ok : bool) (id : string).

Definition http_Authenticate (r : backend) : answer :=
  match r with
  | MarshalFailed | RequestFailed | CallFailed | Status _ | BadBody => MkAnswer "" false (Some ErrConn)
  | Decoded ok id => MkAnswer id ok None
  end.

(** ** The cache *)

Section cache.
Context {T N : Type} `{!TTLCache string T, !TTLCache unit N}.

Record CachingAuthenticator := MkCaching { ca_cache : T; ca_neg : option N }.

Definition NewCachingAuthenticator (ttl size negTTL : Z) : CachingAuthenticator :=
  MkCaching (tc_new size ttl) (if 0 <? negTTL then Some (tc_new size negTTL) else None).

(** [Authenticate]; [inner] is what the wrapped authenticator answers if it is
    asked now, and the flag says whether it was. *)
Definition caching_Authenticate (c : CachingAuthenticator) (now : Z) (authBlob : string) (inner : answer)
  : CachingAuthenticator * answer * bool :=
  match tc_get (ca_cache c) now authBlob with
  | (p, Some id) => (MkCaching p (ca_neg c), MkAnswer id true None, false)
  | (p, None) =>
      let ask n :=
        match a_err inner with
        | Some _ => (MkCaching p n, inner, true)
        | None =>
            if a_ok inner then (MkCaching (tc_add p now authBlob (a_id inner)) n, inner, true)
            else
              match n with
              | Some n => (MkCaching p (Some (tc_add n now authBlob tt)), inner, true)
              | None => (MkCaching p None, inner, true)
              end
        end in
      match ca_neg c with
      | None => ask None
      | Some n =>
          match tc_get n now authBlob with
          | (n, Some _) => (MkCaching p (Some n), rejected, false)
          | (n, None) => ask (Some n)
          end
      end
  end.

(** ** What the cache promises *)

(** A call: when, with which credential, and what the backend would say then. *)
Record call := MkCall { at_ : Z; blob : string; truth : answer }.

Fixpoint calls (c : CachingAuthenticator) (l : list call) : CachingAuthenticator * list answer :=
  match l with
  | [] => (c, [])
  | x :: l =>
      let '(c, a, _) := caching_Authenticate c (at_ x) (blob x) (truth x) in
      let '(c, rest) := calls c l in (c, a :: rest)
  end.

Context `{!TTLCacheLaws string T, !TTLCacheLaws unit N}.

(** An answer of the backend to an earlier call with that credential. *)
Definition told (past : list call) (b : string) (a : answer) (t : Z) : Prop :=
  exists x, x ∈ past /\ at_ x = t /\ blob x = b /\ truth x = a.

Record cache_ok (ttl negTTL : Z) (past : list call) (c : CachingAuthenticator) : Prop := {
  co_ttl : tc_ttl (ca_cache c) = ttl /\ 0 < ttl;
  co_neg : forall n, ca_neg c = Some n -> tc_ttl n = negTTL /\ 0 < negTTL;
  co_pos : forall k id t, tc_holds (ca_cache c) k id t -> told past k (MkAnswer id true None) t;
  co_negs : forall n k t, ca_neg c = Some n -> tc_holds n k tt t ->
    exists id, told past k (MkAnswer id false None) t
}.

Lemma told_mono past x b a t : told past b a t -> told (past ++ [x]) b a t.
Proof. intros (y & Hy & H). exists y. split; [|done]. apply elem_of_app. by left. Qed.

Lemma told_last past x : told (past ++ [x]) (blob x) (truth x) (at_ x).
Proof. exists x. split; [|done]. apply elem_of_app. right. by apply list_elem_of_singleton. Qed.

#[local] Hint Resolve told_mono : core.

(** Where an answer comes from: from the backend now, or from an answer the
    backend gave to the same credential not longer ago than the time to live. *)
Definition justified (ttl negTTL : Z) (past : list call) (x : call) (a : answer) : Prop :=
  a = truth x \/
  (exists t, at_ x <= t + ttl /\ told past (blob x) a t /\ a_ok a = true /\ a_err a = None) \/
  (exists t id, 0 < negTTL /\ at_ x <= t + negTTL /\ told past (blob x) (MkAnswer id false None) t /\ a = rejected).

Lemma cache_ok_sub ttl negTTL past x c p n :
  cache_ok ttl negTTL past c -> tc_ttl p = ttl -> (forall m, n = Some m -> tc_ttl m = negTTL /\ 0 < negTTL) ->
  (forall k v t, tc_holds p k v t -> tc_holds (ca_cache c) k v t \/ told (past ++ [x]) k (MkAnswer v true None) t) ->
  (forall m k t, n = Some m -> tc_holds m k tt t ->
     (exists m', ca_neg c = Some m' /\ tc_holds m' k tt t) \/ exists id, told (past ++ [x]) k (MkAnswer id false None) t) ->
  cache_ok ttl negTTL (past ++ [x]) (MkCaching p n).
Proof.
  intros [[H1 H0] H2 H3 H4] Hp Hn Hps Hns. split; simpl; try done.
  - intros k id t Hh. destruct (Hps k id t Hh) as [Hh'|?]; [|done]. auto.
  - intros m k t Hm Hh. destruct (Hns m k t Hm Hh) as [(m' & Hm' & Hh')|?]; [|done].
    destruct (H4 m' k t Hm' Hh') as [id ?]. eauto.
Qed.

Lemma caching_step ttl negTTL past c x c' a asked :
  cache_ok ttl negTTL past c -> caching_Authenticate c (at_ x) (blob x) (truth x) = (c', a, asked) ->
  cache_ok ttl negTTL (past ++ [x]) c' /\ justified ttl negTTL past x a.
Proof.
  intros Hc. pose proof Hc as [[H1 H0] H2 H3 H4]. unfold caching_Authenticate.
  destruct (tc_get (ca_cache c) (at_ x) (blob x)) as [p o] eqn:Ep.
  destruct (get_holds _ _ _ _ _ Ep) as (Pt & Ph & Pv). destruct o as [id|].
  { intros [= <- <- _]. split; [apply (cache_ok_sub _ _ _ _ c); [done|congruence|done|auto|eauto]|].
    destruct (Pv id eq_refl) as (t & Ht & Hle). right. left. exists t. rewrite H1 in Hle. auto. }
  assert (forall n, (forall m, n = Some m -> tc_ttl m = negTTL /\ 0 < negTTL) ->
    (forall m k t, n = Some m -> tc_holds m k tt t -> exists m', ca_neg c = Some m' /\ tc_holds m' k tt t) ->
    cache_ok ttl negTTL (past ++ [x]) (MkCaching p n)) as Hkeep
    by (intros n ? ?; apply (cache_ok_sub _ _ _ _ c); [done|congruence|done|auto|eauto]).
  assert (forall n c' a b, (forall m, n = Some m -> tc_ttl m = negTTL /\ 0 < negTTL) ->
    (forall m k t, n = Some m -> tc_holds m k tt t -> exists m', ca_neg c = Some m' /\ tc_holds m' k tt t) ->
    match a_err (truth x) with
    | Some _ => (MkCaching p n, truth x, true)
    | None =>
        if a_ok (truth x) then (MkCaching (tc_add p (at_ x) (blob x) (a_id (truth x))) n, truth x, true)
        else match n with
             | Some n => (MkCaching p (Some (tc_add n (at_ x) (blob x) tt)), truth x, true)
             | None => (MkCaching p None, truth x, true)
             end
    end = (c', a, b) -> cache_ok ttl negTTL (past ++ [x]) c' /\ justified ttl negTTL past x a) as Hask.
  { intros n c1 a1 b1 Hn1 Hn2 H. pose proof (told_last past x) as Hlast.
    destruct (truth x) as [id ok err] eqn:Et. simpl in H. destruct err as [e|].
    { injection H as <- <- _. split; [by apply Hkeep|by left]. }
    destruct ok.
    { injection H as <- <- _. split; [|by left]. destruct (add_holds p (at_ x) (blob x) id) as [A1 A2].
      apply (cache_ok_sub _ _ _ _ c); [done|congruence|done| |eauto]. intros k v t [(-> & -> & ->)|Hh]%A2; auto. }
    destruct n as [n|]; injection H as <- <- _; (split; [|by left]); [|by apply Hkeep].
    destruct (add_holds n (at_ x) (blob x) tt) as [A1 A2].
    apply (cache_ok_sub _ _ _ _ c); [done|congruence| |auto|].
    - intros m [= <-]. rewrite A1. by apply Hn1.
    - intros m k t [= <-] [(-> & _ & ->)|Hh]%A2; eauto. }
  destruct (ca_neg c) as [n|] eqn:En; [|apply Hask; done].
  destruct (tc_get n (at_ x) (blob x)) as [n' o'] eqn:E'. destruct (get_holds _ _ _ _ _ E') as (Nt & Nh & Nv).
  destruct o' as [[]|].
  - intros [= <- <- _]. split.
    + apply Hkeep; [intros m [= <-]; rewrite Nt; by apply H2|]. intros m k t [= <-] Hh. eauto.
    + destruct (Nv tt eq_refl) as (t & Ht & Hle). right. right. destruct (H4 n _ _ eq_refl Ht) as [id Hid].
      exists t, id. destruct (H2 n eq_refl) as [E0 Hneg]. rewrite E0 in Hle. auto.
  - apply Hask; [intros m [= <-]; rewrite Nt; by apply H2|]. intros m k t [= <-] Hh. eauto.
Qed.

Lemma calls_app c l1 l2 :
  calls c (l1 ++ l2) = let '(c1, a1) := calls c l1 in let '(c2, a2) := calls c1 l2 in (c2, a1 ++ a2).
Proof.
  revert c. induction l1 as [|x l1 IH]; intros c; simpl; [by destruct (calls c l2)|].
  destruct (caching_Authenticate c _ _ _) as [[c1 a] b]. rewrite IH. destruct (calls c1 l1) as [c2 a2].
  by destruct (calls c2 l2).
Qed.

Lemma calls_ok ttl negTTL past c l :
  cache_ok ttl negTTL past c ->
  cache_ok ttl negTTL (past ++ l) (calls c l).1 /\
  (forall i x, l !! i = Some x -> exists a, (calls c l).2 !! i = Some a /\ justified ttl negTTL (past ++ take i l) x a).
Proof.
  revert past c. induction l as [|y l IH]; intros past c Hc; [rewrite app_nil_r; by split|]. simpl.
  destruct (caching_Authenticate c _ _ _) as [[c1 a] b] eqn:E. destruct (caching_step _ _ _ _ _ _ _ _ Hc E) as [Hc1 Hj].
  destruct (IH (past ++ [y]) c1 Hc1) as [IH1 IH2]. destruct (calls c1 l) as [c2 rest]. simpl in *.
  rewrite <- app_assoc in IH1. split; [done|]. intros [|i] x Hx; simpl in *.
  - injection Hx as ->. exists a. by rewrite app_nil_r.
  - destruct (IH2 i x Hx) as (a' & Ha' & Hj'). exists a'. by rewrite <- app_assoc in Hj'.
Qed.

Lemma new_cache_ok ttl size negTTL : 0 < ttl -> cache_ok ttl negTTL [] (NewCachingAuthenticator ttl size negTTL).
Proof.
  intros Httl. split; unfold NewCachingAuthenticator; simpl.
  - split; [apply new_ttl|done].
  - intros n. destruct (Z.ltb_spec 0 negTTL); [|done]. intros [= <-]. split; [apply new_ttl|done].
  - intros k id t H. by apply new_holds in H.
  - intros n k t. destruct (0 <? negTTL); [|done]. intros [= <-] H. by apply new_holds in H.
Qed.

End cache.

(** ** Concurrent calls *)

(** [LimitedAuthenticator]: the number of slots taken, the calls that wait for one,
    and the calls of the backend that run. *)
Record LimitedAuthenticator := MkLimitedAuth { maxConcurrent : nat; slots : nat; running : nat }.

Definition NewLimitedAuthenticator (n : nat) : LimitedAuthenticator := MkLimitedAuth n 0 0.

(** A waiting call at the [select]: it takes a slot if there is one, or fails with
    [ErrBackendBusy] if its timer has fired, or goes on waiting. *)
Inductive attempt := Entered | Busy | Waiting.

Definition try_slot (l : LimitedAuthenticator) (timer_fired : bool) : LimitedAuthenticator * attempt :=
  if (slots l <? maxConcurrent l)%nat then
    (MkLimitedAuth (maxConcurrent l) (S (slots l)) (S (running l)), Entered)
  else if timer_fired then (l, Busy)
  else (l, Waiting).

(** A call of the backend returns and gives its slot back. *)
Definition give_back (l : LimitedAuthenticator) : LimitedAuthenticator :=
  if (0 <? running l)%nat then MkLimitedAuth (maxConcurrent l) (pred (slots l)) (pred (running l)) else l.

Definition limit_exec (l : LimitedAuthenticator) (o : option bool) : LimitedAuthenticator :=
  match o with Some fired => (try_slot l fired).1 | None => give_back l end.

Lemma limit_exec_ok l o :
  slots l = running l -> (running l <= maxConcurrent l)%nat ->
  slots (limit_exec l o) = running (limit_exec l o) /\
  (running (limit_exec l o) <= maxConcurrent (limit_exec l o))%nat /\ maxConcurrent (limit_exec l o) = maxConcurrent l.
Proof.
  intros He Hle. destruct o as [fired|]; simpl; unfold try_slot, give_back.
  - destruct (Nat.ltb_spec (slots l) (maxConcurrent l)); simpl; [split_and!; lia|]. destruct fired; simpl; split_and!; lia.
  - destruct (Nat.ltb_spec 0 (running l)); simpl; split_and!; lia.
Qed.

(** However calls arrive, time out and return, the backend never runs more than the
    configured number of them at once. *)
Lemma backend_bounded n ops :
  (running (foldl limit_exec (NewLimitedAuthenticator n) ops) <= n)%nat.
Proof.
  assert (slots (foldl limit_exec (NewLimitedAuthenticator n) ops) = running (foldl limit_exec (NewLimitedAuthenticator n) ops) /\
    (running (foldl limit_exec (NewLimitedAuthenticator n) ops) <= maxConcurrent (foldl limit_exec (NewLimitedAuthenticator n) ops))%nat /\
    maxConcurrent (foldl limit_exec (NewLimitedAuthenticator n) ops) = n) as (_ & H & E); [|by rewrite E in H].
  induction ops as [|o ops (I1 & I2 & I3)] using rev_ind; [simpl; split_and!; lia|]. rewrite foldl_app. simpl.
  destruct (limit_exec_ok _ o I1 I2) as (J1 & J2 & J3). split_and!; [done|done|congruence].
Qed.

(** ** The handshake *)

Section packet.
(** The capacity of [buf.NewPacket()]. *)
Variable packet_cap : Z.

(** [createOutboundConnection]: the packet a client sends first; [sizes] are the sizes
    its padding scheme draws for packet 0.  [b.WriteZeroN] writes nothing if the buffer has no room
    for all of it, and its error is ignored. *)
Definition auth_packet (passwordSha256 : bytes) (sizes : list Z) : bytes :=
  let paddingLen := match sizes with l :: _ => l | [] => 0 end in
  passwordSha256 ++ PutUint16 (uint16 paddingLen) ++
  (if (0 <? paddingLen) && (len passwordSha256 + 2 + paddingLen <=? packet_cap) then replicate (Z.to_nat paddingLen) x00 else []).
End packet.

Inductive handshake :=
  | Fallback
  | Admits (id : string) (rest : bytes).   (** the session reads [rest] first *)

(** [b.ReadBytes(n)] *)
Definition ReadBytes (n : nat) (b : bytes) : option (bytes * bytes) :=
  if (n <=? length b)%nat then Some (take n b, drop n b) else None.

(** [handleTcpConnection] up to the start of the session; [first] is what the first read
    of the connection returned. *)
Definition handleTcpConnection (authenticate : string -> answer) (first : bytes) : handshake :=
  match ReadBytes 32 first with
  | None => Fallback
  | Some (by_, b) =>
      let a := authenticate (hex_encode by_) in
      if negb (a_ok a) then Fallback
      else
        match ReadBytes 2 b with
        | Some ([x; y], b) =>
            let paddingLen := Uint16 x y in
            if 0 <? paddingLen then
              match ReadBytes (Z.to_nat paddingLen) b with
              | Some (_, b) => Admits (a_id a) b
              | None => Fallback
              end
            else Admits (a_id a) b
        | _ => Fallback
        end
  end.

Lemma ReadBytes_app x y : ReadBytes (length x) (x ++ y) = Some (x, y).
Proof.
  unfold ReadBytes. rewrite length_app. destruct (Nat.leb_spec (length x) (length x + length y)); [|lia].
  by rewrite take_app_length, drop_app_length.
Qed.

Lemma hex_digit_inj a b : 0 <= a < 16 -> 0 <= b < 16 -> hex_digit a = hex_digit b -> a = b.
Proof.
  intros Ha Hb E. unfold hex_digit in E.
  assert (forall n, 0 <= n < 16 -> nat_of_ascii (ascii_of_nat (Z.to_nat (if n <? 10 then 48 + n else 87 + n))) =
    Z.to_nat (if n <? 10 then 48 + n else 87 + n)) as Hn by (intros n Hn; apply nat_ascii_embedding; zcases).
  apply (f_equal nat_of_ascii) in E. rewrite !Hn in E by done.
  destruct (Z.ltb_spec a 10), (Z.ltb_spec b 10); lia.
Qed.

Lemma hex_encode_inj a b : hex_encode a = hex_encode b -> a = b.
Proof.
  revert b. induction a as [|x a IH]; intros [|y b]; simpl; try done. intros [= E1 E2 E3].
  pose proof (byteZ_range x). pose proof (byteZ_range y).
  apply hex_digit_inj in E1; [|divmod|divmod]. apply hex_digit_inj in E2; [|divmod|divmod].
  f_equal; [|by apply IH]. apply byteZ_inj. divmod.
Qed.

(** The part of the packet after the hash. *)
Lemma handshake_tail authenticate hash l r :
  length hash = 32%nat -> 0 <= l <= maxUint16 ->
  handleTcpConnection authenticate (hash ++ PutUint16 l ++ r) =
  let a := authenticate (hex_encode hash) in
  if negb (a_ok a) then Fallback
  else if 0 <? l then match ReadBytes (Z.to_nat l) r with Some (_, b) => Admits (a_id a) b | None => Fallback end
  else Admits (a_id a) r.
Proof.
  intros Hh Hl. unfold handleTcpConnection. rewrite <- Hh at 1. rewrite ReadBytes_app. cbv zeta.
  destruct (a_ok _); [|done]. simpl negb. cbv iota.
  change 2%nat with (length (PutUint16 l)). rewrite ReadBytes_app. unfold PutUint16. by rewrite Uint16_Put.
Qed.

Section handshake_spec.
Variable sha256 : bytes -> bytes.
Hypothesis sha256_length : forall b, length (sha256 b) = 32%nat.
Variable packet_cap : Z.

(** The size drawn for packet 0, if there is one, is positive, fits its 16-bit field and the
    packet buffer. *)
Definition first_size_ok (sizes : list Z) : Prop :=
  match sizes with [] => True | l :: _ => 0 < l <= maxUint16 /\ 34 + l <= packet_cap end.

Lemma password_decides password blob :
  a_ok (password_Authenticate (NewPasswordAuthenticator sha256 password) blob) =
  bool_decide (blob = hex_encode (sha256 (to_bytes password))).
Proof.
  unfold password_Authenticate, NewPasswordAuthenticator. simpl.
  destruct (String.eqb_spec blob (hex_encode (sha256 (to_bytes password)))) as [->|Hne]; simpl.
  - by rewrite Nat.eqb_refl, bool_decide_true.
  - rewrite bool_decide_false by done. by destruct (Nat.eqb _ _).
Qed.

(** C25.  A connection is admitted exactly with the right password, when the padding of packet 0 is sane: its
    scheme draws no size for it, or one between 1 and 65535 that fits the packet buffer (a check mark is
    not: [handshake_checkmark]), and the server's first read returns the whole packet.  Then, if a
    client whose password is [mine] sends its first packet and more data [r] with it, the server whose
    password is [theirs] starts a session that reads [r] if the hashes agree, and falls back
    without a session if they do not. *)
Theorem handshake_admits mine theirs sizes r :
  first_size_ok sizes ->
  handleTcpConnection (password_Authenticate (NewPasswordAuthenticator sha256 theirs))
    (auth_packet packet_cap (sha256 (to_bytes mine)) sizes ++ r) =
  if decide (sha256 (to_bytes mine) = sha256 (to_bytes theirs))
  then Admits (pa_id (NewPasswordAuthenticator sha256 theirs)) r else Fallback.
Proof.
  intros Hs. unfold auth_packet. set (l := match sizes with l :: _ => l | [] => 0 end).
  assert (0 <= l <= maxUint16 /\ (0 < l -> 34 + l <= packet_cap)) as [Hl Hcap] by (subst l; destruct sizes; simpl in Hs; unfold maxUint16 in *; lia).
  assert (len (sha256 (to_bytes mine)) = 32) as Hlen by (unfold len; by rewrite sha256_length).
  rewrite uint16_small, <- !app_assoc, handshake_tail by auto. cbv zeta. rewrite password_decides.
  case_decide as E.
  - rewrite E, bool_decide_true by done. simpl negb. cbv iota.
    assert (a_id (password_Authenticate (NewPasswordAuthenticator sha256 theirs) (hex_encode (sha256 (to_bytes theirs)))) =
      pa_id (NewPasswordAuthenticator sha256 theirs)) as ->.
    { unfold password_Authenticate. simpl. by rewrite Nat.eqb_refl, String.eqb_refl. }
    destruct (Z.ltb_spec 0 l); [|done]. rewrite E in Hlen. rewrite Hlen, (proj2 (Z.leb_le _ _)) by lia. simpl andb. cbv iota.
    rewrite <- (length_replicate (Z.to_nat l) x00) at 1. by rewrite ReadBytes_app.
  - rewrite bool_decide_false; [done|]. intros H%hex_encode_inj. done.
Qed.

(** A padding scheme whose packet 0 starts with a check mark breaks the handshake:
    the client announces 65535 bytes of padding and sends none, so the server takes
    them from the session's data or refuses the connection. *)
Theorem handshake_checkmark password rest r :
  len r < 65535 ->
  handleTcpConnection (password_Authenticate (NewPasswordAuthenticator sha256 password))
    (auth_packet packet_cap (sha256 (to_bytes password)) (CheckMark :: rest) ++ r) = Fallback.
Proof.
  intros Hr. unfold auth_packet. change (uint16 CheckMark) with 65535. change (0 <? CheckMark) with false. rewrite andb_false_l. cbv iota.
  rewrite app_nil_r, <- !app_assoc, handshake_tail by (auto; unfold maxUint16; lia). cbv zeta.
  destruct (a_ok _); [|done]. cbn [negb Z.ltb Z.compare]. unfold ReadBytes.
  destruct (Nat.leb_spec (Z.to_nat 65535) (length r)); [unfold len in Hr; lia|done].
Qed.
End handshake_spec.

(** C40.  The cache never makes anything up: with a positive [ttl], as its callers ensure, and any [negTTL], in any
    sequence of calls every answer is what the backend says at that moment, or an acceptance
    it gave to the same credential not longer ago than [ttl], or a rejection that it gave
    to the same credential not longer ago than [negTTL], which is then positive; errors of
    the backend are passed on and never remembered. *)
Theorem cache_honest {T N} `{!TTLCache string T, !TTLCache unit N, !TTLCacheLaws string T, !TTLCacheLaws unit N}
    ttl size negTTL (l : list call) i x :
  0 < ttl -> l !! i = Some x ->
  exists a, (calls (NewCachingAuthenticator (T := T) (N := N) ttl size negTTL) l).2 !! i = Some a /\
    justified ttl negTTL (take i l) x a.
Proof. intros Ht Hx. exact (proj2 (calls_ok ttl negTTL [] _ l (new_cache_ok ttl size negTTL Ht)) i x Hx). Qed.

(** ** Concrete instances *)

(** A cache that keeps everything until it expires. *)
Record log (V : Type) := MkLog { log_ttl : Z; log_entries : list (string * V * Z) }.
Arguments MkLog {V}.
Arguments log_ttl {V}.
Arguments log_entries {V}.

Fixpoint log_find {V} (ttl now : Z) (key : string) (es : list (string * V * Z)) : option V :=
  match es with
  | (k', v, t) :: es => if String.eqb key k' && ((ttl <=? 0) || (now <=? t + ttl)) then Some v else log_find ttl now key es
  | [] => None
  end.

#[export] Instance log_cache {V} : TTLCache V (log V) := {
  tc_new _ ttl := MkLog ttl [];
  tc_get c now k := (c, log_find (log_ttl c) now k (log_entries c));
  tc_add c now k v := MkLog (log_ttl c) ((k, v, now) :: log_entries c);
  tc_ttl := log_ttl;
  tc_holds c k v t := (k, v, t) ∈ log_entries c
}.

#[export] Instance log_laws {V} : TTLCacheLaws V (log V).
Proof.
  split; simpl; try done.
  - intros _ ttl k v t H. by apply elem_of_nil in H.
  - intros c now k c' o [= <- <-]. split; [done|]. split; [done|]. intros v H.
    induction (log_entries c) as [|[[k' v'] t'] l IH]; simpl in H; [done|].
    destruct (String.eqb_spec k k') as [->|]; simpl in H.
    + destruct (Z.leb_spec (log_ttl c) 0), (Z.leb_spec now (t' + log_ttl c)); simpl in H;
        try (injection H as <-; exists t'; split; [by left|lia]).
      destruct (IH H) as (t & Ht & ?). exists t. split; [by right|done].
    + destruct (IH H) as (t & Ht & ?). exists t. split; [by right|done].
  - intros c now k v. split; [done|]. intros k' v' t [E|E]%elem_of_cons; [left; by simplify_eq|by right].
Qed.

Definition sample_calls : list call :=
  [MkCall 0 "aa" (MkAnswer "alice" true None); MkCall 50 "aa" rejected; MkCall 200 "aa" rejected].

(** Revoked at 50, refused from 200 on. *)
Lemma cache_honest_witness :
  (calls (NewCachingAuthenticator (T := log string) (N := log unit) 100 16 10) sample_calls).2 =
    [MkAnswer "alice" true None; MkAnswer "alice" true None; rejected] /\
  exists a, (calls (NewCachingAuthenticator (T := log string) (N := log unit) 100 16 10) sample_calls).2 !! 1%nat = Some a /\
    justified 100 10 (take 1 sample_calls) (MkCall 50 "aa" rejected) a.
Proof.
  split; [vm_compute; reflexivity|].
  apply (cache_honest (T := log string) (N := log unit) 100 16 10 sample_calls 1); reflexivity.
Defined.

(** A stand-in for the hash: 32 bytes of the text, padded. *)
Definition sample_sha256 (b : bytes) : bytes := take 32 (b ++ replicate 32 x00).

Lemma sample_sha256_length b : length (sample_sha256 b) = 32%nat.
Proof. unfold sample_sha256. rewrite length_take, length_app, length_replicate. lia. Qed.

Lemma handshake_admits_witness :
  handleTcpConnection (password_Authenticate (NewPasswordAuthenticator sample_sha256 "secret"))
    (auth_packet 16384 (sample_sha256 (to_bytes "secret")) [30] ++ [x07]) =
    Admits (pa_id (NewPasswordAuthenticator sample_sha256 "secret")) [x07] /\
  handleTcpConnection (password_Authenticate (NewPasswordAuthenticator sample_sha256 "secret"))
    (auth_packet 16384 (sample_sha256 (to_bytes "guess")) [] ++ [x07]) = Fallback.
Proof.
  split.
  - rewrite (handshake_admits sample_sha256 sample_sha256_length 16384 "secret" "secret" [30] [x07]) by (simpl; unfold maxUint16; lia).
    by rewrite decide_True.
  - rewrite (handshake_admits sample_sha256 sample_sha256_length 16384 "guess" "secret" [] [x07]) by exact I.
    rewrite decide_False; [reflexivity|]. vm_compute. discriminate.
Defined.

Lemma handshake_checkmark_witness :
  handleTcpConnection (password_Authenticate (NewPasswordAuthenticator sample_sha256 "secret"))
    (auth_packet 16384 (sample_sha256 (to_bytes "secret")) [CheckMark; 30] ++ [x07]) = Fallback.
Proof. apply (handshake_checkmark sample_sha256 sample_sha256_length). vm_compute. reflexivity. Defined.

End Auth.
