(* ===== verification/EndToEnd.v ===== *)
(** * EndToEnd: two sessions joined by a connection

    One side writes frames through the padding writer of WriteConn.v; the bytes that reach
    the wire are the input of a session on the other side.  The abstract receiver is given
    the list of frames instead of bytes, and knows nothing of padding, headers and
    records.  The theorem says that the concrete receiver behaves like the
    abstract one, whatever its application and the rest of the session do between
    two frames. *)

From S2P Require Import Prelude GoStrings StringMap Frame Padding NetConn WriteConn Pipe Session SessionSpec.
#[local] Open Scope string_scope.
#[local] Open Scope list_scope.
#[local] Open Scope Z_scope.

Module EndToEnd.
Import Frame Padding WriteConn Session SessionSpec.

Section receiver.
Context {C : Type} `{!NetConn C}.
Variable ent : Z -> nat -> Z.
Variable md5hex : bytes -> string.
Variable clientDebugPaddingScheme : bool.

Abbreviation recv := (recv_step ent md5hex clientDebugPaddingScheme).
Abbreviation handle := (handle_frame ent md5hex clientDebugPaddingScheme).
Abbreviation act := (exec ent md5hex clientDebugPaddingScheme).

(** A turn of the receive loop, or any other operation of the session. *)
Inductive step_op := Turn | App (a : op).

(** Operations of the application and of timers; bytes arrive only from the peer. *)
Definition is_app (a : op) : bool := match a with OpArrive _ | OpRecv => false | _ => true end.

(** The loop reads one frame, header and data. *)
Definition turn (s : Session C) : Session C :=
  match pc (recv s) with Payload _ => recv (recv s) | _ => recv s end.

Definition concrete (s : Session C) (x : step_op) : Session C := match x with Turn => turn s | App a => act s a end.

(** The abstract receiver: a session without input and the frames still to come. *)
Definition abstract (t : Session C * list frame) (x : step_op) : Session C * list frame :=
  let '(s, fs) := t in
  match x with
  | App a => (act s a, fs)
  | Turn =>
      match pc s with
      | Reading => match fs with f :: fs => (handle s f, fs) | [] => (s, []) end
      | _ => (recv s, fs)
      end
  end.

(** ** Operations do not look at the input *)

Implicit Types s : Session C.

Lemma inp_closeLocally s x o : closeLocally (set_inp s x) o = set_inp (closeLocally s o) x.
Proof. unfold closeLocally. simpl. destruct (objs s !! o) as [st|]; [|done]. by destruct (died st). Qed.

Lemma inp_Close s x : Close (set_inp s x) = (set_inp (Close s).1 x, (Close s).2).
Proof.
  unfold Close. simpl. destruct (die s); [done|]. simpl.
  assert (forall l s, foldl closeLocally (set_inp s x) l = set_inp (foldl closeLocally s l) x) as H.
  { induction l as [|o l IH]; intros s0; [done|]. simpl. by rewrite inp_closeLocally, IH. }
  change (add_hook (set_die (set_inp s x) true) HookSession) with (set_inp (add_hook (set_die s true) HookSession) x).
  rewrite H. done.
Qed.

Lemma inp_write s x f :
  writeControlFrame ent (set_inp s x) f = (set_inp (writeControlFrame ent s f).1 x, (writeControlFrame ent s f).2).
Proof.
  unfold writeControlFrame. simpl. destruct (control_write ent (padding s) (w s) f) as [w' [e|]]; [|done]. simpl.
  change (set_w (set_inp s x) w') with (set_inp (set_w s w') x). by rewrite inp_Close.
Qed.

Lemma inp_closeWithError s x o err :
  closeWithError ent (set_inp s x) o err = (set_inp (closeWithError ent s o err).1 x, (closeWithError ent s o err).2).
Proof.
  unfold closeWithError. simpl. destruct (objs s !! o) as [st|]; [|done]. destruct (died st); [done|].
  unfold streamClosed. simpl. destruct (die s); [done|].
  change (update_obj (set_inp s x) o (fun st => kill st err)) with (set_inp (update_obj s o (fun st => kill st err)) x).
  rewrite inp_write. by destruct (writeControlFrame ent (update_obj s o (fun st => kill st err)) (newFrame cmdFIN (st_id st))) as [s' e].
Qed.

Lemma inp_count s x o n : count_tx (set_inp s x) o n = set_inp (count_tx s o n) x /\ count_rx (set_inp s x) o n = set_inp (count_rx s o n) x.
Proof. unfold count_tx, count_rx. simpl. destruct (objs s !! o) as [st|]; [|done]. by destruct (CountIdentity st). Qed.

(** A turn commutes with setting the input if its parts do. *)
Lemma inp_finish s x : finish (set_inp s x) = set_inp (finish s) x.
Proof. unfold finish. by rewrite inp_Close. Qed.

(** A result of a turn with another input. *)
Definition with_inp (t : Session C * option (option goerror)) (x : bytes) : Session C * option (option goerror) := (set_inp t.1 x, t.2).

Lemma inp_loop_top s x : loop_top (set_inp s x) = set_inp (loop_top s) x.
Proof. unfold loop_top. cbn [pc die set_inp]. destruct (pc s); try done. destruct (die s); [apply inp_finish|done]. Qed.

Lemma inp_end_turn t x : end_turn (with_inp t x) = set_inp (end_turn t) x.
Proof. destruct t as [s [e|]]; [apply inp_finish|apply inp_loop_top]. Qed.

Lemma inp_recv_PSH s x id d : recv_PSH (set_inp s x) id d = with_inp (recv_PSH s id d) x.
Proof.
  unfold recv_PSH. simpl. destruct (streams s !! id) as [o|]; [|done]. destruct (objs s !! o) as [st|]; [|done].
  by destruct (Pipe.write_begin (st_pipe st) d).
Qed.

Lemma inp_recv_SYN s x id : recv_SYN ent (set_inp s x) id = with_inp (recv_SYN ent s id) x.
Proof.
  unfold recv_SYN. cbn [isClient receivedSettings set_inp]. destruct (negb (isClient s) && negb (receivedSettings s)).
  - rewrite inp_write. by destruct (writeControlFrame ent s _).
  - unfold acceptStream. cbn [streams set_inp isClient]. destruct (streams s !! id); [done|]. destruct (_ && _); [|done].
    unfold refuseStream. cbn [peerVersion set_inp]. rewrite inp_write. by destruct (writeControlFrame ent s _) as [s' [e|]].
Qed.

Lemma inp_check_version s x v : check_version ent (set_inp s x) v = with_inp (check_version ent s v) x.
Proof.
  unfold check_version. destruct (Atoi v) as [n|]; [|done]. destruct (2 <=? n); [|done].
  change (set_peerVersion (set_inp s x) (uint32 n)) with (set_inp (set_peerVersion s (uint32 n)) x).
  rewrite inp_write. by destruct (writeControlFrame ent (set_peerVersion s (uint32 n)) _) as [s' [e|]].
Qed.

Lemma inp_recv_Settings s x d : recv_Settings ent (set_inp s x) d = with_inp (recv_Settings ent s d) x.
Proof.
  unfold recv_Settings. cbn [isClient set_inp]. destruct (isClient s); [done|].
  change (set_receivedSettings (set_inp s x) true) with (set_inp (set_receivedSettings s true) x).
  cbn [padding set_inp]. destruct (String.eqb _ _); [apply inp_check_version|].
  rewrite inp_write. destruct (writeControlFrame ent (set_receivedSettings s true) _) as [s' [e|]]; [done|]. apply inp_check_version.
Qed.

Lemma inp_handle s x f : handle (set_inp s x) f = set_inp (handle s f) x.
Proof.
  unfold handle_frame. rewrite <- inp_end_turn. f_equal.
  repeat case_bool_decide; try (destruct (data f) as [|b d] eqn:Ed; [done|]).
  - apply inp_recv_SYN.
  - unfold recv_FIN. cbn [streams set_inp]. destruct (streams s !! sid f) as [o|]; [|done]. unfold go_on, with_inp. simpl.
    f_equal. exact (inp_closeLocally (set_streams s (delete (sid f) (streams s))) x o).
  - unfold recv_HeartRequest. rewrite inp_write. by destruct (writeControlFrame ent s _) as [s' [e|]].
  - unfold recv_SYNACK. cbn [streams set_inp set_synDone]. destruct (streams s !! sid f) as [o|]; [|done].
    change (set_synDone (set_inp s x) false) with (set_inp (set_synDone s false) x). by rewrite inp_closeWithError.
  - apply inp_recv_PSH.
  - apply inp_recv_Settings.
  - done.
  - unfold recv_UpdatePaddingScheme. cbn [isClient padding set_inp]. destruct (_ && _); [|done].
    by destruct (UpdatePaddingScheme md5hex (Some (padding s)) _) as [[p|] b'].
  - unfold recv_ServerSettings. cbn [isClient set_inp]. destruct (isClient s); [|done]. destruct (Atoi _); [|done]. by destruct (0 <=? _).
  - done.
Qed.

Lemma inp_open_SYN s x : open_SYN ent (set_inp s x) = (set_inp (open_SYN ent s).1 x, (open_SYN ent s).2).
Proof.
  unfold open_SYN. cbn [die set_inp]. destruct (die s); [done|]. cbn [streamId set_inp alloc].
  set (id := uint32 (streamId s + 1)). cbn [peerVersion set_objs set_streamId set_inp].
  set (s1 := set_objs (set_streamId s id) (objs (set_streamId s id) ++ [newStream id])).
  destruct ((2 <=? id) && (2 <=? peerVersion s)).
  - change (set_synDone _ true) with (set_inp (set_synDone s1 true) x) at 1. rewrite inp_write.
    by destruct (writeControlFrame ent (set_synDone s1 true) _) as [s' [e|]].
  - change (set_objs _ _) with (set_inp s1 x) at 1. rewrite inp_write. by destruct (writeControlFrame ent s1 _) as [s' [e|]].
Qed.

Lemma inp_open_start s x : open_start ent (set_inp s x) = set_inp (open_start ent s) x.
Proof. unfold open_start. rewrite inp_open_SYN. by destruct (open_SYN ent s) as [s1 [[id o]|e]]. Qed.

Lemma inp_open_next s x o : open_next (set_inp s x) o = set_inp (open_next s o) x.
Proof.
  unfold open_next. cbn [openCalls set_inp]. destruct (openCalls s !! o) as [[id []]|]; [|done..].
  unfold open_register. cbn [die set_inp]. by destruct (die s).
Qed.

Lemma inp_act s x a : is_app a = true -> act (set_inp s x) a = set_inp (act s a) x.
Proof.
  intros Ha. unfold exec. change (held (set_inp s x) a) with (held s a). destruct (held s a); [done|].
  destruct a as [| | | |o|p| | |o|o k|o b|o|o err|o t now|o t now]; try done; cbn [run_op].
  - unfold recv_error. simpl. destruct (pc s); try done; apply inp_finish.
  - apply inp_open_start.
  - apply inp_open_next.
  - by rewrite inp_Close.
  - unfold synTimeout. simpl. destruct (synDone s); [|done]. by rewrite inp_Close.
  - unfold stream_Close. by rewrite inp_closeWithError.
  - unfold stream_Read. cbn [objs set_inp]. destruct (objs s !! o) as [st|]; [|done]. destruct (Pipe.read_begin (st_pipe st)); [done|].
    destruct (Pipe.writing (st_pipe st)) as [ws|]; [|done]. destruct (Pipe.wants_reader ws); [|done].
    destruct (Pipe.transfer ws k) as [d ws']. destruct (0 <? len d); [|done].
    exact (proj1 (inp_count (update_obj s o (fun st => set_pipe st (Pipe.set_writing (st_pipe st) (Some ws')))) x o (len d))).
  - unfold stream_Write. simpl. destruct (objs s !! o) as [st|]; [|done]. destruct (Deadline.closed _); [done|].
    destruct (dieErr st); [done|]. destruct (writeDataFrame ent (padding s) (w s) (st_id st) b) as [[w' n] e]. simpl.
    destruct (0 <? n); [|done]. exact (proj2 (inp_count (set_w s w') x o n)).
  - unfold HandshakeSuccess. simpl. destruct (objs s !! o) as [st|]; [|done]. destruct (_ && _); [|done].
    change (update_obj (set_inp s x) o set_reported) with (set_inp (update_obj s o set_reported) x). by rewrite inp_write.
  - unfold HandshakeFailure. simpl. destruct (objs s !! o) as [st|]; [|done]. destruct err as [text|]; [|done]. destruct (_ && _); [|done].
    change (update_obj (set_inp s x) o set_reported) with (set_inp (update_obj s o set_reported) x). by rewrite inp_write.
  - unfold stream_SetReadDeadline. simpl. destruct (objs s !! o) as [st|]; [|done]. by destruct (Pipe.SetReadDeadline (st_pipe st) t now).
Qed.

(** Turns that read nothing. *)
Lemma inp_recv s x : pc s <> Reading -> (forall h, pc s <> Payload h) -> recv (set_inp s x) = set_inp (recv s) x.
Proof.
  intros Hr Hp. unfold recv_step. cbn [pc set_inp]. destruct (pc s) as [|h|o|] eqn:Epc.
  - done.
  - by destruct (Hp h).
  - cbn [objs set_inp]. destruct (objs s !! o) as [st|]; [|exact (inp_loop_top (set_pc s Reading) x)].
    destruct (Pipe.writing (st_pipe st)) as [ws|]; [|exact (inp_loop_top (set_pc s Reading) x)]. destruct (_ || _); [|done].
    exact (inp_loop_top (set_pc (update_obj s o (fun st => set_pipe st (Pipe.set_writing (st_pipe st) None))) Reading) x).
  - done.
Qed.

(** ** The loop is never left inside a frame *)

Definition between (s : Session C) : Prop := forall h, pc s <> Payload h.

(** Sessions whose loop stands where it stood, or waits for a reader, or has returned. *)
Lemma between_same s s' : pc s' = pc s -> between s -> between s'.
Proof. unfold between. by intros ->. Qed.

Lemma between_finish s : between (finish s).
Proof. by intros h. Qed.

Lemma between_loop_top s : between s -> between (loop_top s).
Proof. intros Hs. unfold loop_top. destruct (pc s); try done. by destruct (die s). Qed.

Lemma between_turn (t : Session C * option (option goerror)) : between t.1 -> between (end_turn t).
Proof. destruct t as [s [e|]]; [intros _; apply between_finish|apply between_loop_top]. Qed.

(** A turn that answers with one frame. *)
Lemma between_answer s s0 f (k : Session C -> Session C * option (option goerror)) :
  pc s0 = pc s -> (forall s1, pc s1 = pc s -> between (k s1).1) -> between s ->
  between (match writeControlFrame ent s0 f with (s, Some e) => return_ s (Some e) | (s, None) => k s end).1.
Proof.
  intros H0 Hk Hs. pose proof (pc_write ent s0 f) as H. destruct (writeControlFrame ent s0 f) as [s1 [e|]]; simpl in *; [|apply Hk; congruence].
  eapply between_same; [|exact Hs]. congruence.
Qed.

Lemma between_version s v : between s -> between (check_version ent s v).1.
Proof.
  intros Hs. unfold check_version. destruct (Atoi v) as [n|]; [|done]. destruct (2 <=? n); [|done].
  apply (between_answer s); [done| |done]. intros s1 Hpc1. by eapply between_same.
Qed.

Lemma between_handle s f : between s -> between (handle s f).
Proof.
  intros Hs. unfold handle_frame. apply between_turn. repeat case_bool_decide; try (destruct (data f) as [|b d]; [done|]).
  - unfold recv_SYN. destruct (_ && _).
    + pose proof (pc_write ent s (Frame cmdAlert 0 (to_bytes "client did not send its settings"))) as Hpc.
      destruct (writeControlFrame ent s _) as [s1 e]. by eapply between_same.
    + unfold acceptStream. destruct (streams s !! sid f); [done|]. destruct (_ && _); [|done]. unfold refuseStream.
      apply (between_answer s); [done| |done]. intros s1 Hpc1. by eapply between_same.
  - unfold recv_FIN. destruct (streams s !! sid f) as [o|]; [|done]. eapply between_same; [|exact Hs].
    exact (pc_closeLocally (set_streams s (delete (sid f) (streams s))) o).
  - unfold recv_HeartRequest. apply (between_answer s); [done| |done]. intros s1 Hpc1. by eapply between_same.
  - unfold recv_SYNACK. cbn [streams set_synDone]. destruct (streams s !! sid f) as [o|]; [|done]. eapply between_same; [|exact Hs].
    exact (pc_closeWithError ent (set_synDone s false) o _).
  - unfold recv_PSH. destruct (streams s !! sid f) as [o|]; [|done]. destruct (objs s !! o) as [st|]; [|done].
    by destruct (Pipe.write_begin (st_pipe st) _).
  - unfold recv_Settings. destruct (isClient s); [done|]. destruct (String.eqb _ _); [by apply between_version|].
    apply (between_answer s); [done| |done]. intros s1 Hpc1. apply between_version. by eapply between_same.
  - done.
  - unfold recv_UpdatePaddingScheme. destruct (_ && _); [|done]. by destruct (UpdatePaddingScheme md5hex _ _) as [[p|] b'].
  - unfold recv_ServerSettings. destruct (isClient s); [|done]. destruct (Atoi _); [|done]. by destruct (0 <=? _).
  - done.
Qed.

(** Operations of the application leave the loop where it is, or end it. *)
Lemma pc_app s a : is_app a = true -> pc (act s a) = pc s \/ pc (act s a) = Returned.
Proof. intros Ha. apply pc_exec. by destruct a. Qed.

Lemma between_act s a : is_app a = true -> between s -> between (act s a).
Proof. intros Ha Hs. destruct (pc_app s a Ha) as [E|E]; [by eapply between_same|]. intros h. by rewrite E. Qed.

(** ** The simulation *)

(** The abstract session is the concrete one without input; what is unread is the encoding of
    the frames to come, with padding between them. *)
Record sim (s : Session C) (t : Session C * list frame) : Prop := {
  sim_same : t.1 = set_inp s [];
  sim_unread : exists gs, Forall wf_frame gs /\ inp s = encode_all gs /\ strip_waste gs = t.2;
  sim_between : between s
}.

(** Reading a whole frame. *)
Lemma turn_frame s f r :
  wf_frame f -> pc s = Reading -> inp s = encode f ++ r -> between s -> turn s = handle (set_inp s r) f.
Proof.
  intros Hf Hpc Hi Hb. pose proof (recv_frame ent md5hex clientDebugPaddingScheme s f r Hf Hpc Hi) as H. unfold turn.
  case_decide as Ed; cbn [Nat.iter nat_rect] in H.
  - rewrite H. destruct (pc (handle (set_inp s r) f)) as [|h| |] eqn:E; try done. by destruct (between_handle (set_inp s r) f Hb h).
  - assert (exists h, pc (recv s) = Payload h) as [h ->]; [|done]. unfold recv_step. rewrite Hpc, Hi.
    destruct (read_header_encode f r Hf) as (h & -> & Hc & _ & Hl). unfold on_header, has_payload. rewrite Hc, Hl.
    assert (carries_data (cmd f) = true) as -> by (destruct (carries_data (cmd f)) eqn:E; [done|]; by rewrite (wf_data f Hf E) in Ed).
    assert ((0 <? len (data f)) = true) as -> by (destruct (data f); [done|apply Z.ltb_lt; len_lia]). by exists h.
Qed.

(** Padding does nothing; on a closed session the loop ends after it. *)
Lemma waste_handled s f : cmd f = cmdWaste -> handle s f = loop_top s.
Proof. intros Hc. unfold handle_frame. rewrite Hc. simpl. by destruct (data f). Qed.

(** Turns that read nothing leave the input. *)
Lemma recv_idle s : pc s <> Reading -> between s -> between (recv s) /\ inp (recv s) = inp s.
Proof.
  intros Hr Hb. assert (forall s0, pc s0 = Reading -> inp s0 = inp s -> between (loop_top s0) /\ inp (loop_top s0) = inp s) as Ht.
  { intros s0 Hpc Hi. split; [apply between_loop_top; intros h; by rewrite Hpc|]. unfold loop_top. rewrite Hpc.
    destruct (die s0) eqn:Ed; [|done]. by rewrite finish_die. }
  unfold recv_step. destruct (pc s) as [|h|o|] eqn:Epc.
  - done.
  - by destruct (Hb h).
  - destruct (objs s !! o) as [st|]; [|by apply Ht]. destruct (Pipe.writing (st_pipe st)) as [ws|]; [|by apply Ht].
    destruct (_ || _); [by apply Ht|]. split; [by intros h; rewrite Epc|done].
  - split; [by intros h; rewrite Epc|done].
Qed.

(** A turn of the receiver is a turn of the abstract one, or reads padding, after which the loop
    goes on or, on a closed session, ends as after a failed read. *)
Lemma sim_turn s t : sim s t -> sim (turn s) t \/ sim (turn s) (abstract t Turn) \/ sim (turn s) (abstract t (App OpReadError)).
Proof.
  intros [Hs (gs & Hgs & Hi & Hf) Hb]. destruct t as [s0 fs]. simpl in Hs, Hf. subst s0.
  assert (pc s <> Reading -> sim (turn s) (recv (set_inp s []), fs)) as Hidle.
  { intros Hr. destruct (recv_idle s Hr Hb) as [Hrb Hri].
    assert (turn s = recv s) as ->. { unfold turn. destruct (pc (recv s)) as [|h| |] eqn:E; try done. by destruct (Hrb h). }
    split; simpl; [by apply inp_recv|by exists gs; rewrite Hri|done]. }
  cbn [abstract]. change (pc (set_inp s [])) with (pc s).
  destruct (pc s) as [|h|o|] eqn:Epc; [|by destruct (Hb h)|right; left; by apply Hidle..].
  destruct gs as [|f gs].
  - left. assert (turn s = s) as ->. { unfold turn, recv_step. rewrite Epc, Hi. simpl. by rewrite Epc. } split; eauto.
  - apply Forall_cons in Hgs as [Hwf Hgs]. rewrite encode_all_cons in Hi. rewrite (turn_frame s f (encode_all gs)) by done.
    unfold strip_waste in Hf. rewrite filter_cons in Hf. case_decide as Hc.
    + right. left. subst fs. split; cbn [fst snd].
      * by rewrite !inp_handle.
      * exists gs. rewrite inp_handle. done.
      * apply between_handle. done.
    + assert (cmd f = cmdWaste) as Hw by (by destruct (decide (cmd f = cmdWaste))). rewrite waste_handled by done.
      destruct (die s) eqn:Ed; [right; right|left].
      * unfold loop_top. cbn [pc set_inp die]. rewrite Epc, Ed. cbn [exec held op_stream run_op]. unfold exec, recv_error. cbn [pc set_inp held op_stream].
        rewrite Epc. split; cbn [fst snd]; [by rewrite !inp_finish|exists gs; by rewrite inp_finish|apply between_finish].
      * rewrite loop_top_open by done. split; [done|by exists gs|done].
Qed.

Lemma sim_app s t a : is_app a = true -> sim s t -> sim (act s a) (act t.1 a, t.2).
Proof.
  intros Ha [Hs (gs & Hgs & Hi & Hf) Hb]. split; simpl.
  - by rewrite Hs, inp_act.
  - exists gs. split_and!; [done| |done]. rewrite <- (set_inp_same s _ Hi), inp_act by done. done.
  - by apply between_act.
Qed.

(** A schedule with some turns left out, namely those that only read padding; on a closed session the loop
    ends in such a turn, as it does when a read fails. *)
Inductive thinned : list step_op -> list step_op -> Prop :=
  | thin_nil : thinned [] []
  | thin_keep x xs ys : thinned xs ys -> thinned (x :: xs) (x :: ys)
  | thin_turn xs ys : thinned xs ys -> thinned (Turn :: xs) ys
  | thin_end xs ys : thinned xs ys -> thinned (Turn :: xs) (App OpReadError :: ys).

Lemma sim_run s t xs :
  Forall (fun x => match x with App a => is_app a = true | Turn => True end) xs -> sim s t ->
  exists ys, thinned xs ys /\ sim (foldl concrete s xs) (foldl abstract t ys).
Proof.
  intros Hxs. revert s t. induction Hxs as [|x xs Hx Hxs IH]; intros s t Hs; [exists []; split; [constructor|done]|].
  destruct x as [|a]; simpl.
  - destruct (sim_turn s t Hs) as [H|[H|H]]; destruct (IH _ _ H) as (ys & Hy & Hr); [exists ys|exists (Turn :: ys)|exists (App OpReadError :: ys)];
      (split; [by constructor|done]).
  - pose proof (sim_app s t a Hx Hs) as H. destruct t as [s0 fs]. destruct (IH _ _ H) as (ys & Hy & Hr). exists (App a :: ys).
    split; [by constructor|done].
Qed.

End receiver.


(** The first packets of a client with the default padding scheme reach a server, which
    accepts the stream and offers its data to a reader, who takes it. *)
Definition sample_writes : list (PaddingFactory * wop) :=
  [(default_factory (fun _ => "md5"), WControl (Frame cmdSettings 0 (StringMap.ToBytes [("v", "2"); ("padding-md5", "md5")])));
   (default_factory (fun _ => "md5"), WControl (newFrame cmdSYN 1));
   (default_factory (fun _ => "md5"), WUnbuffer);
   (default_factory (fun _ => "md5"), WData 1 [x01; x02])].

Definition sample_wire : Writer PlainConn := (run_ops (fun _ _ => 7) (client_writer plain_new) sample_writes).1.

Definition sample_receiver : Session PlainConn := set_inp sample_server (conn_wire (w_conn sample_wire)).

Definition sample_schedule : list step_op := [Turn; Turn; Turn; App (OpStreamRead 0 8); Turn; Turn; App (OpSuccess 0); Turn].


End EndToEnd.
