(* ===== verification/Flow.v ===== *)
(** * Flow: what has left a session when connections can break

    [carries] and [cut_short] of WriteConn.v say what is on the wire after writes
    that succeeded, and after one that failed.  A session goes on after a failed data
    write, so a third fact is needed: a connection that failed once puts nothing more on
    the wire.  crypto/tls documents this for its connections; it is the law
    [ConnBreaks], which a rate-limited connection inherits from the one it wraps.

    [flow m w out]: the writer [w] was given the frames [out]; if [m] is true all of them are on
    the wire or in the buffer, else the connection is stuck and the wire holds a prefix. *)

From S2P Require Import Prelude GoStrings Frame Padding NetConn WriteConn Limiter.
#[local] Open Scope list_scope.
#[local] Open Scope Z_scope.

(** The two ways to write on a connection. *)
Definition is_write {C} `{!NetConn C} (wf : write_fn C) : Prop := wf = conn_write \/ conn_unlimited = Some wf.

(** What a call that returned [e] does to a connection with a predicate [stuck]: an error leaves
    it stuck, and on a stuck connection nothing is written. *)
Record breaks {C} `{!NetConn C} (fit stuck : C -> Prop) (c c' : C) (failed : bool) : Prop := {
  br_fit : fit c';
  br_fail : failed = true -> stuck c';
  br_stuck : stuck c -> stuck c' /\ conn_wire c' = conn_wire c;
  br_grows : conn_wire c `prefix_of` conn_wire c'
}.

(** [fit] is an invariant of the connections in use. *)
Class ConnBreaks (C : Type) `{!NetConn C} := {
  fit : C -> Prop;
  stuck : C -> Prop;
  break_write wf c b c' n e : is_write wf -> fit c -> wf c b = (c', n, e) -> breaks fit stuck c c' (bool_decide (e <> None));
  break_wait wt c k c' e : conn_wait = Some wt -> fit c -> wt c k = (c', e) -> breaks fit stuck c c' false;
  break_close c : fit c -> breaks fit stuck c (conn_close c) true
}.

(** ** A connection that breaks after a number of bytes *)

Record FragileConn := MkFragile { fr_sent : bytes; fr_open : bool; fr_left : nat }.

Definition fragile_write (c : FragileConn) (b : bytes) : FragileConn * Z * option goerror :=
  if fr_open c then
    if (length b <=? fr_left c)%nat then (MkFragile (fr_sent c ++ b) true (fr_left c - length b), len b, None)
    else (MkFragile (fr_sent c ++ take (fr_left c) b) false 0, len (take (fr_left c) b), Some ErrConn)
  else (c, 0, Some ErrNetClosed).

#[export] Instance fragile_netconn : NetConn FragileConn := {
  conn_write := fragile_write;
  conn_wait := None;
  conn_unlimited := None;
  conn_close c := MkFragile (fr_sent c) false (fr_left c);
  conn_open := fr_open;
  conn_wire := fr_sent
}.

#[export] Instance fragile_laws : NetConnLaws FragileConn.
Proof.
  split; simpl; try done. split; unfold conn_write, conn_wire, conn_open; simpl; unfold fragile_write.
  - intros c b c' n H. repeat case_match; by simplify_eq/=.
  - intros c b c' n e H. destruct (fr_open c); [|simplify_eq; exists 0%nat; by rewrite app_nil_r].
    case_match; simplify_eq/=. by exists (fr_left c).
  - intros c b c' n e Ho H. rewrite Ho in H. by simplify_eq.
Qed.

#[export] Instance fragile_breaks : ConnBreaks FragileConn.
Proof.
  refine {| fit _ := True; stuck c := fr_open c = false |}.
  - intros wf c b c' n e Hwf _ H. assert (fragile_write c b = (c', n, e)) as Hw by (destruct Hwf as [->|Hx]; [exact H|discriminate Hx]).
    unfold fragile_write in Hw. destruct (fr_open c) eqn:Eo; [case_match|]; simplify_eq; split; simpl; try case_bool_decide; try done; try congruence; by eexists.
  - done.
  - intros c _. by split.
Defined.

Definition fragile (n : nat) : FragileConn := MkFragile [] true n.

(** ** Rate-limited connections *)

Module LimitedBreaks.
Import Limiter.

Section limited.
Context {L C : Type} `{!RateLimiter L, !RateLimiterLaws L, !NetConn C, !ConnBreaks C}.

(** A closed connection is closed below, and buckets have room for a byte. *)
Definition limited_fit (c : limitedConn L C) : Prop :=
  fit (lc_Conn c) /\ (lc_cancelled c = true -> stuck (lc_Conn c)) /\ forall l, lc_up c = Some l -> 1 <= Burst l.

Lemma wait_loop_burst fuel burst cancelled (l : L) n : Burst (wait_loop fuel burst cancelled l n).1 = Burst l.
Proof.
  revert l n. induction fuel as [|fuel IH]; intros l n; cbn [wait_loop]; destruct (n <=? 0); try done.
  destruct (WaitN l cancelled _) as [l1 e1] eqn:E. assert (Burst l1 = Burst l) as Hb.
  { change l1 with (l1, e1).1. rewrite <- E. apply burst_wait. }
  destruct e1; [done|]. by rewrite IH.
Qed.

Lemma wait_fit (c : limitedConn L C) n c' e :
  limited_fit c -> WaitWrite c n = (c', e) ->
  limited_fit c' /\ lc_Conn c' = lc_Conn c /\ (e <> None -> lc_cancelled c = true).
Proof.
  intros (Hf & Hc & Hb). unfold WaitWrite. destruct (lc_up c) as [l|] eqn:Eu.
  - destruct (Z.leb_spec n 0); [intros [= <- <-]; unfold limited_fit; rewrite Eu; by split_and!|]. specialize (Hb l eq_refl).
    pose proof (wait_loop_burst (Z.to_nat n) (Burst l) (lc_cancelled c) l n) as Hlb.
    assert (lc_cancelled c = false -> (wait_loop (Z.to_nat n) (Burst l) (lc_cancelled c) l n).2 = None) as Hg.
    { intros Ec. rewrite wait_loop_all, Ec by lia. apply wait_all_granted with (Burst l); [done|]. apply chunks_spec; lia. }
    destruct (wait_loop _ _ _ _ _) as [l1 e1]. intros [= <- <-]. simpl in *. split_and!; [|done|].
    + unfold limited_fit. split_and!; simpl; [done|done|]. intros l2 [= <-]. by rewrite Hlb.
    + intros He. destruct (lc_cancelled c); [done|]. by rewrite Hg in He.
  - intros [= <- <-]. unfold limited_fit. rewrite Eu. by split_and!.
Qed.

Lemma conn_write_breaks (x : C) b x' n e :
  fit x -> conn_write x b = (x', n, e) -> breaks fit stuck x x' (bool_decide (e <> None)).
Proof. intros. by eapply (break_write conn_write); [left| |]. Qed.

Lemma write_loop_breaks fuel burst (x : C) b k x' n e :
  1 <= burst -> (length b <= fuel)%nat -> fit x -> write_loop fuel burst x b k = (x', n, e) ->
  breaks fit stuck x x' (bool_decide (e <> None)).
Proof.
  intros Hb. revert x b k. induction fuel as [|fuel IH]; intros x b k Hl Hf; cbn [write_loop];
    (destruct (Z.eqb_spec (len b) 0) as [Hz|Hz]; [intros [= <- <- <-]; by split|]).
  { destruct b; [by destruct Hz|simpl in Hl; lia]. }
  set (chunk := if burst <? len b then burst else len b).
  assert (1 <= chunk <= len b) as Hch.
  { pose proof (len_nonneg b). subst chunk. destruct (Z.ltb_spec burst (len b)); lia. }
  destruct (conn_write x (slice_to chunk b)) as [[x1 n1] e1] eqn:Ew. apply conn_write_breaks in Ew as [H1 H2 H3 H4]; [|done].
  destruct e1 as [e1|]; [intros [= <- <- <-]; by split|]. intros H. apply IH in H as [G1 G2 G3 G4]; [|unfold slice_from, len in *; rewrite length_drop; lia|done].
  split; [done|done| |by etrans]. intros Hs. destruct (H3 Hs) as [Hs1 <-]. by apply G3.
Qed.

Lemma WriteUnlimited_breaks (c : limitedConn L C) b c' n e :
  limited_fit c -> WriteUnlimited c b = (c', n, e) ->
  breaks limited_fit (fun c => stuck (lc_Conn c)) c c' (bool_decide (e <> None)).
Proof.
  intros (Hf & Hc & Hb). unfold WriteUnlimited.
  destruct (match lc_up c with None => _ | Some l => _ end) as [[x k] e1] eqn:E. intros [= <- <- <-].
  assert (breaks fit stuck (lc_Conn c) x (bool_decide (e1 <> None))) as [H1 H2 H3 H4].
  { destruct (lc_up c) as [l|]; [|by eapply conn_write_breaks]. eapply write_loop_breaks; [by apply (Hb l)|done|done|done]. }
  split; [|done|done|done]. unfold limited_fit. split_and!; simpl; [done| |done]. intros Hcc. by apply H3, Hc.
Qed.

#[export] Instance limited_breaks : ConnBreaks (limitedConn L C).
Proof.
  refine {| fit := limited_fit; stuck c := stuck (lc_Conn c) |}.
  - intros wf c b c' n e Hwf Hf H.
    assert (wf = Write \/ wf = WriteUnlimited) as [-> | ->] by (destruct Hwf as [->|[= <-]]; auto); [|by eapply WriteUnlimited_breaks].
    unfold Write in H. destruct (lc_up c) as [l|] eqn:Eu.
    + destruct (WaitWrite c (len b)) as [c1 [e1|]] eqn:E; apply wait_fit in E as (Hf1 & Hc1 & Hcc); try done.
      * simplify_eq. split; [done| |unfold conn_wire; simpl; by rewrite Hc1..]. intros _. rewrite Hc1. apply Hf. by apply Hcc.
      * apply WriteUnlimited_breaks in H as [H1 H2 H3 H4]; [|done]. unfold conn_wire in *; simpl in *. rewrite Hc1 in *. by split.
    + eapply (WriteUnlimited_breaks c b); [done|]. unfold WriteUnlimited. by rewrite Eu.
  - intros wt c k c' e [= <-] Hf H. apply wait_fit in H as (Hf1 & Hc1 & _); [|done]. split; [done|done|unfold conn_wire; simpl; by rewrite Hc1..].
  - intros c (Hf & Hc & Hb). destruct (break_close (lc_Conn c) Hf) as [H1 H2 H3 H4]. split; [|done|done|done]. unfold limited_fit. by split_and!.
Defined.

End limited.
End LimitedBreaks.

(** ** The write path on a connection that can break *)

Module Flow.
Import Frame Padding WriteConn.

Section breaks.
Context {C : Type} `{!NetConn C, !ConnBreaks C}.
Variable ent : Z -> nat -> Z.
Implicit Types w : Writer C.

Abbreviation breaks := (breaks fit stuck).

Lemma breaks_none c : fit c -> breaks c c false.
Proof. by split. Qed.

Lemma breaks_trans c c1 c2 b : breaks c c1 false -> breaks c1 c2 b -> breaks c c2 b.
Proof. intros [H1 _ H3 H4] [G1 G2 G3 G4]. split; [done|done| |by etrans]. intros Hs. destruct (H3 Hs) as [Hs1 <-]. by apply G3. Qed.

Lemma write_fn_breaks byp c b c' n e :
  fit c -> write_fn_of byp c b = (c', n, e) -> breaks c c' (bool_decide (e <> None)).
Proof.
  unfold write_fn_of. intros Hf H. destruct byp; [destruct conn_unlimited as [wu|] eqn:Eu|];
    [apply (break_write wu c b c' n e); [by right|done|done]|apply (break_write conn_write c b c' n e); [by left|done|done]..].
Qed.

Lemma pad_loop_breaks byp sizes c n b c' n' b' e :
  fit c -> pad_loop (write_fn_of byp) sizes c n b = (c', n', b', e) -> breaks c c' (bool_decide (e <> None)).
Proof.
  revert c n b. induction sizes as [|l sizes IH]; intros c n b Hf; cbn [pad_loop]; [by intros [= <- <- <- <-]; apply breaks_none|].
  assert (forall x n1 b1, (match write_fn_of byp c x with (c', _, Some e) => (c', 0, b, Some e)
    | (c', _, None) => pad_loop (write_fn_of byp) sizes c' n1 b1 end) = (c', n', b', e) -> breaks c c' (bool_decide (e <> None))) as Hw.
  { intros x n1 b1 H. destruct (write_fn_of byp c x) as [[c1 k] e1] eqn:E. apply write_fn_breaks in E; [|done].
    destruct e1 as [e1|]; [by simplify_eq|]. apply IH in H; [by eapply breaks_trans|apply E]. }
  destruct (l =? CheckMark); [destruct (len b =? 0); [by intros [= <- <- <- <-]; apply breaks_none|by apply IH]|].
  destruct (l <? len b); [apply Hw|]. destruct (0 <? len b); apply Hw.
Qed.

Lemma doWriteConn_breaks pf w b byp w' n e :
  fit (w_conn w) -> doWriteConn ent pf w b byp = (w', n, e) -> breaks (w_conn w) (w_conn w') (bool_decide (e <> None)).
Proof.
  unfold doWriteConn. intros Hf. destruct (buffering w); [intros [= <- <- <-]; by apply breaks_none|]. cbn [sendPadding w_conn].
  unfold set_conn. cbn [sendPadding w_conn buffering buffer pktCounter].
  assert (forall sp bf buf pk x, (let '(c', n, e) := write_fn_of byp (w_conn w) x in (MkWriter c' sp bf buf pk, n, e)) = (w', n, e) ->
    breaks (w_conn w) (w_conn w') (bool_decide (e <> None))) as Hp.
  { intros sp bf buf pk x H. destruct (write_fn_of byp (w_conn w) x) as [[c1 k] e1] eqn:E. simplify_eq. by eapply write_fn_breaks. }
  destruct (sendPadding w); [|apply Hp]. cbn [pktCounter w_conn buffer].
  destruct (_ <? Stop pf); [|apply Hp].
  destruct (pad_loop _ _ _ _ _) as [[[c1 n1] b1] e1] eqn:E. apply pad_loop_breaks in E; [|done].
  destruct e1 as [e1|]; [intros; by simplify_eq|]. destruct (len b1 =? 0); [intros; by simplify_eq|].
  destruct (write_fn_of byp c1 b1) as [[c2 n2] e2] eqn:E2. intros; simplify_eq. apply write_fn_breaks in E2; [|apply E]. by eapply breaks_trans.
Qed.

Lemma writeDataChunk_breaks pf w s d w' e :
  fit (w_conn w) -> writeDataChunk ent pf w s d = (w', e) -> breaks (w_conn w) (w_conn w') (bool_decide (e <> None)).
Proof.
  unfold writeDataChunk, writeConn. intros Hf H. destruct (doWriteConn _ _ _ _ _) as [[w1 n1] e1] eqn:E. simplify_eq. by eapply doWriteConn_breaks.
Qed.

Lemma writeDataFrame_breaks pf w s d w' n e :
  fit (w_conn w) -> writeDataFrame ent pf w s d = (w', n, e) -> breaks (w_conn w) (w_conn w') (bool_decide (e <> None)).
Proof.
  unfold writeDataFrame. generalize (length d) as fuel, 0 as k. intros fuel. revert w d.
  induction fuel as [|fuel IH]; intros w d k Hf; cbn [writeDataLoop];
    destruct (writeDataChunk _ _ _ _ _) as [w1 e1] eqn:E; apply writeDataChunk_breaks in E; try done;
    (destruct e1 as [e1|]; [intros; by simplify_eq|]); (destruct (_ =? 0); [intros; by simplify_eq|]); [intros; by simplify_eq|].
  intros H. apply IH in H; [by eapply breaks_trans|apply E].
Qed.

Lemma writeDataFrame_padding pf w s d w' n e :
  writeDataFrame ent pf w s d = (w', n, e) -> padding_ok pf w -> padding_ok pf w'.
Proof.
  unfold writeDataFrame. generalize (length d) as fuel, 0 as k. intros fuel. revert w d.
  induction fuel as [|fuel IH]; intros w d k H Hp; cbn [writeDataLoop] in H;
    destruct (writeDataChunk _ _ _ _ _) as [w1 e1] eqn:E; pose proof (writeDataChunk_padding _ _ _ _ _ _ _ E Hp) as Hp1;
    (destruct e1 as [e1|]; [by simplify_eq|]); (destruct (_ =? 0); [by simplify_eq|]); [by simplify_eq|by eapply IH].
Qed.

(** A control write that fails while it waits for bandwidth has changed nothing. *)
Lemma control_write_breaks pf w f w' e :
  fit (w_conn w) -> control_write ent pf w f = (w', e) ->
  breaks (w_conn w) (w_conn w') false /\ (e <> None -> stuck (w_conn w') \/ exists c', w' = set_conn w c' /\ exists wt k, conn_wait = Some wt /\ wt (w_conn w) k = (c', e)).
Proof.
  unfold control_write. intros Hf. destruct conn_wait as [wt|] eqn:Ew.
  - destruct (wt (w_conn w) _) as [c1 e1] eqn:E. pose proof (break_wait wt _ _ _ _ Ew Hf E) as Hb. destruct e1 as [e1|].
    + intros [= <- <-]. split; [done|]. intros _. right. exists c1. split; [done|]. eauto.
    + destruct (doWriteConn _ _ _ _ _) as [[w1 n1] e2] eqn:E2. intros [= <- <-]. apply doWriteConn_breaks in E2; [|apply Hb].
      split; [eapply breaks_trans; [exact Hb|]; destruct E2; by split|]. intros He. left. apply E2. by case_bool_decide.
  - destruct (doWriteConn _ _ _ _ _) as [[w1 n1] e2] eqn:E2. intros [= <- <-]. apply doWriteConn_breaks in E2; [|done].
    split; [destruct E2; by split|]. intros He. left. apply E2. by case_bool_decide.
Qed.

End breaks.

(** ** Frames handed to a writer *)

Section flow.
Context {C : Type} `{!NetConn C, !NetConnLaws C, !ConnBreaks C}.
Variable ent : Z -> nat -> Z.
Implicit Types w : Writer C.

Definition flow (m : bool) w (out : list frame) : Prop :=
  fit (w_conn w) /\ if m then carries w out else stuck (w_conn w) /\ cut_short w out.

(** What the peer has received is in any case a prefix of an encoding of these frames. *)
Lemma flow_wire m w out :
  flow m w out -> exists gs, Forall wf_frame gs /\ conn_wire (w_conn w) `prefix_of` encode_all gs /\ strip_waste gs = out.
Proof.
  intros [_ H]. destruct m; [|apply H]. destruct H as (gs & Hgs & Hs & Ho). exists gs. split_and!; [done| |done].
  rewrite <- Hs. apply prefix_app_r. done.
Qed.

(** Operations that leave wire and buffer alone. *)
Lemma flow_same m w w' out :
  flow m w out -> breaks fit stuck (w_conn w) (w_conn w') false -> conn_wire (w_conn w') = conn_wire (w_conn w) -> buffer w' = buffer w -> flow m w' out.
Proof.
  intros [Hf H] [H1 _ H3 _] Hw Hb. split; [done|]. destruct m.
  - destruct H as (gs & Hgs & Hs & Ho). exists gs. unfold sent in *. by rewrite Hw, Hb.
  - destruct H as [Hs (gs & Hgs & Hp & Ho)]. split; [by apply H3|]. exists gs. by rewrite Hw.
Qed.

Lemma flow_stuck w w' out : breaks fit stuck (w_conn w) (w_conn w') false -> flow false w out -> flow false w' out.
Proof. intros [H1 _ H3 _] [Hf [Hs (gs & Hgs & Hp & Ho)]]. destruct (H3 Hs) as [Hs' Hw]. split; [done|]. split; [done|]. exists gs. by rewrite Hw. Qed.

Lemma flow_close m w out : flow m w out -> flow m (set_conn w (conn_close (w_conn w))) out.
Proof.
  intros H. pose proof (break_close (w_conn w) ltac:(apply H)) as [H1 H2 H3 H4].
  apply (flow_same _ _ _ _ H); [by split|apply law_close|done].
Qed.

(** A control frame is sent, or it is not and nothing is any more. *)
Lemma flow_control m pf w f w' e out :
  padding_ok pf w -> wf_frame f -> cmd f <> cmdWaste -> control_write ent pf w f = (w', e) -> flow m w out ->
  conn_wire (w_conn w) `prefix_of` conn_wire (w_conn w') /\
  exists m' fs, flow m' w' (out ++ fs) /\ (fs = [f] \/ fs = []) /\ (m' = true -> m = true) /\ (e = None -> m = true -> m' = true).
Proof.
  intros Hp Hf Hc H Hfl. pose proof (control_write_extends ent pf w f w' e Hp H) as Hx.
  pose proof (control_write_breaks ent pf w f w' e ltac:(apply Hfl) H) as [Hb He]. split; [apply Hb|]. destruct m.
  - destruct Hfl as [Hfit Hcar]. destruct e as [e|].
    + destruct He as [Hs|(c' & -> & wt & k & Hwt & Hw)]; [done| |].
      * exists false, [f]. split_and!; [|by left|done|done]. split; [apply Hb|]. split; [done|]. by eapply carries_cut_short.
      * exists true, []. rewrite app_nil_r. split_and!; [|by right|done|done].
        apply (flow_same true w); [by split|done| |done]. apply (law_wait _ _ _ _ _ Hwt Hw).
    + exists true, [f]. split_and!; [|by left|done|done]. split; [apply Hb|]. by eapply carries_extend.
  - exists false, []. rewrite app_nil_r. split_and!; [|by right|done|done]. by eapply flow_stuck.
Qed.

Definition is_psh (s : Z) (f : frame) : Prop := cmd f = cmdPSH /\ sid f = s.

Lemma split_psh s d ps : split_of s d ps -> Forall (is_psh s) ps /\ concat (map data ps) = d.
Proof. intros [H <-]. split; [|done]. eapply Forall_impl; [exact H|]. by intros f (? & ? & _). Qed.

(** Data is sent in frames that carry it, or a first part of it and nothing any more. *)
Lemma flow_data m pf w s d w' n e out :
  is_uint32 s -> padding_ok pf w -> writeDataFrame ent pf w s d = (w', n, e) -> flow m w out ->
  conn_wire (w_conn w) `prefix_of` conn_wire (w_conn w') /\
  exists m' ps, flow m' w' (out ++ ps) /\ Forall (is_psh s) ps /\ concat (map data ps) `prefix_of` d /\
    (m' = true -> m = true /\ concat (map data ps) = d) /\ (m = false -> ps = []) /\ (e = None -> m = true -> m' = true).
Proof.
  intros Hs Hp H Hfl. pose proof (writeDataFrame_breaks ent pf w s d w' n e ltac:(apply Hfl) H) as Hb. split; [apply Hb|]. destruct m.
  - destruct Hfl as [Hfit Hcar]. unfold writeDataFrame in H.
    pose proof (writeDataLoop_spec ent _ pf w s d 0 w' n e out Hs Hp Hcar ltac:(done) H) as (ps & Hps & Hn & He).
    rewrite Z.sub_0_r in *. apply split_psh in Hps as [Hps Hd]. destruct e as [e|].
    + destruct He as (f & Hwf & Hf & [d' Hd'] & Hcut). apply split_psh in Hf as [Hf Hfd].
      exists false, (ps ++ [f]). split_and!; [| |exists d'|done|done|done].
      * split; [apply Hb|]. split; [by apply Hb|done].
      * by apply Forall_app.
      * rewrite map_app, concat_app, Hfd, Hd, <- app_assoc, <- Hd'. by rewrite slice_to_from.
    + destruct He as (-> & Hcar' & _). rewrite slice_to_all in Hd by done. exists true, ps. rewrite Hd. split_and!; [|done..]. split; [apply Hb|done].
  - exists false, []. rewrite app_nil_r. split_and!; [|done|apply prefix_nil|done|done|done]. eapply flow_stuck; [|done]. destruct Hb; by split.
Qed.

End flow.
End Flow.
