(* ===== verification/SessionFlow.v ===== *)
(** * SessionFlow: the data that passes through a session

    For one session, in any state of its operations: what it has given to its peer
    ([spoke]) and what it has taken from it ([heard]), as lists of frames.  [calm]
    describes the operations that pass no data and register no stream; the others are
    [OpenStream], [Write], [Read] and the turns of the receive loop that take a SYN or a PSH
    frame.  Link.v puts two sessions together. *)

From S2P Require Import Prelude GoStrings StringMap Frame Padding NetConn WriteConn Pipe Session SessionSpec EndToEnd Flow.
#[local] Open Scope string_scope.
#[local] Open Scope list_scope.
#[local] Open Scope Z_scope.
#[local] Set Warnings "-clear-no-such-hyp".

Module SessionFlow.
Import Frame Padding WriteConn Session SessionSpec EndToEnd Flow.

(** ** Data in a list of frames *)

(** The payload of stream [id]. *)
Fixpoint data_of (id : Z) (fs : list frame) : bytes :=
  match fs with
  | [] => []
  | f :: fs => (if bool_decide (cmd f = cmdPSH) && (sid f =? id) then data f else []) ++ data_of id fs
  end.

Lemma data_of_app id fs gs : data_of id (fs ++ gs) = data_of id fs ++ data_of id gs.
Proof. induction fs as [|f fs IH]; [done|]. simpl. by rewrite IH, app_assoc. Qed.

Lemma data_of_prefix id fs gs : fs `prefix_of` gs -> data_of id fs `prefix_of` data_of id gs.
Proof. intros [k ->]. rewrite data_of_app. by exists (data_of id k). Qed.

Lemma data_of_none id fs : (forall f, f ∈ fs -> cmd f = cmdPSH -> sid f <> id) -> data_of id fs = [].
Proof.
  induction fs as [|f fs IH]; intros H; [done|]. simpl. rewrite IH by (intros g Hg; apply H; by right). rewrite app_nil_r.
  case_bool_decide as Hc; [|done]. simpl. destruct (Z.eqb_spec (sid f) id) as [E|]; [|done]. by destruct (H f ltac:(by left) Hc).
Qed.

Lemma data_of_psh id fs : Forall (is_psh id) fs -> data_of id fs = concat (map data fs).
Proof. induction 1 as [|f fs [Hc Hs] _ IH]; [done|]. simpl. by rewrite bool_decide_true, Hs, Z.eqb_refl, IH. Qed.

Lemma data_of_strip id fs : data_of id (strip_waste fs) = data_of id fs.
Proof.
  induction fs as [|f fs IH]; [done|]. unfold strip_waste in *. rewrite filter_cons. case_decide as Hc; simpl; [by rewrite IH|].
  rewrite bool_decide_false; [done|]. intros E. by rewrite E in Hc.
Qed.

(** What a log of calls on stream objects says of one object. *)
Abbreviation log := (list (nat * bytes)).

Definition said (l : log) (o : nat) : bytes := concat (map snd (filter (fun p => p.1 = o) l)).

Lemma said_snoc l o b o' : said (l ++ [(o, b)]) o' = said l o' ++ (if decide (o = o') then b else []).
Proof.
  unfold said. rewrite filter_app, map_app, concat_app. f_equal. rewrite filter_cons. simpl. case_decide; [|done]. simpl. by rewrite app_nil_r.
Qed.

(** ** Operations that pass no data *)

(** The frames they send: neither SYN nor PSH, and a padding scheme only if it is [raw]. *)
Definition quiet (raw : bytes) (f : frame) : Prop :=
  cmd f <> cmdPSH /\ cmd f <> cmdSYN /\ (cmd f = cmdUpdatePaddingScheme -> data f = raw).

Lemma data_of_quiet raw id fs : Forall (quiet raw) fs -> data_of id fs = [].
Proof. intros H. apply data_of_none. intros f Hf Hc. rewrite Forall_forall in H. by destruct (H f Hf). Qed.

(** The parts of a stream that data passes through are the same. *)
Record same_pipe (st st' : Stream) : Prop := {
  sp_id : st_id st' = st_id st;
  sp_writing : Pipe.writing (st_pipe st') = Pipe.writing (st_pipe st);
  sp_deadline : Pipe.writeDeadline (st_pipe st') = Pipe.writeDeadline (st_pipe st)
}.

#[export] Instance same_pipe_preorder : PreOrder same_pipe.
Proof. split; [by split|]. intros a b c [] []. split; congruence. Qed.

(** The streams are as they were, or closed. *)
Record still {C} (s s' : Session C) : Prop := {
  sl_len : length (objs s') = length (objs s);
  sl_obj o st : objs s !! o = Some st -> exists st', objs s' !! o = Some st' /\ same_pipe st st';
  sl_streams : streams s' ⊆ streams s;
  sl_piping o : pc s' = Piping o <-> pc s = Piping o;
  sl_streamId : streamId s' = streamId s;
  sl_client : isClient s' = isClient s
}.

#[export] Instance still_preorder {C} : PreOrder (@still C).
Proof.
  split; [intros s; split; try done; intros o st Ho; by exists st|]. intros a b c Hab Hbc. split.
  - by rewrite (sl_len _ _ Hbc), (sl_len _ _ Hab).
  - intros o st Ho. destruct (sl_obj _ _ Hab o st Ho) as (st1 & Ho1 & H1).
    destruct (sl_obj _ _ Hbc o st1 Ho1) as (st2 & Ho2 & H2). exists st2. split; [done|by etrans].
  - etrans; [apply Hbc|apply Hab].
  - intros o. rewrite (sl_piping _ _ Hbc). apply Hab.
  - by rewrite (sl_streamId _ _ Hbc), (sl_streamId _ _ Hab).
  - by rewrite (sl_client _ _ Hbc), (sl_client _ _ Hab).
Qed.

Lemma sl_back {C} (s s' : Session C) o st' : still s s' -> objs s' !! o = Some st' -> exists st, objs s !! o = Some st /\ same_pipe st st'.
Proof.
  intros H Ho. assert (is_Some (objs s !! o)) as [st Hst].
  { apply lookup_lt_is_Some. rewrite <- (sl_len _ _ H). by apply lookup_lt_is_Some. }
  exists st. split; [done|]. destruct (sl_obj _ _ H o st Hst) as (st1 & Ho1 & H1). by simplify_eq.
Qed.

Lemma sl_none {C} (s s' : Session C) o : still s s' -> objs s' !! o = None <-> objs s !! o = None.
Proof. intros H. by rewrite !lookup_ge_None, (sl_len _ _ H). Qed.

Record calm {C} `{!NetConn C, !ConnBreaks C} (P : frame -> Prop) (s s' : Session C) : Prop := {
  cm_still : still s s';
  cm_padding : isClient s = false -> padding s' = padding s;
  cm_pads : padding_ok (padding s) (w s) -> padding_ok (padding s') (w s');
  cm_flow m out : padding_ok (padding s) (w s) -> flow m (w s) out ->
    exists m' fs, flow m' (w s') (out ++ fs) /\ Forall P fs /\ (m' = true -> m = true) /\ (m = true -> die s' = false -> m' = true);
  cm_die : die s = true -> die s' = true;
  cm_wire m out : padding_ok (padding s) (w s) -> flow m (w s) out -> conn_wire (w_conn (w s)) `prefix_of` conn_wire (w_conn (w s'))
}.

#[export] Instance calm_preorder {C} `{!NetConn C, !ConnBreaks C} P : PreOrder (@calm C _ _ P).
Proof.
  split.
  - intros s. split; try done. intros m out _ H. exists m, []. rewrite app_nil_r. by split_and!.
  - intros a b c Hab Hbc. split.
    + etrans; [apply Hab|apply Hbc].
    + intros Hc. rewrite (cm_padding _ _ _ Hbc); [by apply Hab|]. by rewrite (sl_client _ _ (cm_still _ _ _ Hab)).
    + intros H. by apply Hbc, Hab.
    + intros m out Hp Hf. destruct (cm_flow _ _ _ Hab m out Hp Hf) as (m1 & fs1 & Hf1 & Hq1 & Hm1 & Hl1).
      destruct (cm_flow _ _ _ Hbc m1 (out ++ fs1)) as (m2 & fs2 & Hf2 & Hq2 & Hm2 & Hl2); [by apply Hab|done|].
      exists m2, (fs1 ++ fs2). rewrite app_assoc. split; [done|]. split; [by apply Forall_app|]. split; [auto|]. intros Hm Hd.
      apply Hl2; [apply Hl1; [done|]|done]. destruct (die b) eqn:Eb; [|done]. by rewrite (cm_die _ _ _ Hbc Eb) in Hd.
    + intros H. by apply Hbc, Hab.
    + intros m out Hp Hf. destruct (cm_flow _ _ _ Hab m out Hp Hf) as (m1 & fs1 & Hf1 & _).
      etrans; [by eapply Hab|]. eapply Hbc; [by apply Hab|done].
Qed.

(** *** Changes that send nothing *)

Section still_ops.
Context {C : Type} `{!NetConn C, !NetConnLaws C, !ConnBreaks C}.
Context {P : frame -> Prop}.
Implicit Types s : Session C.

(** Changes of other fields. *)
Lemma still_same s s' :
  objs s' = objs s -> streams s' ⊆ streams s -> (forall o, pc s' = Piping o <-> pc s = Piping o) ->
  streamId s' = streamId s -> isClient s' = isClient s -> still s s'.
Proof. intros Ho ????. split; rewrite ?Ho; try done. intros o st Hst. by exists st. Qed.

Lemma still_update s o f : (forall st, objs s !! o = Some st -> same_pipe st (f st)) -> still s (update_obj s o f).
Proof.
  intros Hf. split; try done; [simpl; by rewrite length_alter|].
  intros i st Hi. rewrite lookup_update_obj, Hi. case_decide; simpl; eexists; split; try done. apply Hf. congruence.
Qed.

(** Nothing is sent. *)
Lemma calm_still s s' : still s s' -> padding s' = padding s -> w s' = w s -> (die s = true -> die s' = true) -> calm P s s'.
Proof.
  intros H Hp Hw Hd. split; rewrite ?Hp, ?Hw; try done. intros m out _ Hf. exists m, []. rewrite app_nil_r. by split_and!.
Qed.

Lemma calm_same s s' :
  objs s' = objs s -> streams s' ⊆ streams s -> (forall o, pc s' = Piping o <-> pc s = Piping o) ->
  streamId s' = streamId s -> isClient s' = isClient s -> padding s' = padding s -> w s' = w s -> (die s = true -> die s' = true) -> calm P s s'.
Proof. intros. apply calm_still; [by apply still_same|done|done|done]. Qed.

Lemma calm_update s o f : (forall st, same_pipe st (f st)) -> calm P s (update_obj s o f).
Proof. intros Hf. apply calm_still; [by apply still_update|done|done|done]. Qed.

Lemma calm_closeLocally s o : calm P s (closeLocally s o).
Proof.
  unfold closeLocally. destruct (objs s !! o) as [st|]; [|done]. destruct (died st); [done|].
  etrans; [apply (calm_update s o (fun st => kill st ErrNetClosed)); by split|]. by apply calm_same.
Qed.

Lemma calm_Close s : calm P s (Close s).1.
Proof.
  unfold Close. destruct (die s); [done|]. cbn [fst].
  assert (forall l s, calm P s (foldl closeLocally s l)) as Hl.
  { induction l as [|o l IH]; intros s0; [done|]. simpl. etrans; [apply calm_closeLocally|apply IH]. }
  set (s1 := foldl closeLocally _ _). assert (calm P s s1) as H1 by (etrans; [|apply Hl]; by apply calm_same).
  etrans; [exact H1|]. split; try done; [apply still_same; try done; apply map_empty_subseteq| |].
  - intros m out _ H. exists m, []. rewrite app_nil_r. split_and!; [|done|done|done]. by apply flow_close.
  - intros m out _ H. simpl. by rewrite (proj1 (law_close _)).
Qed.

Lemma calm_set_pc s x : (forall o, pc s <> Piping o) -> (forall o, x <> Piping o) -> calm P s (set_pc s x).
Proof. intros H1 H2. apply calm_same; try done. intros o. split; intros E; [by destruct (H2 o)|by destruct (H1 o)]. Qed.

Lemma calm_finish s : (forall o, pc s <> Piping o) -> calm P s (finish s).
Proof.
  intros H. unfold finish. etrans; [apply calm_Close|]. apply calm_set_pc; [|done]. intros o E. by destruct (H o); rewrite pc_Close in E.
Qed.

Lemma calm_loop_top s : calm P s (loop_top s).
Proof.
  unfold loop_top. destruct (pc s) eqn:E; try done. destruct (die s); [|done]. apply calm_finish. intros o. by rewrite E.
Qed.

Lemma die_close s : die (Close s).1 = true.
Proof. destruct (Close_fields s) as (? & _). done. Qed.

Lemma calm_control ent s f : P f -> wf_frame f -> cmd f <> cmdWaste -> calm P s (writeControlFrame ent s f).1.
Proof.
  intros Hq Hf Hc. unfold writeControlFrame. destruct (control_write ent (padding s) (w s) f) as [w' e] eqn:E.
  assert (padding_ok (padding s) (w s) -> padding_ok (padding s) w') as Hpads by apply (control_write_padding _ _ _ _ _ _ E).
  assert (forall m out, padding_ok (padding s) (w s) -> flow m (w s) out -> conn_wire (w_conn (w s)) `prefix_of` conn_wire (w_conn w') /\
    exists m' fs, flow m' w' (out ++ fs) /\ Forall P fs /\ (m' = true -> m = true) /\ (e = None -> m = true -> m' = true)) as Hw.
  { intros m out Hp H. destruct (flow_control ent m (padding s) (w s) f w' e out Hp Hf Hc E H) as (Hw & m' & fs & Hfl & Hor & Hm & Hl).
    split; [done|]. exists m', fs. split_and!; [done| |done|done]. destruct Hor as [-> | ->]; by repeat constructor. }
  destruct e as [e|]; cbn [fst].
  - pose proof (calm_Close (set_w s w')) as [C1 C2 C3 C4 C5 C6]. split.
    + etrans; [|exact C1]. by apply still_same.
    + done.
    + intros Hp. by apply C3, Hpads.
    + intros m out Hp H. destruct (Hw m out Hp H) as (_ & m1 & fs & Hfl & HP & Hm & _).
      destruct (C4 m1 (out ++ fs) (Hpads Hp) Hfl) as (m2 & gs & Hfl2 & HP2 & Hm2 & _). exists m2, (fs ++ gs). rewrite app_assoc.
      split_and!; [done|by apply Forall_app|auto|]. by rewrite die_close.
    + intros _. apply die_close.
    + intros m out Hp H. destruct (Hw m out Hp H) as (Hwire & m1 & fs & Hfl & _). etrans; [exact Hwire|]. by eapply C6; [apply Hpads|].
  - split; try done; [by apply still_same| |].
    + intros m out Hp H. destruct (Hw m out Hp H) as (_ & m1 & fs & Hfl & HP & Hm & Hl). exists m1, fs. split_and!; auto.
    + intros m out Hp H. by destruct (Hw m out Hp H) as [? _].
Qed.

End still_ops.

Section calm_ops.
Context {C : Type} `{!NetConn C, !NetConnLaws C, !ConnBreaks C}.
Variable ent : Z -> nat -> Z.
Variable md5hex : bytes -> string.
Variable clientDebugPaddingScheme : bool.
Variable raw : bytes.
Implicit Types s : Session C.

(** Frames without data. *)
Lemma wf_newFrame c id : is_uint32 id -> wf_frame (newFrame c id).
Proof. intros. split; [done|done|]. done. Qed.

Lemma calm_closeWithError s o err :
  (forall st, objs s !! o = Some st -> is_uint32 (st_id st)) -> calm (quiet raw) s (closeWithError ent s o err).1.
Proof.
  intros Hid. unfold closeWithError. destruct (objs s !! o) as [st|]; [|done]. destruct (died st); [done|].
  assert (calm (quiet raw) s (update_obj s o (fun st => kill st err))) as H1 by (apply calm_update; by split).
  unfold streamClosed. destruct (die _); [etrans; [exact H1|]; by apply calm_same|].
  pose proof (calm_control (P := quiet raw) ent (update_obj s o (fun st => kill st err)) (newFrame cmdFIN (st_id st))) as H2.
  destruct (writeControlFrame ent _ _) as [s2 e]. cbn [fst] in *. etrans; [exact H1|]. etrans; [apply H2|].
  - by split_and!.
  - by apply wf_newFrame, Hid.
  - done.
  - apply calm_same; try done. apply delete_subseteq.
Qed.

(** Stream ids fit their field. *)
Definition ids32 s : Prop := forall o st, objs s !! o = Some st -> is_uint32 (st_id st).

(** Operations of the application, except those that pass data. *)
Definition calm_op (a : op) : bool :=
  match a with OpRecv | OpOpen | OpOpenNext _ | OpStreamRead _ _ | OpStreamWrite _ _ => false | _ => true end.

(** Error texts fit their field; another session sets a scheme only on a client, and its sizes fit. *)
Definition text_ok s (a : op) : Prop :=
  match a with
  | OpFailure _ (Some text) => len (to_bytes text) <= maxUint16
  | OpScheme p => isClient s = true /\ scheme_between 1 maxUint16 p = true
  | _ => True
  end.

Lemma calm_report s o f :
  is_uint32 (sid f) -> cmd f = cmdSYNACK -> len (data f) <= maxUint16 ->
  calm (quiet raw) s (writeControlFrame ent (update_obj s o set_reported) f).1.
Proof.
  intros Hs Hc Hl. etrans; [apply (calm_update s o set_reported); by split|]. apply calm_control.
  - split_and!; rewrite Hc; done.
  - split; [done|done|]. rewrite Hc. done.
  - by rewrite Hc.
Qed.

Lemma calm_exec s a :
  calm_op a = true -> text_ok s a -> ids32 s -> calm (quiet raw) s (exec ent md5hex clientDebugPaddingScheme s a).
Proof.
  intros Ha Ht Hid. unfold exec. destruct (held s a); [done|].
  destruct a as [d| | | |o|p| | |o|o k|o b|o|o err|o t now|o t now]; try done; cbn [run_op].
  - by apply calm_same.
  - unfold recv_error. destruct (pc s) eqn:E; try done; apply calm_finish; intros o; by rewrite E.
  - destruct Ht as [Hc Hp]. split; try done; [by apply still_same|by rewrite Hc|intros _ _; exact Hp|].
    intros m out _ H. exists m, []. rewrite app_nil_r. by split_and!.
  - apply calm_Close.
  - unfold synTimeout. destruct (synDone s); [apply calm_Close|done].
  - apply calm_closeWithError. apply Hid.
  - unfold HandshakeSuccess. destruct (objs s !! o) as [st|] eqn:Eo; [|done].
    assert (calm (quiet raw) s (update_obj s o set_reported)) as H1 by (apply calm_update; by split).
    destruct (_ && _); [|done]. apply calm_report; [by eapply Hid|done|done].
  - unfold HandshakeFailure. destruct (objs s !! o) as [st|] eqn:Eo; [|done].
    assert (calm (quiet raw) s (update_obj s o set_reported)) as H1 by (apply calm_update; by split).
    destruct err as [text|]; [|done]. destruct (_ && _); [|done]. apply calm_report; [by eapply Hid|done|done].
  - unfold stream_SetReadDeadline. destruct (objs s !! o) as [st|] eqn:Eo; [|done].
    destruct (Pipe.SetReadDeadline (st_pipe st) t now) as [p e] eqn:Ep. cbn [fst].
    assert (Pipe.writing p = Pipe.writing (st_pipe st) /\ Pipe.writeDeadline p = Pipe.writeDeadline (st_pipe st)) as [H1 H2]
      by (unfold Pipe.SetReadDeadline in Ep; case_match; by simplify_eq).
    apply calm_still; [|done|done|done]. apply still_update. intros st0 Hst0. simplify_eq. by split.
  - unfold stream_SetWriteDeadline. apply calm_update. by split.
Qed.

(** ** Turns of the receive loop that pass no data *)

Lemma calm_end_turn s (t : Session C * option (option goerror)) :
  (forall o, pc s <> Piping o) -> calm (quiet raw) s t.1 -> calm (quiet raw) s (end_turn t).
Proof.
  intros Hpc H. assert (forall o, pc t.1 <> Piping o) as Hp by (intros o E; by apply (Hpc o), (sl_piping _ _ (cm_still _ _ _ H))).
  destruct t as [s' [e|]]; cbn [end_turn fst] in *; (etrans; [exact H|]); [by apply calm_finish|apply calm_loop_top].
Qed.

(** A turn that answers with one frame. *)
Lemma calm_answer s s0 f (k : Session C -> Session C * option (option goerror)) :
  calm (quiet raw) s s0 -> quiet raw f -> wf_frame f -> cmd f <> cmdWaste -> (forall s1, calm (quiet raw) s s1 -> calm (quiet raw) s (k s1).1) ->
  calm (quiet raw) s (match writeControlFrame ent s0 f with (s, Some e) => return_ s (Some e) | (s, None) => k s end).1.
Proof.
  intros H0 Hq Hf Hc Hk. pose proof (calm_control (P := quiet raw) ent s0 f Hq Hf Hc) as H. destruct (writeControlFrame ent s0 f) as [s1 [e|]]; cbn [fst] in *.
  - cbn. by etrans.
  - apply Hk. by etrans.
Qed.

Lemma calm_FIN s id : calm (quiet raw) s (recv_FIN s id).1.
Proof.
  unfold recv_FIN. assert (calm (quiet raw) s (set_streams s (delete id (streams s)))) as H by (apply calm_same; try done; apply delete_subseteq).
  destruct (streams s !! id) as [o|]; [|done]. cbn. etrans; [exact H|apply calm_closeLocally].
Qed.

(** The session after it accepted stream [id]. *)
Definition accepted s (id : Z) : Session C :=
  add_spawned (set_streams (set_objs s (objs s ++ [newStream id])) (<[id := length (objs s)]> (streams s))) (length (objs s)).

(** A SYN is accepted, or registers nothing. *)
Lemma SYN_cases s id :
  is_uint32 id -> (forall o, pc s <> Piping o) ->
  calm (quiet raw) s (end_turn (recv_SYN ent s id)) \/ streams s !! id = None /\ end_turn (recv_SYN ent s id) = loop_top (accepted s id).
Proof.
  intros Hid Hpc. unfold recv_SYN. destruct (_ && _).
  - left. apply calm_end_turn; [done|]. pose proof (calm_control (P := quiet raw) ent s (Frame cmdAlert 0 (to_bytes "client did not send its settings"))) as H.
    destruct (writeControlFrame ent s _) as [s1 e]. apply H; [by split_and!|by split|done].
  - unfold acceptStream. destruct (streams s !! id) as [o|] eqn:E; [left; apply calm_loop_top|]. destruct (_ && _); [|right; done].
    left. apply calm_end_turn; [done|]. unfold refuseStream. apply calm_answer; try done.
    + by destruct (2 <=? _); split_and!.
    + destruct (2 <=? _); [by split|by apply wf_newFrame].
    + by destruct (2 <=? _).
Qed.

Lemma calm_header s h :
  pc s = Reading -> is_uint32 (StreamID h) -> Cmd h <> cmdSYN \/ has_payload h = true -> calm (quiet raw) s (end_turn (on_header ent s h)).
Proof.
  intros Hpc Hid Hn. assert (forall o, pc s <> Piping o) as Hnp by (intros o; by rewrite Hpc). apply calm_end_turn; [done|].
  unfold on_header. set (s0 := if bool_decide (Cmd h = cmdSYNACK) then set_synDone s false else s).
  assert (calm (quiet raw) s s0 /\ pc s0 = Reading) as [H0 Hpc0] by (unfold s0; case_bool_decide; [split; [by apply calm_same|done]|done]).
  destruct (has_payload h) eqn:Ep.
  - cbn. etrans; [exact H0|]. apply calm_set_pc; intros o; by rewrite ?Hpc0.
  - case_bool_decide; [by destruct Hn|]. case_bool_decide; [etrans; [exact H0|apply calm_FIN]|]. case_bool_decide; [|done].
    unfold recv_HeartRequest. apply calm_answer; [done|by split_and!|by apply wf_newFrame|done|done].
Qed.

Lemma calm_version s0 s v : calm (quiet raw) s0 s -> calm (quiet raw) s0 (check_version ent s v).1.
Proof.
  intros H. unfold check_version. destruct (Atoi v) as [n|]; [|done]. destruct (2 <=? n); [|done].
  apply calm_answer; [etrans; [exact H|by apply calm_same]|by split_and!|by split|done|done].
Qed.

Lemma calm_Settings s d : (isClient s = false -> RawScheme (padding s) = raw /\ len raw <= maxUint16) -> calm (quiet raw) s (recv_Settings ent s d).1.
Proof.
  intros Hr. unfold recv_Settings. destruct (isClient s) eqn:Ec; [done|]. destruct (Hr eq_refl) as [E Hl].
  assert (calm (quiet raw) s (set_receivedSettings s true)) as H1 by (by apply calm_same). cbn [padding set_receivedSettings].
  destruct (String.eqb _ _); [by apply calm_version|].
  apply calm_answer; [done| | |done|intros s1 Hs1; by apply calm_version].
  - by split_and!.
  - split; [done|by simpl; rewrite E|done].
Qed.

Lemma calm_Update s d :
  (isClient s = true -> forall p, NewPaddingFactory md5hex d = Some p -> scheme_between 1 maxUint16 p = true) ->
  calm (quiet raw) s (recv_UpdatePaddingScheme md5hex clientDebugPaddingScheme s d).1.
Proof.
  intros Hp. unfold recv_UpdatePaddingScheme. destruct (isClient s) eqn:Ec; simpl; [|done]. destruct clientDebugPaddingScheme; [done|]. simpl.
  unfold UpdatePaddingScheme. destruct (NewPaddingFactory md5hex d) as [p|] eqn:E; cbn.
  - split; try done; [by apply still_same|by rewrite Ec|intros _ _; by apply (Hp eq_refl)|].
    intros m out _ H. exists m, []. rewrite app_nil_r. by split_and!.
  - by apply calm_same.
Qed.

Lemma calm_payload s h d :
  pc s = Reading -> Cmd h <> cmdPSH -> (isClient s = false -> RawScheme (padding s) = raw /\ len raw <= maxUint16) ->
  (Cmd h = cmdUpdatePaddingScheme -> isClient s = true -> forall p, NewPaddingFactory md5hex d = Some p -> scheme_between 1 maxUint16 p = true) ->
  ids32 s -> calm (quiet raw) s (end_turn (on_payload ent md5hex clientDebugPaddingScheme s h d)).
Proof.
  intros Hpc Hn Hr Hp Hid. apply calm_end_turn; [intros o; by rewrite Hpc|]. unfold on_payload. repeat case_bool_decide; try done.
  - unfold recv_SYNACK. destruct (streams s !! StreamID h) as [o|]; [|done]. apply calm_closeWithError. apply Hid.
  - by apply calm_Settings.
  - apply calm_Update. by apply Hp.
  - unfold recv_ServerSettings. destruct (isClient s); [|done]. destruct (Atoi _) as [v|]; [|done]. destruct (0 <=? v); [|done]. by apply calm_same.
Qed.

End calm_ops.

(** ** What a session has heard *)

(** What the receive loop is offering to a reader. *)
Definition pending (st : Stream) : bytes := match Pipe.writing (st_pipe st) with Some ws => Pipe.wb ws | None => [] end.

(** After the frames [gs], with the reads [rl]: what was read from a stream and what is offered are
    the first part of the data of its id, and all of it while the stream is registered. *)
Record heard {C} (s : Session C) (gs : list frame) (rl : log) : Prop := {
  hd_idle o st : objs s !! o = Some st -> Pipe.writing (st_pipe st) <> None -> pc s = Piping o;
  hd_deadline o st : objs s !! o = Some st -> Deadline.closed (Pipe.writeDeadline (st_pipe st)) = false;
  hd_prefix o st : objs s !! o = Some st -> said rl o ++ pending st `prefix_of` data_of (st_id st) gs;
  hd_open id o st : streams s !! id = Some o -> objs s !! o = Some st -> said rl o ++ pending st = data_of id gs;
  hd_log o : objs s !! o = None -> said rl o = []
}.

Lemma data_of_snoc i gs f :
  data_of i (gs ++ [f]) = data_of i gs ++ if bool_decide (cmd f = cmdPSH) && (sid f =? i) then data f else [].
Proof. rewrite data_of_app. simpl. by rewrite app_nil_r. Qed.

Lemma same_pending st st' : same_pipe st st' -> pending st' = pending st.
Proof. intros [_ E _]. unfold pending. by rewrite E. Qed.

Section heard.
Context {C : Type} `{!NetConn C}.
Implicit Types s : Session C.

Lemma heard_still s s' gs rl : still s s' -> heard s gs rl -> heard s' gs rl.
Proof.
  intros Hst [H1 H2 H3 H4 H5]. split.
  - intros o st' Ho Hw. destruct (sl_back _ _ _ _ Hst Ho) as (st & Hs & [_ E _]). apply (sl_piping _ _ Hst), (H1 o st Hs). by rewrite <- E.
  - intros o st' Ho. destruct (sl_back _ _ _ _ Hst Ho) as (st & Hs & [_ _ E]). rewrite E. by eapply H2.
  - intros o st' Ho. destruct (sl_back _ _ _ _ Hst Ho) as (st & Hs & Hp). rewrite (sp_id _ _ Hp), (same_pending _ _ Hp). by apply H3.
  - intros id o st' Hi Ho. destruct (sl_back _ _ _ _ Hst Ho) as (st & Hs & Hp). rewrite (same_pending _ _ Hp).
    eapply H4; [|done]. by eapply lookup_weaken; [|apply Hst].
  - intros o Ho. apply H5. by apply (sl_none _ _ o Hst).
Qed.

Lemma heard_frames s gs gs' rl : (forall id, data_of id gs' = data_of id gs) -> heard s gs rl -> heard s gs' rl.
Proof.
  intros E [H1 H2 H3 H4 H5]. split; try done.
  - intros o st Ho. rewrite E. by apply H3.
  - intros id o st Hi Ho. rewrite E. by eapply H4.
Qed.

(** The top of the loop changes only where the loop is. *)
Lemma still_loop_top s : still s (loop_top s).
Proof.
  unfold loop_top. destruct (pc s) eqn:E; try done. destruct (die s) eqn:Ed; [|done]. rewrite finish_die by done.
  apply still_same; try done. intros o. rewrite E. done.
Qed.

Lemma update_None s o f i : objs (update_obj s o f) !! i = None -> objs s !! i = None.
Proof. rewrite lookup_update_obj. case_decide; [|done]. by destruct (objs s !! i). Qed.

(** A data frame is offered to the reader of its stream. *)
Lemma heard_PSH s gs rl f :
  session_ok s -> pc s = Reading -> cmd f = cmdPSH -> heard s gs rl ->
  heard (end_turn (recv_PSH s (sid f) (data f))) (gs ++ [f]) rl.
Proof.
  intros Hok Hpc Hc [H1 H2 H3 H4 H5].
  assert (forall i, data_of i (gs ++ [f]) = data_of i gs ++ if sid f =? i then data f else []) as Hd.
  { intros i. by rewrite data_of_snoc, bool_decide_true. }
  assert (forall o st, objs s !! o = Some st -> Pipe.writing (st_pipe st) = None) as Hidle.
  { intros o st Ho. destruct (Pipe.writing (st_pipe st)) eqn:E; [|done]. pose proof (H1 o st Ho) as H. rewrite E, Hpc in H. by discriminate H. }
  assert (forall o st, objs s !! o = Some st -> said rl o ++ pending st `prefix_of` data_of (st_id st) (gs ++ [f])) as Hpre.
  { intros o st Ho. rewrite Hd. by apply prefix_app_r, H3. }
  unfold recv_PSH. destruct (streams s !! sid f) as [o|] eqn:Es.
  - destruct (ok_live s _ _ Hok ltac:(by rewrite Hpc) Es) as (st & Ho & Hid & Hdd). rewrite Ho.
    unfold Pipe.write_begin. rewrite (so_pipe _ (ho_stream _ _ (ok_heap s Hok) _ _ Ho)), Hdd, (H2 o st Ho). cbn [end_turn go_on loop_top pc set_pc].
    set (f1 := fun st0 => set_pipe st0 _).
    assert (forall i st', objs (update_obj s o f1) !! i = Some st' -> i = o /\ st' = f1 st \/ i <> o /\ objs s !! i = Some st') as Hl.
    { intros i st'. rewrite lookup_update_obj. case_decide; [|by right]. subst i. rewrite Ho. intros [= <-]. by left. }
    assert (said rl o = data_of (sid f) gs) as Hsaid.
    { rewrite <- (H4 _ _ _ Es Ho). unfold pending. by rewrite (Hidle o st Ho), app_nil_r. }
    split.
    + intros i st' Hi Hw. destruct (Hl _ _ Hi) as [[-> ->]|[Hne Hi']]; [done|]. by rewrite (Hidle i st' Hi') in Hw.
    + intros i st' Hi. destruct (Hl _ _ Hi) as [[-> ->]|[_ Hi']]; [by apply (H2 o st)|by eapply H2].
    + intros i st' Hi. destruct (Hl _ _ Hi) as [[-> ->]|[_ Hi']]; [|by apply Hpre].
      change (st_id (f1 st)) with (st_id st). rewrite Hd, Hid, Z.eqb_refl, Hsaid. done.
    + intros id i st' Hid' Hi. change (streams s !! id = Some i) in Hid'. rewrite Hd. destruct (Hl _ _ Hi) as [[-> ->]|[Hne Hi']].
      * destruct (ok_table s Hok _ _ Hid') as (st1 & Ho1 & Hid1 & _). assert (id = sid f) as -> by congruence. rewrite Z.eqb_refl, Hsaid. done.
      * rewrite (H4 _ _ _ Hid' Hi'). destruct (Z.eqb_spec (sid f) id) as [<-|]; [congruence|]. by rewrite app_nil_r.
    + intros i Hi. by apply H5, (update_None s o f1).
  - cbn [end_turn go_on]. eapply heard_still; [apply still_loop_top|]. split; try done. intros id o st Hi Ho. rewrite Hd. destruct (Z.eqb_spec (sid f) id) as [<-|]; [congruence|].
    rewrite app_nil_r. by eapply H4.
Qed.

(** The loop goes on when the reader took everything or the stream is dead. *)
Lemma heard_piping ent md5hex debug s gs rl o :
  session_ok s -> pc s = Piping o -> heard s gs rl -> heard (recv_step ent md5hex debug s) gs rl.
Proof.
  intros Hok Hpc [H1 H2 H3 H4 H5]. unfold recv_step. rewrite Hpc.
  destruct (ho_pc _ _ (ok_heap s Hok) o Hpc) as (st & ws & Ho & Hw). rewrite Ho, Hw.
  destruct (negb (Pipe.wants_reader ws) || Pipe.done (st_pipe st)) eqn:E; [|by split].
  eapply heard_still; [apply still_loop_top|].
  set (f1 := fun st0 => set_pipe st0 _).
  assert (forall i st', objs (set_pc (update_obj s o f1) Reading) !! i = Some st' -> i = o /\ st' = f1 st \/ i <> o /\ objs s !! i = Some st') as Hl.
  { intros i st'. change (objs (set_pc (update_obj s o f1) Reading)) with (objs (update_obj s o f1)).
    rewrite lookup_update_obj. case_decide; [|by right]. subst i. rewrite Ho. intros [= <-]. by left. }
  assert (pending (f1 st) = []) as Hp0 by done.
  split.
  - intros i st' Hi Hwr. destruct (Hl _ _ Hi) as [[-> ->]|[Hne Hi']]; [done|]. pose proof (H1 i st' Hi' Hwr) as H. rewrite Hpc in H. congruence.
  - intros i st' Hi. destruct (Hl _ _ Hi) as [[-> ->]|[_ Hi']]; [by apply (H2 o st)|by eapply H2].
  - intros i st' Hi. destruct (Hl _ _ Hi) as [[-> ->]|[_ Hi']]; [|by apply H3]. rewrite Hp0, app_nil_r. etrans; [|by apply (H3 o st)].
    by apply prefix_app_r.
  - intros id i st' Hid Hi. change (streams s !! id = Some i) in Hid. destruct (Hl _ _ Hi) as [[-> ->]|[_ Hi']]; [|by eapply H4].
    rewrite <- (H4 _ _ _ Hid Ho), Hp0. destruct (ok_live s _ _ Hok ltac:(by rewrite Hpc) Hid) as (st1 & Ho1 & _ & Hdd). simplify_eq.
    rewrite (so_pipe _ (ho_stream _ _ (ok_heap s Hok) _ _ Ho)), Hdd, orb_false_r in E. apply negb_true_iff, Pipe.wants_reader_false in E.
    unfold pending. by rewrite Hw, E.
  - intros i Hi. by apply H5, (update_None s o f1).
Qed.

(** A new stream, registered or not. *)
Lemma heard_new s s' gs rl id :
  session_ok s -> objs s' = objs s ++ [newStream id] ->
  (forall i o, streams s' !! i = Some o -> streams s !! i = Some o \/ i = id /\ o = length (objs s)) ->
  (forall o, pc s' = Piping o <-> pc s = Piping o) -> data_of id gs = [] -> heard s gs rl -> heard s' gs rl.
Proof.
  intros Hok Hobjs Hstr Hpc Hnone [H1 H2 H3 H4 H5].
  assert (said rl (length (objs s)) = []) as Hsaid by (apply H5, lookup_ge_None; lia).
  assert (forall o st, objs s' !! o = Some st -> objs s !! o = Some st \/ o = length (objs s) /\ st = newStream id) as Hl.
  { intros o st. rewrite Hobjs. intros [Ho|[Hge Ho]]%lookup_app_Some; [by left|]. right. apply list_lookup_singleton_Some in Ho as [Hz <-]. split; [lia|done]. }
  split.
  - intros o st Ho Hw. destruct (Hl _ _ Ho) as [Ho'|[-> ->]]; [|done]. apply Hpc. by eapply H1.
  - intros o st Ho. destruct (Hl _ _ Ho) as [Ho'|[-> ->]]; [by eapply H2|done].
  - intros o st Ho. destruct (Hl _ _ Ho) as [Ho'|[-> ->]]; [by apply H3|]. rewrite Hsaid. apply prefix_nil.
  - intros i o st Hi Ho. destruct (Hstr _ _ Hi) as [Hi'|[-> ->]].
    + destruct (ok_table s Hok _ _ Hi') as (st1 & Ho1 & _). destruct (Hl _ _ Ho) as [Ho'|[-> ->]]; [by eapply H4|].
      by rewrite lookup_ge_None_2 in Ho1.
    + rewrite Hnone, Hsaid. destruct (Hl _ _ Ho) as [Ho'|[_ ->]]; [by rewrite lookup_ge_None_2 in Ho'|done].
  - intros o Ho. apply H5. rewrite Hobjs in Ho. apply lookup_ge_None in Ho. rewrite length_app in Ho. apply lookup_ge_None. lia.
Qed.

(** Counting changes only counters. *)
Lemma still_count s o n : still s (count_tx s o n) /\ still s (count_rx s o n).
Proof.
  unfold count_tx, count_rx. destruct (objs s !! o) as [st|]; [|done].
  split; (etrans; [|apply still_update; by split]); (destruct (CountIdentity st); [by apply still_same|done]).
Qed.

Lemma count_fields s o n :
  w (count_tx s o n) = w s /\ w (count_rx s o n) = w s /\ padding (count_tx s o n) = padding s /\ padding (count_rx s o n) = padding s.
Proof. unfold count_tx, count_rx. destruct (objs s !! o) as [st|]; [|done]. by destruct (CountIdentity st). Qed.

(** A read takes from what is offered. *)
Lemma heard_read s o k s' d e gs rl :
  stream_Read s o k = Some (s', d, e) -> heard s gs rl -> heard s' gs (rl ++ [(o, d)]) /\ w s' = w s /\ padding s' = padding s /\
  (forall i st', objs s' !! i = Some st' -> exists st, objs s !! i = Some st /\ st_id st' = st_id st) /\ length (objs s') = length (objs s) /\
  streamId s' = streamId s /\ isClient s' = isClient s /\ inp s' = inp s /\ pc s' = pc s.
Proof.
  unfold stream_Read. destruct (objs s !! o) as [st|] eqn:Ho; [|done]. intros H Hh.
  destruct (Pipe.read_begin (st_pipe st)) as [er|].
  { simplify_eq. split_and!; try done; [|eauto]. destruct Hh as [H1 H2 H3 H4 H5].
    assert (forall i, said (rl ++ [(o, [])]) i = said rl i) as Es by (intros i; rewrite said_snoc; case_decide; by rewrite app_nil_r).
    split; try done; intros; rewrite Es; eauto. }
  destruct (Pipe.writing (st_pipe st)) as [ws|] eqn:Hw; [|done]. destruct (Pipe.wants_reader ws); [|done].
  destruct (Pipe.transfer ws k) as [d1 ws'] eqn:Et. set (f1 := fun st0 => set_pipe st0 _) in H.
  assert (d1 ++ Pipe.wb ws' = Pipe.wb ws) as Hd by (pose proof (Pipe.transfer_splits ws k) as Hs; by rewrite Et in Hs).
  assert (forall i st', objs (update_obj s o f1) !! i = Some st' -> i = o /\ st' = f1 st \/ i <> o /\ objs s !! i = Some st') as Hl.
  { intros i st'. rewrite lookup_update_obj. case_decide; [|by right]. subst i. rewrite Ho. intros [= <-]. by left. }
  assert (heard (update_obj s o f1) gs (rl ++ [(o, d1)])) as H1.
  { destruct Hh as [H1 H2 H3 H4 H5].
    assert (said (rl ++ [(o, d1)]) o ++ pending (f1 st) = said rl o ++ pending st) as Eo.
    { rewrite said_snoc, decide_True by done. unfold pending. simpl. by rewrite Hw, <- app_assoc, Hd. }
    assert (forall i, i <> o -> said (rl ++ [(o, d1)]) i = said rl i) as Ei by (intros i Hi; rewrite said_snoc, decide_False by done; by rewrite app_nil_r).
    split.
    - intros i st' Hi Hwr. destruct (Hl _ _ Hi) as [[-> ->]|[Hne Hi']]; [|by eapply H1]. apply (H1 o st Ho). by rewrite Hw.
    - intros i st' Hi. destruct (Hl _ _ Hi) as [[-> ->]|[Hne Hi']]; [by apply (H2 o st)|by eapply H2].
    - intros i st' Hi. destruct (Hl _ _ Hi) as [[-> ->]|[Hne Hi']]; [rewrite Eo; exact (H3 o st Ho)|rewrite Ei by done; by apply H3].
    - intros id i st' Hid Hi. change (streams s !! id = Some i) in Hid. destruct (Hl _ _ Hi) as [[-> ->]|[Hne Hi']]; [rewrite Eo|rewrite Ei by done]; by eapply H4.
    - intros i Hi%update_None. destruct (decide (i = o)) as [->|Hne]; [congruence|]. rewrite Ei by done. by apply H5. }
  assert (still (update_obj s o f1) s' /\ d = d1 /\ w s' = w s /\ padding s' = padding s /\ inp s' = inp s /\ pc s' = pc s) as (Hst & -> & Hws & Hps & Hin & Hpcs).
  { injection H as <- <- <-. destruct (0 <? len d1); [|done].
    destruct (count_fields (update_obj s o f1) o (len d1)) as (-> & _ & -> & _). split; [apply still_count|].
    unfold count_tx. destruct (objs (update_obj s o f1) !! o) as [st0|]; [|done]. by destruct (CountIdentity st0). }
  split_and!; try done; [by eapply heard_still| | | |].
  - intros i st' Hi. destruct (sl_back _ _ _ _ Hst Hi) as (st1 & Hs1 & Hp1). rewrite (sp_id _ _ Hp1).
    destruct (Hl _ _ Hs1) as [[-> ->]|[_ ?]]; eauto.
  - rewrite (sl_len _ _ Hst). simpl. by rewrite length_alter.
  - by rewrite (sl_streamId _ _ Hst).
  - by rewrite (sl_client _ _ Hst).
Qed.

End heard.

(** ** What a session has said *)

(** With the writes [wl]: the data of a stream in the frames sent is the first part of what was
    written, and all of it unless the connection is stuck. *)
Record spoke {C} `{!NetConn C, !ConnBreaks C} (m : bool) (s : Session C) (out : list frame) (wl : log) : Prop := {
  sk_flow : flow m (w s) out;
  sk_data o st : objs s !! o = Some st ->
    data_of (st_id st) out `prefix_of` said wl o /\ (m = true -> data_of (st_id st) out = said wl o);
  sk_log o : objs s !! o = None -> said wl o = []
}.

(** A call of [Write] that returns before it gets to the session. *)
Definition refused {C} (s : Session C) (o : nat) : bool :=
  match objs s !! o with
  | None => true
  | Some st => Deadline.closed (writeDeadline st) || match dieErr st with Some _ => true | None => false end
  end.

(** The bytes a call of [Write] hands to the session. *)
Definition attempted {C} (s : Session C) (o : nat) (b : bytes) : bytes := if refused s o then [] else b.

Definition ids_inj {C} (s : Session C) : Prop :=
  forall o o' st st', objs s !! o = Some st -> objs s !! o' = Some st' -> st_id st = st_id st' -> o = o'.

Section spoke.
Context {C : Type} `{!NetConn C, !NetConnLaws C, !ConnBreaks C}.
Variable ent : Z -> nat -> Z.
Implicit Types s : Session C.

(** The same streams, a flow with frames without data. *)
Lemma spoke_still m m' s s' out fs wl :
  still s s' -> flow m' (w s') (out ++ fs) -> (m' = true -> m = true) -> (forall id, data_of id fs = []) ->
  spoke m s out wl -> spoke m' s' (out ++ fs) wl.
Proof.
  intros Hst Hf Hm Hn [H1 H2 H3]. split; [done| |].
  - intros o st' Ho. destruct (sl_back _ _ _ _ Hst Ho) as (st & Hs & Hp). rewrite (sp_id _ _ Hp), data_of_app, Hn, app_nil_r.
    destruct (H2 o st Hs) as [Hpre Heq]. split; [done|auto].
  - intros o Ho. apply H3. by apply (sl_none _ _ o Hst).
Qed.

Lemma spoke_calm raw m s s' out wl :
  calm (quiet raw) s s' -> padding_ok (padding s) (w s) -> spoke m s out wl ->
  exists m' fs, spoke m' s' (out ++ fs) wl /\ Forall (quiet raw) fs /\ (m = true -> die s' = false -> m' = true) /\ conn_wire (w_conn (w s)) `prefix_of` conn_wire (w_conn (w s')).
Proof.
  intros Hc Hp Hs. destruct (cm_flow _ _ _ Hc m out Hp (sk_flow _ _ _ _ Hs)) as (m' & fs & Hf & Hq & Hm & Hl).
  exists m', fs. split_and!; [|done|done|by eapply Hc, Hs]. eapply spoke_still; [apply Hc|done|done| |done]. intros id. by eapply data_of_quiet.
Qed.

Lemma spoke_write m s o b out wl :
  ids32 s -> ids_inj s -> padding_ok (padding s) (w s) -> spoke m s out wl ->
  let s' := (stream_Write ent s o b).1.1 in
  still s s' /\ padding s' = padding s /\ padding_ok (padding s') (w s') /\ inp s' = inp s /\ pc s' = pc s /\
  conn_wire (w_conn (w s)) `prefix_of` conn_wire (w_conn (w s')) /\
  exists m' ps, spoke m' s' (out ++ ps) (wl ++ [(o, attempted s o b)]) /\
    (m = true -> refused s o = true \/ (stream_Write ent s o b).2 = None -> m' = true) /\
    forall f, f ∈ ps -> cmd f = cmdPSH /\ exists st, objs s !! o = Some st /\ sid f = st_id st.
Proof.
  intros Hid Hinj Hp [H1 H2 H3]. unfold stream_Write, attempted, refused.
  assert (forall x, x = [] -> spoke m s (out ++ []) (wl ++ [(o, x)])) as Hnone.
  { intros x ->. rewrite app_nil_r. split; [done|intros i st Hi|intros i Hi];
      rewrite said_snoc; destruct (decide (o = i)); rewrite app_nil_r; eauto. }
  assert (forall Q : Prop, still s s /\ padding s = padding s /\ padding_ok (padding s) (w s) /\ inp s = inp s /\ pc s = pc s /\
    conn_wire (w_conn (w s)) `prefix_of` conn_wire (w_conn (w s)) /\ exists m' ps, spoke m' s (out ++ ps) (wl ++ [(o, [])]) /\ (m = true -> Q -> m' = true) /\
    forall f, f ∈ ps -> cmd f = cmdPSH /\ exists st, objs s !! o = Some st /\ sid f = st_id st) as Href.
  { intros Q. split_and!; try done. exists m, []. split; [by apply Hnone|]. split; [done|]. by intros f Hf%elem_of_nil. }
  destruct (objs s !! o) as [st|] eqn:Ho; [|apply Href]. destruct (Deadline.closed (writeDeadline st)); [apply Href|].
  destruct (dieErr st); [apply Href|]. clear Href Hnone. cbn [orb].
  destruct (writeDataFrame ent (padding s) (w s) (st_id st) b) as [[w' n] e] eqn:Ew. cbn zeta. cbn [fst].
  destruct (flow_data ent m (padding s) (w s) (st_id st) b w' n e out (Hid o st Ho) Hp Ew H1) as (Hwire & m' & ps & Hf & Hps & Hpre & Hm & Hm0 & Hlive).
  set (s' := if 0 <? n then _ else _).
  assert (still (set_w s w') s' /\ w s' = w' /\ padding s' = padding s /\ inp s' = inp s /\ pc s' = pc s) as (Hst & Hw & Hpad & Hin & Hpc).
  { unfold s'. destruct (0 <? n); [|done]. destruct (count_fields (set_w s w') o n) as (_ & -> & _ & ->). split; [apply still_count|].
    unfold count_rx. destruct (objs (set_w s w') !! o) as [st0|]; [|done]. by destruct (CountIdentity st0). }
  assert (still s s') as Hst' by (etrans; [|exact Hst]; by apply still_same).
  split_and!; try done.
  - rewrite Hpad, Hw. by apply (writeDataFrame_padding _ _ _ _ _ _ _ _ Ew).
  - by rewrite Hw.
  - exists m', ps. split; [|split].
    + split; [by rewrite Hw| |].
      * intros i st' Hi. destruct (sl_back _ _ _ _ Hst' Hi) as (st1 & Hs1 & Hp1). rewrite (sp_id _ _ Hp1), data_of_app, said_snoc.
        destruct (H2 i st1 Hs1) as [Hpre1 Heq1]. case_decide as Ei.
        -- subst i. assert (st1 = st) as -> by congruence. rewrite (data_of_psh (st_id st) ps) by done. split.
           ++ destruct m; [rewrite (Heq1 eq_refl); by apply prefix_app|].
              rewrite (Hm0 eq_refl). simpl. rewrite app_nil_r. by apply prefix_app_r.
           ++ intros ->. destruct (Hm eq_refl) as [-> ->]. by rewrite Heq1.
        -- assert (data_of (st_id st1) ps = []) as ->; [|rewrite !app_nil_r; split; [done|]; intros ->; apply Heq1; by apply Hm].
           apply data_of_none. intros f Hfp _ E. rewrite Forall_forall in Hps. destruct (Hps f Hfp) as [_ Hsf]. apply Ei.
           apply (Hinj o i st st1 Ho Hs1). congruence.
      * intros i Hi. rewrite said_snoc, decide_False; [rewrite app_nil_r; apply H3; by apply (sl_none _ _ i Hst')|].
        intros ->. apply (sl_none _ _ i Hst') in Hi. congruence.
    + intros Hm1 [?|He]; [done|]. by apply Hlive.
    + intros f Hfp. rewrite Forall_forall in Hps. destruct (Hps f Hfp) as [Hc Hs]. split; [done|]. by exists st.
Qed.

(** A writer after [writeControlFrame]. *)
Lemma control_flow m s f out :
  padding_ok (padding s) (w s) -> wf_frame f -> cmd f <> cmdWaste -> flow m (w s) out ->
  conn_wire (w_conn (w s)) `prefix_of` conn_wire (w_conn (w (writeControlFrame ent s f).1)) /\
  exists m' fs, flow m' (w (writeControlFrame ent s f).1) (out ++ fs) /\ (fs = [f] \/ fs = []) /\ (m' = true -> m = true) /\
    (m = true -> die (writeControlFrame ent s f).1 = false -> m' = true).
Proof.
  intros Hp Hf Hc H. unfold writeControlFrame. destruct (control_write ent (padding s) (w s) f) as [w' e] eqn:E.
  destruct (flow_control ent m (padding s) (w s) f w' e out Hp Hf Hc E H) as (Hw & m1 & fs & H1 & Hfs & Hm1 & Hl1). destruct e as [e|]; cbn [fst].
  - destruct (cm_flow (fun _ => False) _ _ (calm_Close (set_w s w')) m1 (out ++ fs)) as (m2 & gs & H2 & Hgs & Hm2 & _);
      [by apply (control_write_padding _ _ _ _ _ _ E)|done|]. destruct gs; [|by inv Hgs]. rewrite app_nil_r in H2.
    split; [|exists m2, fs; split_and!; auto; by rewrite die_close]. etrans; [exact Hw|].
    eapply (cm_wire (fun _ => False) _ _ (calm_Close (set_w s w'))); [by apply (control_write_padding _ _ _ _ _ _ E)|done].
  - split; [done|]. exists m1, fs. split_and!; auto.
Qed.

(** A new stream object, before its SYN. *)
Lemma spoke_new m s s' out wl id :
  objs s' = objs s ++ [newStream id] -> w s' = w s -> data_of id out = [] -> spoke m s out wl -> spoke m s' out wl.
Proof.
  intros Ho Hw Hn [H1 H2 H3]. assert (said wl (length (objs s)) = []) as Hs by (apply H3, lookup_ge_None; lia). split; [by rewrite Hw| |].
  - intros o st. rewrite Ho. intros [Hl|[Hge Hl]]%lookup_app_Some; [by apply H2|].
    apply list_lookup_singleton_Some in Hl as [Hz <-]. assert (o = length (objs s)) as -> by lia. simpl. by rewrite Hn, Hs.
  - intros o. rewrite Ho. intros Hl%lookup_ge_None. rewrite length_app in Hl. apply H3, lookup_ge_None. lia.
Qed.

(** What the first part of [OpenStream] does on an open session. *)
Lemma open_effect m s out wl gs rl (id := uint32 (streamId s + 1)) (s' := open_start ent s) :
  session_ok s -> die s = false -> padding_ok (padding s) (w s) -> data_of id out = [] -> data_of id gs = [] ->
  spoke m s out wl -> heard s gs rl ->
  heard s' gs rl /\
  (exists m' fs, spoke m' s' (out ++ fs) wl /\ (fs = [newFrame cmdSYN id] \/ fs = []) /\ (m = true -> die s' = false -> m' = true)) /\
  padding_ok (padding s') (w s') /\ streamId s' = id /\ isClient s' = isClient s /\ pc s' = pc s /\ length (objs s') = S (length (objs s)) /\
  conn_wire (w_conn (w s)) `prefix_of` conn_wire (w_conn (w s')) /\
  forall o st', objs s' !! o = Some st' -> (exists st, objs s !! o = Some st /\ st_id st' = st_id st) \/ o = length (objs s) /\ st_id st' = id.
Proof.
  intros Hok Hd Hp Hno Hng Hsp Hh. assert (is_uint32 id) as Hid by (apply uint32_range).
  set (sa := set_objs (set_streamId s id) (objs s ++ [newStream id])).
  set (sb := if (2 <=? id) && (2 <=? peerVersion sa) then set_synDone sa true else sa).
  assert (objs sb = objs s ++ [newStream id] /\ w sb = w s /\ padding sb = padding s /\ streams sb = streams s /\ pc sb = pc s /\
    streamId sb = id /\ isClient sb = isClient s) as (Hb1 & Hb2 & Hb3 & Hb4 & Hb5 & Hb6 & Hb7) by (unfold sb; by destruct (_ && _)).
  pose proof (spoke_new m s sb out wl id Hb1 Hb2 Hno Hsp) as Hspb.
  assert (padding_ok (padding sb) (w sb)) as Hpb by (by rewrite Hb2, Hb3).
  pose proof (calm_control (P := fun _ => True) ent sb (newFrame cmdSYN id) I (wf_newFrame _ id Hid) ltac:(done)) as [Hst _ Hpads _ _ _].
  destruct (control_flow m sb (newFrame cmdSYN id) out Hpb (wf_newFrame _ id Hid) ltac:(done) (sk_flow _ _ _ _ Hspb)) as (Hwire & m' & fs & Hfl & Hfs & Hm & Hlive).
  set (s1 := (writeControlFrame ent sb (newFrame cmdSYN id)).1) in *.
  assert (exists x, s' = set_openCalls s1 x) as [x Es].
  { unfold s', open_start, open_SYN. rewrite Hd. fold id. cbn [alloc]. change (objs (set_streamId s id)) with (objs s). fold sa. fold sb. unfold s1.
    destruct (writeControlFrame ent sb (newFrame cmdSYN id)) as [s3 [e|]]; cbn [fst]; [exists (openCalls s3); by destruct s3|by eexists]. }
  assert (still s1 s') as Hst1 by (rewrite Es; by apply still_same).
  pose proof (pc_write ent sb (newFrame cmdSYN id)) as Hpc1. fold s1 in Hpc1.
  split_and!.
  - eapply heard_still; [exact Hst1|]. eapply heard_still; [exact Hst|]. eapply (heard_new s sb gs rl id); rewrite ?Hb4, ?Hb5; eauto; done.
  - exists m', fs. split_and!; [|done|by rewrite Es]. rewrite Es.
    assert (spoke m' s1 (out ++ fs) wl) as [G1 G2 G3]; [|by split].
    eapply spoke_still; [exact Hst|exact Hfl|done| |exact Hspb]. intros i. by destruct Hfs as [-> | ->].
  - rewrite Es. by apply Hpads.
  - by rewrite Es; simpl; rewrite (sl_streamId _ _ Hst).
  - by rewrite Es; simpl; rewrite (sl_client _ _ Hst).
  - by rewrite Es; simpl; rewrite Hpc1.
  - rewrite Es. simpl. rewrite (sl_len _ _ Hst), Hb1, length_app. simpl. lia.
  - by rewrite Es, <- Hb2.
  - intros o st' Ho. rewrite Es in Ho. destruct (sl_back _ _ _ _ Hst Ho) as (st0 & Ho0 & Hp0). rewrite (sp_id _ _ Hp0).
    rewrite Hb1 in Ho0. apply lookup_app_Some in Ho0 as [Ho0|[Hge Ho0]]; [left; eauto|]. right.
    apply list_lookup_singleton_Some in Ho0 as [Hz <-]. split; [lia|done].
Qed.

(** The rest of [OpenStream]: buffering ends, and the stream is registered. *)
Lemma calm_unbuffer raw s : calm (quiet raw) s (open_unbuffer s).
Proof.
  split; try done; [by apply still_same|]. intros m out _ Hf. exists m, []. rewrite app_nil_r. split_and!; try done.
Qed.

Lemma calm_next raw s o id : openCalls s !! o = Some (id, false) \/ die s = true \/ openCalls s !! o = None -> calm (quiet raw) s (open_next s o).
Proof.
  intros H. unfold open_next. destruct (openCalls s !! o) as [[i []]|] eqn:E; [| |done].
  - destruct H as [?|[Hd|?]]; [done| |done]. unfold open_register. rewrite Hd. by apply calm_same.
  - etrans; [apply calm_unbuffer|]. by apply calm_same.
Qed.

Lemma heard_register s gs rl id o st :
  objs s !! o = Some st -> st_id st = id -> data_of id gs = [] -> heard s gs rl ->
  heard (set_streams s (<[id := o]> (streams s))) gs rl.
Proof.
  intros Ho Hid Hn [H1 H2 H3 H4 H5]. split; try done. intros i j st' Hi Hj. simpl in Hi, Hj.
  apply lookup_insert_Some in Hi as [[<- <-]|[_ Hi]]; [|by eapply H4]. assert (st' = st) as -> by congruence.
  pose proof (H3 o st Ho) as Hp. rewrite Hid in Hp. rewrite Hn in Hp. rewrite Hn. by apply prefix_nil_inv in Hp.
Qed.

End spoke.

End SessionFlow.
