(* ===== verification/Link.v ===== *)
(** * Link: a client and a server joined by a connection

    The whole exchange: a client session and a server session, the bytes on the two wires
    between them, and a log of what the applications wrote and read.  A schedule is any
    interleaving of operations of either session, calls of [OpenStream] in their three parts
    among them, with the arrival of any number
    of bytes on either side.  The server writes to a stream only after it has read from it ([may_write]), as its handler does,
    which reads the destination first.  The theorems say that the streams the server serves are streams
    the client opened, and that the bytes read from a stream on one side are the first bytes
    written to it on the other, all of them once everything has arrived. *)

From S2P Require Import Prelude GoStrings StringMap Frame Padding NetConn WriteConn Pipe Session SessionSpec EndToEnd Flow SessionFlow.
#[local] Open Scope string_scope.
#[local] Open Scope list_scope.
#[local] Open Scope Z_scope.
#[local] Set Warnings "-clear-no-such-hyp".

Module Link.
Import Frame Padding WriteConn Session SessionSpec EndToEnd Flow SessionFlow.

(** ** Where a receiver stands in what was sent *)

Lemma read_header_app x y h r : read_header x = Some (h, r) -> read_header (x ++ y) = Some (h, r ++ y).
Proof. intros H. do 7 (destruct x as [|? x]; [done|]). simpl in *. by simplify_eq. Qed.

(** Frames read from the beginning of a stream of frames are its first frames. *)
Lemma encode_cut gs Gs x :
  Forall wf_frame gs -> Forall wf_frame Gs -> encode_all gs ++ x `prefix_of` encode_all Gs ->
  exists rest, Gs = gs ++ rest /\ x `prefix_of` encode_all rest.
Proof.
  intros Hgs. revert Gs. induction Hgs as [|f gs Hf Hgs IH]; intros Gs HGs Hp; [by exists Gs|].
  rewrite encode_all_cons, <- app_assoc in Hp. destruct Hp as [y Hy]. destruct HGs as [|g Gs Hg HGs].
  - apply (f_equal read_frame) in Hy. rewrite <- app_assoc, read_frame_encode in Hy by done. done.
  - apply (f_equal read_frame) in Hy. rewrite encode_all_cons, <- !app_assoc, !read_frame_encode in Hy by done. injection Hy as -> Hy.
    destruct (IH Gs HGs) as (rest & -> & Hx); [exists y; by rewrite <- app_assoc|]. by exists rest.
Qed.

(** A header read from such a stream is that of a frame. *)
Lemma next_header rest x h r :
  Forall wf_frame rest -> x `prefix_of` encode_all rest -> read_header x = Some (h, r) ->
  exists f rest', rest = f :: rest' /\ wf_frame f /\ Cmd h = cmd f /\ StreamID h = sid f /\ Length h = len (data f) /\
    r `prefix_of` data f ++ encode_all rest'.
Proof.
  intros Hr [y Hy] Hh. apply (read_header_app x y) in Hh. rewrite <- Hy in Hh. destruct Hr as [|f rest' Hf Hr]; [done|].
  rewrite encode_all_cons in Hh. destruct (read_header_encode f (encode_all rest') Hf) as (h' & Hh' & H1 & H2 & H3). rewrite Hh' in Hh.
  injection Hh as <- Hh. exists f, rest'. split_and!; try done. by exists y.
Qed.

(** [arr] is what has arrived and [gs] the frames that were handled. *)
Definition pos {C} (s : Session C) (arr : bytes) (gs : list frame) : Prop :=
  match pc s with
  | Returned => encode_all gs `prefix_of` arr
  | Payload h => exists hd, read_header hd = Some (h, []) /\ has_payload h = true /\ arr = encode_all gs ++ hd ++ inp s
  | _ => arr = encode_all gs ++ inp s
  end.

Lemma pos_handled {C} (s : Session C) arr gs : pos s arr gs -> encode_all gs `prefix_of` arr.
Proof.
  unfold pos. destruct (pc s); [intros ->|intros (hd & _ & _ & ->)|intros ->|done]; by apply prefix_app_r.
Qed.

Lemma pos_move {C} (s s' : Session C) arr gs : pc s' = pc s \/ pc s' = Returned -> inp s' = inp s -> pos s arr gs -> pos s' arr gs.
Proof. intros [E|E] Hi H; [unfold pos in *; by rewrite E, Hi|]. apply pos_handled in H. unfold pos. by rewrite E. Qed.

Section position.
Context {C : Type} `{!NetConn C}.
Variable ent : Z -> nat -> Z.
Variable md5hex : bytes -> string.
Variable clientDebugPaddingScheme : bool.
Implicit Types s : Session C.

Abbreviation recv := (recv_step ent md5hex clientDebugPaddingScheme).
Abbreviation act := (exec ent md5hex clientDebugPaddingScheme).

Lemma pos_arrive s arr gs d : pos s arr gs -> pos (set_inp s (inp s ++ d)) (arr ++ d) gs.
Proof.
  unfold pos. simpl. destruct (pc s); [intros ->; by rewrite app_assoc| |intros ->; by rewrite app_assoc|apply prefix_app_r].
  intros (hd & H1 & H2 & ->). exists hd. split_and!; [done|done|]. by rewrite <- !app_assoc.
Qed.

Lemma inp_app s a : is_app a = true -> inp (act s a) = inp s.
Proof. intros Ha. rewrite <- (set_inp_same s (inp s) eq_refl) at 1. by rewrite inp_act. Qed.


(** ** A turn of the receive loop *)

Lemma inp_payload s x h d :
  on_payload ent md5hex clientDebugPaddingScheme (set_inp s x) h d = with_inp (on_payload ent md5hex clientDebugPaddingScheme s h d) x.
Proof.
  unfold on_payload. repeat case_bool_decide; try done.
  - apply inp_recv_PSH.
  - unfold recv_SYNACK. cbn [streams set_inp]. destruct (streams s !! StreamID h) as [o|]; [|done]. by rewrite inp_closeWithError.
  - apply inp_recv_Settings.
  - unfold recv_UpdatePaddingScheme. cbn [isClient padding set_inp]. destruct (_ && _); [|done].
    by destruct (UpdatePaddingScheme md5hex (Some (padding s)) _) as [[p|] b'].
  - unfold recv_ServerSettings. cbn [isClient set_inp]. destruct (isClient s); [|done]. destruct (Atoi _); [|done]. by destruct (0 <=? _).
Qed.

Lemma between_payload s h d : between s -> between (end_turn (on_payload ent md5hex clientDebugPaddingScheme s h d)).
Proof.
  intros Hs. apply between_turn. unfold on_payload. repeat case_bool_decide; try done.
  - unfold recv_PSH. destruct (streams s !! StreamID h) as [o|]; [|done]. destruct (objs s !! o) as [st|]; [|done].
    by destruct (Pipe.write_begin (st_pipe st) _).
  - unfold recv_SYNACK. destruct (streams s !! StreamID h) as [o|]; [|done]. eapply between_same; [apply pc_closeWithError|done].
  - unfold recv_Settings. destruct (isClient s); [done|]. destruct (String.eqb _ _); [by apply between_version|].
    apply (between_answer ent s); [done| |done]. intros s1 Hpc1. apply between_version. by eapply between_same.
  - unfold recv_UpdatePaddingScheme. destruct (_ && _); [|done]. by destruct (UpdatePaddingScheme md5hex _ _) as [[p|] b'].
  - unfold recv_ServerSettings. destruct (isClient s); [|done]. destruct (Atoi _); [|done]. by destruct (0 <=? _).
Qed.

(** The position between two frames. *)
Lemma pos_between s arr gs : between s -> arr = encode_all gs ++ inp s -> pos s arr gs.
Proof. intros Hb ->. unfold pos. destruct (pc s) as [|h| |] eqn:E; [done|by destruct (Hb h)|done|by apply prefix_app_r]. Qed.

Lemma pos_payload s h d arr gs :
  pc s = Reading -> arr = encode_all gs ++ inp s -> pos (end_turn (on_payload ent md5hex clientDebugPaddingScheme s h d)) arr gs.
Proof.
  intros Hpc ->. apply pos_between; [apply between_payload; intros h'; by rewrite Hpc|].
  rewrite <- (set_inp_same s (inp s) eq_refl) at 2. by rewrite inp_payload, inp_end_turn.
Qed.

Lemma pos_handle s f arr gs : pc s = Reading -> arr = encode_all gs ++ inp s -> pos (handle_frame ent md5hex clientDebugPaddingScheme s f) arr gs.
Proof.
  intros Hpc ->. apply pos_between; [apply between_handle; intros h'; by rewrite Hpc|].
  rewrite <- (set_inp_same s (inp s) eq_refl) at 2. by rewrite inp_handle.
Qed.

(** The session between two frames, with [r] unread. *)
Definition at_frame s (r : bytes) : Session C := set_pc (set_inp s r) Reading.

Lemma at_frame_same s r : pc s = Reading -> at_frame s r = set_inp s r.
Proof. intros E. unfold at_frame. destruct s. simpl in *. by rewrite E. Qed.

End position.

Section turn.
Context {C : Type} `{!NetConn C, !NetConnLaws C, !ConnBreaks C}.
Variable ent : Z -> nat -> Z.
Variable md5hex : bytes -> string.
Variable clientDebugPaddingScheme : bool.
Variable raw : bytes.
Implicit Types s : Session C.

Abbreviation recv := (recv_step ent md5hex clientDebugPaddingScheme).

(** What a turn does with the next frame [f]. *)
Definition takes s0 (f : frame) s' : Prop :=
  cmd f = cmdSYN /\ s' = end_turn (recv_SYN ent s0 (sid f)) \/
  cmd f = cmdPSH /\ s' = end_turn (recv_PSH s0 (sid f) (data f)) \/
  (cmd f = cmdPSH -> data f = []) /\ cmd f <> cmdSYN /\ calm (quiet raw) s0 s'.

Lemma at_frame_ok s r : pc s <> Returned -> session_ok s -> session_ok (at_frame s r).
Proof. intros Hpc Hok. apply set_pc_ok; [done|by right; left|by apply set_inp_ok]. Qed.

Lemma calm_at_frame s r : (forall o, pc s <> Piping o) -> calm (quiet raw) s (at_frame s r).
Proof. intros Hp. unfold at_frame. etrans; [by apply (calm_same s (set_inp s r))|]. by apply calm_set_pc. Qed.

(** A header without data is the whole frame. *)
Lemma header_takes s f h r arr gs :
  session_ok s -> pc s = Reading -> wf_frame f -> data f = [] ->
  Cmd h = cmd f -> StreamID h = sid f -> Length h = 0 -> arr = encode_all gs ++ encode f ++ r ->
  pos (end_turn (on_header ent (set_inp s r) h)) arr (gs ++ [f]) /\ takes (at_frame s r) f (end_turn (on_header ent (set_inp s r) h)).
Proof.
  intros Hok Hpc Hf He Hc Hs Hl ->.
  assert (end_turn (on_header ent (set_inp s r) h) = handle_frame ent md5hex clientDebugPaddingScheme (at_frame s r) f) as E.
  { rewrite at_frame_same by done. unfold on_header, handle_frame, has_payload. rewrite Hc, Hs, Hl, He, andb_false_r.
    repeat case_bool_decide; first [done | cmd_clash]. }
  split.
  - rewrite E. apply pos_handle; [done|]. by rewrite encode_all_app, encode_all_cons, app_nil_r, <- app_assoc.
  - rewrite at_frame_same by done. destruct (decide (cmd f = cmdSYN)) as [Hsyn|Hsyn].
    + left. split; [done|]. unfold on_header, has_payload. rewrite Hc, Hs, Hl, andb_false_r, Hsyn. done.
    + right. right. split_and!; [done|done|]. apply calm_header; [done| |left; by rewrite Hc]. rewrite Hs. apply Hf.
Qed.

(** A frame whose data has been read. *)
Lemma payload_takes s f h r :
  ids32 s -> Cmd h = cmd f -> StreamID h = sid f -> data f <> [] -> wf_frame f ->
  (isClient s = false -> RawScheme (padding s) = raw /\ len raw <= maxUint16) ->
  (cmd f = cmdUpdatePaddingScheme -> isClient s = true -> forall p, NewPaddingFactory md5hex (data f) = Some p -> scheme_between 1 maxUint16 p = true) ->
  takes (at_frame s r) f (end_turn (on_payload ent md5hex clientDebugPaddingScheme (at_frame s r) h (data f))).
Proof.
  intros Hid Hc Hs Hne Hf Hr Hp. destruct (decide (cmd f = cmdPSH)) as [Hpsh|Hpsh].
  - right. left. split; [done|]. unfold on_payload. rewrite Hc, Hs, bool_decide_true by done. done.
  - right. right. split_and!; [done| |].
    + intros E. apply Hne, (wf_data f Hf). by rewrite E.
    + apply calm_payload; try done; [by rewrite Hc|]. rewrite Hc. done.
Qed.

(** What a turn of the loop does after the frames [gs], on the first bytes of an encoding of [Gs]: it waits or
    ends, or a pipe write ends, or the next frame is taken. *)
Definition recv_result s arr gs Gs s' : Prop :=
  pos s' arr gs /\ calm (quiet raw) s s' \/
  (exists o, pc s = Piping o) /\ pos s' arr gs \/
  exists f rest r, Gs = gs ++ f :: rest /\ wf_frame f /\ pos s' arr (gs ++ [f]) /\ (forall o, pc s <> Piping o) /\ pc s <> Returned /\ takes (at_frame s r) f s'.

(** The loop is about to read a header. *)
Lemma recv_reading s arr gs Gs :
  session_ok s -> Forall wf_frame gs -> Forall wf_frame Gs -> arr `prefix_of` encode_all Gs -> pos s arr gs -> pc s = Reading ->
  recv_result s arr gs Gs (recv s).
Proof.
  intros Hok Hgs HGs Harr Hpos Epc. unfold recv_step. rewrite Epc.
  assert (forall o, pc s <> Piping o) as Hnp by (intros o; by rewrite Epc).
  assert (arr = encode_all gs ++ inp s) as Ea by (unfold pos in Hpos; by rewrite Epc in Hpos).
  destruct (read_header (inp s)) as [[h r]|] eqn:Eh; [|left; split; [done|done]].
  rewrite Ea in Harr. destruct (encode_cut gs Gs (inp s) Hgs HGs Harr) as (rest & -> & Hx).
  destruct (next_header rest (inp s) h r ltac:(by apply Forall_app in HGs as [_ ?]) Hx Eh) as (f & rest' & -> & Hf & Hc & Hs & Hl & Hrr).
  destruct (has_payload h) eqn:Ep.
  - left. split.
    + unfold on_header. rewrite Ep. unfold pos. simpl.
      destruct (inp s) as [|b0 [|b1 [|b2 [|b3 [|b4 [|b5 [|b6 x]]]]]]] eqn:Ei; try done. simpl in Eh. injection Eh as <- <-.
      exists [b0; b1; b2; b3; b4; b5; b6]. split_and!; [done|done|]. rewrite Ea. simpl. by case_bool_decide.
    + etrans; [by apply (calm_same s (set_inp s r))|]. apply calm_header; [done|rewrite Hs; apply Hf|by right].
  - right. right. assert (data f = [] /\ Length h = 0) as [He Hl0].
    { unfold has_payload in Ep. rewrite Hc, Hl in Ep. destruct (carries_data (cmd f)) eqn:Ec; simpl in Ep.
      - apply Z.ltb_ge in Ep. pose proof (len_nonneg (data f)). assert (len (data f) = 0) as E0 by lia. split; [by apply len_zero_nil|by rewrite Hl].
      - rewrite Hl, (wf_data f Hf Ec). done. }
    assert (inp s = encode f ++ r) as Ei.
    { destruct Hx as [y Hy]. rewrite encode_all_cons in Hy. pose proof (read_header_app _ y _ _ Eh) as Hh. rewrite <- Hy in Hh.
      unfold encode in *. rewrite He in *. destruct (inp s) as [|b0 [|b1 [|b2 [|b3 [|b4 [|b5 [|b6 x]]]]]]]; try done.
      simpl in *. by simplify_eq. }
    exists f, rest', r. split; [done|]. split; [done|].
    destruct (header_takes s f h r arr gs Hok Epc Hf He Hc Hs Hl0) as [H1 H2]; [by rewrite Ea, Ei|]. split_and!; try done. by rewrite Epc.
Qed.

(** The loop is about to read the data of a frame. *)
Lemma recv_at_payload s arr gs Gs h :
  ids32 s -> Forall wf_frame gs -> Forall wf_frame Gs -> arr `prefix_of` encode_all Gs -> pos s arr gs -> pc s = Payload h ->
  (isClient s = false -> RawScheme (padding s) = raw /\ len raw <= maxUint16) ->
  (forall f, f ∈ Gs -> cmd f = cmdUpdatePaddingScheme -> isClient s = true -> forall p, NewPaddingFactory md5hex (data f) = Some p -> scheme_between 1 maxUint16 p = true) ->
  recv_result s arr gs Gs (recv s).
Proof.
  intros Hid Hgs HGs Harr Hpos Epc Hr Hp. unfold recv_step. rewrite Epc.
  assert (forall o, pc s <> Piping o) as Hnp by (intros o; by rewrite Epc).
  destruct (read_full (Length h) (inp s)) as [[d r]|] eqn:Ef; [|left; split; [done|done]].
  unfold pos in Hpos. rewrite Epc in Hpos. destruct Hpos as (hd & Hhd & Hpl & Ea).
  rewrite Ea in Harr. destruct (encode_cut gs Gs (hd ++ inp s) Hgs HGs Harr) as (rest & -> & Hx).
  pose proof (read_header_app hd (inp s) h [] Hhd) as Hh.
  destruct (next_header rest (hd ++ inp s) h (inp s) ltac:(by apply Forall_app in HGs as [_ ?]) Hx Hh) as (f & rest' & -> & Hf & Hc & Hs & Hl & [y Hy]).
  apply read_full_Some in Ef as [Ei Elen]; [|rewrite Hl; apply len_nonneg].
  assert (d = data f) as ->.
  { rewrite Ei, <- app_assoc in Hy. rewrite Hl in Elen. apply app_inj_1 in Hy as [Hy _]; [done|]. unfold len in Elen. lia. }
  assert (data f <> []) as Hne.
  { unfold has_payload in Hpl. rewrite Hl in Hpl. intros E. rewrite E in Hpl. by rewrite andb_false_r in Hpl. }
  assert (hd ++ data f = encode f) as He.
  { destruct Hx as [z Hz]. rewrite encode_all_cons in Hz. destruct hd as [|b0 [|b1 [|b2 [|b3 [|b4 [|b5 [|b6 [|]]]]]]]]; try done.
    unfold encode in *. simpl in *. by simplify_eq. }
  right. right. exists f, rest', r. split; [done|]. split; [done|]. split_and!; [|done|by rewrite Epc|].
  - apply pos_payload; [done|]. rewrite Ea, Ei, encode_all_app, encode_all_cons, app_nil_r. simpl. by rewrite (app_assoc hd), He, app_assoc.
  - apply payload_takes; try done. apply Hp, elem_of_app. right. by left.
Qed.

Lemma recv_cases s arr gs Gs :
  session_ok s -> ids32 s -> Forall wf_frame gs -> Forall wf_frame Gs -> arr `prefix_of` encode_all Gs -> pos s arr gs ->
  (isClient s = false -> RawScheme (padding s) = raw /\ len raw <= maxUint16) ->
  (forall f, f ∈ Gs -> cmd f = cmdUpdatePaddingScheme -> isClient s = true -> forall p, NewPaddingFactory md5hex (data f) = Some p -> scheme_between 1 maxUint16 p = true) ->
  recv_result s arr gs Gs (recv s).
Proof.
  intros Hok Hid Hgs HGs Harr Hpos Hr Hp. destruct (pc s) as [|h|o|] eqn:Epc; [by apply recv_reading|by apply (recv_at_payload s arr gs Gs h)| |].
  - right. left. split; [by exists o|]. assert (arr = encode_all gs ++ inp s) as Ea by (unfold pos in Hpos; by rewrite Epc in Hpos).
    assert (forall s0, pc s0 = Reading -> inp s0 = inp s -> pos (loop_top s0) arr gs) as Ht.
    { intros s0 Hpc0 Hi0. apply (pos_move s0); [unfold loop_top; rewrite Hpc0; destruct (die s0); auto| |unfold pos; by rewrite Hpc0, Hi0].
      unfold loop_top. rewrite Hpc0. destruct (die s0) eqn:Ed; [by rewrite finish_die|done]. }
    unfold recv_step. rewrite Epc.
    destruct (objs s !! o) as [st|]; [|by apply Ht]. destruct (Pipe.writing (st_pipe st)) as [ws|]; [|by apply Ht].
    destruct (_ || _); [by apply Ht|done].
  - left. unfold recv_step. by rewrite Epc.
Qed.

End turn.

(** ** One end of the connection *)

(** A session with what has arrived, what was written to its streams and what was read from
    them, and whether a write failed on the connection. *)
Record endpoint (C : Type) := MkEnd { ses : Session C; arrived : bytes; wrote : log; got : log; failed : bool }.
Arguments MkEnd {C}.
Arguments ses {C}.
Arguments arrived {C}.
Arguments wrote {C}.
Arguments got {C}.
Arguments failed {C}.

(** The ids of the stream objects, in the order they were made. *)
Definition ids {C} (s : Session C) : list Z := map st_id (objs s).

Definition wire_of {C} `{!NetConn C} (s : Session C) : bytes := conn_wire (w_conn (w s)).

Record end_inv {C} `{!NetConn C, !ConnBreaks C} (e : endpoint C) (m : bool) (out gs : list frame) : Prop := {
  ei_ok : session_ok (ses e);
  ei_pad : padding_ok (padding (ses e)) (w (ses e));
  ei_ids : Forall is_uint32 (ids (ses e));
  ei_nodup : NoDup (ids (ses e));
  ei_wf : Forall wf_frame gs;
  ei_pos : pos (ses e) (arrived e) gs;
  ei_heard : heard (ses e) gs (got e);
  ei_spoke : spoke m (ses e) out (wrote e);
  ei_live : failed e = false -> die (ses e) = false -> m = true
}.

Lemma ids_lookup {C} (s : Session C) o st : objs s !! o = Some st -> ids s !! o = Some (st_id st).
Proof. intros H. unfold ids. by rewrite list_lookup_fmap, H. Qed.

Lemma ids_elem {C} (s : Session C) o st : objs s !! o = Some st -> st_id st ∈ ids s.
Proof. intros H. by eapply list_elem_of_lookup_2, ids_lookup. Qed.

Lemma ids_ids32 {C} (s : Session C) : Forall is_uint32 (ids s) -> ids32 s.
Proof. intros H o st Ho. rewrite Forall_forall in H. by eapply H, ids_elem. Qed.

Lemma ids_ids_inj {C} (s : Session C) : NoDup (ids s) -> ids_inj s.
Proof.
  intros H o o' st st' Ho Ho' E. apply (NoDup_lookup _ _ _ (st_id st) H); [by apply ids_lookup|]. rewrite E. by apply ids_lookup.
Qed.

Lemma ids_still {C} (s s' : Session C) : still s s' -> ids s' = ids s.
Proof.
  intros H. unfold ids. apply list_eq. intros o. rewrite !list_lookup_fmap. destruct (objs s !! o) as [st|] eqn:E.
  - destruct (sl_obj _ _ H o st E) as (st' & -> & Hp). simpl. by rewrite (sp_id _ _ Hp).
  - by rewrite (proj2 (sl_none _ _ o H) E).
Qed.

(** Objects correspond one to one, with a new one at the end. *)
Lemma ids_snoc {C} (s s' : Session C) id :
  length (objs s') = S (length (objs s)) ->
  (forall o st', objs s' !! o = Some st' -> (exists st, objs s !! o = Some st /\ st_id st' = st_id st) \/ o = length (objs s) /\ st_id st' = id) ->
  ids s' = ids s ++ [id].
Proof.
  intros Hl H. unfold ids. apply list_eq. intros o. rewrite list_lookup_fmap. destruct (objs s' !! o) as [st'|] eqn:E; simpl.
  - destruct (H o st' E) as [(st & Ho & ->)|[-> ->]].
    + rewrite lookup_app_l, list_lookup_fmap, Ho; [done|]. rewrite length_map. by eapply lookup_lt_Some.
    + by rewrite lookup_app_r, length_map, Nat.sub_diag by (by rewrite length_map).
  - symmetry. apply lookup_ge_None. rewrite length_app, length_map. simpl. apply lookup_ge_None in E. lia.
Qed.

(** What was said depends on the ids and the writer only. *)
Lemma spoke_ids {C} `{!NetConn C, !ConnBreaks C} m (s s' : Session C) out wl :
  ids s' = ids s -> w s' = w s -> spoke m s out wl -> spoke m s' out wl.
Proof.
  intros Ei Hw [H1 H2 H3]. assert (length (objs s') = length (objs s)) as El by (apply (f_equal length) in Ei; unfold ids in Ei; by rewrite !length_map in Ei).
  split; [by rewrite Hw| |].
  - intros o st' Ho. apply ids_lookup in Ho. rewrite Ei in Ho. unfold ids in Ho. rewrite list_lookup_fmap in Ho.
    destruct (objs s !! o) as [st|] eqn:E; [|done]. injection Ho as <-. by apply H2.
  - intros o Ho. apply H3. rewrite lookup_ge_None in *. lia.
Qed.

Lemma ids_update {C} (s : Session C) o f : (forall st, st_id (f st) = st_id st) -> ids (update_obj s o f) = ids s.
Proof.
  intros Hf. unfold ids. apply list_eq. intros i. rewrite !list_lookup_fmap, lookup_update_obj. case_decide; [|done]. destruct (objs s !! i); [|done]. simpl. by rewrite Hf.
Qed.

(** The handler of a stream starts by reading the destination: a server writes to a stream only
    after it has read from it. *)
Definition may_write {C} (e : endpoint C) (a : op) : bool :=
  match a with OpStreamWrite o _ => bool_decide (said (got e) o <> []) | _ => true end.

Section ends.
Context {C : Type} `{!NetConn C, !NetConnLaws C, !ConnBreaks C}.
Variable ent : Z -> nat -> Z.
Variable md5hex : bytes -> string.
Variable clientDebugPaddingScheme : bool.
Variable raw : bytes.
Implicit Types (s : Session C) (e : endpoint C).

Abbreviation act := (exec ent md5hex clientDebugPaddingScheme).

(** An operation of the session, with its part in the logs. *)
Definition do_op e (a : op) : endpoint C :=
  if held (ses e) a then e
  else MkEnd (act (ses e) a) (arrived e)
    (match a with OpStreamWrite o b => wrote e ++ [(o, attempted (ses e) o b)] | _ => wrote e end)
    (match a with
     | OpStreamRead o k => match stream_Read (ses e) o k with Some (_, d, _) => got e ++ [(o, d)] | None => got e end
     | _ => got e
     end)
    (match a with
     | OpStreamWrite o b => failed e || negb (refused (ses e) o) && bool_decide ((stream_Write ent (ses e) o b).2 <> None)
     | _ => failed e
     end).

(** The next [n] bytes of the peer's wire arrive. *)
Definition deliver e (wire : bytes) (n : nat) : endpoint C :=
  let d := take n (drop (length (arrived e)) wire) in
  MkEnd (set_inp (ses e) (inp (ses e) ++ d)) (arrived e ++ d) (wrote e) (got e) (failed e).

Lemma arrived_op e a : arrived (do_op e a) = arrived e.
Proof. unfold do_op. by destruct (held (ses e) a). Qed.

(** What stays as it is. *)
Record keeps s s' : Prop := {
  kp_streamId : streamId s' = streamId s;
  kp_client : isClient s' = isClient s;
  kp_padding : isClient s = false -> padding s' = padding s;
  kp_wire : wire_of s `prefix_of` wire_of s'
}.

Lemma calm_keeps s s' m out : calm (quiet raw) s s' -> padding_ok (padding s) (w s) -> flow m (w s) out -> keeps s s'.
Proof. intros [[] ? ? ? ? ?]. split; [done..|]. by eauto. Qed.

Lemma die_back s s' : (die s = true -> die s' = true) -> die s' = false -> die s = false.
Proof. intros H Hd. destruct (die s); [|done]. by rewrite H in Hd. Qed.

Lemma end_calm e s' m out gs gs' :
  calm (quiet raw) (ses e) s' -> session_ok s' -> Forall wf_frame gs' -> pos s' (arrived e) (gs ++ gs') -> (forall id, data_of id gs' = []) ->
  end_inv e m out gs ->
  exists m' fs, end_inv (MkEnd s' (arrived e) (wrote e) (got e) (failed e)) m' (out ++ fs) (gs ++ gs') /\ Forall (quiet raw) fs /\ ids s' = ids (ses e).
Proof.
  intros Hc Hok' Hwf' Hpos Hn [Hok Hpad Hid Hnd Hwf _ Hh Hs Hlv].
  destruct (spoke_calm raw m (ses e) s' out (wrote e) Hc Hpad Hs) as (m' & fs & Hs' & Hq & Hl & _). pose proof (ids_still _ _ (cm_still _ _ _ Hc)) as Ei.
  exists m', fs. split_and!; [|done|done]. split; simpl; rewrite ?Ei; try done.
  - by apply Hc.
  - by apply Forall_app.
  - eapply heard_still; [apply Hc|]. eapply heard_frames; [|exact Hh]. intros id. by rewrite data_of_app, Hn, app_nil_r.
  - intros Hf Hd. apply Hl; [apply Hlv; [done|]|done]. by eapply die_back; [apply Hc|].
Qed.

(** Frames an operation of the application may send. *)
Definition spoken s (f : frame) : Prop := quiet raw f \/ cmd f = cmdPSH /\ sid f ∈ ids s.

Lemma end_read e o k m out gs (a := OpStreamRead o k) :
  held (ses e) a = false -> end_inv e m out gs ->
  end_inv (do_op e a) m out gs /\ keeps (ses e) (ses (do_op e a)) /\ ids (ses (do_op e a)) = ids (ses e).
Proof.
  intros Hh Hinv. pose proof Hinv as [Hok Hpad Hid Hnd Hwf Hpos Hhd Hs Hlv].
  assert (session_ok (act (ses e) a)) as Hok' by (by apply exec_ok).
  assert (pos (act (ses e) a) (arrived e) gs) as Hpos' by (eapply pos_move; [by apply pc_app|by apply inp_app|done]).
  pose proof (lt_die _ _ (exec_later ent md5hex clientDebugPaddingScheme (ses e) a)) as Hdd.
  unfold do_op. rewrite Hh. unfold exec in *. rewrite Hh in *. cbn [run_op a] in *.
  destruct (stream_Read (ses e) o k) as [[[s' d] er]|] eqn:Er; [|by split_and!].
  destruct (heard_read (ses e) o k s' d er gs (got e) Er Hhd) as (Hh' & Hw & Hp & Hback & Hlen & Hsi & Hic & _ & _).
  assert (ids s' = ids (ses e)) as Ei.
  { unfold ids. apply list_eq. intros i. rewrite !list_lookup_fmap. destruct (objs s' !! i) as [st'|] eqn:E; simpl.
    - destruct (Hback i st' E) as (st & -> & ->). done.
    - apply lookup_ge_None in E. rewrite (proj2 (lookup_ge_None (objs (ses e)) i)); [done|lia]. }
  split_and!; [|split; unfold wire_of; simpl; rewrite ?Hw; done|done]. split; simpl; rewrite ?Ei, ?Hw, ?Hp; try done.
  - by eapply spoke_ids.
  - intros Hf Hd. apply Hlv; [done|]. by eapply die_back.
Qed.

Lemma end_write e o b m out gs (a := OpStreamWrite o b) :
  held (ses e) a = false -> end_inv e m out gs ->
  exists m' fs, end_inv (do_op e a) m' (out ++ fs) gs /\ Forall (spoken (ses e)) fs /\
    keeps (ses e) (ses (do_op e a)) /\ ids (ses (do_op e a)) = ids (ses e).
Proof.
  intros Hh Hinv. pose proof Hinv as [Hok Hpad Hid Hnd Hwf Hpos Hhd Hs Hlv]. pose proof (ids_ids32 _ Hid) as Hid32.
  assert (session_ok (act (ses e) a)) as Hok' by (by apply exec_ok).
  assert (pos (act (ses e) a) (arrived e) gs) as Hpos' by (eapply pos_move; [by apply pc_app|by apply inp_app|done]).
  pose proof (lt_die _ _ (exec_later ent md5hex clientDebugPaddingScheme (ses e) a)) as Hdd.
  unfold do_op. rewrite Hh. unfold exec in *. rewrite Hh in *. cbn [run_op a] in *.
  destruct (spoke_write ent m (ses e) o b out (wrote e) Hid32 (ids_ids_inj _ Hnd) Hpad Hs) as (Hst & Hp & Hpad' & _ & _ & Hwire & m' & ps & Hs' & Hl & Hps).
  pose proof (ids_still _ _ Hst) as Ei. exists m', ps. split_and!; [|..|done].
  - split; simpl; rewrite ?Ei; try done; [by eapply heard_still|]. intros [Hf Hb]%orb_false_iff Hd.
    apply Hl; [apply Hlv; [done|]; by eapply die_back|].
    destruct (refused (ses e) o); [by left|right]. cbn [negb andb] in Hb. apply bool_decide_eq_false in Hb. destruct (stream_Write ent (ses e) o b).2; [by destruct Hb|done].
  - apply Forall_forall. intros f Hf. destruct (Hps f Hf) as [Hc (st & Hso & E)]. right. split; [done|]. rewrite E. by eapply ids_elem.
  - split; [by apply Hst|by apply Hst|done|done].
Qed.

(** An operation that passes no data. *)
Lemma end_quiet e a m out gs :
  is_app a = true -> calm (quiet raw) (ses e) (act (ses e) a) -> (forall o b, a <> OpStreamWrite o b) -> (forall o k, a <> OpStreamRead o k) -> end_inv e m out gs ->
  exists m' fs, end_inv (do_op e a) m' (out ++ fs) gs /\ Forall (spoken (ses e)) fs /\
    keeps (ses e) (ses (do_op e a)) /\ ids (ses (do_op e a)) = ids (ses e).
Proof.
  intros Ha Hc Hw Hr Hinv. pose proof Hinv as [Hok Hpad Hid Hnd Hwf Hpos Hh Hs Hlv].
  assert (session_ok (act (ses e) a)) as Hok' by (by apply exec_ok).
  assert (pos (act (ses e) a) (arrived e) gs) as Hpos' by (eapply pos_move; [by apply pc_app|by apply inp_app|done]).
  destruct (end_calm e (act (ses e) a) m out gs [] Hc Hok') as (m' & fs & He & Hq & Ei); rewrite ?app_nil_r; try done.
  rewrite app_nil_r in He. unfold do_op. destruct (held (ses e) a) eqn:Hheld.
  { exists m, []. rewrite app_nil_r. by split_and!. }
  exists m', fs. split_and!; [|eapply Forall_impl; [exact Hq|]; by left|by eapply calm_keeps; [..|apply Hs]|done].
  destruct a as [| | | | | | | | |o k|o b| | | |]; try done; [by destruct (Hr o k)|by destruct (Hw o b)].
Qed.

(** The end of a call of [OpenStream], when no data has come for the stream. *)
Lemma end_next e o m out gs (a := OpOpenNext o) :
  (forall id, openCalls (ses e) !! o = Some (id, true) -> data_of id gs = []) -> end_inv e m out gs ->
  exists m' fs, end_inv (do_op e a) m' (out ++ fs) gs /\ Forall (spoken (ses e)) fs /\
    keeps (ses e) (ses (do_op e a)) /\ ids (ses (do_op e a)) = ids (ses e).
Proof.
  intros Hn Hinv. destruct (openCalls (ses e) !! o) as [[id []]|] eqn:E.
  - destruct (die (ses e)) eqn:Ed; [apply (end_quiet e a m); try done; change (calm (quiet raw) (ses e) (open_next (ses e) o)); apply (calm_next raw (ses e) o id); auto|].
    pose proof Hinv as [Hok Hpad Hid Hnd Hwf Hpos Hh Hs Hlv]. assert (session_ok (act (ses e) a)) as Hok' by (by apply exec_ok).
    assert (pos (act (ses e) a) (arrived e) gs) as Hpos' by (eapply pos_move; [by apply pc_app|by apply inp_app|done]).
    destruct (ok_open _ Hok o id true E) as [(st & Ho & Hst & _) _].
    assert (act (ses e) a = set_openCalls (set_streams (ses e) (<[id := o]> (streams (ses e)))) (delete o (openCalls (ses e)))) as Es.
    { unfold exec. cbn [held op_stream a run_op]. unfold open_next, open_register. by rewrite E, Ed. }
    exists m, []. rewrite app_nil_r. unfold do_op. cbn [held op_stream a]. fold a. rewrite Es in *. split_and!; [|done|by split|done].
    split; cbn [ses arrived wrote got failed]; try done; [|by apply (spoke_ids m (ses e))].
    eapply (heard_still (set_streams (ses e) (<[id := o]> (streams (ses e))))); [by apply still_same|]. eapply heard_register; eauto.
  - apply (end_quiet e a m); try done. change (calm (quiet raw) (ses e) (open_next (ses e) o)). apply (calm_next raw (ses e) o id). auto.
  - apply (end_quiet e a m); try done. change (calm (quiet raw) (ses e) (open_next (ses e) o)). apply (calm_next raw (ses e) o 0). auto.
Qed.

Lemma end_exec e a m out gs :
  is_app a = true -> a <> OpOpen -> text_ok (ses e) a ->
  (forall o id, a = OpOpenNext o -> openCalls (ses e) !! o = Some (id, true) -> data_of id gs = []) -> end_inv e m out gs ->
  exists m' fs, end_inv (do_op e a) m' (out ++ fs) gs /\ Forall (spoken (ses e)) fs /\
    keeps (ses e) (ses (do_op e a)) /\ ids (ses (do_op e a)) = ids (ses e).
Proof.
  intros Ha Ho Ht Hn Hinv. pose proof (ids_ids32 _ (ei_ids _ _ _ _ Hinv)) as Hid32. destruct (calm_op a) eqn:Eca.
  - apply (end_quiet e a m); try done; [by apply calm_exec|by destruct a..].
  - destruct (held (ses e) a) eqn:Hh; [exists m, []; unfold do_op; rewrite Hh, app_nil_r; by split_and!|].
    destruct a as [| | | |o| | | | |o k|o b| | | |]; try done.
    + apply (end_next e o m); [|done]. intros id. by apply Hn.
    + destruct (end_read e o k m out gs Hh Hinv) as (? & ? & ?). exists m, []. rewrite app_nil_r. by split_and!.
    + by apply (end_write e o b m).
Qed.

Lemma end_open e m out gs (id := uint32 (streamId (ses e) + 1)) (s' := ses (do_op e OpOpen)) :
  id ∉ ids (ses e) -> data_of id out = [] -> data_of id gs = [] -> end_inv e m out gs ->
  exists m' fs, end_inv (do_op e OpOpen) m' (out ++ fs) gs /\ isClient s' = isClient (ses e) /\ wire_of (ses e) `prefix_of` wire_of s' /\
    (s' = ses e /\ fs = [] \/ streamId s' = id /\ ids s' = ids (ses e) ++ [id] /\ (fs = [newFrame cmdSYN id] \/ fs = [])).
Proof.
  intros Hfresh Hno Hng Hinv. pose proof Hinv as [Hok Hpad Hid Hnd Hwf Hpos Hh Hs Hlv]. destruct (die (ses e)) eqn:Ed.
  - assert (do_op e OpOpen = e) as E by (destruct e as [s ar wl rl]; unfold do_op, exec; simpl in *; unfold open_start, open_SYN; by rewrite Ed).
    exists m, []. unfold s'. rewrite E, app_nil_r. split_and!; [done|done|done|by left].
  - destruct (open_effect ent m (ses e) out (wrote e) gs (got e) Hok Ed Hpad Hno Hng Hs Hh) as (Hh' & (m' & fs & Hs' & Hfs & Hl) & Hpad' & Hsi & Hic & Hpc & Hlen & Hwire & Hback).
    assert (ids s' = ids (ses e) ++ [id]) as Ei by (by apply ids_snoc).
    exists m', fs. split_and!; [|done|done|by right]. split; simpl.
    + by apply (exec_ok ent md5hex clientDebugPaddingScheme (ses e) OpOpen).
    + done.
    + change (Forall is_uint32 (ids s')). rewrite Ei. apply Forall_app. split; [done|]. repeat constructor; apply uint32_range.
    + change (NoDup (ids s')). rewrite Ei. apply NoDup_app. split; [done|]. split; [|apply NoDup_singleton].
      intros x Hx Hx2%list_elem_of_singleton. by subst.
    + done.
    + eapply pos_move; [by left|by apply (inp_app ent md5hex clientDebugPaddingScheme (ses e) OpOpen)|done].
    + done.
    + done.
    + intros Hf Hd. by apply Hl; [apply Hlv|].
Qed.

(** The top of the loop changes nothing else than the position. *)
Lemma top_fields s (s' := loop_top s) :
  w s' = w s /\ padding s' = padding s /\ streamId s' = streamId s /\ isClient s' = isClient s /\ die s' = die s /\ ids s' = ids s.
Proof. unfold s', loop_top. destruct (pc s); try done. destruct (die s) eqn:Ed; [|done]. by rewrite finish_die. Qed.

(** Turns that pass data change nothing else. *)
Lemma piping_fields s o (s' := recv_step ent md5hex clientDebugPaddingScheme s) :
  pc s = Piping o -> w s' = w s /\ padding s' = padding s /\ streamId s' = streamId s /\ isClient s' = isClient s /\ die s' = die s /\ ids s' = ids s.
Proof.
  intros Hpc. unfold s', recv_step. rewrite Hpc. destruct (objs s !! o) as [st|]; [|apply (top_fields (set_pc s Reading))].
  destruct (Pipe.writing (st_pipe st)) as [ws|]; [|apply (top_fields (set_pc s Reading))]. destruct (_ || _); [|done].
  destruct (top_fields (set_pc (update_obj s o (fun st => set_pipe st (Pipe.set_writing (st_pipe st) None))) Reading)) as (H1 & H2 & H3 & H4 & H5 & H6).
  rewrite H1, H2, H3, H4, H5, H6. split_and!; try done. by apply (ids_update s o (fun st => set_pipe st (Pipe.set_writing (st_pipe st) None))).
Qed.

Lemma psh_fields s id d (s' := end_turn (recv_PSH s id d)) :
  w s' = w s /\ padding s' = padding s /\ streamId s' = streamId s /\ isClient s' = isClient s /\ die s' = die s /\ ids s' = ids s.
Proof.
  unfold s', recv_PSH. destruct (streams s !! id) as [o|]; [|apply (top_fields s)]. destruct (objs s !! o) as [st|]; [|apply (top_fields s)].
  destruct (Pipe.write_begin (st_pipe st) d) as [|p]; [apply (top_fields s)|]. cbn. split_and!; try done. by apply (ids_update s o (fun st => set_pipe st p)).
Qed.

(** What a turn leaves at an end: it has said some more frames and handled some more, and
    it knows the stream of a SYN among these. *)
Definition received e out gs (s' := ses (do_op e OpRecv)) : Prop :=
  exists m' fs gs', end_inv (do_op e OpRecv) m' (out ++ fs) (gs ++ gs') /\ Forall (quiet raw) fs /\ keeps (ses e) s' /\
    (ids s' = ids (ses e) \/ exists f, gs' = [f] /\ cmd f = cmdSYN /\ ids s' = ids (ses e) ++ [sid f]).

(** A turn after which no stream has more to read. *)
Lemma received_calm e m out gs gs' (s' := ses (do_op e OpRecv)) :
  end_inv e m out gs -> session_ok s' -> calm (quiet raw) (ses e) s' -> pos s' (arrived e) (gs ++ gs') -> Forall wf_frame gs' ->
  (forall id, data_of id gs' = []) -> received e out gs.
Proof.
  intros Hinv Hok' Hc Hpos' Hf Hn. destruct (end_calm e s' m out gs gs' Hc Hok') as (m' & fs & He & Hq & Ei); try done.
  exists m', fs, gs'. destruct Hinv as [_ Hpad _ _ _ _ _ Hs _]. split_and!; [done|done|by eapply calm_keeps; [..|apply Hs]|by left].
Qed.

(** A SYN that opens a stream. *)
Lemma received_syn e m out gs f r (s' := ses (do_op e OpRecv)) (s0 := at_frame (ses e) r) :
  end_inv e m out gs -> session_ok s' -> wf_frame f -> cmd f = cmdSYN -> pos s' (arrived e) (gs ++ [f]) -> heard s0 gs (got e) -> session_ok s0 ->
  (sid f ∉ ids (ses e)) /\ data_of (sid f) gs = [] /\ data_of (sid f) out = [] -> s' = loop_top (accepted s0 (sid f)) -> received e out gs.
Proof.
  intros [Hok Hpad Hid Hnd Hwf Hpos Hh Hs Hlv] Hok' Hf Hsyn Hpos' Hh0 Hok0 (Hni & Hng & Hno) Es.
  destruct (top_fields (accepted s0 (sid f))) as (T1 & T2 & T3 & T4 & T5 & T6). rewrite <- Es in T1, T2, T3, T4, T5, T6.
  assert (ids s' = ids (ses e) ++ [sid f]) as Ei by (rewrite T6; unfold ids; simpl; by rewrite map_app).
  exists m, [], [f]. rewrite app_nil_r. fold s'. split_and!; [|done|split; unfold wire_of; rewrite ?T1, ?T2, ?T3, ?T4; done|right; by exists f].
  split; simpl; change (act (ses e) OpRecv) with s'.
  - done.
  - by rewrite T1, T2.
  - rewrite Ei. apply Forall_app. split; [done|]. repeat constructor; apply Hf.
  - rewrite Ei. apply NoDup_app. split; [done|]. split; [|apply NoDup_singleton]. intros x Hx Hx2%list_elem_of_singleton. by subst.
  - apply Forall_app. split; [done|by constructor].
  - done.
  - rewrite Es. eapply heard_still; [apply still_loop_top|]. eapply heard_frames; [|eapply (heard_new s0 (accepted s0 (sid f)) gs (got e) (sid f)); try done].
    + intros id. by rewrite data_of_snoc, bool_decide_false, app_nil_r by (by rewrite Hsyn).
    + intros i o Hi. simpl in Hi. apply lookup_insert_Some in Hi as [[<- <-]|[_ Hi]]; auto.
  - eapply (spoke_ids m (accepted s0 (sid f))); [done|done|]. by eapply (spoke_new m (ses e) (accepted s0 (sid f))).
  - by rewrite T5.
Qed.

(** Data for a stream. *)
Lemma received_psh e m out gs f r (s' := ses (do_op e OpRecv)) (s0 := at_frame (ses e) r) :
  end_inv e m out gs -> session_ok s' -> wf_frame f -> cmd f = cmdPSH -> pos s' (arrived e) (gs ++ [f]) -> heard s0 gs (got e) -> session_ok s0 ->
  pc s0 = Reading -> s' = end_turn (recv_PSH s0 (sid f) (data f)) -> received e out gs.
Proof.
  intros [Hok Hpad Hid Hnd Hwf Hpos Hh Hs Hlv] Hok' Hf Hpsh Hpos' Hh0 Hok0 Hpc Es.
  destruct (psh_fields s0 (sid f) (data f)) as (Hw & Hpd & Hsi & Hic & Hde & Ei).
  exists m, [], [f]. fold s'. rewrite app_nil_r. split_and!; [|done|split; unfold wire_of; rewrite Es, ?Hsi, ?Hic, ?Hpd, ?Hw; done|left; rewrite Es, Ei; done].
  split; simpl; change (act (ses e) OpRecv) with s'; rewrite ?Es, ?Hw, ?Hpd, ?Ei, ?Hde; try done.
  - by rewrite <- Es.
  - apply Forall_app. split; [done|by constructor].
  - by rewrite <- Es.
  - by apply heard_PSH.
  - eapply spoke_ids; [exact Ei|exact Hw|]. eapply (spoke_ids _ (ses e)); done.
Qed.

(** A turn of the receive loop, when the peer has sent the beginning of [Gs]. *)
Lemma end_recv e m out gs Gs :
  Forall wf_frame Gs -> arrived e `prefix_of` encode_all Gs ->
  (isClient (ses e) = false -> RawScheme (padding (ses e)) = raw /\ len raw <= maxUint16) ->
  (forall f, f ∈ Gs -> cmd f = cmdUpdatePaddingScheme -> isClient (ses e) = true -> forall p, NewPaddingFactory md5hex (data f) = Some p -> scheme_between 1 maxUint16 p = true) ->
  (forall f rest, Gs = gs ++ f :: rest -> cmd f = cmdSYN -> (sid f ∉ ids (ses e)) /\ data_of (sid f) gs = [] /\ data_of (sid f) out = []) ->
  end_inv e m out gs -> received e out gs.
Proof.
  intros HGs Harr Hr Hp Hfresh Hinv. pose proof Hinv as [Hok Hpad Hid Hnd Hwf Hpos Hh Hs Hlv]. pose proof (ids_ids32 _ Hid) as Hid32.
  set (s' := ses (do_op e OpRecv)). assert (session_ok s') as Hok' by (by apply (exec_ok ent md5hex clientDebugPaddingScheme (ses e) OpRecv)).
  destruct (recv_cases ent md5hex clientDebugPaddingScheme raw (ses e) (arrived e) gs Gs Hok Hid32 Hwf HGs Harr Hpos Hr Hp)
    as [[Hpos' Hc]|[[[o Hpo] Hpos']|(f & rest & r & EG & Hf & Hpos' & Hnp & Hnr & Ht)]];
    change (recv_step ent md5hex clientDebugPaddingScheme (ses e)) with s' in *.
  - by apply (received_calm e m out gs []); rewrite ?app_nil_r.
  - destruct (piping_fields (ses e) o Hpo) as (Hw & Hpd & Hsi & Hic & Hde & Ei).
    change (recv_step ent md5hex clientDebugPaddingScheme (ses e)) with s' in *.
    exists m, [], []. fold s'. rewrite !app_nil_r. split_and!; [|done|split; unfold wire_of; by rewrite ?Hw|by left]. split; simpl; change (act (ses e) OpRecv) with s'; rewrite ?Hw, ?Hpd, ?Ei, ?Hde; try done.
    + by eapply heard_piping.
    + by eapply spoke_ids.
  - set (s0 := at_frame (ses e) r) in *. pose proof (calm_at_frame raw (ses e) r Hnp) as Hc0. fold s0 in Hc0.
    assert (session_ok s0) as Hok0 by (by apply at_frame_ok). pose proof (heard_still _ _ _ _ (cm_still _ _ _ Hc0) Hh) as Hh0.
    assert (calm (quiet raw) s0 s' -> (cmd f = cmdPSH -> data f = []) -> received e out gs) as Hcalm.
    { intros Hc1 Hn. apply (received_calm e m out gs [f]); try done; [by etrans|by constructor|].
      intros id. simpl. rewrite app_nil_r. case_bool_decide as Hb; [|done]. rewrite (Hn Hb). by destruct (_ && _). }
    destruct Ht as [[Hsyn Es]|[[Hpsh Es]|(Hn & _ & Hc1)]]; [|by apply (received_psh e m out gs f r)|by apply Hcalm].
    destruct (SYN_cases ent raw s0 (sid f)) as [Hc1|[Hnone Ea]]; [apply Hf|done|apply Hcalm; by rewrite ?Es, ?Hsyn|].
    rewrite Ea in Es. by apply (received_syn e m out gs f r); [..|apply (Hfresh f rest)|].
Qed.

(** Nothing is written to a stream while it is being opened. *)
Definition unwritten e : Prop := forall o, is_Some (openCalls (ses e) !! o) -> said (wrote e) o = [].

Lemma unwritten_op e a : a <> OpOpen -> unwritten e -> unwritten (do_op e a).
Proof.
  intros Ha Hu o. unfold do_op. destruct (held (ses e) a) eqn:Hh; [apply Hu|]. cbn [ses wrote]. intros Ho.
  assert (is_Some (openCalls (ses e) !! o)) as Ho1.
  { destruct (opens_stream a) eqn:Eo; [|by rewrite openCalls_exec in Ho]. destruct a as [| | | |o'| | | | | | | | | |]; try done.
    unfold exec in Ho. cbn [held op_stream run_op] in Ho. unfold open_next in Ho. destruct (openCalls (ses e) !! o') as [[id b]|] eqn:E; [|done].
    destruct b; cbn [openCalls set_openCalls] in Ho.
    - destruct (decide (o' = o)) as [->|]; [by rewrite E|]. by rewrite lookup_delete_ne in Ho.
    - destruct (decide (o' = o)) as [->|]; [by rewrite E|]. by rewrite lookup_insert_ne in Ho. }
  pose proof (Hu o Ho1) as Hs. destruct a as [| | | | | | | | | |o' b| | | |]; try done. rewrite said_snoc, Hs. case_decide; [|done]. subst o'.
  unfold held in Hh. cbn [op_stream] in Hh. by apply bool_decide_eq_false in Hh.
Qed.

Lemma unwritten_open e m out gs : end_inv e m out gs -> unwritten e -> unwritten (do_op e OpOpen).
Proof.
  intros Hinv Hu o Ho. change (wrote (do_op e OpOpen)) with (wrote e). change (ses (do_op e OpOpen)) with (open_start ent (ses e)) in Ho.
  destruct (decide (is_Some (openCalls (ses e) !! o))) as [|Hn]; [by apply Hu|].
  apply (sk_log _ _ _ _ (ei_spoke _ _ _ _ Hinv)), lookup_ge_None.
  enough (o = length (objs (ses e))) by lia. unfold open_start in Ho. pose proof (openCalls_SYN ent (ses e)) as [E1 E2].
  destruct (open_SYN ent (ses e)) as [s1 [[id o']|er]]; cbn [fst snd openCalls set_openCalls] in *; rewrite E1 in Ho; [|done].
  destruct (decide (o' = o)) as [<-|]; [done|]. by rewrite lookup_insert_ne in Ho.
Qed.

(** What was written after something was read. *)
Definition answers e : Prop := forall o, said (wrote e) o <> [] -> said (got e) o <> [].

Lemma answers_op e a : may_write e a = true -> answers e -> answers (do_op e a).
Proof.
  intros Hm Ha o. unfold do_op. destruct (held (ses e) a); [apply Ha|]. cbn [wrote got]. destruct a as [| | | | | | | | |o' k|o' b| | | |]; try apply Ha.
  - intros Hw. specialize (Ha o Hw). destruct (stream_Read (ses e) o' k) as [[[s' d] er]|]; [|done]. rewrite said_snoc. by destruct (said (got e) o).
  - simpl in Hm. apply bool_decide_eq_true in Hm. rewrite said_snoc. case_decide; [by subst|]. rewrite app_nil_r. apply Ha.
Qed.

End ends.

(** ** The two ends together *)

Inductive link_op :=
  | AtClient (a : op)           (** an operation of the client session *)
  | AtServer (a : op)           (** an operation of the server session *)
  | ToServer (n : nat)          (** up to [n] bytes arrive at the server *)
  | ToClient (n : nat).         (** up to [n] bytes arrive at the client *)

(** Bytes arrive from the peer only, error texts fit a frame, and the padding scheme that
    another session of the client program sets has sizes that fit.  A server opens no streams and keeps
    the scheme it was started with. *)
Definition op_allowed (a : op) : Prop :=
  match a with
  | OpArrive _ => False
  | OpFailure _ (Some text) => len (to_bytes text) <= maxUint16
  | OpScheme p => scheme_between 1 maxUint16 p = true
  | _ => True
  end.

Definition client_only (a : op) : bool := match a with OpOpen | OpOpenNext _ | OpScheme _ => true | _ => false end.

Definition allowed (x : link_op) : Prop :=
  match x with AtClient a => op_allowed a | AtServer a => op_allowed a /\ client_only a = false | _ => True end.

(** How many streams a schedule opens. *)
Fixpoint opens (xs : list link_op) : Z :=
  match xs with
  | [] => 0
  | AtClient OpOpen :: xs => 1 + opens xs
  | _ :: xs => opens xs
  end.

(** Frames that belong to the data of a stream. *)
Definition opening (f : frame) : Prop := cmd f = cmdSYN \/ cmd f = cmdPSH.

(** The SYN of a stream comes before everything else of it, and once. *)
Definition syn_first (out : list frame) : Prop :=
  forall pre f post, out = pre ++ f :: post -> cmd f = cmdSYN -> forall g, g ∈ pre -> opening g -> sid g <> sid f.

Lemma syn_first_app out fs : syn_first out -> Forall (fun f => cmd f <> cmdSYN) fs -> syn_first (out ++ fs).
Proof.
  intros H Hfs pre f post E Hf. symmetry in E. apply app_eq_app in E as [k [[-> E]|[-> E]]].
  - rewrite E in Hfs. apply Forall_app in Hfs as [_ Hfs]. rewrite Forall_cons in Hfs. by destruct Hfs.
  - destruct k as [|f' k]; simpl in E; [subst fs; rewrite Forall_cons in Hfs; by destruct Hfs|].
    injection E as <- E. eapply (H pre f k); [done|done].
Qed.

Lemma syn_first_syn out f : syn_first out -> (forall g, g ∈ out -> opening g -> sid g <> sid f) -> syn_first (out ++ [f]).
Proof.
  intros H Hf pre f' post E Hf'. symmetry in E. apply app_eq_app in E as [k [[-> E]|[-> E]]].
  - destruct k as [|x k]; [injection E as <- _; by rewrite app_nil_r|]. injection E as _ E. by destruct k.
  - destruct k as [|x k]; simpl in E; [injection E as -> _; by rewrite app_nil_r in *|]. injection E as <- E. eapply (H pre f' k); [done|done].
Qed.

Lemma opening_strip f fs : opening f -> f ∈ fs -> f ∈ strip_waste fs.
Proof. intros [Hc|Hc] Hf; unfold strip_waste; apply list_elem_of_filter; (split; [by rewrite Hc|done]). Qed.

Section link.
Context {C D : Type} `{!NetConn C, !NetConnLaws C, !ConnBreaks C, !NetConn D, !NetConnLaws D, !ConnBreaks D}.
Variables entc ents : Z -> nat -> Z.
Variable md5hex : bytes -> string.
Variable clientDebugPaddingScheme : bool.

Definition link_step (L : endpoint C * endpoint D) (x : link_op) : endpoint C * endpoint D :=
  let '(c, s) := L in
  match x with
  | AtClient a => (do_op entc md5hex clientDebugPaddingScheme c a, s)
  | AtServer a => (c, if may_write s a then do_op ents md5hex clientDebugPaddingScheme s a else s)
  | ToServer n => (c, deliver s (wire_of (ses c)) n)
  | ToClient n => (deliver c (wire_of (ses s)) n, s)
  end.

Definition link_start (c : C) (d : D) (pfc pfs : PaddingFactory) (order : list (string * string)) : endpoint C * endpoint D :=
  (MkEnd (start entc true c pfc order) [] [] [] false, MkEnd (start ents false d pfs []) [] [] [] false).

(** The invariant of the exchange; [n] streams may still be opened. *)
Record link_inv (raw : bytes) (n : Z) (c : endpoint C) (s : endpoint D) (mc ms : bool) (outc gsc outs gss : list frame) : Prop := {
  li_c : end_inv c mc outc gsc;
  li_s : end_inv s ms outs gss;
  li_cs : arrived s `prefix_of` wire_of (ses c);
  li_sc : arrived c `prefix_of` wire_of (ses s);
  li_client : isClient (ses c) = true;
  li_server : isClient (ses s) = false;
  li_raw : RawScheme (padding (ses s)) = raw;
  li_id : 0 <= streamId (ses c) /\ streamId (ses c) + n <= maxUint32;
  li_cids : Forall (fun id => id <= streamId (ses c)) (ids (ses c));
  li_cout : Forall (fun f => opening f -> sid f ∈ ids (ses c)) outc;
  li_syn : syn_first outc;
  li_sids : Forall (fun id => exists f, f ∈ gss /\ cmd f = cmdSYN /\ sid f = id) (ids (ses s));
  li_sout : Forall (fun f => cmd f <> cmdSYN /\ (cmd f = cmdPSH -> sid f ∈ ids (ses s)) /\ (cmd f = cmdUpdatePaddingScheme -> data f = raw)) outs;
  li_open o : is_Some (openCalls (ses c) !! o) -> said (wrote c) o = [];
  li_answer o : said (wrote s) o <> [] -> said (got s) o <> []
}.

(** What one end has handled are the first frames of what the other end has said. *)
Lemma handled_frames {A B} `{!NetConn A, !ConnBreaks A, !NetConn B, !ConnBreaks B} (a : endpoint A) (b : endpoint B) ma mb outa gsa outb gsb :
  end_inv a ma outa gsa -> end_inv b mb outb gsb -> arrived b `prefix_of` wire_of (ses a) ->
  exists Gs, Forall wf_frame Gs /\ arrived b `prefix_of` encode_all Gs /\ strip_waste Gs = outa /\ gsb `prefix_of` Gs.
Proof.
  intros Ha Hb Har. destruct (flow_wire ma (w (ses a)) outa) as (Gs & HGs & Hw & Hs); [apply Ha|]. exists Gs.
  assert (arrived b `prefix_of` encode_all Gs) as Hp by (by etrans). split_and!; try done.
  destruct (encode_cut gsb Gs []) as (rest & -> & _); [apply Hb|done|rewrite app_nil_r; etrans; [by eapply pos_handled, Hb|done]|].
  by apply prefix_app_r.
Qed.

Lemma handled_elem {A B} `{!NetConn A, !ConnBreaks A, !NetConn B, !ConnBreaks B} (a : endpoint A) (b : endpoint B) ma mb outa gsa outb gsb f :
  end_inv a ma outa gsa -> end_inv b mb outb gsb -> arrived b `prefix_of` wire_of (ses a) -> f ∈ gsb -> opening f -> f ∈ outa.
Proof.
  intros Ha Hb Har Hf Ho. destruct (handled_frames a b ma mb outa gsa outb gsb Ha Hb Har) as (Gs & _ & _ & <- & [k ->]).
  apply opening_strip; [done|]. apply elem_of_app. by left.
Qed.

Lemma prefix_data {A B} `{!NetConn A, !ConnBreaks A, !NetConn B, !ConnBreaks B} (a : endpoint A) (b : endpoint B) ma mb outa gsa outb gsb oa sta ob stb :
  end_inv a ma outa gsa -> end_inv b mb outb gsb -> arrived b `prefix_of` wire_of (ses a) ->
  objs (ses a) !! oa = Some sta -> objs (ses b) !! ob = Some stb -> st_id sta = st_id stb -> said (got b) ob `prefix_of` said (wrote a) oa.
Proof.
  intros Ha Hb Harr Hoa Hob E. destruct (handled_frames a b ma mb outa gsa outb gsb Ha Hb Harr) as (Gs & _ & _ & Hs & Hp).
  etrans; [|by eapply (sk_data _ _ _ _ (ei_spoke _ _ _ _ Ha))]. rewrite <- Hs, data_of_strip, E.
  etrans; [|by apply data_of_prefix]. etrans; [|by eapply (hd_prefix _ _ _ (ei_heard _ _ _ _ Hb))]. by apply prefix_app_r.
Qed.

(** Server streams are client streams. *)
Lemma sids_cids raw n c s mc ms outc gsc outs gss id :
  link_inv raw n c s mc ms outc gsc outs gss -> id ∈ ids (ses s) -> id ∈ ids (ses c).
Proof.
  intros I Hid. pose proof (li_sids _ _ _ _ _ _ _ _ _ _ I) as H. rewrite Forall_forall in H. destruct (H id Hid) as (f & Hf & Hc & <-).
  assert (f ∈ outc) as Ho by (eapply (handled_elem c s mc ms outc gsc outs gss); [apply I|apply I|apply I|done|by left]).
  pose proof (li_cout _ _ _ _ _ _ _ _ _ _ I) as Hc2. rewrite Forall_forall in Hc2. apply (Hc2 f Ho). by left.
Qed.

(** No data of a stream the client has not opened yet. *)
Lemma no_data_yet raw n c s mc ms outc gsc outs gss id :
  link_inv raw n c s mc ms outc gsc outs gss -> streamId (ses c) < id -> (id ∉ ids (ses c)) /\ data_of id outc = [] /\ data_of id gsc = [].
Proof.
  intros I Hid. assert (id ∉ ids (ses c)) as Hni.
  { intros Hin. pose proof (li_cids _ _ _ _ _ _ _ _ _ _ I) as H. rewrite Forall_forall in H. specialize (H id Hin). simpl in H. lia. }
  split_and!; [done|apply data_of_none; intros f Hf Hc E..].
  - pose proof (li_cout _ _ _ _ _ _ _ _ _ _ I) as H. rewrite Forall_forall in H. apply Hni. rewrite <- E. apply (H f Hf). by right.
  - apply Hni. rewrite <- E. eapply sids_cids; [exact I|]. pose proof (li_sout _ _ _ _ _ _ _ _ _ _ I) as H. rewrite Forall_forall in H.
    assert (f ∈ outs) as Ho by (eapply (handled_elem s c ms mc outs gss outc gsc); [apply I|apply I|apply I|done|by right]). by apply (H f Ho).
Qed.

(** A SYN the server has not handled yet is of a stream it knows nothing of. *)
Lemma fresh_syn raw n c s mc ms outc gsc outs gss Gs f rest :
  link_inv raw n c s mc ms outc gsc outs gss -> strip_waste Gs = outc -> Gs = gss ++ f :: rest -> cmd f = cmdSYN ->
  (sid f ∉ ids (ses s)) /\ data_of (sid f) gss = [] /\ data_of (sid f) outs = [].
Proof.
  intros I Hs -> Hc. rewrite strip_waste_app in Hs. change (f :: rest) with ([f] ++ rest) in Hs. rewrite strip_waste_app, strip_waste_one in Hs by (by rewrite Hc).
  pose proof (li_syn _ _ _ _ _ _ _ _ _ _ I (strip_waste gss) f (strip_waste rest) (eq_sym Hs) Hc) as Hfirst.
  assert (sid f ∉ ids (ses s)) as Hni.
  { intros Hin. pose proof (li_sids _ _ _ _ _ _ _ _ _ _ I) as H. rewrite Forall_forall in H. destruct (H _ Hin) as (g & Hg & Hcg & E).
    apply (Hfirst g); [apply opening_strip; [by left|done]|by left|done]. }
  split_and!; [done|apply data_of_none; intros g Hg Hcg E..].
  - apply (Hfirst g); [apply opening_strip; [by right|done]|by right|done].
  - pose proof (li_sout _ _ _ _ _ _ _ _ _ _ I) as H. rewrite Forall_forall in H. destruct (H g Hg) as (_ & Hids & _). apply Hni. rewrite <- E. by apply Hids.
Qed.

(** No data comes for a stream before the client has registered it. *)
Lemma no_data_opening raw n c s mc ms outc gsc outs gss o id b :
  link_inv raw n c s mc ms outc gsc outs gss -> openCalls (ses c) !! o = Some (id, b) -> data_of id gsc = [].
Proof.
  intros I Ho. destruct (ok_open _ (ei_ok _ _ _ _ (li_c _ _ _ _ _ _ _ _ _ _ I)) o id b Ho) as [(st & Hst & Hid & _) _].
  pose proof (li_open _ _ _ _ _ _ _ _ _ _ I o ltac:(by rewrite Ho)) as Hw.
  destruct (handled_frames s c ms mc outs gss outc gsc) as (Gs & _ & _ & Hs & Hp); [apply I|apply I|apply I|].
  assert (data_of id outs = []) as Hout.
  { destruct (decide (id ∈ ids (ses s))) as [Hin|Hni].
    - unfold ids in Hin. apply list_elem_of_fmap in Hin as (sts & Es & (os & Hos)%list_elem_of_lookup).
      assert (said (wrote s) os = []) as Hws.
      { destruct (said (wrote s) os) eqn:E; [done|]. exfalso. apply (li_answer _ _ _ _ _ _ _ _ _ _ I os); [by rewrite E|].
        pose proof (prefix_data c s mc ms outc gsc outs gss o st os sts (li_c _ _ _ _ _ _ _ _ _ _ I) (li_s _ _ _ _ _ _ _ _ _ _ I)
          (li_cs _ _ _ _ _ _ _ _ _ _ I) Hst Hos ltac:(congruence)) as Hpre. rewrite Hw in Hpre. by apply prefix_nil_inv in Hpre. }
      destruct (sk_data _ _ _ _ (ei_spoke _ _ _ _ (li_s _ _ _ _ _ _ _ _ _ _ I)) os sts Hos) as [Hpre _].
      rewrite Hws, <- Es in Hpre. by apply prefix_nil_inv in Hpre.
    - apply data_of_none. intros f Hf Hc E. pose proof (li_sout _ _ _ _ _ _ _ _ _ _ I) as H. rewrite Forall_forall in H.
      destruct (H f Hf) as (_ & Hids & _). apply Hni. rewrite <- E. by apply Hids. }
  apply (data_of_prefix id) in Hp. rewrite <- (data_of_strip id Gs), Hs, Hout in Hp. by apply prefix_nil_inv in Hp.
Qed.

Definition link_ok (raw : bytes) (n : Z) (L : endpoint C * endpoint D) : Prop :=
  exists mc ms outc gsc outs gss, link_inv raw n L.1 L.2 mc ms outc gsc outs gss.

(** *** Operations of the client *)

Lemma client_exec raw n c s a :
  is_app a = true -> a <> OpOpen -> op_allowed a -> link_ok raw n (c, s) -> link_ok raw n (do_op entc md5hex clientDebugPaddingScheme c a, s).
Proof.
  intros Ha Ho Ht (mc & ms & outc & gsc & outs & gss & I). simpl in I.
  assert (text_ok (ses c) a) as Htx by (destruct a; try done; split; [apply I|done]).
  destruct (end_exec entc md5hex clientDebugPaddingScheme raw c a mc outc gsc Ha Ho Htx) as (m' & fs & He & Hsp & Hk & Ei);
    [intros o id -> Hoc; by eapply no_data_opening|apply I|].
  pose proof (unwritten_op entc md5hex clientDebugPaddingScheme c a Ho (li_open _ _ _ _ _ _ _ _ _ _ I)) as Hu.
  set (c' := do_op entc md5hex clientDebugPaddingScheme c a) in *. assert (arrived c' = arrived c) as Ea by (apply arrived_op). clearbody c'.
  destruct I as [I1 I2 I3 I4 I5 I6 I7 I8 I9 I10 I11 I12 I13 I14 I15]. exists m', ms, (outc ++ fs), gsc, outs, gss.
  rewrite Forall_forall in Hsp. split; cbn [fst snd]; rewrite ?Ea, ?Ei, ?(kp_streamId _ _ Hk), ?(kp_client _ _ Hk); try done.
  - etrans; [exact I3|apply Hk].
  - apply Forall_app. split; [done|]. apply Forall_forall. intros f Hf Hop. destruct (Hsp f Hf) as [(H1 & H2 & _)|[_ ?]]; [by destruct Hop|done].
  - apply syn_first_app; [done|]. apply Forall_forall. intros f Hf Hc. destruct (Hsp f Hf) as [(_ & ? & _)|[Hc' _]]; [done|]. by rewrite Hc in Hc'.
Qed.

Lemma client_open raw n c s :
  link_ok raw (1 + n) (c, s) -> 0 <= n -> link_ok raw n (do_op entc md5hex clientDebugPaddingScheme c OpOpen, s).
Proof.
  intros (mc & ms & outc & gsc & outs & gss & I) Hn. simpl in I. pose proof (li_id _ _ _ _ _ _ _ _ _ _ I) as [Hi0 Hi1].
  assert (uint32 (streamId (ses c) + 1) = streamId (ses c) + 1) as Eid by (apply uint32_small; lia).
  destruct (no_data_yet raw (1 + n) c s mc ms outc gsc outs gss (streamId (ses c) + 1) I ltac:(lia)) as (Hni & Hno & Hng).
  destruct (end_open entc md5hex clientDebugPaddingScheme c mc outc gsc) as (m' & fs & He & Hic & Hw & Hcase); rewrite ?Eid; try done; [apply I|].
  rewrite Eid in Hcase. destruct I as [I1 I2 I3 I4 I5 I6 I7 I8 I9 I10 I11 I12 I13 I14 I15]. exists m', ms, (outc ++ fs), gsc, outs, gss.
  pose proof (unwritten_open entc md5hex clientDebugPaddingScheme c _ _ _ I1 I14) as Hu.
  set (c' := do_op entc md5hex clientDebugPaddingScheme c OpOpen) in *. assert (arrived c' = arrived c) as Ea by done. clearbody c'.
  set (s' := ses c') in *.
  assert (streamId (ses c) <= streamId s' /\ streamId s' + n <= maxUint32 /\ Forall (fun id => id <= streamId s') (ids s') /\
    Forall (fun f => opening f -> sid f ∈ ids s') (outc ++ fs) /\ syn_first (outc ++ fs)) as (H1 & H2 & H3 & H4 & H5).
  { destruct Hcase as [[-> ->]|(Hsi & Ei & Hfs)]; [rewrite app_nil_r; split_and!; try done; lia|]. rewrite Hsi, Ei. split_and!; [lia|lia|..].
    - apply Forall_app. split; [|repeat constructor; lia]. eapply Forall_impl; [exact I9|]. simpl. intros. lia.
    - apply Forall_app. split; [eapply Forall_impl; [exact I10|]; simpl; intros f Hf Ho; apply elem_of_app; left; by apply Hf|].
      destruct Hfs as [-> | ->]; [|done]. repeat constructor. intros _. apply elem_of_app. right. by left.
    - destruct Hfs as [-> | ->]; [|by rewrite app_nil_r]. apply syn_first_syn; [done|]. intros g Hg Ho. simpl. rewrite Forall_forall in I9. rewrite Forall_forall in I10.
      specialize (I9 _ (I10 g Hg Ho)). simpl in I9. lia. }
  split; cbn [fst snd]; fold s'; rewrite ?Ea; try done; [by etrans|by rewrite Hic|lia].
Qed.

Lemma client_recv raw n c s :
  (forall p, NewPaddingFactory md5hex raw = Some p -> scheme_between 1 maxUint16 p = true) ->
  link_ok raw n (c, s) -> link_ok raw n (do_op entc md5hex clientDebugPaddingScheme c OpRecv, s).
Proof.
  intros Hraw (mc & ms & outc & gsc & outs & gss & I). simpl in I.
  destruct (handled_frames s c ms mc outs gss outc gsc) as (Gs & HGs & Harr & Hs & _); [apply I|apply I|apply I|].
  pose proof (li_sout _ _ _ _ _ _ _ _ _ _ I) as Hso. rewrite Forall_forall in Hso.
  destruct (end_recv entc md5hex clientDebugPaddingScheme raw c mc outc gsc Gs HGs Harr) as (m' & fs & gs' & He & Hq & Hk & Hids); [..|apply I|].
  - by rewrite (li_client _ _ _ _ _ _ _ _ _ _ I).
  - intros f Hf Hc _ p Hp. apply Hraw. assert (f ∈ outs) as Ho by (rewrite <- Hs; apply list_elem_of_filter; split; [by rewrite Hc|done]).
    destruct (Hso f Ho) as (_ & _ & Hd). by rewrite <- (Hd Hc).
  - intros f rest E Hc. assert (f ∈ outs) as Ho by (rewrite <- Hs; apply opening_strip; [by left|rewrite E; apply elem_of_app; right; by left]).
    by destruct (Hso f Ho).
  - assert (ids (ses (do_op entc md5hex clientDebugPaddingScheme c OpRecv)) = ids (ses c)) as Ei.
    { destruct Hids as [?|(f & -> & Hc & _)]; [done|]. exfalso.
      assert (f ∈ outs) as Ho; [|by destruct (Hso f Ho)].
      eapply (handled_elem s (do_op entc md5hex clientDebugPaddingScheme c OpRecv) ms m' outs gss _ (gsc ++ [f])); [apply I|exact He|apply I| |by left].
      apply elem_of_app. right. by left. }
    destruct I as [I1 I2 I3 I4 I5 I6 I7 I8 I9 I10 I11 I12 I13 I14 I15]. exists m', ms, (outc ++ fs), (gsc ++ gs'), outs, gss.
    pose proof (unwritten_op entc md5hex clientDebugPaddingScheme c OpRecv ltac:(done) I14) as Hu.
    set (c' := do_op entc md5hex clientDebugPaddingScheme c OpRecv) in *. assert (arrived c' = arrived c) as Ea by done. clearbody c'.
    split; cbn [fst snd]; rewrite ?Ea, ?Ei, ?(kp_streamId _ _ Hk), ?(kp_client _ _ Hk); try done.
    + etrans; [exact I3|apply Hk].
    + apply Forall_app. split; [done|]. eapply Forall_impl; [exact Hq|]. by intros f (H1 & H2 & _) [?|?].
    + apply syn_first_app; [done|]. eapply Forall_impl; [exact Hq|]. by intros f (_ & ? & _).
Qed.

(** *** Operations of the server *)

Lemma server_end_exec raw n c s a :
  is_app a = true -> client_only a = false -> op_allowed a -> may_write s a = true -> link_ok raw n (c, s) -> link_ok raw n (c, do_op ents md5hex clientDebugPaddingScheme s a).
Proof.
  intros Ha Ho Ht Hm (mc & ms & outc & gsc & outs & gss & I). simpl in I.
  destruct (end_exec ents md5hex clientDebugPaddingScheme raw s a ms outs gss Ha) as (m' & fs & He & Hsp & Hk & Ei); [by intros ->|by destruct a|by intros ? ? ->|apply I|].
  pose proof (answers_op ents md5hex clientDebugPaddingScheme s a Hm (li_answer _ _ _ _ _ _ _ _ _ _ I)) as Hans.
  set (s' := do_op ents md5hex clientDebugPaddingScheme s a) in *. assert (arrived s' = arrived s) as Ea by (apply arrived_op). clearbody s'.
  destruct I as [I1 I2 I3 I4 I5 I6 I7 I8 I9 I10 I11 I12 I13 I14 I15]. exists mc, m', outc, gsc, (outs ++ fs), gss.
  rewrite Forall_forall in Hsp. split; cbn [fst snd]; rewrite ?Ea, ?Ei, ?(kp_client _ _ Hk), ?(kp_padding _ _ Hk I6); try done.
  - etrans; [exact I4|apply Hk].
  - apply Forall_app. split; [done|]. apply Forall_forall. intros f Hf. destruct (Hsp f Hf) as [(H1 & H2 & H3)|[Hc Hid]]; [by split_and!|].
    rewrite Hc. by split_and!.
Qed.

Lemma server_recv raw n c s :
  len raw <= maxUint16 -> link_ok raw n (c, s) -> link_ok raw n (c, do_op ents md5hex clientDebugPaddingScheme s OpRecv).
Proof.
  intros Hraw (mc & ms & outc & gsc & outs & gss & I). simpl in I.
  destruct (handled_frames c s mc ms outc gsc outs gss) as (Gs & HGs & Harr & Hs & _); [apply I|apply I|apply I|].
  destruct (end_recv ents md5hex clientDebugPaddingScheme raw s ms outs gss Gs HGs Harr) as (m' & fs & gs' & He & Hq & Hk & Hids); [..|apply I|].
  - intros _. split; [apply I|done].
  - intros f Hf Hc E. by rewrite (li_server _ _ _ _ _ _ _ _ _ _ I) in E.
  - intros f rest E Hc. by eapply fresh_syn.
  - pose proof (answers_op ents md5hex clientDebugPaddingScheme s OpRecv eq_refl (li_answer _ _ _ _ _ _ _ _ _ _ I)) as Hans.
    set (s' := do_op ents md5hex clientDebugPaddingScheme s OpRecv) in *. assert (arrived s' = arrived s) as Ea by done. clearbody s'.
    destruct I as [I1 I2 I3 I4 I5 I6 I7 I8 I9 I10 I11 I12 I13 I14 I15]. exists mc, m', outc, gsc, (outs ++ fs), (gss ++ gs').
    assert (Forall (fun id => exists f, f ∈ gss ++ gs' /\ cmd f = cmdSYN /\ sid f = id) (ids (ses s)) ) as Hold.
    { eapply Forall_impl; [exact I12|]. intros id (f & Hf & Hc & E). exists f. split_and!; [|done|done]. apply elem_of_app. by left. }
    assert (forall id, id ∈ ids (ses s) -> id ∈ ids (ses s')) as Hin.
    { intros id Hid. destruct Hids as [-> |(f & _ & _ & ->)]; [done|]. apply elem_of_app. by left. }
    split; cbn [fst snd]; rewrite ?Ea, ?(kp_client _ _ Hk), ?(kp_padding _ _ Hk I6); try done.
    + etrans; [exact I4|apply Hk].
    + destruct Hids as [-> |(f & -> & Hc & ->)]; [done|]. apply Forall_app. split; [done|]. repeat constructor. exists f.
      split_and!; [|done|done]. apply elem_of_app. right. by left.
    + apply Forall_app. split.
      * eapply Forall_impl; [exact I13|]. intros f (H1 & H2 & H3). split_and!; auto.
      * eapply Forall_impl; [exact Hq|]. intros f (H1 & H2 & H3). by split_and!.
Qed.

(** *** Bytes on the way *)

Lemma end_deliver {A} `{!NetConn A, !NetConnLaws A, !ConnBreaks A} (e : endpoint A) m out gs wire k :
  end_inv e m out gs -> arrived e `prefix_of` wire -> end_inv (deliver e wire k) m out gs /\ arrived (deliver e wire k) `prefix_of` wire.
Proof.
  intros [H1 H2 H3 H4 H5 H6 H7 H8 H9] [y ->]. unfold deliver. rewrite drop_app_length. split.
  - split; simpl; try done.
    + by apply (exec_ok (fun _ _ => 0) md5hex clientDebugPaddingScheme (ses e) (OpArrive (take k y))).
    + by apply pos_arrive.
    + eapply heard_still; [|exact H7]. by apply still_same.
    + by apply (spoke_ids m (ses e)).
  - simpl. by apply prefix_app, prefix_take.
Qed.

Lemma link_deliver raw n c s k :
  link_ok raw n (c, s) -> link_ok raw n (c, deliver s (wire_of (ses c)) k) /\ link_ok raw n (deliver c (wire_of (ses s)) k, s).
Proof.
  intros (mc & ms & outc & gsc & outs & gss & I). simpl in I. destruct I as [I1 I2 I3 I4 I5 I6 I7 I8 I9 I10 I11 I12 I13 I14 I15].
  destruct (end_deliver s ms outs gss (wire_of (ses c)) k I2 I3) as [J2 J3]. destruct (end_deliver c mc outc gsc (wire_of (ses s)) k I1 I4) as [J1 J4].
  split; exists mc, ms, outc, gsc, outs, gss; by split.
Qed.

(** *** Runs *)

Lemma start_end_client (c : C) pf order :
  fit c -> conn_wire c = [] -> scheme_between 1 maxUint16 pf = true -> len (StringMap.ToBytes order) <= maxUint16 ->
  let s := start entc true c pf order in
  exists m fs, end_inv (MkEnd s [] [] [] false) m fs [] /\ Forall (fun f => ~ opening f) fs /\ isClient s = true /\ streamId s = 0 /\ ids s = [] /\
    openCalls s = ∅.
Proof.
  intros Hfit Hw Hpf Hlen s. set (f := Frame cmdSettings 0 (StringMap.ToBytes order)).
  set (s0 := set_w (NewClientSession c pf []) (MkWriter c true true [] 0)). set (s1 := set_pc (writeControlFrame entc s0 f).1 Reading).
  assert (s = loop_top s1) as Es by done. assert (session_ok s) as Hok by apply start_ok. clearbody s.
  destruct (top_fields s1) as (T1 & T2 & _ & _ & T5 & _). rewrite <- Es in T1, T2, T5.
  assert (wf_frame f) as Hf by (by split). assert (padding_ok (padding s0) (w s0)) as Hp0 by (by intros _).
  assert (flow true (w s0) []) as Hfl0 by (split; [done|]; by apply fresh_carries).
  pose proof (calm_control (P := fun _ => True) entc s0 f ltac:(done) Hf ltac:(done)) as [Hst0 _ Hpads _ _ _].
  destruct (control_flow entc true s0 f [] Hp0 Hf ltac:(done) Hfl0) as (_ & m & fs & Hfl & Hfs & _ & Hl).
  assert (still s0 s) as Hst.
  { rewrite Es. etrans; [|apply still_loop_top]. etrans; [exact Hst0|]. apply still_same; try done. intros o. by rewrite pc_write. }
  assert (ids s = []) as Ei by (apply (ids_still _ _ Hst)).
  assert (inp s1 = [] /\ openCalls s1 = ∅) as [Hi Hop].
  { split; [unfold s1; simpl; rewrite <- (set_inp_same s0 (inp s0) eq_refl), inp_write; done|].
    by destruct (shrinks_writeControlFrame entc s0 f) as (_ & _ & ?). }
  assert (forall o, objs s !! o = None) as Hnone by (intros o; by apply (sl_none _ _ o Hst)).
  exists m, fs. split_and!; [|destruct Hfs as [-> | ->]; repeat constructor; by intros [?|?]|apply (sl_client _ _ Hst)|apply (sl_streamId _ _ Hst)|done|].
  - split; simpl; rewrite ?Ei; try done.
    + rewrite T1, T2. by apply Hpads.
    + constructor.
    + rewrite Es. apply pos_between; [apply between_loop_top; by intros h|]. rewrite <- (set_inp_same s1 _ Hi), inp_loop_top. done.
    + split; intros o; rewrite ?Hnone; try done. intros o' st _ Ho. by rewrite Hnone in Ho.
    + split; [rewrite T1; apply Hfl|intros o; by rewrite Hnone|done].
    + intros _ Hd. apply Hl; [done|]. by rewrite T5 in Hd.
  - rewrite Es. by destruct (shrinks_loop_top s1) as (_ & _ & ->).
Qed.

Lemma start_end_server (d : D) pf :
  fit d -> conn_wire d = [] ->
  let s := start ents false d pf [] in
  end_inv (MkEnd s [] [] [] false) true [] [] /\ isClient s = false /\ padding s = pf /\ ids s = [].
Proof.
  intros Hfit Hw s. split_and!; try done. assert (session_ok s) as Hok by apply start_ok.
  assert (forall o, objs s !! o = None) as Hnone by (intros o; apply lookup_nil).
  split; cbn [ses arrived wrote got failed]; try done.
  - change (ids s) with (@nil Z). constructor.
  - split; [|intros o; by rewrite Hnone|done]. split; [done|]. by apply fresh_carries.
Qed.

Definition link_run (L : endpoint C * endpoint D) (xs : list link_op) : endpoint C * endpoint D := foldl link_step L xs.

Section runs.
Variable raw : bytes.
Hypothesis raw_len : len raw <= maxUint16.
Hypothesis raw_fits : forall p, NewPaddingFactory md5hex raw = Some p -> scheme_between 1 maxUint16 p = true.

Lemma link_step_ok n L x :
  allowed x -> 0 <= n -> link_ok raw (opens [x] + n) L -> link_ok raw n (link_step L x).
Proof.
  intros Hx Hn H. destruct L as [c s]. destruct x as [a|a|k|k]; cbn [link_step].
  - destruct (is_app a) eqn:Ea; [|destruct a; try done; by apply client_recv].
    destruct (decide (a = OpOpen)) as [->|Hne]; [by apply client_open|].
    apply client_exec; [done|done|by destruct a|]. by destruct a.
  - destruct Hx as [Hx Hne]. destruct (may_write s a) eqn:Em; [|done]. destruct (is_app a) eqn:Ea; [|destruct a; try done; by apply server_recv].
    by apply server_end_exec.
  - by apply link_deliver.
  - by apply link_deliver.
Qed.

Lemma opens_cons x xs : opens (x :: xs) = opens [x] + opens xs.
Proof. destruct x as [a| | |]; try done. by destruct a. Qed.

Lemma opens_nonneg xs : 0 <= opens xs.
Proof.
  induction xs as [|x xs IH]; [done|]. rewrite opens_cons. assert (0 <= opens [x]); [|lia]. destruct x as [a| | |]; try done. by destruct a.
Qed.

Lemma link_run_ok xs L : Forall allowed xs -> link_ok raw (opens xs) L -> link_ok raw 0 (link_run L xs).
Proof.
  intros Hxs. revert L. induction Hxs as [|x xs Hx _ IH]; intros L HL; [done|]. rewrite opens_cons in HL. cbn.
  apply IH. apply link_step_ok; [done|apply opens_nonneg|done].
Qed.

End runs.

(** Nothing is on the way from [a] to [b], and [a] has sent all it was given. *)
Definition all_arrived {A B} `{!NetConn A} (a : endpoint A) (b : endpoint B) : Prop :=
  failed a = false /\ die (ses a) = false /\ buffer (w (ses a)) = [] /\ arrived b = wire_of (ses a) /\ pc (ses b) = Reading /\ inp (ses b) = [].

Lemma all_arrived_data {A B} `{!NetConn A, !ConnBreaks A, !NetConn B, !ConnBreaks B} (a : endpoint A) (b : endpoint B) ma mb outa gsa outb gsb oa sta ob :
  end_inv a ma outa gsa -> end_inv b mb outb gsb -> all_arrived a b ->
  objs (ses a) !! oa = Some sta -> streams (ses b) !! st_id sta = Some ob -> said (got b) ob = said (wrote a) oa.
Proof.
  intros Ha Hb (Hf & Hd & Hbuf & Harr & Hpc & Hinp) Ho Hs. assert (ma = true) as -> by (by apply Ha).
  pose proof (ei_spoke _ _ _ _ Ha) as [[_ (Gs & HGs & Hsent & <-)] Hdata _]. destruct (Hdata oa sta Ho) as [_ Heq]. rewrite <- (Heq eq_refl), data_of_strip.
  assert (Gs = gsb) as ->.
  { pose proof (ei_pos _ _ _ _ Hb) as Hp. unfold pos in Hp. rewrite Hpc, Hinp, app_nil_r, Harr in Hp. unfold sent in Hsent. rewrite Hbuf, app_nil_r in Hsent.
    unfold wire_of in Hp. rewrite Hp in Hsent. destruct (encode_cut gsb Gs []) as (rest & -> & _); [apply Hb|done|by rewrite app_nil_r, Hsent|].
    rewrite encode_all_app in Hsent. apply (f_equal length) in Hsent. rewrite length_app in Hsent. pose proof (length_encode_all rest).
    destruct rest; [by rewrite app_nil_r|simpl in *; lia]. }
  destruct (ok_table _ (ei_ok _ _ _ _ Hb) _ _ Hs) as (stb & Hob & _). pose proof (ei_heard _ _ _ _ Hb) as [H1 _ _ H4 _].
  rewrite <- (H4 _ _ _ Hs Hob). assert (pending stb = []) as ->; [|by rewrite app_nil_r].
  unfold pending. destruct (Pipe.writing (st_pipe stb)) eqn:E; [|done]. specialize (H1 ob stb Hob). rewrite E, Hpc in H1. by discriminate H1.
Qed.

(** *** The theorems *)

Section claims.
Variables (c : C) (d : D) (pfc pfs : PaddingFactory) (order : list (string * string)) (xs : list link_op).
Hypothesis client_conn : fit c /\ conn_wire c = [].
Hypothesis server_conn : fit d /\ conn_wire d = [].
Hypothesis client_scheme : scheme_between 1 maxUint16 pfc = true.
Hypothesis server_scheme : len (RawScheme pfs) <= maxUint16 /\
  forall p, NewPaddingFactory md5hex (RawScheme pfs) = Some p -> scheme_between 1 maxUint16 p = true.
Hypothesis settings_len : len (StringMap.ToBytes order) <= maxUint16.
Hypothesis schedule_ok : Forall allowed xs /\ opens xs <= maxUint32.

Lemma link_run_inv : link_ok (RawScheme pfs) 0 (link_run (link_start c d pfc pfs order) xs).
Proof.
  destruct client_conn as [Hc1 Hc2], server_conn as [Hd1 Hd2], server_scheme as [Hs1 Hs2], schedule_ok as [Hx1 Hx2].
  apply link_run_ok; [done|done|done|]. destruct (start_end_client c pfc order Hc1 Hc2 client_scheme settings_len) as (m & fs & He & Hfs & Hic & Hsi & Hids & Hoc).
  destruct (start_end_server d pfs Hd1 Hd2) as (He' & Hic' & Hp' & Hids'). exists m, true, fs, [], [], []. rewrite Forall_forall in Hfs.
  split; cbn [link_start fst snd ses arrived]; rewrite ?Hids, ?Hids', ?Hsi; try done; try apply prefix_nil; try (by constructor).
  - apply Forall_forall. intros f Hf Ho. by destruct (Hfs f Hf).
  - intros pre f post E Hf. assert (f ∈ fs) as Hin by (rewrite E; apply elem_of_app; right; by left). by destruct (Hfs f Hin); left.
Qed.

(** C1.  Streams are intact: a client and a server are joined by a connection that may deliver late, in
    pieces of any size, or break.  In every interleaving of their operations (bytes arriving, turns of the receive loops,
    calls of [OpenStream] interrupted between the SYN, the end of buffering and the registration, reads, writes, closes,
    reports, timeouts, schemes set by other sessions of the client), each stream of the server
    is one the client opened, ids are never shared, and on both sides what was read from a
    stream is the first part of what was written to it on the other side: no byte is lost in
    between, duplicated, reordered or given to another stream.

    Conditions: the connections are new, and a connection on which a write fails does not carry later writes ([ConnBreaks], [fit]); every padding
    scheme in use (that of the client, those other sessions set, the one the server sends) has only sizes between 1
    and 65535 and check marks; the text of the server's scheme, the client's settings and error texts have at most 65535
    bytes; the schedule opens at most 2^32 - 1 streams; only the client opens streams, and the server keeps its
    scheme; the server writes to a stream only after it has read from it, as its handler does, which reads the destination first
    (a server that wrote earlier could lose data on a stream that is not registered yet). *)
Theorem streams_intact :
  let '(cl, sv) := link_run (link_start c d pfc pfs order) xs in
  NoDup (ids (ses cl)) /\ NoDup (ids (ses sv)) /\ (forall id, id ∈ ids (ses sv) -> id ∈ ids (ses cl)) /\
  forall oc os stc sts, objs (ses cl) !! oc = Some stc -> objs (ses sv) !! os = Some sts -> st_id stc = st_id sts ->
    said (got sv) os `prefix_of` said (wrote cl) oc /\ said (got cl) oc `prefix_of` said (wrote sv) os.
Proof.
  pose proof link_run_inv as H. destruct (link_run _ xs) as [cl sv]. destruct H as (mc & ms & outc & gsc & outs & gss & I). simpl in I.
  split_and!; [apply (li_c _ _ _ _ _ _ _ _ _ _ I)|apply (li_s _ _ _ _ _ _ _ _ _ _ I)|intros id; by eapply sids_cids|].
  intros oc os stc sts Hoc Hos E. destruct I as [I1 I2 I3 I4 _ _ _ _ _ _ _ _ _].
  split; [by eapply (prefix_data cl sv)|by eapply (prefix_data sv cl)].
Qed.

(** C2.  Nothing is held back: under the same conditions on connections, padding schemes, lengths and schedules (schemes with sizes
    between 1 and 65535, texts of at most 65535 bytes, at most 2^32 - 1 opened streams, the server writes only
    to streams it has read from), once everything one side has sent has arrived, no write of it has failed, it has nothing
    buffered and is not closed, and its peer waits for
    more, every stream that is still registered there has been read completely: the bytes
    read are the bytes written, in both directions. *)
Theorem streams_complete :
  let '(cl, sv) := link_run (link_start c d pfc pfs order) xs in
  (all_arrived cl sv -> forall oc stc os, objs (ses cl) !! oc = Some stc -> streams (ses sv) !! st_id stc = Some os ->
     said (got sv) os = said (wrote cl) oc) /\
  (all_arrived sv cl -> forall os sts oc, objs (ses sv) !! os = Some sts -> streams (ses cl) !! st_id sts = Some oc ->
     said (got cl) oc = said (wrote sv) os).
Proof.
  pose proof link_run_inv as H. destruct (link_run _ xs) as [cl sv]. destruct H as (mc & ms & outc & gsc & outs & gss & I). simpl in I.
  destruct I as [I1 I2 _ _ _ _ _ _ _ _ _ _ _].
  split; intros Hall o st o' Ho Hs; [by eapply (all_arrived_data cl sv)|by eapply (all_arrived_data sv cl)].
Qed.

End claims.

End link.

(** ** An exchange *)

(** A client opens a stream and asks; the server reads the question in two parts and answers.  The
    bytes arrive in pieces. *)
Definition sample_link : endpoint FragileConn * endpoint FragileConn :=
  link_start sample_ent sample_ent (fragile 4000) (fragile 4000) (default_factory sample_md5) (default_factory sample_md5) [("v", "2"); ("padding-md5", "md5")].

Definition sample_exchange : list link_op :=
  [AtClient OpOpen; AtClient (OpOpenNext 0); AtClient (OpOpenNext 0); AtClient (OpStreamWrite 0 [x01; x02; x03]); ToServer 20] ++ replicate 3 (AtServer OpRecv) ++
  [ToServer 2000] ++ replicate 9 (AtServer OpRecv) ++
  [AtServer (OpStreamRead 0 2); AtServer (OpSuccess 0); AtServer (OpStreamRead 0 2); AtServer OpRecv; AtServer (OpStreamWrite 0 [x0a; x0b]); ToClient 2000] ++
  replicate 20 (AtServer OpRecv) ++ replicate 9 (AtClient OpRecv) ++ [AtClient (OpStreamRead 0 8); AtClient OpRecv].

Example sample_end : 
  let '(cl, sv) := link_run sample_ent sample_ent sample_md5 false sample_link sample_exchange in
  (ids (ses cl), ids (ses sv), said (got sv) 0, said (got cl) 0, pc (ses sv), pc (ses cl)) = ([1], [1], [x01; x02; x03], [x0a; x0b], Reading, Reading).
Proof. vm_compute. reflexivity. Qed.

Lemma sample_server_scheme :
  len (RawScheme (default_factory sample_md5)) <= maxUint16 /\
  forall p, NewPaddingFactory sample_md5 (RawScheme (default_factory sample_md5)) = Some p -> scheme_between 1 maxUint16 p = true.
Proof. split; [vm_compute; congruence|]. intros p Hp. vm_compute in Hp. injection Hp as <-. vm_compute. reflexivity. Qed.

Lemma sample_allowed : Forall allowed sample_exchange /\ opens sample_exchange <= maxUint32.
Proof. split; [repeat constructor; discriminate|vm_compute; congruence]. Qed.

Lemma streams_intact_witness :
  let '(cl, sv) := link_run sample_ent sample_ent sample_md5 false sample_link sample_exchange in
  NoDup (ids (ses cl)) /\ NoDup (ids (ses sv)) /\ (forall id, id ∈ ids (ses sv) -> id ∈ ids (ses cl)) /\
  forall oc os stc sts, objs (ses cl) !! oc = Some stc -> objs (ses sv) !! os = Some sts -> st_id stc = st_id sts ->
    said (got sv) os `prefix_of` said (wrote cl) oc /\ said (got cl) oc `prefix_of` said (wrote sv) os.
Proof.
  apply (streams_intact sample_ent sample_ent sample_md5 false (fragile 4000) (fragile 4000) (default_factory sample_md5) (default_factory sample_md5)
    [("v", "2"); ("padding-md5", "md5")] sample_exchange).
  - split; [exact I|reflexivity].
  - split; [exact I|reflexivity].
  - apply default_fits.
  - apply sample_server_scheme.
  - vm_compute. congruence.
  - apply sample_allowed.
Defined.

Lemma streams_complete_witness :
  let '(cl, sv) := link_run sample_ent sample_ent sample_md5 false sample_link sample_exchange in
  (all_arrived cl sv /\ streams (ses sv) !! 1 = Some 0%nat /\ said (wrote cl) 0 = [x01; x02; x03]) /\
  (all_arrived cl sv -> forall oc stc os, objs (ses cl) !! oc = Some stc -> streams (ses sv) !! st_id stc = Some os ->
     said (got sv) os = said (wrote cl) oc) /\
  (all_arrived sv cl -> forall os sts oc, objs (ses sv) !! os = Some sts -> streams (ses cl) !! st_id sts = Some oc ->
     said (got cl) oc = said (wrote sv) os).
Proof.
  pose proof (streams_complete sample_ent sample_ent sample_md5 false (fragile 4000) (fragile 4000) (default_factory sample_md5) (default_factory sample_md5)
    [("v", "2"); ("padding-md5", "md5")] sample_exchange ltac:(split; [exact I|reflexivity]) ltac:(split; [exact I|reflexivity])
    (default_fits _) sample_server_scheme ltac:(vm_compute; congruence) sample_allowed) as H.
  fold sample_link in H. assert (let '(cl, sv) := link_run sample_ent sample_ent sample_md5 false sample_link sample_exchange in
    all_arrived cl sv /\ streams (ses sv) !! 1 = Some 0%nat /\ said (wrote cl) 0 = [x01; x02; x03]) as H1 by (vm_compute; tauto).
  destruct (link_run sample_ent sample_ent sample_md5 false sample_link sample_exchange) as [cl sv]. exact (conj H1 H).
Defined.

End Link.
