(* ===== verification/Config.v ===== *)
(** * Config: the server's configuration file (config/config.go)

    The records have the fields of the source.  [LoadFile] decodes a file over the
    default configuration and runs the checks in the order of the source; the first one
    that fails is the error.  Reading a file, decoding YAML and
    [time.ParseDuration] are functions given to the model; durations are nanoseconds.
    [wf_config] says what an accepted configuration is. *)

From S2P Require Import Prelude GoStrings.
#[local] Open Scope string_scope.
#[local] Open Scope list_scope.
#[local] Open Scope Z_scope.
#[local] Open Scope go_scope.
#[local] Set Warnings "-clear-no-such-hyp".

Module Config.

Definition Second : Z := 1000000000.

Definition defaultAuthCacheTTL : Z := 10 * Second.
Definition defaultAuthNegativeCacheTTL : Z := 60 * Second.
Definition defaultAuthMaxConcurrent : Z := 64.

(** ** The configuration *)

Record OutboundSOCKS5Config := MkOutboundSOCKS5 { s5_Addr : string; s5_Username : string; s5_Password : string }.

(** [Direct] is a map of any values; its keys are kept. *)
Record OutboundEntry := MkOutboundEntry {
  ob_Name : string;
  ob_Type : string;
  ob_Direct : gset string;
  ob_SOCKS5 : OutboundSOCKS5Config
}.

Record OutboundConfig := MkOutboundConfig { oc_AllowPrivate : bool }.

Record ResolverAddrConfig := MkResolverAddr { ra_Addr : string; ra_Timeout : Z }.

Record ResolverTLSConfig := MkResolverTLS { rt_Addr : string; rt_Timeout : Z; rt_SNI : string; rt_Insecure : bool }.

Record ResolverConfig := MkResolverConfig {
  rc_Type : string;
  rc_TCP : ResolverAddrConfig;
  rc_UDP : ResolverAddrConfig;
  rc_TLS : ResolverTLSConfig;
  rc_HTTPS : ResolverTLSConfig
}.

Record ACLConfig := MkACLConfig {
  acl_File : string;
  acl_Inline : list string;
  acl_GeoIP : string;
  acl_GeoSite : string;
  acl_GeoUpdateInterval : string
}.

Record BandwidthConfig := MkBandwidth { bw_Up : string; bw_Down : string }.

Record TLSConfig := MkTLSConfig { tls_Cert : string; tls_Key : string }.

Record HTTPAuthConfig := MkHTTPAuth {
  ha_URL : string;
  ha_Insecure : bool;
  ha_CacheTTL : string;
  ha_CacheSize : Z;
  ha_NegativeCacheTTL : string;
  ha_MaxConcurrent : Z
}.

Record AuthConfig := MkAuthConfig { auth_Type : string; auth_HTTP : HTTPAuthConfig }.

Record TrafficStatsConfig := MkTrafficStats { ts_Listen : string; ts_Secret : string }.

Record Config := MkConfig {
  c_Listen : string;
  c_Password : string;
  c_PaddingScheme : string;
  c_TLS : TLSConfig;
  c_Auth : AuthConfig;
  c_ACL : ACLConfig;
  c_Resolver : ResolverConfig;
  c_TrafficStats : TrafficStatsConfig;
  c_Bandwidth : BandwidthConfig;
  c_Outbound : OutboundConfig;
  c_Outbounds : list OutboundEntry
}.

Definition Default : Config :=
  let addr := MkResolverAddr "" 0 in
  let tls := MkResolverTLS "" 0 "" false in
  MkConfig "0.0.0.0:8443" "" "" (MkTLSConfig "" "") (MkAuthConfig "" (MkHTTPAuth "" false "" 0 "" 0))
    (MkACLConfig "" [] "" "" "") (MkResolverConfig "" addr addr tls tls) (MkTrafficStats "" "")
    (MkBandwidth "" "") (MkOutboundConfig false) [].

(** ** Errors *)

Inductive outbound_fault :=
  | emptyName
  | surroundingSpace (name : string)
  | duplicateName (name : string)
  | directOptions
  | unsupportedType (typ : string)
  | emptyAddr
  | splitFailed (addr : string)
  | emptyHost (addr : string)
  | badPort (addr : string)
  | halfCredentials
  | longCredentials.

Inductive config_error :=
  | errReadConfig
  | errParseConfig
  | errInvalidDuration (field text : string)
  | errNegativeDuration (field text : string)
  | errInvalidBandwidth (text : string)
  | errBandwidthNumber (text : string)
  | errBandwidthUnit (unit_name : string)
  | errBandwidthField (field : string) (err : config_error)
  | errBothACL
  | errHalfTLS
  | errAuthURL
  | errAuthMaxConcurrent (n : Z)
  | errAuthType (typ : string)
  | errResolverType (typ : string)
  | errResolverAddr (field : string)
  | errResolverTimeout (field : string) (timeout : Z)
  | errOutbounds (index : nat) (fault : outbound_fault)
  | errStatsSecret.

(** ** Bandwidth *)

(** [[a-zA-Z]] *)
Definition re_letter (a : ascii) : bool :=
  let n := Z.of_nat (nat_of_ascii a) in ((97 <=? n) && (n <=? 122)) || ((65 <=? n) && (n <=? 90)).

(** [bandwidthRegex.FindStringSubmatch(s)], the groups 1 and 2.  The three classes are
    disjoint, so the greedy match never backtracks. *)
Definition bandwidth_match (s : string) : option (string * string) :=
  let '(d, r) := span is_digit s in
  let '(_, r) := span re_space r in
  let '(u, r) := span re_letter r in
  if String.eqb d "" || negb (String.eqb r "") then None else Some (d, u).

Definition one_of (s : string) (l : list string) : bool := existsb (String.eqb s) l.

Section config.
Variable unicode_lower : string -> string.
(** [time.ParseDuration] *)
Variable ParseDuration : string -> option Z.

Definition normalize (s : string) : string := ToLower unicode_lower (TrimSpace s).

Definition parseBandwidth (s : string) : config_error + Z :=
  let s := normalize s in
  if String.eqb s "" then inr 0
  else
    match bandwidth_match s with
    | None => inl (errInvalidBandwidth s)
    | Some (m1, m2) =>
        match ParseUint 64 m1 with
        | None => inl (errBandwidthNumber s)
        | Some v =>
            if one_of m2 [""; "bps"; "b"] then inr v
            else if one_of m2 ["kbps"; "kb"; "k"] then inr (uint64 (v * 1000))
            else if one_of m2 ["mbps"; "mb"; "m"] then inr (uint64 (uint64 (v * 1000) * 1000))
            else if one_of m2 ["gbps"; "gb"; "g"] then inr (uint64 (uint64 (uint64 (v * 1000) * 1000) * 1000))
            else if one_of m2 ["tbps"; "tb"; "t"]
                 then inr (uint64 (uint64 (uint64 (uint64 (v * 1000) * 1000) * 1000) * 1000))
            else inl (errBandwidthUnit m2)
        end
    end.

Definition in_field (field : string) (m : config_error + Z) : config_error + Z :=
  match m with inl err => inl (errBandwidthField field err) | inr v => inr v end.

Definition BandwidthLimits (c : Config) : config_error + (Z * Z) :=
  let? up := in_field "bandwidth.up" (parseBandwidth (bw_Up (c_Bandwidth c))) in
  let? down := in_field "bandwidth.down" (parseBandwidth (bw_Down (c_Bandwidth c))) in
  inr (up, down).

(** ** Durations *)

(** The common end of the three duration settings. *)
Definition parse_ttl (field s : string) : config_error + Z :=
  match ParseDuration s with
  | None => inl (errInvalidDuration field s)
  | Some d => if d <? 0 then inl (errNegativeDuration field s) else inr d
  end.

Definition AuthCacheTTL (c : Config) : config_error + Z :=
  let s := ha_CacheTTL (auth_HTTP (c_Auth c)) in
  if String.eqb s "" then inr defaultAuthCacheTTL else parse_ttl "auth.http.cacheTTL" s.

Definition AuthNegativeCacheTTL (c : Config) : config_error + Z :=
  let? pos := AuthCacheTTL c in
  let s := ha_NegativeCacheTTL (auth_HTTP (c_Auth c)) in
  if String.eqb s "" then
    if pos <=? 0 then inr 0 else inr defaultAuthNegativeCacheTTL
  else parse_ttl "auth.http.negativeCacheTTL" s.

Definition GeoUpdateInterval (c : Config) : config_error + Z :=
  let s := acl_GeoUpdateInterval (c_ACL c) in
  if String.eqb s "" then inr 0 else parse_ttl "acl.geoUpdateInterval" s.

(** ** The switches of the configuration *)

Definition UseHTTPAuth (c : Config) : bool :=
  String.eqb (auth_Type (c_Auth c)) "http" && negb (String.eqb (ha_URL (auth_HTTP (c_Auth c))) "").

Definition AuthMaxConcurrent (c : Config) : Z :=
  let n := ha_MaxConcurrent (auth_HTTP (c_Auth c)) in
  if n <=? 0 then defaultAuthMaxConcurrent else n.

Definition StatsEnabled (c : Config) : bool := negb (String.eqb (ts_Listen (c_TrafficStats c)) "").

Definition ACLEnabled (c : Config) : bool :=
  negb (String.eqb (acl_File (c_ACL c)) "") || (0 <? len (acl_Inline (c_ACL c))).

Definition TLSEnabled (c : Config) : bool :=
  negb (String.eqb (tls_Cert (c_TLS c)) "") && negb (String.eqb (tls_Key (c_TLS c)) "").

(** ** Validation *)

Definition check (bad : bool) (err : config_error) : config_error + unit :=
  if bad then inl err else inr tt.

Definition ValidateStats (c : Config) : config_error + unit :=
  check (StatsEnabled c && String.eqb (ts_Secret (c_TrafficStats c)) "") errStatsSecret.

Definition ValidateACL (c : Config) : config_error + unit :=
  check (negb (String.eqb (acl_File (c_ACL c)) "") && (0 <? len (acl_Inline (c_ACL c)))) errBothACL.

Definition ValidateTLS (c : Config) : config_error + unit :=
  let hasCert := negb (String.eqb (tls_Cert (c_TLS c)) "") in
  let hasKey := negb (String.eqb (tls_Key (c_TLS c)) "") in
  check (xorb hasCert hasKey) errHalfTLS.

Definition ValidateAuth (c : Config) : config_error + unit :=
  let a := c_Auth c in
  if one_of (auth_Type a) [""; "password"] then inr tt
  else if String.eqb (auth_Type a) "http" then
    let? _ := check (String.eqb (ha_URL (auth_HTTP a)) "") errAuthURL in
    check (ha_MaxConcurrent (auth_HTTP a) <? 0) (errAuthMaxConcurrent (ha_MaxConcurrent (auth_HTTP a)))
  else inl (errAuthType (auth_Type a)).

Definition resolver_Kind (r : ResolverConfig) : string := normalize (rc_Type r).

Definition resolver_Enabled (r : ResolverConfig) : bool := negb (one_of (resolver_Kind r) [""; "system"]).

Definition resolver_Addr (r : ResolverConfig) : string :=
  let k := resolver_Kind r in
  if String.eqb k "udp" then ra_Addr (rc_UDP r)
  else if String.eqb k "tcp" then ra_Addr (rc_TCP r)
  else if one_of k ["tls"; "tcp-tls"] then rt_Addr (rc_TLS r)
  else if one_of k ["https"; "http"] then rt_Addr (rc_HTTPS r)
  else "".

(** The checks of [Validate] after its switch. *)
Definition validate_block (r : ResolverConfig) (field : string) (timeout : Z) : config_error + unit :=
  let? _ := check (String.eqb (resolver_Addr r) "") (errResolverAddr field) in
  check (timeout <? 0) (errResolverTimeout field timeout).

Definition resolver_Validate (r : ResolverConfig) : config_error + unit :=
  let k := resolver_Kind r in
  if one_of k [""; "system"] then inr tt
  else if String.eqb k "udp" then validate_block r "resolver.udp" (ra_Timeout (rc_UDP r))
  else if String.eqb k "tcp" then validate_block r "resolver.tcp" (ra_Timeout (rc_TCP r))
  else if one_of k ["tls"; "tcp-tls"] then validate_block r "resolver.tls" (rt_Timeout (rc_TLS r))
  else if one_of k ["https"; "http"] then validate_block r "resolver.https" (rt_Timeout (rc_HTTPS r))
  else inl (errResolverType (rc_Type r)).

Definition ResolverEnabled (c : Config) : bool := resolver_Enabled (c_Resolver c).

Definition ValidateResolver (c : Config) : config_error + unit := resolver_Validate (c_Resolver c).

(** *** Outbounds *)

Definition outbound_Kind (e : OutboundEntry) : string := normalize (ob_Type e).

Definition validateOutboundName (index : nat) (name : string) : config_error + unit :=
  let? _ := check (String.eqb (TrimSpace name) "") (errOutbounds index emptyName) in
  check (negb (String.eqb (TrimSpace name) name)) (errOutbounds index (surroundingSpace name)).

Definition socks5_validate (s : OutboundSOCKS5Config) (index : nat) : config_error + unit :=
  let err f := errOutbounds index f in
  if String.eqb (s5_Addr s) "" then inl (err emptyAddr)
  else
    match SplitHostPort (s5_Addr s) with
    | None => inl (err (splitFailed (s5_Addr s)))
    | Some (host, port) =>
        let? _ := check (String.eqb host "") (err (emptyHost (s5_Addr s))) in
        let? _ := check (match ParseUint 16 port with None => true | Some n => n =? 0 end) (err (badPort (s5_Addr s))) in
        let? _ := check (xorb (String.eqb (s5_Username s) "") (String.eqb (s5_Password s) "")) (err halfCredentials) in
        check ((255 <? Z.of_nat (String.length (s5_Username s))) || (255 <? Z.of_nat (String.length (s5_Password s))))
          (err longCredentials)
    end.

(** One round of the loop of [ValidateOutbounds]: the new set of names. *)
Definition validate_entry (seen : gset string) (i : nat) (e : OutboundEntry) : config_error + gset string :=
  let? _ := validateOutboundName i (ob_Name e) in
  let key := ToLower unicode_lower (ob_Name e) in
  if decide (key ∈ seen) then inl (errOutbounds i (duplicateName (ob_Name e)))
  else
    let seen := {[key]} ∪ seen in
    let k := outbound_Kind e in
    if String.eqb k "direct" then
      let? _ := check (0 <? Z.of_nat (size (ob_Direct e))) (errOutbounds i directOptions) in inr seen
    else if String.eqb k "socks5" then
      let? _ := socks5_validate (ob_SOCKS5 e) i in inr seen
    else inl (errOutbounds i (unsupportedType (ob_Type e))).

Fixpoint validate_entries (seen : gset string) (i : nat) (l : list OutboundEntry) : config_error + unit :=
  match l with
  | [] => inr tt
  | e :: l => let? seen := validate_entry seen i e in validate_entries seen (S i) l
  end.

Definition ValidateOutbounds (c : Config) : config_error + unit := validate_entries ∅ 0 (c_Outbounds c).

(** *** LoadFile *)

Variable ReadFile : string -> option bytes.
(** [yaml.Unmarshal(data, c)]: the configuration [c] with the values of the file. *)
Variable Unmarshal : bytes -> Config -> option Config.

(** The checks of [LoadFile], in its order. *)
Definition validate (c : Config) : config_error + unit :=
  let? _ := AuthCacheTTL c in
  let? _ := AuthNegativeCacheTTL c in
  let? _ := BandwidthLimits c in
  let? _ := GeoUpdateInterval c in
  let? _ := ValidateACL c in
  let? _ := ValidateTLS c in
  let? _ := ValidateAuth c in
  let? _ := ValidateResolver c in
  let? _ := ValidateOutbounds c in
  ValidateStats c.

Definition LoadFile (path : string) : config_error + Config :=
  if String.eqb path "" then inr Default
  else
    match ReadFile path with
    | None => inl errReadConfig
    | Some data =>
        match Unmarshal data Default with
        | None => inl errParseConfig
        | Some c => let? _ := validate c in inr c
        end
    end.

End config.

(** ** Bandwidth texts *)

Lemma decimal_every d : all_chars is_digit d = true /\ d <> "" <-> exists n, decimal d = Some n.
Proof.
  assert (forall s acc, all_chars is_digit s = true <-> exists n, digits acc s = Some n) as H.
  { induction s as [|a s IH]; intros acc; simpl; [split; eauto|].
    unfold is_digit at 1. destruct (digit a) as [v|]; simpl; [apply IH|]. split; [done|]. by intros [? ?]. }
  unfold decimal. destruct d as [|a d]; [split; [by intros [_ ?]|by intros [? ?]]|].
  rewrite (H (String a d) 0). split; [by intros [? _]|done].
Qed.

Lemma digit_not_space a : re_space a = true -> is_digit a = false.
Proof. by destruct a as [[] [] [] [] [] [] [] []]. Qed.

Lemma letter_not_digit a : re_letter a = true -> is_digit a = false.
Proof. by destruct a as [[] [] [] [] [] [] [] []]. Qed.

Lemma letter_not_space a : re_letter a = true -> re_space a = false.
Proof. by destruct a as [[] [] [] [] [] [] [] []]. Qed.

Lemma every_stops p q s : (forall a, q a = true -> p a = false) -> all_chars q s = true -> stops p s.
Proof. intros H. destruct s as [|a s]; [done|]. simpl. intros [Ha _]%andb_true_iff. by apply H. Qed.

(** The expression of the source: digits, then blanks, then letters, to the end. *)
Lemma bandwidth_match_spec s d u :
  bandwidth_match s = Some (d, u) <->
  exists sp, s = d +:+ sp +:+ u /\ d <> "" /\ all_chars is_digit d = true /\ all_chars re_space sp = true /\ all_chars re_letter u = true.
Proof.
  split.
  - unfold bandwidth_match. pose proof (span_spec is_digit s) as [E1 H1].
    destruct (span is_digit s) as [d' r]. pose proof (span_spec re_space r) as [E2 H2].
    destruct (span re_space r) as [sp r']. pose proof (span_spec re_letter r') as [E3 H3].
    destruct (span re_letter r') as [u' r'']. cbn [fst snd] in *. subst.
    destruct (String.eqb_spec d' ""), (String.eqb_spec r'' ""); try done. intros [= <- <-]. subst r''. rewrite string_app_nil_r. by exists sp.
  - intros (sp & -> & Hd & H1 & H2 & H3). unfold bandwidth_match.
    rewrite span_app, span_app; [|done|by eapply every_stops; [apply letter_not_space|]|done|].
    + rewrite <- (string_app_nil_r u) at 1. rewrite span_app by done.
      destruct (String.eqb_spec d ""); done.
    + destruct sp as [|a sp]; simpl; [by eapply every_stops; [apply letter_not_digit|]|].
      simpl in H2. apply andb_true_iff in H2 as [H2 _]. by rewrite digit_not_space.
Qed.

(** What a unit multiplies by. *)
Definition unit_factor (u : string) : option Z :=
  if one_of u [""; "bps"; "b"] then Some 1
  else if one_of u ["kbps"; "kb"; "k"] then Some (10 ^ 3)
  else if one_of u ["mbps"; "mb"; "m"] then Some (10 ^ 6)
  else if one_of u ["gbps"; "gb"; "g"] then Some (10 ^ 9)
  else if one_of u ["tbps"; "tb"; "t"] then Some (10 ^ 12)
  else None.

(** The bits per second a trimmed, lower-case text stands for, in 64 bits. *)
Definition bandwidth_text (s : string) (v : Z) : Prop :=
  (s = "" /\ v = 0) \/
  exists d sp u n k, s = d +:+ sp +:+ u /\ decimal d = Some n /\ all_chars re_space sp = true /\
    unit_factor u = Some k /\ n < 2 ^ 64 /\ v = uint64 (n * k).

Lemma one_of_in s l : one_of s l = true <-> s ∈ l.
Proof.
  unfold one_of. induction l as [|x l IH]; simpl; [split; [done|by intros ?%elem_of_nil]|].
  rewrite orb_true_iff, IH, String.eqb_eq, elem_of_cons. done.
Qed.

Lemma unit_letters u k : unit_factor u = Some k -> all_chars re_letter u = true.
Proof.
  unfold unit_factor. intros H.
  repeat match type of H with context [if one_of ?u ?l then _ else _] =>
    destruct (one_of u l) eqn:?E; [apply one_of_in in E; repeat (apply elem_of_cons in E as [->|E]; [done|]); by apply elem_of_nil in E|clear E]
  end. done.
Qed.

Lemma uint64_mul a b : uint64 (uint64 a * b) = uint64 (a * b).
Proof. unfold uint64. apply Z.mul_mod_idemp_l. lia. Qed.

Lemma uint64_small v : 0 <= v < 2 ^ 64 -> uint64 v = v.
Proof. intros H. apply Z.mod_small, H. Qed.

Section config_spec.
#[local] Set Default Proof Using "Type".
Variable unicode_lower : string -> string.
Abbreviation norm := (normalize unicode_lower).
Abbreviation parse_bw := (parseBandwidth unicode_lower).

(** The switch over the units. *)
Lemma unit_switch v u :
  0 <= v < 2 ^ 64 ->
  (if one_of u [""; "bps"; "b"] then inr v
   else if one_of u ["kbps"; "kb"; "k"] then inr (uint64 (v * 1000))
   else if one_of u ["mbps"; "mb"; "m"] then inr (uint64 (uint64 (v * 1000) * 1000))
   else if one_of u ["gbps"; "gb"; "g"] then inr (uint64 (uint64 (uint64 (v * 1000) * 1000) * 1000))
   else if one_of u ["tbps"; "tb"; "t"] then inr (uint64 (uint64 (uint64 (uint64 (v * 1000) * 1000) * 1000) * 1000))
   else inl (errBandwidthUnit u)) =
  match unit_factor u with Some k => inr (uint64 (v * k)) | None => inl (errBandwidthUnit u) end.
Proof.
  intros Hv. unfold unit_factor. repeat case_match; rewrite ?uint64_mul; try done.
  - by rewrite Z.mul_1_r, uint64_small.
  - by repeat (rewrite uint64_mul || rewrite <- Z.mul_assoc).
  - by repeat (rewrite uint64_mul || rewrite <- Z.mul_assoc).
  - by repeat (rewrite uint64_mul || rewrite <- Z.mul_assoc).
Qed.

(** A bandwidth setting is accepted exactly if, trimmed and in lower case, it is empty
    or a number, optional blanks and one of the fifteen units; its value is the product,
    in the width of the type. *)
Theorem parse_bandwidth_spec s v : parse_bw s = inr v <-> bandwidth_text (norm s) v.
Proof.
  unfold parseBandwidth, bandwidth_text. set (t := norm s). destruct (String.eqb_spec t "") as [->|Hne].
  { split; [intros [= <-]; by left|]. intros [[_ ->]|(d & sp & u & n & k & E & Hd & _)]; [done|].
    by destruct d. }
  destruct (bandwidth_match t) as [[d u]|] eqn:Em.
  - apply bandwidth_match_spec in Em as (sp & E & Hd & H1 & H2 & H3).
    destruct (proj1 (decimal_every d) (conj H1 Hd)) as [n Hn]. unfold ParseUint. rewrite Hn.
    assert (0 <= n) as Hn0.
    { unfold decimal in Hn. destruct d; [done|]. by eapply digits_nonneg; [|exact Hn]. }
    assert (forall d' sp' u', t = d' +:+ sp' +:+ u' -> (exists n', decimal d' = Some n') -> all_chars re_space sp' = true ->
      all_chars re_letter u' = true -> d' = d /\ u' = u) as Huniq.
    { intros d' sp' u' E' Hd' Hs' Hu'. apply decimal_every in Hd' as [Hd1 Hd2].
      assert (bandwidth_match t = Some (d', u')) as M' by (apply bandwidth_match_spec; by exists sp').
      assert (bandwidth_match t = Some (d, u)) as M by (apply bandwidth_match_spec; by exists sp).
      rewrite M in M'. by injection M'. }
    destruct (Z.ltb_spec n (2 ^ 64)) as [Hlt|Hge].
    + rewrite unit_switch by lia. split.
      * destruct (unit_factor u) as [k|] eqn:Ek; [|done]. intros [= <-]. right. by exists d, sp, u, n, k.
      * intros [[? _]|(d' & sp' & u' & n' & k & E' & Hd' & Hs' & Hk & Hlt' & ->)]; [done|].
        destruct (Huniq d' sp' u') as [-> ->]; eauto using unit_letters. rewrite Hk. congruence.
    + split; [done|]. intros [[? _]|(d' & sp' & u' & n' & k & E' & Hd' & Hs' & Hk & Hlt' & ->)]; [done|].
      destruct (Huniq d' sp' u') as [-> ->]; eauto using unit_letters. simplify_eq. lia.
  - split; [done|]. intros [[? _]|(d & sp & u & n & k & E & Hd & Hs & Hk & _)]; [done|].
    destruct (proj2 (decimal_every d)) as [H1 H2]; [by exists n|].
    assert (bandwidth_match t = Some (d, u)) as M; [|congruence].
    apply bandwidth_match_spec. exists sp. split_and!; eauto using unit_letters.
Qed.

(** ** Accepted configurations *)

Definition wf_auth (a : AuthConfig) : Prop :=
  auth_Type a = "" \/ auth_Type a = "password" \/
  (auth_Type a = "http" /\ ha_URL (auth_HTTP a) <> "" /\ 0 <= ha_MaxConcurrent (auth_HTTP a)).

(** The address and timeout of the block that the type selects. *)
Definition selected_block (r : ResolverConfig) : option (string * Z) :=
  let k := norm (rc_Type r) in
  if String.eqb k "udp" then Some (ra_Addr (rc_UDP r), ra_Timeout (rc_UDP r))
  else if String.eqb k "tcp" then Some (ra_Addr (rc_TCP r), ra_Timeout (rc_TCP r))
  else if one_of k ["tls"; "tcp-tls"] then Some (rt_Addr (rc_TLS r), rt_Timeout (rc_TLS r))
  else if one_of k ["https"; "http"] then Some (rt_Addr (rc_HTTPS r), rt_Timeout (rc_HTTPS r))
  else None.

Definition wf_resolver (r : ResolverConfig) : Prop :=
  norm (rc_Type r) ∈ [""; "system"] \/
  exists addr timeout, selected_block r = Some (addr, timeout) /\ addr <> "" /\ 0 <= timeout.

Definition wf_socks5 (s : OutboundSOCKS5Config) : Prop :=
  (exists host port n, SplitHostPort (s5_Addr s) = Some (host, port) /\ host <> "" /\
    ParseUint 16 port = Some n /\ n <> 0) /\
  (s5_Username s = "" <-> s5_Password s = "") /\
  Z.of_nat (String.length (s5_Username s)) <= 255 /\ Z.of_nat (String.length (s5_Password s)) <= 255.

Definition wf_entry (e : OutboundEntry) : Prop :=
  ob_Name e <> "" /\ trimmed (ob_Name e) /\
  ((norm (ob_Type e) = "direct" /\ ob_Direct e = ∅) \/ (norm (ob_Type e) = "socks5" /\ wf_socks5 (ob_SOCKS5 e))).

(** An operation that returns a value rather than an error. *)
Definition succeeds {A} (m : config_error + A) : Prop := exists a, m = inr a.

Lemma succeeds_inr {A} (a : A) : succeeds (inr a) <-> True.
Proof. split; [done|]. by exists a. Qed.

Lemma succeeds_inl {A} err : @succeeds A (inl err) <-> False.
Proof. split; [by intros [? ?]|done]. Qed.

Lemma succeeds_check bad err : succeeds (check bad err) <-> bad = false.
Proof. unfold check. destruct bad; [rewrite succeeds_inl|rewrite succeeds_inr]; done. Qed.

Lemma succeeds_try {A B} (m : config_error + A) (k : A -> config_error + B) :
  succeeds (try_ok m k) <-> exists a, m = inr a /\ succeeds (k a).
Proof.
  unfold succeeds. setoid_rewrite try_ok_inr. split; [intros (b & a & ? & ?); eauto|intros (a & ? & b & ?); eauto].
Qed.

(** A step whose value is not used. *)
Lemma succeeds_seq {A B} (m : config_error + A) (k : config_error + B) :
  succeeds (try_ok m (fun _ => k)) <-> succeeds m /\ succeeds k.
Proof. rewrite succeeds_try. split; [intros (a & ? & ?); split; [by exists a|done]|intros [[a ?] ?]; eauto]. Qed.

Create Rewrite HintDb go_ok.
#[local] Hint Rewrite @succeeds_inr @succeeds_inl succeeds_check @succeeds_seq : go_ok.

Lemma succeeds_bandwidth c :
  succeeds (BandwidthLimits unicode_lower c) <->
  (exists v, bandwidth_text (norm (bw_Up (c_Bandwidth c))) v) /\ (exists v, bandwidth_text (norm (bw_Down (c_Bandwidth c))) v).
Proof.
  setoid_rewrite <- parse_bandwidth_spec. unfold BandwidthLimits, in_field, succeeds.
  destruct (parse_bw (bw_Up _)), (parse_bw (bw_Down _)); simpl; naive_solver.
Qed.

Lemma succeeds_resolver r : succeeds (resolver_Validate unicode_lower r) <-> wf_resolver r.
Proof.
  unfold resolver_Validate, wf_resolver, selected_block, validate_block, resolver_Addr, resolver_Kind.
  set (k := norm (rc_Type r)). rewrite <- one_of_in.
  destruct (one_of k [""; "system"]) eqn:E0; [autorewrite with go_ok; naive_solver|].
  repeat case_match; autorewrite with go_ok; rewrite ?String.eqb_neq, ?Z.ltb_ge; naive_solver.
Qed.

Lemma succeeds_socks5 s i : succeeds (socks5_validate s i) <-> wf_socks5 s.
Proof.
  clear unicode_lower.
  unfold socks5_validate, wf_socks5. destruct (String.eqb_spec (s5_Addr s) "") as [->|_]; [autorewrite with go_ok; naive_solver|].
  destruct (SplitHostPort (s5_Addr s)) as [[host port]|]; autorewrite with go_ok; [|naive_solver].
  rewrite String.eqb_neq, orb_false_iff, !Z.ltb_ge.
  assert (xorb (String.eqb (s5_Username s) "") (String.eqb (s5_Password s) "") = false <->
    (s5_Username s = "" <-> s5_Password s = "")) as ->
    by (destruct (String.eqb_spec (s5_Username s) ""), (String.eqb_spec (s5_Password s) ""); naive_solver).
  destruct (ParseUint 16 port) as [n|] eqn:E; [rewrite Z.eqb_neq|]; naive_solver.
Qed.

(** *** The list of outbounds *)

Definition entry_key (e : OutboundEntry) : string := ToLower unicode_lower (ob_Name e).

Lemma validate_entry_spec seen i e seen' :
  validate_entry unicode_lower seen i e = inr seen' <->
  wf_entry e /\ (entry_key e ∉ seen) /\ seen' = {[entry_key e]} ∪ seen.
Proof.
  unfold validate_entry, wf_entry, validateOutboundName, outbound_Kind, trimmed. rewrite try_ok_inr.
  split.
  - intros ([] & Hname & H).
    assert (ob_Name e <> "" /\ TrimSpace (ob_Name e) = ob_Name e) as [Hn1 Hn2].
    { apply try_ok_inr in Hname as (u & H1 & H2). unfold check in *.
      destruct (String.eqb_spec (TrimSpace (ob_Name e)) ""), (String.eqb_spec (TrimSpace (ob_Name e)) (ob_Name e)); try done.
      split; [congruence|done]. }
    case_decide as Hin; [done|]. destruct (String.eqb_spec (norm (ob_Type e)) "direct").
    + apply try_ok_inr in H as (u & H1 & [= <-]). unfold check in H1. zcases. split_and!; auto. left. split; [done|].
      assert (size (ob_Direct e) = 0%nat) as Hs%size_empty_inv by lia. set_solver.
    + destruct (String.eqb_spec (norm (ob_Type e)) "socks5"); [|done]. apply try_ok_inr in H as ([] & H1 & [= <-]).
      split_and!; auto. right. split; [done|]. apply (succeeds_socks5 _ i). by eexists.
  - intros ((Hn1 & Hn2 & Hk) & Hin & ->). exists tt. unfold check. rewrite Hn2, String.eqb_refl.
    apply String.eqb_neq in Hn1. rewrite Hn1, decide_False by done. split; [done|].
    destruct Hk as [[-> ->]|[-> Hs]]; [done|]. simpl. apply (succeeds_socks5 _ i) in Hs as [u ->]. done.
Qed.

Lemma validate_entries_spec seen i l :
  succeeds (validate_entries unicode_lower seen i l) <->
  Forall wf_entry l /\ NoDup ((fun e => entry_key e) <$> l) /\ Forall (fun e => entry_key e ∉ seen) l.
Proof.
  revert seen i. induction l as [|e l IH]; intros seen i; simpl.
  { autorewrite with go_ok. split; [intros _; split_and!; constructor|done]. }
  rewrite succeeds_try. setoid_rewrite validate_entry_spec. rewrite NoDup_cons, !Forall_cons. split.
  - intros (seen' & (He & Hin & ->) & H). apply IH in H as (H1 & H2 & H3). split_and!; auto.
    + intros (e' & Ee & Hl)%list_elem_of_fmap. rewrite Forall_forall in H3. specialize (H3 e' Hl). set_solver.
    + eapply Forall_impl; [exact H3|]. set_solver.
  - intros ([He Hl] & [Hd Hnd] & Hin & Hall). exists ({[entry_key e]} ∪ seen). split; [done|]. apply IH. split_and!; auto.
    rewrite Forall_forall in *. intros e' He'. specialize (Hall e' He').
    assert ((entry_key e') <> entry_key e) as Hne; [|set_solver].
    intros E. apply Hd. rewrite <- E. by apply (list_elem_of_fmap_2 (fun e => entry_key e)).
Qed.

(** *** Which entry is reported *)

Lemma validate_entry_index seen i e err :
  validate_entry unicode_lower seen i e = inl err -> exists fault, err = errOutbounds i fault.
Proof.
  unfold validate_entry, validateOutboundName, socks5_validate, check, try_ok. intros H.
  repeat (case_match; simplify_eq; try (by eexists)).
Qed.

Lemma validate_entries_first seen i l err :
  validate_entries unicode_lower seen i l = inl err ->
  exists n fault, err = errOutbounds (i + n) fault /\ (n < length l)%nat /\
    succeeds (validate_entries unicode_lower seen i (take n l)) /\
    ~ succeeds (validate_entries unicode_lower seen i (take (S n) l)).
Proof.
  revert seen i. induction l as [|e l IH]; intros seen i H; [done|]. simpl in H.
  destruct (validate_entry unicode_lower seen i e) as [err'|seen'] eqn:E; simpl in H.
  - injection H as <-. destruct (validate_entry_index _ _ _ _ E) as [fault ->]. exists 0%nat, fault.
    rewrite Nat.add_0_r. simpl. split_and!; [done|lia|by exists tt|]. rewrite E. simpl. by intros [? ?].
  - destruct (IH seen' (S i) H) as (n & fault & -> & Hn & H1 & H2). exists (S n), fault.
    split_and!; [f_equal; lia|simpl; lia| |]; cbn [take validate_entries]; by rewrite E.
Qed.

(** [ValidateOutbounds] names the first invalid entry: when it fails, the index it reports
    is the length of the longest prefix of the list that is valid (each entry well
    formed and its name not used before). *)
Theorem first_invalid_outbound c err :
  ValidateOutbounds unicode_lower c = inl err ->
  exists n fault e, err = errOutbounds n fault /\ c_Outbounds c !! n = Some e /\
    Forall wf_entry (take n (c_Outbounds c)) /\ NoDup (ToLower unicode_lower ∘ ob_Name <$> take n (c_Outbounds c)) /\
    (wf_entry e -> ToLower unicode_lower (ob_Name e) ∈ (ToLower unicode_lower ∘ ob_Name <$> take n (c_Outbounds c))).
Proof.
  intros H. destruct (validate_entries_first _ _ _ _ H) as (n & fault & -> & Hn & H1 & H2).
  destruct (lookup_lt_is_Some_2 _ _ Hn) as [e He]. exists n, fault, e.
  apply validate_entries_spec in H1 as (H1 & H3 & _). split_and!; try done. intros Hwf.
  destruct (decide (entry_key e ∈ (ToLower unicode_lower ∘ ob_Name <$> take n (c_Outbounds c)))) as [|Hin]; [done|].
  exfalso. apply H2. rewrite (take_S_r _ _ _ He), validate_entries_spec, fmap_app, NoDup_app, Forall_app. split_and!; auto.
  - intros k Hk Hk'. apply Hin. simpl in Hk'. apply list_elem_of_singleton in Hk'. by subst.
  - apply NoDup_singleton.
  - apply Forall_true. set_solver.
Qed.

(** *** All checks *)

Variable ParseDuration : string -> option Z.

Definition wf_ttl (s : string) : Prop := s = "" \/ exists d, ParseDuration s = Some d /\ 0 <= d.

Record wf_config (c : Config) : Prop := {
  wf_cache_ttl : wf_ttl (ha_CacheTTL (auth_HTTP (c_Auth c)));
  wf_negative_ttl : wf_ttl (ha_NegativeCacheTTL (auth_HTTP (c_Auth c)));
  wf_up : exists v, bandwidth_text (norm (bw_Up (c_Bandwidth c))) v;
  wf_down : exists v, bandwidth_text (norm (bw_Down (c_Bandwidth c))) v;
  wf_geo : wf_ttl (acl_GeoUpdateInterval (c_ACL c));
  wf_acl : acl_File (c_ACL c) = "" \/ acl_Inline (c_ACL c) = [];
  wf_tls : tls_Cert (c_TLS c) = "" <-> tls_Key (c_TLS c) = "";
  wf_authentication : wf_auth (c_Auth c);
  wf_resolve : wf_resolver (c_Resolver c);
  wf_entries : Forall wf_entry (c_Outbounds c);
  wf_names : NoDup (ToLower unicode_lower ∘ ob_Name <$> c_Outbounds c);
  wf_stats : ts_Listen (c_TrafficStats c) <> "" -> ts_Secret (c_TrafficStats c) <> ""
}.

Lemma succeeds_ttl field s : succeeds (parse_ttl ParseDuration field s) <-> exists d, ParseDuration s = Some d /\ 0 <= d.
Proof.
  unfold parse_ttl. destruct (ParseDuration s) as [d|]; autorewrite with go_ok; [|split; [done|by intros (? & ? & ?)]].
  zcases; autorewrite with go_ok; split; try done; [intros (? & [= <-] & ?); lia|eauto].
Qed.

Lemma succeeds_setting field s (dflt : config_error + Z) :
  succeeds dflt -> succeeds (if String.eqb s "" then dflt else parse_ttl ParseDuration field s) <-> wf_ttl s.
Proof.
  intros Hd. unfold wf_ttl. destruct (String.eqb_spec s "") as [->|Hne]; [split; auto|].
  rewrite succeeds_ttl. split; [by right|by intros [?|?]].
Qed.

Lemma validate_accepts c : succeeds (validate unicode_lower ParseDuration c) <-> wf_config c.
Proof.
  unfold validate. autorewrite with go_ok.
  assert (succeeds (AuthCacheTTL ParseDuration c) <-> wf_ttl (ha_CacheTTL (auth_HTTP (c_Auth c)))) as E1
    by (apply succeeds_setting; by eexists).
  assert (succeeds (AuthCacheTTL ParseDuration c) ->
    succeeds (AuthNegativeCacheTTL ParseDuration c) <-> wf_ttl (ha_NegativeCacheTTL (auth_HTTP (c_Auth c)))) as E2.
  { intros [pos Hpos]. unfold AuthNegativeCacheTTL. rewrite Hpos. simpl. apply succeeds_setting. zcases; by eexists. }
  assert (succeeds (GeoUpdateInterval ParseDuration c) <-> wf_ttl (acl_GeoUpdateInterval (c_ACL c))) as E3
    by (apply succeeds_setting; by eexists).
  assert (succeeds (ValidateACL c) <-> (acl_File (c_ACL c) = "" \/ acl_Inline (c_ACL c) = [])) as E4.
  { unfold ValidateACL. rewrite succeeds_check. destruct (String.eqb_spec (acl_File (c_ACL c)) ""); [naive_solver|].
    destruct (acl_Inline (c_ACL c)); naive_solver. }
  assert (succeeds (ValidateTLS c) <-> (tls_Cert (c_TLS c) = "" <-> tls_Key (c_TLS c) = "")) as E5.
  { unfold ValidateTLS. rewrite succeeds_check.
    destruct (String.eqb_spec (tls_Cert (c_TLS c)) ""), (String.eqb_spec (tls_Key (c_TLS c)) ""); naive_solver. }
  assert (succeeds (ValidateAuth c) <-> wf_auth (c_Auth c)) as E6.
  { unfold ValidateAuth, wf_auth. destruct (one_of _ _) eqn:E; [apply one_of_in in E; autorewrite with go_ok; set_solver|].
    assert (~ (auth_Type (c_Auth c) = "" \/ auth_Type (c_Auth c) = "password")) as Hn.
    { intros Hn. assert (one_of (auth_Type (c_Auth c)) [""; "password"] = true); [|congruence]. apply one_of_in. set_solver. }
    destruct (String.eqb_spec (auth_Type (c_Auth c)) "http"); autorewrite with go_ok; [|naive_solver].
    rewrite String.eqb_neq, Z.ltb_ge. naive_solver. }
  assert (succeeds (ValidateResolver unicode_lower c) <-> wf_resolver (c_Resolver c)) as E7 by apply succeeds_resolver.
  assert (succeeds (ValidateOutbounds unicode_lower c) <-> Forall wf_entry (c_Outbounds c) /\
    NoDup (ToLower unicode_lower ∘ ob_Name <$> c_Outbounds c)) as E8.
  { unfold ValidateOutbounds. rewrite validate_entries_spec. split; [by intros (? & ? & _)|].
    intros [? ?]. split_and!; auto. apply Forall_true. set_solver. }
  assert (succeeds (ValidateStats c) <-> (ts_Listen (c_TrafficStats c) <> "" -> ts_Secret (c_TrafficStats c) <> "")) as E9.
  { unfold ValidateStats, StatsEnabled. rewrite succeeds_check.
    destruct (String.eqb_spec (ts_Listen (c_TrafficStats c)) ""), (String.eqb_spec (ts_Secret (c_TrafficStats c)) ""); naive_solver. }
  rewrite succeeds_bandwidth, E3, E4, E5, E6, E7, E8, E9. split.
  - intros (H1 & H2 & [? ?] & ? & ? & ? & ? & ? & [? ?] & ?). split; auto; [by apply E1|by apply E2].
  - intros []. split_and!; auto; [by apply E1|]. apply E2; [by apply E1|done].
Qed.

Variable ReadFile : string -> option bytes.
Variable Unmarshal : bytes -> Config -> option Config.
Abbreviation load := (LoadFile unicode_lower ParseDuration ReadFile Unmarshal).

Lemma load_accepts path c :
  load path = inr c <->
  (path = "" /\ c = Default) \/
  (path <> "" /\ exists data, ReadFile path = Some data /\ Unmarshal data Default = Some c /\ wf_config c).
Proof.
  unfold LoadFile. destruct (String.eqb_spec path "") as [->|Hne].
  { split; [intros [= <-]; by left|]. by intros [[_ ->]|[? _]]. }
  destruct (ReadFile path) as [data|]; [|split; [done|]; by intros [[? _]|(_ & ? & ? & _)]].
  destruct (Unmarshal data Default) as [c'|] eqn:Eu; [|split; [done|]; intros [[? _]|(_ & ? & [= <-] & ? & _)]; congruence].
  rewrite try_ok_inr. split.
  - intros (u & Hv & [= <-]). right. split; [done|]. exists data. split_and!; [done..|]. apply validate_accepts. by exists u.
  - intros [[? _]|(_ & ? & [= <-] & Hu & Hwf)]; [done|]. rewrite Eu in Hu. injection Hu as <-. apply validate_accepts in Hwf as [u Hu]. by exists u.
Qed.

Lemma default_wf : wf_config Default.
Proof.
  apply validate_accepts. exists tt. reflexivity.
Qed.

(** C16.  A configuration is accepted exactly if it is well formed: [LoadFile] returns the
    defaults for an empty path, and else the decoded file if and only if every duration
    parses and is not negative, both bandwidth texts are well formed, rules come from a
    file or inline but not both, certificate and key go together, the authentication and
    resolver blocks are complete for their type, every outbound has a clean name of
    its own, letter case aside, and a usable address, and the statistics API has a secret.
    What it returns is always well formed. *)
Theorem accepted_config path :
  (forall c, load path = inr c <->
    (path = "" /\ c = Default) \/
    (path <> "" /\ exists data, ReadFile path = Some data /\ Unmarshal data Default = Some c /\ wf_config c)) /\
  (forall c, load path = inr c -> wf_config c).
Proof.
  split; [apply load_accepts|]. intros c [[_ ->]|(_ & _ & _ & _ & Hwf)]%load_accepts; [apply default_wf|done].
Qed.

End config_spec.

(** ** Examples *)

Definition sample_entry (name typ addr : string) : OutboundEntry :=
  MkOutboundEntry name typ ∅ (MkOutboundSOCKS5 addr "" "").

Definition sample_config (l : list OutboundEntry) : Config :=
  MkConfig "0.0.0.0:8443" "secret" "" (c_TLS Default) (c_Auth Default) (c_ACL Default)
    (MkResolverConfig " UDP" (MkResolverAddr "" 0) (MkResolverAddr "9.9.9.9" 0) (rc_TLS (c_Resolver Default)) (rc_HTTPS (c_Resolver Default)))
    (MkTrafficStats "127.0.0.1:9999" "s") (MkBandwidth "100 Mbps" "1gb") (MkOutboundConfig false) l.

Lemma accepted_config_witness :
  wf_config (fun s => s) (fun _ => None) (sample_config [sample_entry "warp" "SOCKS5 " "[::1]:40000"; sample_entry "out" "direct" ""]).
Proof.
  refine (proj2 (accepted_config (fun s => s) (fun _ => None) (fun _ => Some [])
    (fun _ _ => Some (sample_config [sample_entry "warp" "SOCKS5 " "[::1]:40000"; sample_entry "out" "direct" ""])) "server.yaml") _ _).
  vm_compute. reflexivity.
Defined.

(** Of four entries, the third repeats a name and the fourth has a bad port. *)
Definition sample_bad : Config :=
  sample_config [sample_entry "warp" "socks5" "10.0.0.1:1080"; sample_entry "out" "direct" ""; sample_entry "Warp" "direct" "";
                 sample_entry "x" "socks5" "h:0"].

Lemma first_invalid_outbound_witness :
  exists n fault e, errOutbounds 2 (duplicateName "Warp") = errOutbounds n fault /\ c_Outbounds sample_bad !! n = Some e /\
    Forall (wf_entry (fun s => s)) (take n (c_Outbounds sample_bad)) /\
    NoDup (ToLower (fun s => s) ∘ ob_Name <$> take n (c_Outbounds sample_bad)) /\
    (wf_entry (fun s => s) e -> ToLower (fun s => s) (ob_Name e) ∈ (ToLower (fun s => s) ∘ ob_Name <$> take n (c_Outbounds sample_bad))).
Proof. apply (first_invalid_outbound (fun s => s) sample_bad). vm_compute. reflexivity. Defined.

(** Within the width of the type a bandwidth is exact, and blanks and letter case do
    not matter. *)
Example bandwidth_examples :
  parseBandwidth (fun s => s) " 100 Mbps" = inr 100000000 /\ parseBandwidth (fun s => s) "1gbps" = inr 1000000000 /\
  parseBandwidth (fun s => s) "" = inr 0 /\ parseBandwidth (fun s => s) "10 apples" = inl (errBandwidthUnit "apples") /\
  parseBandwidth (fun s => s) "-1" = inl (errInvalidBandwidth "-1").
Proof. vm_compute. done. Qed.

(** Beyond it the product wraps: a rate of 4503599627370496 tbps is read as 0, which means
    unlimited, and 18446745 tbps as about 0.9 tbps; neither is reported as an error. *)
Theorem bandwidth_wraps :
  parseBandwidth (fun s => s) "4503599627370496 tbps" = inr 0 /\
  parseBandwidth (fun s => s) "18446745 tbps" = inr 926290448384.
Proof. vm_compute. done. Qed.

End Config.
