(* ===== verification/Resolver.v ===== *)
(** * Resolver: the DNS client of the server (resolver/)

    A resolver turns a name into at most one address of each family.  The DNS server is
    any function from the queries made so far and the next one to an answer, so it
    may change its mind or loop; [lookup] follows its CNAMEs.  Records are what
    the DNS library decodes.  [Module Pool] models the idle connections of the TCP and TLS
    resolvers, shared by the queries in flight, as a transition system; the HTTPS
    resolver is a function of the outcome of its one request.  [dns.Fqdn],
    [net.ParseIP], the encoding of messages and the network are parameters. *)

From S2P Require Import Prelude GoStrings AclMatch.
#[local] Open Scope string_scope.
#[local] Open Scope list_scope.
#[local] Open Scope Z_scope.
#[local] Set Warnings "-clear-no-such-hyp".

Module Resolver.
Import AclMatch.

Definition resolverDefaultTimeout : Z := 2000000000.
Definition standardResolverRetryTimes : nat := 2.
Definition maxCNAMEDepth : nat := 16.
Definition dohContentType : string := "application/dns-message".
Definition dohMaxResponseSize : Z := 65536.

Inductive dns_error :=
  | errCNAMEChainTooLong
  | errResolverPanic
  | errExchange (msg : string)
  | errPack
  | errRequest
  | errHTTP
  | errStatus (code : Z)
  | errContentType (ct : string)
  | errBody
  | errUnpack
  | errRcode (code : Z).

(** [IPv4] and [IPv6] are [[]] for nil. *)
Record Result := MkResult { r_IPv4 : IP; r_IPv6 : IP; r_Err : option dns_error }.

(** [Error.Error()]: the text of a wrapped failure, [None] for nil. *)
Definition Error_text (err : option string) : string :=
  match err with None => "resolve error" | Some text => "resolve error: " +:+ text end.

Definition Empty (r : Result) : bool := (len (r_IPv4 r) =? 0) && (len (r_IPv6 r) =? 0).

Definition TypeA : Z := 1.
Definition TypeAAAA : Z := 28.

(** [ip.To16()] *)
Definition To16 (ip : IP) : IP :=
  if len ip =? 4 then v4InV6Prefix ++ ip else if len ip =? 16 then ip else [].

(** ** Assembling a result *)

Section parse.
Variable ParseIP : string -> option IP.

Definition tryParseIP (host : string) : option Result :=
  match ParseIP host with
  | None => None
  | Some ip => if negb (len (To4 ip) =? 0) then Some (MkResult (To4 ip) [] None) else Some (MkResult [] ip None)
  end.

(** How one of the two goroutines ends: the lookup returns or panics. *)
Inductive outcome := Returned (ip : IP) (err : option dns_error) | Panicked.

Definition recovered (o : outcome) : IP * option dns_error :=
  match o with Returned ip err => (ip, err) | Panicked => ([], Some errResolverPanic) end.

Definition resolveParallel (lookup : Z -> outcome) : Result :=
  let '(ip4, err4) := recovered (lookup TypeA) in
  let '(ip6, err6) := recovered (lookup TypeAAAA) in
  MkResult ip4 ip6 (match err4 with Some _ => err4 | None => err6 end).

(** [Resolve] of both kinds of resolver, given its lookup. *)
Definition Resolve (lookup : string -> Z -> outcome) (host : string) : Result :=
  match tryParseIP host with Some result => result | None => resolveParallel (lookup host) end.

End parse.

(** ** Addresses of resolvers *)

Definition timeoutOrDefault (timeout : Z) : Z := if timeout <=? 0 then resolverDefaultTimeout else timeout.

Definition addPortIfMissing (addr port : string) : string :=
  match SplitHostPort addr with None => JoinHostPort addr port | Some _ => addr end.

Definition addDefaultPort (addr : string) : string := addPortIfMissing addr "53".
Definition addDefaultPortTLS (addr : string) : string := addPortIfMissing addr "853".

(** What a resolver is configured with. *)
Inductive transport :=
  | NetUDP
  | NetTCP
  | NetTLS (sni : string) (insecure : bool)
  | NetHTTPS (sni : string) (insecure : bool).

Record resolver := MkResolver { rs_addr : string; rs_net : transport; rs_timeout : Z }.

Definition has_pool (r : resolver) : bool :=
  match rs_net r with NetTCP | NetTLS _ _ => true | NetUDP | NetHTTPS _ _ => false end.

Definition NewUDP (addr : string) (timeout : Z) : resolver :=
  MkResolver (addDefaultPort addr) NetUDP (timeoutOrDefault timeout).

Definition NewTCP (addr : string) (timeout : Z) : resolver :=
  MkResolver (addDefaultPort addr) NetTCP (timeoutOrDefault timeout).

Definition NewTLS (addr : string) (timeout : Z) (sni : string) (insecure : bool) : resolver :=
  MkResolver (addDefaultPortTLS addr) (NetTLS sni insecure) (timeoutOrDefault timeout).

Definition bracketIPv6 (ParseIP : string -> option IP) (addr : string) : string :=
  match ParseIP addr with
  | Some ip => if len (To4 ip) =? 0 then "[" +:+ addr +:+ "]" else addr
  | None => addr
  end.

Definition NewHTTPS (ParseIP : string -> option IP) (addr : string) (timeout : Z) (sni : string) (insecure : bool)
  : resolver :=
  let addr := if HasPrefix "https://" addr then addr else "https://" +:+ bracketIPv6 ParseIP addr +:+ "/dns-query" in
  MkResolver addr (NetHTTPS sni insecure) (timeoutOrDefault timeout).

(** ** Answers *)

Inductive RR :=
  | RR_A (name : string) (a : IP)
  | RR_AAAA (name : string) (aaaa : IP)
  | RR_CNAME (name target : string)
  | RR_other (name : string).

(** The loop of [firstAddress]. *)
Fixpoint first_address (hasCNAME : bool) (answers : list RR) (qtype : Z) : IP * bool :=
  match answers with
  | [] => ([], hasCNAME)
  | RR_A _ a :: answers => if qtype =? TypeA then (To4 a, false) else first_address hasCNAME answers qtype
  | RR_AAAA _ a :: answers => if qtype =? TypeAAAA then (To16 a, false) else first_address hasCNAME answers qtype
  | RR_CNAME _ _ :: answers => first_address true answers qtype
  | RR_other _ :: answers => first_address hasCNAME answers qtype
  end.

Definition firstAddress (answers : list RR) (qtype : Z) : IP * bool := first_address false answers qtype.

(** The loop of [skipCNAMEChain]. *)
Fixpoint skip_chain (lastCNAME : string) (answers : list RR) : string :=
  match answers with
  | [] => lastCNAME
  | RR_CNAME name target :: answers =>
      if String.eqb lastCNAME "" || String.eqb name lastCNAME then skip_chain target answers else lastCNAME
  | _ :: answers => skip_chain lastCNAME answers
  end.

Definition skipCNAMEChain (answers : list RR) : string := skip_chain "" answers.

(** ** Lookups over UDP, TCP and TLS *)

Section lookup.
Variable unicode_lower : string -> string.
(** [dns.Fqdn] *)
Variable Fqdn : string -> string.

(** The question of a query. *)
Definition query : Type := string * Z.

(** What [exchange] returns, given the queries made before. *)
Variable exchange : list query -> query -> dns_error + list RR.

Definition seen_key (host : string) : string := ToLower unicode_lower (Fqdn host).

(** The state is the list of queries made.  The argument [hops] is
    [maxCNAMEDepth + 1 - depth], so that [depth > maxCNAMEDepth] is [hops = 0]. *)
Fixpoint lookup_go (hops : nat) (made : list query) (host : string) (qtype : Z) (seen : gset string)
  : list query * (IP * option dns_error) :=
  match hops with
  | O => (made, ([], Some errCNAMEChainTooLong))
  | S hops =>
      let key := seen_key host in
      if decide (key ∈ seen) then (made, ([], Some errCNAMEChainTooLong))
      else
        let seen := {[key]} ∪ seen in
        let q := (Fqdn host, qtype) in
        let resp := exchange made q in
        let made := made ++ [q] in
        match resp with
        | inl err => (made, ([], Some err))
        | inr [] => (made, ([], None))
        | inr answers =>
            let '(ip, hasCNAME) := firstAddress answers qtype in
            if negb (len ip =? 0) || negb hasCNAME then (made, (ip, None))
            else lookup_go hops made (skipCNAMEChain answers) qtype seen
        end
  end.

(** [r.lookup(ctx, host, qtype, 0, make(map[string]struct{}))] *)
Definition lookup (made : list query) (host : string) (qtype : Z) : list query * (IP * option dns_error) :=
  lookup_go (maxCNAMEDepth + 1) made host qtype ∅.

Fixpoint retry (times : nat) (last : IP * option dns_error) (made : list query) (host : string) (qtype : Z)
  : list query * (IP * option dns_error) :=
  match times with
  | O => (made, last)
  | S times =>
      let '(made, res) := lookup made host qtype in
      match res.2 with None => (made, res) | Some _ => retry times res made host qtype end
  end.

Definition lookupWithRetry (made : list query) (host : string) (qtype : Z) : list query * (IP * option dns_error) :=
  retry standardResolverRetryTimes ([], None) made host qtype.

End lookup.

(** ** Lookups over HTTPS *)

(** The response of the HTTP client: status, content type and body, if it could be read. *)
Record http_response := MkResponse { h_status : Z; h_contentType : string; h_body : option bytes }.

(** [strings.EqualFold(s, t)] for an ASCII [t]: letters match in either case, and [s] and
    [k] match the two other characters that fold to them, U+017F and U+212A. *)
Definition fold_rune (r : Z) : Z :=
  if (65 <=? r) && (r <=? 90) then r + 32 else if r =? 383 then 115 else if r =? 8490 then 107 else r.

Definition EqualFold (s t : string) : bool := bool_decide (fold_rune <$> runes s = fold_rune <$> runes t).

Definition isDNSMessage (contentType : string) : bool :=
  let mediaType := match cut ";" contentType with Some (m, _) => m | None => contentType end in
  EqualFold (TrimSpace mediaType) dohContentType.

Section doh.
Variable Fqdn : string -> string.
(** [m.Pack()], [resp.Unpack(body)] with code and answers, and [client.Do], after
    [http.NewRequestWithContext] accepted the address. *)
Variable Pack : string -> Z -> option bytes.
Variable Unpack : bytes -> option (Z * list RR).
Variable NewRequest : bool.
Variable Do : bytes -> option http_response.

Definition doh_exchange (wire : bytes) : dns_error + bytes :=
  if negb NewRequest then inl errRequest
  else
    match Do wire with
    | None => inl errHTTP
    | Some resp =>
        if negb (h_status resp =? 200) then inl (errStatus (h_status resp))
        else if negb (isDNSMessage (h_contentType resp)) then inl (errContentType (h_contentType resp))
        else
          match h_body resp with
          | None => inl errBody
          | Some body => inr (slice_to dohMaxResponseSize body)
          end
    end.

Definition doh_lookup (host : string) (qtype : Z) : IP * option dns_error :=
  match Pack (Fqdn host) qtype with
  | None => ([], Some errPack)
  | Some wire =>
      match doh_exchange wire with
      | inl err => ([], Some err)
      | inr body =>
          match Unpack body with
          | None => ([], Some errUnpack)
          | Some (rcode, answers) =>
              if negb (rcode =? 0) then ([], Some (errRcode rcode)) else ((firstAddress answers qtype).1, None)
          end
      end
  end.

End doh.

(** ** CNAME chains *)

Definition cnames (answers : list RR) : list (string * string) :=
  omap (fun rr => match rr with RR_CNAME n t => Some (n, t) | _ => None end) answers.

(** Every record is about the target of the one before. *)
Fixpoint linked (from : string) (l : list (string * string)) : Prop :=
  match l with [] => True | (n, t) :: l => n = from /\ linked t l end.

(** The records that [skipCNAMEChain] uses, from a current target on. *)
Lemma skip_chain_spec cur answers :
  cur <> "" -> Forall (fun c => c.2 <> "") (cnames answers) ->
  exists used rest, cnames answers = used ++ rest /\ linked cur used /\
    skip_chain cur answers = default cur (snd <$> last used) /\
    match rest with [] => True | c :: _ => c.1 <> skip_chain cur answers end.
Proof.
  revert cur. induction answers as [|rr answers IH]; intros cur Hc Hall; [by exists [], []|].
  destruct rr as [n a|n a|n t|n]; simpl in *; try (by apply IH).
  apply Forall_cons in Hall as [Ht Hall]. simpl in Ht. apply String.eqb_neq in Hc as Hc'. rewrite Hc'. simpl.
  destruct (String.eqb_spec n cur) as [->|Hne].
  - destruct (IH t Ht Hall) as (used & rest & E & Hl & Hs & Hr). exists ((cur, t) :: used), rest.
    split_and!; [by rewrite E|done| |done]. rewrite Hs. destruct used as [|c used]; [done|].
    rewrite (last_cons_cons (cur, t)). destruct (last (c :: used)) eqn:El; [done|]. by apply last_None in El.
  - by exists [], ((n, t) :: cnames answers).
Qed.

(** [skipCNAMEChain] ends at the end of the chain that starts with the first CNAME
    record and continues as long as the next CNAME record is about the last target. *)
Lemma skipCNAMEChain_spec answers n t l :
  cnames answers = (n, t) :: l -> Forall (fun c => c.2 <> "") (cnames answers) ->
  exists used rest, l = used ++ rest /\ linked t used /\
    skipCNAMEChain answers = default t (snd <$> last used) /\
    match rest with [] => True | c :: _ => c.1 <> skipCNAMEChain answers end.
Proof.
  unfold skipCNAMEChain. revert n t l. induction answers as [|rr answers IH]; intros n t l E Hall; [done|].
  destruct rr as [n' a|n' a|n' t'|n']; simpl in *; try (by eapply IH).
  injection E as -> -> <-. apply Forall_cons in Hall as [Ht Hall]. by apply skip_chain_spec.
Qed.

Lemma first_address_cname b answers qtype ip h :
  first_address b answers qtype = (ip, h) -> h = true -> b = true \/ cnames answers <> [].
Proof.
  revert b. induction answers as [|rr answers IH]; simpl; intros b H ->; [left; congruence|].
  destruct rr; simpl in *; try destruct (_ =? _); try done; eauto.
Qed.

(** The first record of the type asked for, in its normal form. *)
Definition record_of (qtype : Z) (rr : RR) (ip : IP) : Prop :=
  match rr with
  | RR_A _ a => qtype = TypeA /\ ip = To4 a
  | RR_AAAA _ a => qtype = TypeAAAA /\ ip = To16 a
  | _ => False
  end.

Lemma first_address_record b answers qtype ip h :
  first_address b answers qtype = (ip, h) -> ip <> [] ->
  exists before rr after, answers = before ++ rr :: after /\ record_of qtype rr ip /\
    Forall (fun rr' => forall ip', ~ record_of qtype rr' ip') before.
Proof.
  revert b. induction answers as [|rr answers IH]; simpl; intros b H Hne; [by injection H as <- _|].
  assert (forall b', first_address b' answers qtype = (ip, h) -> (forall ip', ~ record_of qtype rr ip') ->
    exists before rr' after, rr :: answers = before ++ rr' :: after /\ record_of qtype rr' ip /\
      Forall (fun rr' => forall ip', ~ record_of qtype rr' ip') before) as Hskip.
  { intros b' H' Hno. destruct (IH b' H' Hne) as (bf & rr' & af & -> & ? & ?).
    exists (rr :: bf), rr', af. split_and!; [done..|]. by constructor. }
  destruct rr as [n a|n a|n t|n]; simpl in H.
  - destruct (Z.eqb_spec qtype TypeA) as [->|Hq]; [|eapply Hskip; [done|by intros ? [? _]]].
    injection H as <- _. by exists [], (RR_A n a), answers.
  - destruct (Z.eqb_spec qtype TypeAAAA) as [->|Hq]; [|eapply Hskip; [done|by intros ? [? _]]].
    injection H as <- _. by exists [], (RR_AAAA n a), answers.
  - eapply Hskip; [done|by intros ? []].
  - eapply Hskip; [done|by intros ? []].
Qed.

(** ** What a lookup returns *)

Section lookup_spec.
Variable unicode_lower : string -> string.
Variable Fqdn : string -> string.
Variable exchange : list query -> query -> dns_error + list RR.
Abbreviation key := (seen_key unicode_lower Fqdn).
Abbreviation go := (lookup_go unicode_lower Fqdn exchange).

(** A walk along CNAMEs: each name asked with the answer it got, the first name being
    [host], and each next name the end of the CNAME chain of an answer without an
    address of the type asked for. *)
Inductive walk (qtype : Z) : list query -> string -> list (string * list RR) -> Prop :=
  | walk_last made host answers :
      exchange made (Fqdn host, qtype) = inr answers ->
      walk qtype made host [(host, answers)]
  | walk_more made host answers w :
      exchange made (Fqdn host, qtype) = inr answers ->
      cnames answers <> [] -> (firstAddress answers qtype).1 = [] ->
      walk qtype (made ++ [(Fqdn host, qtype)]) (skipCNAMEChain answers) w ->
      walk qtype made host ((host, answers) :: w).

Definition asked (qtype : Z) (hosts : list string) : list query := (fun h => (Fqdn h, qtype)) <$> hosts.

Lemma lookup_go_spec hops made host qtype seen made' ip err :
  go hops made host qtype seen = (made', (ip, err)) ->
  exists hosts, made' = made ++ asked qtype hosts /\ (length hosts <= hops)%nat /\
    NoDup (key <$> hosts) /\ Forall (fun h => key h ∉ seen) hosts /\
    (ip <> [] -> err = None /\ exists w h answers, walk qtype made host w /\ hosts = w.*1 /\
      last w = Some (h, answers) /\ (firstAddress answers qtype).1 = ip).
Proof.
  revert made host seen. induction hops as [|hops IH]; intros made host seen H.
  { injection H as <- <- <-. exists []. unfold asked. rewrite app_nil_r. split_and!; try done; constructor. }
  simpl in H. case_decide as Hin.
  { injection H as <- <- <-. exists []. unfold asked. rewrite app_nil_r. split_and!; try done; try constructor; simpl; lia. }
  set (q := (Fqdn host, qtype)) in *.
  assert (forall ip' err', made' = made ++ [q] -> (ip' <> [] -> err' = None /\ exists answers,
      exchange made q = inr answers /\ (firstAddress answers qtype).1 = ip') -> ip = ip' -> err = err' ->
    exists hosts, made' = made ++ asked qtype hosts /\ (length hosts <= S hops)%nat /\
    NoDup (key <$> hosts) /\ Forall (fun h => key h ∉ seen) hosts /\
    (ip <> [] -> err = None /\ exists w h answers, walk qtype made host w /\ hosts = w.*1 /\
      last w = Some (h, answers) /\ (firstAddress answers qtype).1 = ip)) as Hone.
  { intros ip' err' -> Hip -> ->. exists [host]. split_and!; [done|simpl; lia|apply NoDup_singleton|by constructor; [|apply Forall_nil_2]|].
    intros Hne. destruct (Hip Hne) as (-> & answers & He & Hf). split; [done|].
    exists [(host, answers)], host, answers. split_and!; [by constructor|done..]. }
  destruct (exchange made q) as [e|answers] eqn:He.
  { injection H as <- <- <-. by apply (Hone [] (Some e)). }
  destruct answers as [|rr answers']; [injection H as <- <- <-; by apply (Hone [] None)|].
  set (answers := rr :: answers') in *. destruct (firstAddress answers qtype) as [ip0 h] eqn:Ef.
  destruct (negb (len ip0 =? 0) || negb h) eqn:Ec.
  { injection H as <- <- <-. apply (Hone ip0 None); try done. intros _. split; [done|]. exists answers. by rewrite Ef. }
  apply orb_false_iff in Ec as [Hl%negb_false_iff%Z.eqb_eq%len_zero_nil Hh%negb_false_iff]. subst ip0 h.
  destruct (IH _ _ _ H) as (hosts & -> & Hlen & Hnd & Hs & Hw). exists (host :: hosts). split_and!.
  - unfold asked. simpl. by rewrite <- app_assoc.
  - simpl. lia.
  - simpl. apply NoDup_cons. split; [|done]. intros (h' & Ek & Hh')%list_elem_of_fmap.
    rewrite Forall_forall in Hs. specialize (Hs h' Hh'). set_solver.
  - constructor; [done|]. eapply Forall_impl; [exact Hs|]. set_solver.
  - intros Hne. destruct (Hw Hne) as (-> & w & h' & a' & Hwalk & -> & Hlast & Hfa). split; [done|].
    exists ((host, answers) :: w), h', a'. split_and!; auto.
    + apply walk_more; try done; [|by rewrite Ef]. unfold firstAddress in Ef.
      destruct (first_address_cname false answers qtype [] true Ef eq_refl) as [?|Hc]; [done|exact Hc].
    + by destruct w as [|c w]; [|rewrite last_cons_cons].
Qed.

(** One try: different names, at most 17 of them. *)
Definition one_try (hosts : list string) : Prop := (length hosts <= maxCNAMEDepth + 1)%nat /\ NoDup (key <$> hosts).

(** An address comes from the last answer of a walk that ends the queries made. *)
Definition walked_to (qtype : Z) (host : string) (made' : list query) (ip : IP) : Prop :=
  exists before w h answers,
    made' = before ++ asked qtype w.*1 /\ walk qtype before host w /\ last w = Some (h, answers) /\
    exists l rr r, answers = l ++ rr :: r /\ record_of qtype rr ip /\
      Forall (fun rr' => forall ip', ~ record_of qtype rr' ip') l.

Lemma lookup_spec_try made host qtype made' ip err :
  lookup unicode_lower Fqdn exchange made host qtype = (made', (ip, err)) ->
  (exists hosts, made' = made ++ asked qtype hosts /\ one_try hosts) /\
  (ip <> [] -> err = None /\ walked_to qtype host made' ip).
Proof.
  intros H. destruct (lookup_go_spec _ _ _ _ _ _ _ _ H) as (hosts & -> & Hl & Hnd & _ & Hip).
  split; [by exists hosts|]. intros Hne. destruct (Hip Hne) as (-> & w & h & answers & Hw & -> & Hlast & Hf).
  split; [done|]. exists made, w, h, answers. split_and!; try done.
  unfold firstAddress in Hf. destruct (first_address false answers qtype) as [ip0 b] eqn:E. simpl in Hf. subst ip0.
  by eapply first_address_record.
Qed.

Lemma retry_spec times last made host qtype made' ip err :
  retry unicode_lower Fqdn exchange times last made host qtype = (made', (ip, err)) ->
  (times = 0%nat -> last.1 = []) ->
  (exists tries, made' = made ++ asked qtype (concat tries) /\ (length tries <= times)%nat /\ Forall one_try tries) /\
  (ip <> [] -> err = None /\ walked_to qtype host made' ip).
Proof.
  revert last made. induction times as [|times IH]; intros last made H Hz; simpl in H.
  { injection H as <- ->. split; [|by intros []; apply Hz]. exists []. unfold asked. rewrite app_nil_r. split_and!; [done|simpl; lia|constructor]. }
  destruct (lookup _ _ _ made host qtype) as [made1 [ip1 err1]] eqn:E. simpl in H.
  destruct (lookup_spec_try _ _ _ _ _ _ E) as [(hosts & -> & Hh) Hip]. destruct err1 as [e|].
  - assert (ip1 = []) as -> by (destruct ip1; [done|]; by destruct Hip as [? _]).
    destruct (IH _ _ H ltac:(done)) as [(tries & -> & Hl & Hall) Hw]. split; [|done].
    exists (hosts :: tries). unfold asked. simpl. rewrite fmap_app, app_assoc. split_and!; [done|lia|by constructor].
  - injection H as <- <- <-. split; [|done]. exists [hosts]. unfold asked. simpl. rewrite app_nil_r.
    split_and!; [done|lia|]. constructor; [done|constructor].
Qed.

(** C19.  A lookup ends and answers from the DNS: however the server answers, it makes at most
    two tries of at most 17 queries each, with no name asked twice in a try; and an
    address it returns, never together with an error, is that of the first record of the
    type asked for in the answer to its last query, which it reached from the host
    along CNAME records only. *)
Theorem lookup_bounded_sound made host qtype made' ip err :
  lookupWithRetry unicode_lower Fqdn exchange made host qtype = (made', (ip, err)) ->
  (exists tries, made' = made ++ asked qtype (concat tries) /\
     (length tries <= standardResolverRetryTimes)%nat /\ Forall one_try tries) /\
  (length made' <= length made + 34)%nat /\
  (ip <> [] -> err = None /\ walked_to qtype host made' ip).
Proof.
  intros H. destruct (retry_spec _ _ _ _ _ _ _ _ H ltac:(done)) as [(tries & -> & Hl & Hall) Hip].
  split_and!; [by exists tries| |done]. unfold asked. rewrite length_app, length_fmap.
  assert (forall l, Forall one_try l -> (length (concat l) <= 17 * length l)%nat) as Hb.
  { induction l as [|h l IH]; intros Hl'; [simpl; lia|]. apply Forall_cons in Hl' as [[Hh _] Hl'].
    simpl. rewrite length_app. specialize (IH Hl'). unfold maxCNAMEDepth in Hh. lia. }
  specialize (Hb tries Hall). unfold standardResolverRetryTimes in Hl. lia.
Qed.

End lookup_spec.

(** A server that answers the first query with a CNAME chain in one packet, the second with
    the address. *)
Definition sample_exchange (made : list query) (q : query) : dns_error + list RR :=
  if String.eqb q.1 "www.example." then inr [RR_CNAME "www.example." "a.example."; RR_CNAME "a.example." "b.example."]
  else if String.eqb q.1 "b.example." then inr [RR_other "b.example."; RR_A "b.example." [x08; x08; x08; x08]]
  else inr [].

Definition sample_fqdn (s : string) : string := if HasSuffix "." s then s else s +:+ ".".

Lemma lookup_bounded_sound_witness :
  lookupWithRetry (fun s => s) sample_fqdn sample_exchange [] "www.example" TypeA =
    ([("www.example.", 1); ("b.example.", 1)], ([x08; x08; x08; x08], None)) /\
  walked_to sample_fqdn sample_exchange TypeA "www.example" [("www.example.", 1); ("b.example.", 1)] [x08; x08; x08; x08].
Proof.
  split; [vm_compute; reflexivity|].
  refine (proj2 (proj2 (proj2 (lookup_bounded_sound (fun s => s) sample_fqdn sample_exchange [] "www.example" TypeA _ _ None _)) _)).
  - vm_compute. reflexivity.
  - done.
Defined.

(** A server that answers every query with a new CNAME is asked 34 times. *)
Example endless_cnames :
  let ex made (q : query) := inr [RR_CNAME q.1 ("x" +:+ q.1)] in
  let r := lookupWithRetry (fun s => s) sample_fqdn ex [] "a" TypeAAAA in
  length r.1 = 34%nat /\ r.2 = ([], Some errCNAMEChainTooLong).
Proof. vm_compute. done. Qed.

(** ** Results *)

(** [Resolve] returns a literal address as it is, an IPv4 one in four bytes; for a name it
    keeps the address of each family even if the other lookup failed or panicked, and
    reports the error of the IPv4 lookup first. *)
Theorem resolve_result ParseIP lookup host :
  Resolve ParseIP lookup host =
  match ParseIP host with
  | Some ip => if decide (To4 ip = []) then MkResult [] ip None else MkResult (To4 ip) [] None
  | None =>
      MkResult (recovered (lookup host TypeA)).1 (recovered (lookup host TypeAAAA)).1
        (match (recovered (lookup host TypeA)).2 with Some err => Some err | None => (recovered (lookup host TypeAAAA)).2 end)
  end.
Proof.
  unfold Resolve, tryParseIP, resolveParallel. destruct (ParseIP host) as [ip|].
  - case_decide as E; [by rewrite E|]. destruct (Z.eqb_spec (len (To4 ip)) 0) as [E'%len_zero_nil|]; done.
  - destruct (recovered (lookup host TypeA)) as [ip4 err4], (recovered (lookup host TypeAAAA)) as [ip6 err6]. simpl.
    by destruct err4.
Qed.

(** ** Server addresses *)

(** An address without brackets and colons gets the default port, an address with a port
    keeps it, a bare IPv6 literal is put in brackets first: in each case the result
    has a host and a port. *)
Theorem add_port_spec addr port host p :
  no_brackets addr -> no_brackets port -> contains_byte ":" port = false ->
  (contains_byte ":" addr = false \/ SplitHostPort addr = None -> SplitHostPort (addPortIfMissing addr port) = Some (addr, port)) /\
  (SplitHostPort addr = Some (host, p) -> addPortIfMissing addr port = addr).
Proof.
  intros Ha Hp Hc. unfold addPortIfMissing. split; [|by intros ->].
  intros Hcase. assert (SplitHostPort addr = None) as ->; [|by apply Split_JoinHostPort].
  destruct Hcase as [Hcol|?]; [|done]. unfold SplitHostPort. by rewrite rcut_none.
Qed.

(** A bracketed IPv6 literal without a port becomes an address nobody can dial. *)
Theorem bracketed_address_broken :
  NewUDP "[2001:db8::1]" 0 = MkResolver "[[2001:db8::1]]:53" NetUDP 2000000000 /\
  SplitHostPort "[[2001:db8::1]]:53" = None.
Proof. vm_compute. done. Qed.

End Resolver.
