(* ===== verification/DnsPool.v ===== *)
(** * DnsPool: idle connections to the DNS server (resolver/pool.go)

    The queries of a TCP or TLS resolver share a buffered channel of idle connections.  The
    state holds the channel, the calls of [exchange] in flight, each with the
    connection it uses, and the connections closed so far; connections are numbered in
    the order they are dialed.  An event is what the network answers to one call;
    between two events of a call any other call may proceed.  A step is [None] where
    the event cannot happen. *)

From S2P Require Import Prelude.
#[local] Open Scope list_scope.
#[local] Open Scope Z_scope.

Module DnsPool.

Definition maxIdleDNSConns : nat := 8.

Definition conn : Type := nat.

(** ** The channel *)

(** [get]: the oldest idle connection, if there is one, and the rest. *)
Definition get (idle : list conn) : option conn * list conn :=
  match idle with [] => (None, []) | c :: idle => (Some c, idle) end.

(** [put]: the channel and the connections that it closes. *)
Definition put (idle : list conn) (c : conn) : list conn * list conn :=
  if (length idle <? maxIdleDNSConns)%nat then (idle ++ [c], []) else (idle, [c]).

(** ** Calls of [exchange] *)

Inductive call :=
  | OnIdle (c : conn)        (** in [exchangeOn] with a connection of the channel *)
  | Dialing                  (** in [DialContext] *)
  | OnFresh (c : conn)       (** in [exchangeOn] with a new connection *)
  | Finished (ok : bool).

Record pool := MkPool {
  p_idle : list conn;
  p_calls : gmap Z call;
  p_closed : list conn;
  p_next : conn
}.

Definition newConnPool : pool := MkPool [] ∅ [] 0%nat.

Definition set_call (p : pool) (q : Z) (c : call) : pool :=
  MkPool (p_idle p) (<[q := c]> (p_calls p)) (p_closed p) (p_next p).

Definition close_conn (p : pool) (c : conn) : pool :=
  MkPool (p_idle p) (p_calls p) (p_closed p ++ [c]) (p_next p).

Inductive event :=
  | Begin (q : Z)                               (** a query calls [exchange] *)
  | Reply (q : Z)                               (** [ExchangeWithConnContext] returns an answer *)
  | Failed (q : Z) (timeout cancelled : bool)   (** it returns an error; [isTimeout(err)], [ctx.Err() != nil] *)
  | Dialed (q : Z) (ok : bool).                 (** [DialContext] returns *)

(** The first part of [exchange]: an idle connection or a new one. *)
Definition begin_call (p : pool) (q : Z) : pool :=
  match get (p_idle p) with
  | (Some c, idle) => set_call (MkPool idle (p_calls p) (p_closed p) (p_next p)) q (OnIdle c)
  | (None, idle) => set_call (MkPool idle (p_calls p) (p_closed p) (p_next p)) q Dialing
  end.

(** [exchangeOn] after a clean exchange on [c]. *)
Definition finish_clean (p : pool) (q : Z) (c : conn) : pool :=
  let '(idle, closed) := put (p_idle p) c in
  set_call (MkPool idle (p_calls p) (p_closed p ++ closed) (p_next p)) q (Finished true).

(** [exchangeOn] after an error on [c]: the call is in state [next]. *)
Definition finish_error (p : pool) (q : Z) (c : conn) (next : call) : pool := set_call (close_conn p c) q next.

Definition step (p : pool) (e : event) : option pool :=
  match e with
  | Begin q => match p_calls p !! q with None => Some (begin_call p q) | Some _ => None end
  | Reply q =>
      match p_calls p !! q with
      | Some (OnIdle c) | Some (OnFresh c) => Some (finish_clean p q c)
      | _ => None
      end
  | Failed q timeout cancelled =>
      match p_calls p !! q with
      | Some (OnIdle c) => Some (finish_error p q c (if timeout || cancelled then Finished false else Dialing))
      | Some (OnFresh c) => Some (finish_error p q c (Finished false))
      | _ => None
      end
  | Dialed q ok =>
      match p_calls p !! q with
      | Some Dialing =>
          if ok then Some (set_call (MkPool (p_idle p) (p_calls p) (p_closed p) (S (p_next p))) q (OnFresh (p_next p)))
          else Some (set_call p q (Finished false))
      | _ => None
      end
  end.

Fixpoint run (p : pool) (evs : list event) : option pool :=
  match evs with
  | [] => Some p
  | e :: evs => match step p e with Some p => run p evs | None => None end
  end.

(** ** Who has which connection *)

Definition call_conn (c : call) : list conn :=
  match c with OnIdle c | OnFresh c => [c] | Dialing | Finished _ => [] end.

(** The connections in use. *)
Definition held (m : gmap Z call) : list conn := (map_to_list m).*2 ≫= call_conn.

Lemma held_delete m q c : m !! q = Some c -> held m ≡ₚ call_conn c ++ held (delete q m).
Proof. intros H. unfold held. by rewrite <- (map_to_list_delete m q c H). Qed.

Lemma held_fresh m q c : m !! q = None -> held (<[q := c]> m) ≡ₚ call_conn c ++ held m.
Proof. intros H. unfold held. by rewrite (map_to_list_insert m q c H). Qed.

Lemma held_set m q c c' : m !! q = Some c -> call_conn c ++ held (<[q := c']> m) ≡ₚ call_conn c' ++ held m.
Proof.
  intros H. rewrite <- insert_delete_eq, held_fresh by apply lookup_delete_eq. rewrite (held_delete m q c H). solve_Permutation.
Qed.

(** Every connection ever dialed is idle, in use by one call or closed. *)
Record pool_inv (p : pool) : Prop := {
  pv_bound : (length (p_idle p) <= maxIdleDNSConns)%nat;
  pv_owner : p_idle p ++ held (p_calls p) ++ p_closed p ≡ₚ seq 0 (p_next p)
}.

Lemma pool_inv_init : pool_inv newConnPool.
Proof. split; [simpl; lia|done]. Qed.

(** A call that keeps no connection gives its own to the channel or closes it. *)
Lemma finish_clean_inv p q c old : pool_inv p -> p_calls p !! q = Some old -> call_conn old = [c] -> pool_inv (finish_clean p q c).
Proof.
  intros [Hb Ho] Hq Hc. pose proof (held_set (p_calls p) q old (Finished true) Hq) as Hs. rewrite Hc in Hs. simpl in Hs.
  unfold finish_clean, put. destruct (Nat.ltb_spec (length (p_idle p)) maxIdleDNSConns); split; simpl.
  - rewrite length_app. simpl. lia.
  - rewrite <- Ho, <- Hs, app_nil_r. solve_Permutation.
  - done.
  - rewrite <- Ho, <- Hs. solve_Permutation.
Qed.

Lemma finish_error_inv p q c old next :
  pool_inv p -> p_calls p !! q = Some old -> call_conn old = [c] -> call_conn next = [] -> pool_inv (finish_error p q c next).
Proof.
  intros [Hb Ho] Hq Hc Hn. pose proof (held_set (p_calls p) q old next Hq) as Hs. rewrite Hc, Hn in Hs. simpl in Hs.
  split; simpl; [done|]. rewrite <- Ho, <- Hs. solve_Permutation.
Qed.

Lemma begin_call_inv p q : pool_inv p -> p_calls p !! q = None -> pool_inv (begin_call p q).
Proof.
  intros [Hb Ho] Hq. unfold begin_call, set_call. destruct (p_idle p) as [|c idle]; split; simpl in *; try lia;
    rewrite held_fresh by done; rewrite <- Ho; simpl; solve_Permutation.
Qed.

Lemma dialed_inv p q :
  pool_inv p -> p_calls p !! q = Some Dialing ->
  pool_inv (set_call (MkPool (p_idle p) (p_calls p) (p_closed p) (S (p_next p))) q (OnFresh (p_next p))).
Proof.
  intros [Hb Ho] Hq. pose proof (held_set (p_calls p) q Dialing (OnFresh (p_next p)) Hq) as Hs. simpl in Hs.
  split; [done|]. cbn [p_idle p_calls p_closed p_next set_call]. rewrite Hs, seq_S, <- Ho. simpl. solve_Permutation.
Qed.

Lemma dial_failed_inv p q : pool_inv p -> p_calls p !! q = Some Dialing -> pool_inv (set_call p q (Finished false)).
Proof.
  intros [Hb Ho] Hq. pose proof (held_set (p_calls p) q Dialing (Finished false) Hq) as Hs. simpl in Hs.
  split; simpl; [done|]. by rewrite Hs.
Qed.

Lemma step_inv p e p' : pool_inv p -> step p e = Some p' -> pool_inv p'.
Proof.
  intros Hp H. destruct e as [q|q|q t x|q ok]; simpl in H; destruct (p_calls p !! q) as [[c| |c|b]|] eqn:Eq; simplify_eq.
  - by apply begin_call_inv.
  - by eapply finish_clean_inv.
  - by eapply finish_clean_inv.
  - eapply finish_error_inv; try done. by destruct (t || x).
  - by eapply finish_error_inv.
  - destruct ok; simplify_eq; [by apply dialed_inv|by apply dial_failed_inv].
Qed.

Lemma run_inv p evs p' : pool_inv p -> run p evs = Some p' -> pool_inv p'.
Proof.
  revert p. induction evs as [|e evs IH]; intros p Hp H; simpl in H; [by simplify_eq|].
  destruct (step p e) as [p1|] eqn:E; [|done]. eapply IH; [|done]. by eapply step_inv.
Qed.

Lemma step_closed p e p' c : step p e = Some p' -> c ∈ p_closed p -> c ∈ p_closed p'.
Proof.
  intros H Hc. destruct e; simpl in H; repeat (case_match; simplify_eq; try done);
    unfold begin_call, finish_clean, put; repeat case_match; simplify_eq; simpl; try done; apply elem_of_app; by left.
Qed.

Lemma closed_stays p evs p' c : run p evs = Some p' -> c ∈ p_closed p -> c ∈ p_closed p'.
Proof.
  revert p. induction evs as [|e evs IH]; intros p H Hc; simpl in H; [by simplify_eq|].
  destruct (step p e) as [p1|] eqn:E; [|done]. eapply IH; [done|]. by eapply step_closed.
Qed.

Lemma owner_once p :
  pool_inv p ->
  NoDup (p_idle p ++ held (p_calls p) ++ p_closed p) /\
  (forall c, (c < p_next p)%nat <-> c ∈ p_idle p ++ held (p_calls p) ++ p_closed p).
Proof.
  intros [_ Ho]. rewrite Ho. split; [apply NoDup_seq|]. intros c. rewrite Ho, elem_of_seq. lia.
Qed.

(** The connection a call uses before an event. *)
Definition uses (p : pool) (q : Z) (c : conn) : Prop := p_calls p !! q = Some (OnIdle c) \/ p_calls p !! q = Some (OnFresh c).

(** C20.  A connection has one owner: however the queries of a resolver interleave and
    whatever the network does, at most eight connections are idle, and each
    connection ever dialed is exactly one of idle, in use by a single query, and
    closed (none is lost).  One on which an exchange failed is closed at once and
    never used again, so no query reads the late answer to another. *)
Theorem dns_pool_exclusive evs p :
  run newConnPool evs = Some p ->
  (length (p_idle p) <= maxIdleDNSConns)%nat /\
  NoDup (p_idle p ++ held (p_calls p) ++ p_closed p) /\
  (forall c, (c < p_next p)%nat <-> c ∈ p_idle p ++ held (p_calls p) ++ p_closed p) /\
  (forall q c t x p1 later p2, uses p q c -> step p (Failed q t x) = Some p1 -> run p1 later = Some p2 ->
     c ∈ p_closed p2 /\ c ∉ p_idle p2 ++ held (p_calls p2)).
Proof.
  intros H. pose proof (run_inv _ _ _ pool_inv_init H) as Hp. split_and!.
  - apply Hp.
  - by apply owner_once.
  - by apply owner_once.
  - intros q c t x p1 later p2 Hu Hs Hl. pose proof (run_inv _ _ _ (step_inv _ _ _ Hp Hs) Hl) as Hp2.
    assert (c ∈ p_closed p1) as Hc.
    { simpl in Hs. destruct Hu as [Hu|Hu]; rewrite Hu in Hs; simplify_eq; simpl; apply elem_of_app; right;
        by apply list_elem_of_singleton. }
    pose proof (closed_stays _ _ _ _ Hl Hc) as Hc2. split; [done|]. intros Hin.
    destruct (owner_once p2 Hp2) as [Hnd _]. rewrite app_assoc in Hnd. apply NoDup_app in Hnd as (_ & Hd & _).
    exact (Hd c Hin Hc2).
Qed.

(** Two queries on two connections, one of which then times out; a third query takes the
    idle one and the last dials. *)
Definition sample_events : list event :=
  [Begin 1; Begin 2; Dialed 2 true; Dialed 1 true; Reply 2; Begin 3; Failed 1 true false; Reply 3; Begin 4].

Lemma dns_pool_exclusive_witness :
  (exists p, run newConnPool sample_events = Some p /\ p_idle p = [] /\ p_closed p = [1%nat] /\ uses p 4 0%nat) /\
  (forall p, run newConnPool sample_events = Some p -> (length (p_idle p) <= maxIdleDNSConns)%nat).
Proof.
  split; [eexists; split_and!; [vm_compute; reflexivity|vm_compute; reflexivity..|left; vm_compute; reflexivity]|].
  intros p H. exact (proj1 (dns_pool_exclusive sample_events p H)).
Defined.

(** ** Progress *)

Definition rank (c : option call) : nat :=
  match c with None => 4 | Some (OnIdle _) => 3 | Some Dialing => 2 | Some (OnFresh _) => 1 | Some (Finished _) => 0 end.

Definition subject (e : event) : Z := match e with Begin q | Reply q | Failed q _ _ | Dialed q _ => q end.

(** A call makes at most four steps, two of them exchanges: each event of a query
    brings it closer to its end and leaves the other queries alone. *)
Theorem exchange_ends p e p' :
  step p e = Some p' ->
  (rank (p_calls p' !! subject e) < rank (p_calls p !! subject e))%nat /\
  (forall q, q <> subject e -> p_calls p' !! q = p_calls p !! q).
Proof.
  intros H. destruct e; simpl in *; repeat (case_match; simplify_eq; try done);
    unfold begin_call, finish_clean, finish_error, set_call, close_conn; repeat (case_match; simplify_eq);
    simpl; rewrite ?lookup_insert_eq; (split; [simpl; lia|]); intros q' Hq; by rewrite lookup_insert_ne.
Qed.

End DnsPool.
