(* ===== verification/Geo.v ===== *)
(** * Geo: loading and downloading the geo databases (acl/geoloader.go, acl/v2geo/load.go)

    The two databases differ in the type of their entries only, so the loader is written
    once, over a class that decodes the entries of a file, and used twice.  Files have
    contents and a modification time; the outcome of each call to the network or to
    the operating system, including its failures, is part of [io].  The two [Stat] calls
    may fail for a reason other than a missing file. *)

From S2P Require Import Prelude GoStrings AclMatch.
#[local] Open Scope string_scope.
#[local] Open Scope list_scope.
#[local] Open Scope Z_scope.

Module Geo.
Import AclMatch.

Definition geoipFilename : string := "geoip.dat".
Definition geositeFilename : string := "geosite.dat".
Definition geoDefaultUpdateInterval : Z := 7 * 24 * 3600 * 1000000000.

(** The constant part of [geoDlTmpPattern]. *)
Definition geoDlTmpPrefix : string := ".anytls-geoloader.dlpart.".

Record file := MkFile { f_data : bytes; f_modTime : Z }.

Abbreviation files := (gmap string file).

(** ** v2geo *)

(** The decoder of a list of entries with their country codes ([proto.Unmarshal]). *)
Class GeoDecoder (E : Type) := { Unmarshal : bytes -> option (list (string * E)) }.

Section load.
Context {E : Type} `{!GeoDecoder E}.
Variable unicode_lower : string -> string.

(** The map of [v2geo.LoadGeoIP] and [v2geo.LoadGeoSite]. *)
Definition geo_map (l : list (string * E)) : gmap string E :=
  foldl (fun m entry => <[ToLower unicode_lower entry.1 := entry.2]> m) ∅ l.

(** [v2geo.LoadGeoIP(filename)]; [readable] says that reading an existing file succeeds. *)
Definition load_db (fs : files) (readable : bool) (filename : string) : option (gmap string E) :=
  match fs !! filename with
  | Some f => if readable then geo_map <$> Unmarshal (f_data f) else None
  | None => None
  end.

(** ** FileGeoLoader *)

(** The filename of one of the two databases, the update interval and the loaded map. *)
Record loader := MkLoader {
  l_Filename : string;
  l_UpdateInterval : Z;
  l_map : option (gmap string E)
}.

(** What the system calls of one load return. *)
Record io := MkIO {
  now : Z;
  stat1_fails : bool;              (** [os.Stat] in [shouldDownload] fails, though the file exists *)
  read1 : bool;
  http_Get : option (bytes * bool); (** the response body, and whether it was copied to its end *)
  CreateTemp : option string;      (** the name of the new file *)
  read_tmp : bool;
  renames : bool;
  removes : bool;                  (** the deferred [os.Remove] of the temporary file succeeds *)
  read2 : bool
}.

Inductive geo_error := errGet | errCreateTemp | errCopy | errIntegrity | errRename | errLoad.

(** [os.Stat] on a file that exists may fail too; then [info] is nil, and the call
    [info.Size()] panics: the result is [None]. *)
Definition shouldDownload (l : loader) (fs : files) (i : io) (filename : string) : option bool :=
  match fs !! filename with
  | None => Some true
  | Some f =>
      if stat1_fails i then None
      else if len (f_data f) =? 0 then Some true
      else
        let dt := now i - f_modTime f in
        if l_UpdateInterval l =? 0 then Some (geoDefaultUpdateInterval <? dt) else Some (l_UpdateInterval l <? dt)
  end.

(** The temporary file is removed on every path once it is created, if it can be; the error is
    ignored.  After a successful rename it is gone. *)
Definition downloadAndCheck (fs : files) (i : io) (filename : string) : files * option geo_error :=
  match http_Get i with
  | None => (fs, Some errGet)
  | Some (body, copied) =>
      match CreateTemp i with
      | None => (fs, Some errCreateTemp)
      | Some tmp =>
          let f := MkFile body (now i) in
          let fs := <[tmp := f]> fs in
          let removed := if removes i then delete tmp fs else fs in
          if negb copied then (removed, Some errCopy)
          else
            match load_db fs (read_tmp i) tmp with
            | None => (removed, Some errIntegrity)
            | Some _ =>
                if negb (renames i) then (removed, Some errRename)
                else (<[filename := f]> (delete tmp fs), None)
            end
      end
  end.

Inductive load_result :=
  | LoadPanic
  | LoadError (err : geo_error)
  | Loaded (m : gmap string E).

(** The last part of the loaders: read the file and keep its map. *)
Definition load_final (l : loader) (fs : files) (i : io) (filename : string) : loader * load_result :=
  match load_db fs (read2 i) filename with
  | None => (l, LoadError errLoad)
  | Some m => (MkLoader (l_Filename l) (l_UpdateInterval l) (Some m), Loaded m)
  end.

(** The part after the check for a usable file. *)
Definition download_then_load (l : loader) (fs : files) (i : io) (filename : string) : files * (loader * load_result) :=
  match downloadAndCheck fs i filename with
  | (fs, Some err) =>
      match fs !! filename with
      | None => (fs, (l, LoadError err))
      | Some _ => (fs, load_final l fs i filename)
      end
  | (fs, None) => (fs, load_final l fs i filename)
  end.

(** [LoadGeoIP] and [LoadGeoSite], with the default name of their file. *)
Definition LoadGeo (default_name : string) (l : loader) (fs : files) (i : io) : files * (loader * load_result) :=
  match l_map l with
  | Some m => (fs, (l, Loaded m))
  | None =>
      if String.eqb (l_Filename l) "" then
        match shouldDownload l fs i default_name with
        | None => (fs, (l, LoadPanic))
        | Some true => download_then_load l fs i default_name
        | Some false =>
            match load_db fs (read1 i) default_name with
            | Some m => (fs, (MkLoader (l_Filename l) (l_UpdateInterval l) (Some m), Loaded m))
            | None => download_then_load l fs i default_name
            end
        end
      else (fs, load_final l fs i (l_Filename l))
  end.

End load.

Arguments loader : clear implicits.
Arguments load_result : clear implicits.

(** [v2geo.LoadGeoIP] and [v2geo.LoadGeoSite] *)
Definition v2geo_LoadGeoIP `{!GeoDecoder GeoIP} unicode_lower (fs : files) (readable : bool) (filename : string) : option (gmap string GeoIP) :=
  load_db unicode_lower fs readable filename.
Definition v2geo_LoadGeoSite `{!GeoDecoder GeoSite} unicode_lower (fs : files) (readable : bool) (filename : string) : option (gmap string GeoSite) :=
  load_db unicode_lower fs readable filename.

Definition LoadGeoIP `{!GeoDecoder GeoIP} unicode_lower (l : loader GeoIP) fs i := LoadGeo unicode_lower geoipFilename l fs i.
Definition LoadGeoSite `{!GeoDecoder GeoSite} unicode_lower (l : loader GeoSite) fs i :=
  LoadGeo unicode_lower geositeFilename l fs i.

(** ** The file of a database *)

Section geo_spec.
Context {E : Type} `{!GeoDecoder E}.
Variable unicode_lower : string -> string.
Abbreviation db := (load_db (E := E) unicode_lower).

(** A new name, made from the pattern. *)
Definition fresh_tmp (fs : files) (i : io) : Prop :=
  forall tmp, CreateTemp i = Some tmp -> fs !! tmp = None /\ HasPrefix geoDlTmpPrefix tmp = true.

(** The file system afterwards: nothing changed, except for a temporary file that could not be
    removed; *)
Definition untouched (fs fs' : files) (i : io) : Prop :=
  fs' = fs \/ (removes i = false /\ exists tmp f, CreateTemp i = Some tmp /\ fs' = <[tmp := f]> fs).

(** or the file replaced by a complete download that decodes. *)
Definition replaced (fs fs' : files) (i : io) (filename : string) : Prop :=
  exists body l, http_Get i = Some (body, true) /\ Unmarshal (E := E) body = Some l /\
    fs' = <[filename := MkFile body (now i)]> fs.

Lemma load_db_Some fs r name m :
  db fs r name = Some m -> exists f l, fs !! name = Some f /\ Unmarshal (f_data f) = Some l /\ m = geo_map unicode_lower l.
Proof.
  unfold load_db. intros H. destruct (fs !! name) as [f|]; [|done]. destruct r; [|done].
  destruct (Unmarshal (f_data f)) as [l|] eqn:E'; [|done]. injection H as <-. by exists f, l.
Qed.

Lemma download_spec fs i name fs' err :
  fresh_tmp fs i -> HasPrefix geoDlTmpPrefix name = false -> downloadAndCheck (E := E) unicode_lower fs i name = (fs', err) ->
  match err with Some _ => untouched fs fs' i | None => replaced fs fs' i name end.
Proof.
  intros Ht Hn H. unfold downloadAndCheck in H. destruct (http_Get i) as [[body copied]|] eqn:Eg; [|simplify_eq; by left].
  destruct (CreateTemp i) as [tmp|] eqn:Ec; [|simplify_eq; by left]. destruct (Ht tmp Ec) as [Hf Hp].
  assert (forall f, delete tmp (<[tmp := f]> fs) = fs) as Hd by (intros f; by apply delete_insert_id).
  assert (forall f, untouched fs (if removes i then delete tmp (<[tmp := f]> fs) else <[tmp := f]> fs) i) as Hu.
  { intros f. unfold untouched. destruct (removes i); [left; apply Hd|right; eauto]. }
  destruct copied; simpl in H; [|by simplify_eq]. destruct (db _ _ tmp) as [m|] eqn:El; [|by simplify_eq].
  destruct (renames i); simpl in H; simplify_eq; [|done].
  apply load_db_Some in El as (f & l & Hl & Hul & _). rewrite lookup_insert_eq in Hl. injection Hl as <-.
  exists body, l. split_and!; [done..|]. by rewrite Hd.
Qed.

(** The name of the database file. *)
Definition db_name (name : string) (l : loader E) : string := if String.eqb (l_Filename l) "" then name else l_Filename l.

(** A result that agrees with the files it leaves. *)
Definition consistent (path : string) (l : loader E) (fs' : files) (l' : loader E) (r : load_result E) : Prop :=
  match r with
  | Loaded m => l' = MkLoader (l_Filename l) (l_UpdateInterval l) (Some m) /\
      exists f entries, fs' !! path = Some f /\ Unmarshal (f_data f) = Some entries /\ m = geo_map unicode_lower entries
  | LoadError _ | LoadPanic => l' = l
  end.

Lemma load_final_consistent l fs i path l' r : load_final unicode_lower l fs i path = (l', r) -> consistent path l fs l' r.
Proof.
  unfold load_final. destruct (db fs (read2 i) path) as [m|] eqn:El; intros [= <- <-]; [|done].
  split; [done|]. by eapply load_db_Some.
Qed.

Lemma download_then_load_spec l fs i name fs' l' r :
  fresh_tmp fs i -> HasPrefix geoDlTmpPrefix name = false ->
  download_then_load unicode_lower l fs i name = (fs', (l', r)) ->
  (untouched fs fs' i \/ replaced fs fs' i name) /\ consistent name l fs' l' r.
Proof.
  intros Ht Hn H. unfold download_then_load in H.
  destruct (downloadAndCheck unicode_lower fs i name) as [fs1 err] eqn:Ed. pose proof (download_spec _ _ _ _ _ Ht Hn Ed) as Hs.
  destruct err as [err|].
  - destruct (fs1 !! name).
    + injection H as <- H. split; [by left|]. by eapply load_final_consistent.
    + injection H as <- <- <-. split; [by left|done].
  - injection H as <- H. split; [by right|]. by eapply load_final_consistent.
Qed.

(** C26.  A load replaces the database only as a whole, and only by a complete download that decodes (an empty
    body does: [empty_download_replaces]); a configured file is never written, and no other file is
    touched, except that the temporary file stays if it cannot be removed.  Whenever a map
    is returned, it is that of the file as it is afterwards, and is kept, so a later load returns it
    without touching a file; a load that fails leaves the loader as it was.  The name of the
    temporary file is taken to be new and made from its pattern. *)
Theorem geo_load_safe name l fs i fs' l' r :
  fresh_tmp fs i -> HasPrefix geoDlTmpPrefix name = false ->
  LoadGeo unicode_lower name l fs i = (fs', (l', r)) ->
  (untouched fs fs' i \/ (l_Filename l = "" /\ l_map l = None /\ replaced fs fs' i name)) /\
  (l_map l = None -> consistent (db_name name l) l fs' l' r) /\
  (forall m, r = Loaded m -> forall fs2 i2, LoadGeo unicode_lower name l' fs2 i2 = (fs2, (l', Loaded m))).
Proof.
  intros Ht Hn H.
  assert (forall m, l_map l' = Some m -> forall fs2 i2, LoadGeo unicode_lower name l' fs2 i2 = (fs2, (l', Loaded m))) as Hmemo
    by (intros m Hm fs2 i2; unfold LoadGeo; by rewrite Hm).
  assert (forall path, consistent path l fs' l' r -> forall m, r = Loaded m -> l_map l' = Some m) as Hkeep
    by (intros path Hc m ->; by destruct Hc as [-> _]).
  unfold LoadGeo in H. unfold db_name. destruct (l_map l) as [m|] eqn:Em.
  { injection H as <- <- <-. split_and!; [left; by left|done|]. intros m' [= <-]. by apply Hmemo. }
  destruct (String.eqb_spec (l_Filename l) "") as [Ef|Ef].
  2:{ injection H as <- H. pose proof (load_final_consistent _ _ _ _ _ _ H) as Hc. split_and!; [left; by left|done|].
      intros m ->. apply Hmemo. by eapply Hkeep. }
  assert (download_then_load unicode_lower l fs i name = (fs', (l', r)) \/ (fs' = fs /\ consistent name l fs' l' r)) as [Hd|[-> Hc]].
  { destruct (shouldDownload l fs i name) as [[]|]; [by left| |by injection H as <- <- <-; right].
    destruct (db fs (read1 i) name) as [m|] eqn:El; [|by left]. injection H as <- <- <-. right. split; [done|].
    split; [done|]. by eapply load_db_Some. }
  - destruct (download_then_load_spec _ _ _ _ _ _ _ Ht Hn Hd) as [Hf Hc].
    split_and!; [destruct Hf as [Hf|Hf]; [by left|by right]|done|]. intros m ->. apply Hmemo. by eapply Hkeep.
  - split_and!; [left; by left|done|]. intros m ->. apply Hmemo. by eapply Hkeep.
Qed.

(** The map of a file: an entry is found under its country code in lower case, and the last
    one of a code counts. *)
Theorem geo_map_last l code :
  geo_map unicode_lower l !! code = snd <$> last (filter (fun e : string * E => ToLower unicode_lower e.1 = code) l).
Proof.
  unfold geo_map. induction l as [|e l IH] using rev_ind; [done|].
  rewrite foldl_app, filter_app. simpl. rewrite lookup_insert, filter_cons, filter_nil. case_decide; simpl.
  - by rewrite last_snoc.
  - by rewrite app_nil_r.
Qed.

End geo_spec.

(** A toy encoding for examples: no byte is no entry, byte 1 is one entry, others are
    refused. *)
#[local] Instance toy_decoder : GeoDecoder Z :=
  {| Unmarshal b := match b with [] => Some [] | [x01] => Some [("CN", 1)] | _ => None end |}.

Definition toy_files : files := {[ "geoip.dat" := MkFile [x01] 0 ]}.

(** A download that is cut off after the file became old. *)
Definition broken_io : io := MkIO (8 * 24 * 3600 * 1000000000) false true (Some ([x02; x03], false))
  (Some ".anytls-geoloader.dlpart.42") true true true true.

Lemma geo_load_safe_witness :
  LoadGeo (fun s => s) "geoip.dat" (MkLoader "" 0 None) toy_files broken_io =
    (toy_files, (MkLoader "" 0 (Some {[ "cn" := 1 ]}), Loaded {[ "cn" := 1 ]})) /\
  consistent (fun s => s) "geoip.dat" (MkLoader "" 0 None) toy_files (MkLoader "" 0 (Some {[ "cn" := 1 ]})) (Loaded {[ "cn" := 1 ]}).
Proof.
  assert (LoadGeo (fun s => s) "geoip.dat" (MkLoader "" 0 None) toy_files broken_io =
    (toy_files, (MkLoader "" 0 (Some {[ "cn" := 1 ]}), Loaded {[ "cn" := 1 ]}))) as H by (vm_compute; reflexivity).
  split; [exact H|].
  refine (proj1 (proj2 (geo_load_safe (fun s => s) "geoip.dat" (MkLoader "" 0 None) toy_files broken_io _ _ _ _ _ H)) _).
  - intros tmp [= <-]. split; vm_compute; reflexivity.
  - reflexivity.
  - reflexivity.
Defined.

(** The status of the response is not looked at and an empty body decodes: a server that
    answers with an empty error page replaces a good database by an empty one, which
    [shouldDownload] itself calls broken. *)
Theorem empty_download_replaces :
  let i := MkIO (8 * 24 * 3600 * 1000000000) false true (Some ([], true)) (Some ".anytls-geoloader.dlpart.42") true true true true in
  let '(fs, (_, r)) := LoadGeo (fun s => s) "geoip.dat" (MkLoader "" 0 None) toy_files i in
  f_data <$> fs !! "geoip.dat" = Some [] /\ r = Loaded (∅ : gmap string Z) /\
  shouldDownload (E := Z) (MkLoader "" 0 None) fs i "geoip.dat" = Some true.
Proof. vm_compute. done. Qed.

(** A file that exists but whose status cannot be read makes the loader panic. *)
Theorem stat_error_panics :
  let i := MkIO 0 true true None None true true true true in
  LoadGeo (fun s => s) "geoip.dat" (MkLoader "" 0 None) toy_files i = (toy_files, (MkLoader "" 0 None, LoadPanic)).
Proof. reflexivity. Qed.

End Geo.
