(* ===== verification/Cert.v ===== *)
(** * Cert: the certificate loader of the server (util/tls_cert.go)

    A [FileCertificateLoader] serves the last certificate it could load and looks at its
    files at most once per interval.  Every system call of a handshake has its own
    outcome in [syscalls], since the files may change between two calls.
    Modification times are nanoseconds; [X509KeyPair] is a parameter. *)

From S2P Require Import Prelude.
#[local] Open Scope string_scope.
#[local] Open Scope list_scope.
#[local] Open Scope Z_scope.
#[local] Open Scope go_scope.

Module Cert.

Definition certCheckInterval : Z := 1000000000.

(** The errors, with the text of the system's or the library's error. *)
Inductive cert_error :=
  | errStatCert (text : string)
  | errStatKey (text : string)
  | errReadCert (text : string)
  | errReadKey (text : string)
  | errParsePair (text : string).

#[export] Instance cert_error_eq_dec : EqDecision cert_error.
Proof. solve_decision. Defined.

Section cert.
Context {Certificate : Type}.
Variable X509KeyPair : bytes -> bytes -> string + Certificate.

Record loader := MkLoader {
  l_cert : option Certificate;
  l_modTime : Z;
  l_lastLogged : option (cert_error * Z);   (** [lastLoggedErr] and [lastLoggedAt] *)
  l_checkInterval : Z;
  l_lastCheck : Z
}.

(** The outcomes of the system calls of one handshake: the status of both files in
    [reloadIfChanged] and again in [reload], then their contents. *)
Record syscalls := MkSyscalls {
  stat_cert1 : string + Z;
  stat_key1 : string + Z;
  stat_cert2 : string + Z;
  stat_key2 : string + Z;
  read_cert : string + bytes;
  read_key : string + bytes
}.

Definition certKeyModTime (stat_cert stat_key : string + Z) : cert_error + Z :=
  match stat_cert with
  | inl text => inl (errStatCert text)
  | inr cert_time =>
      match stat_key with
      | inl text => inl (errStatKey text)
      | inr key_time => inr (if cert_time <? key_time then key_time else cert_time)
      end
  end.

(** [reload]: the loader, or the error that leaves it as it was. *)
Definition reload (l : loader) (sc : syscalls) : loader * option cert_error :=
  match certKeyModTime (stat_cert2 sc) (stat_key2 sc) with
  | inl err => (l, Some err)
  | inr modTime =>
      match read_cert sc with
      | inl text => (l, Some (errReadCert text))
      | inr certPEM =>
          match read_key sc with
          | inl text => (l, Some (errReadKey text))
          | inr keyPEM =>
              match X509KeyPair certPEM keyPEM with
              | inl text => (l, Some (errParsePair text))
              | inr keyPair =>
                  (MkLoader (Some keyPair) modTime (l_lastLogged l) (l_checkInterval l) (l_lastCheck l), None)
              end
          end
      end
  end.

Definition reloadIfChanged (l : loader) (sc : syscalls) : loader * option cert_error :=
  match certKeyModTime (stat_cert1 sc) (stat_key1 sc) with
  | inl err => (l, Some err)
  | inr modTime => if modTime <=? l_modTime l then (l, None) else reload l sc
  end.

Definition NewFileCertificateLoader (sc : syscalls) : cert_error + loader :=
  match reload (MkLoader None 0 None certCheckInterval 0) sc with
  | (l, None) => inr l
  | (_, Some err) => inl err
  end.

(** [dueForCheck] without a concurrent handshake between the load and the swap. *)
Definition dueForCheck (l : loader) (now : Z) : loader * bool :=
  if now - l_lastCheck l <? l_checkInterval l then (l, false)
  else (MkLoader (l_cert l) (l_modTime l) (l_lastLogged l) (l_checkInterval l) now, true).

Definition logReloadError (l : loader) (err : cert_error) (now : Z) : loader :=
  match l_lastLogged l with
  | Some (err', t) =>
      if bool_decide (err = err') && (now - t <? 1000000000) then l
      else MkLoader (l_cert l) (l_modTime l) (Some (err, now)) (l_checkInterval l) (l_lastCheck l)
  | None => MkLoader (l_cert l) (l_modTime l) (Some (err, now)) (l_checkInterval l) (l_lastCheck l)
  end.

Definition GetCertificate (l : loader) (now : Z) (sc : syscalls) : loader * (cert_error + option Certificate) :=
  let '(l, due) := dueForCheck l now in
  let '(l, reloadErr) := if due then reloadIfChanged l sc else (l, None) in
  match reloadErr with
  | Some err =>
      match l_cert l with
      | None => (l, inl err)
      | Some _ => (logReloadError l err now, inr (l_cert l))
      end
  | None => (l, inr (l_cert l))
  end.

(** A sequence of handshakes: the last loader and what each was given. *)
Fixpoint handshakes (l : loader) (hs : list (Z * syscalls)) : loader * list (cert_error + option Certificate) :=
  match hs with
  | [] => (l, [])
  | (now, sc) :: hs =>
      let '(l, r) := GetCertificate l now sc in
      let '(l, rs) := handshakes l hs in (l, r :: rs)
  end.

(** ** The certificate that is served *)

(** The pair read in a handshake, if it can be read and parses. *)
Definition good_pair (sc : syscalls) : option Certificate :=
  match certKeyModTime (stat_cert2 sc) (stat_key2 sc), read_cert sc, read_key sc with
  | inr _, inr c, inr k => match X509KeyPair c k with inr cert => Some cert | inl _ => None end
  | _, _, _ => None
  end.

(** The files have changed since the last load. *)
Definition newer (l : loader) (sc : syscalls) : bool :=
  match certKeyModTime (stat_cert1 sc) (stat_key1 sc) with inr t => l_modTime l <? t | inl _ => false end.

Definition due (l : loader) (now : Z) : bool := negb (now - l_lastCheck l <? l_checkInterval l).

Lemma reload_cert l sc : l_cert (reload l sc).1 = match good_pair sc with Some c => Some c | None => l_cert l end.
Proof. unfold reload, good_pair. by repeat case_match. Qed.

Lemma reload_error l sc err : (reload l sc).2 = Some err -> (reload l sc).1 = l.
Proof. unfold reload. by repeat case_match. Qed.

(** What one handshake does: it is given the certificate the loader has afterwards,
    which is the new pair if a check was due, the files were newer and the pair is
    good, and the old one otherwise. *)
Lemma GetCertificate_spec l now sc c l' r :
  l_cert l = Some c -> GetCertificate l now sc = (l', r) ->
  let served := if due l now && newer l sc then default c (good_pair sc) else c in
  r = inr (Some served) /\ l_cert l' = Some served.
Proof.
  intros Hc H. unfold GetCertificate, dueForCheck in H. unfold due.
  destruct (now - l_lastCheck l <? l_checkInterval l); simpl in *; [injection H as <- <-; by rewrite Hc|].
  set (l1 := MkLoader (l_cert l) (l_modTime l) (l_lastLogged l) (l_checkInterval l) now) in *.
  assert (forall l2 err (served : Certificate), l_cert l2 = Some served ->
    match err with Some e => (logReloadError l2 e now, inr (l_cert l2)) | None => (l2, inr (l_cert l2)) end = (l', r) ->
    r = inr (Some served) /\ l_cert l' = Some served) as Hserve.
  { intros l2 err served Hs. rewrite Hs. destruct err as [e|]; intros [= <- <-]; [|done]. split; [done|].
    unfold logReloadError. destruct (l_lastLogged l2) as [[err t]|]; simpl; [destruct (_ && _)|]; simpl; exact Hs. }
  destruct (reloadIfChanged l1 sc) as [l2 err] eqn:Er. unfold reloadIfChanged in Er. unfold newer.
  destruct (certKeyModTime (stat_cert1 sc) (stat_key1 sc)) as [e|t].
  - injection Er as <- <-. simpl in H. rewrite Hc in H. eapply (Hserve l1 (Some e)); [done|]. simpl. by rewrite Hc.
  - change (l_modTime l1) with (l_modTime l) in Er. destruct (Z.leb_spec t (l_modTime l)), (Z.ltb_spec (l_modTime l) t); try lia.
    + injection Er as <- <-. eapply (Hserve l1 None); [done|]. done.
    + assert (l2 = (reload l1 sc).1) as El2 by (by rewrite Er).
      assert (l_cert l2 = Some (default c (good_pair sc))) as Hl2.
      { rewrite El2, reload_cert. simpl. destruct (good_pair sc); [done|]. by rewrite Hc. }
      eapply (Hserve l2 err); [done|]. destruct err; [|done]. by rewrite Hl2 in H |- *.
Qed.

(** The certificates a sequence of handshakes is given, by this rule alone. *)
Fixpoint served_spec (l : loader) (c : Certificate) (hs : list (Z * syscalls)) : list Certificate :=
  match hs with
  | [] => []
  | (now, sc) :: hs =>
      let c := if due l now && newer l sc then default c (good_pair sc) else c in
      c :: served_spec (GetCertificate l now sc).1 c hs
  end.

Lemma handshakes_spec l c hs l' rs :
  l_cert l = Some c -> handshakes l hs = (l', rs) ->
  rs = (fun c => inr (Some c)) <$> served_spec l c hs /\ l_cert l' = Some (default c (last (served_spec l c hs))).
Proof.
  revert l c rs. induction hs as [|[now sc] hs IH]; intros l c rs Hc H; simpl in H; [by simplify_eq|].
  destruct (GetCertificate l now sc) as [l1 r] eqn:Eg. destruct (handshakes l1 hs) as [l2 rs'] eqn:Eh. injection H as <- <-.
  destruct (GetCertificate_spec _ _ _ _ _ _ Hc Eg) as [-> Hc1]. cbn [served_spec]. rewrite Eg.
  destruct (IH _ _ _ Hc1 Eh) as [-> ->]. split; [done|].
  destruct (served_spec _ _ hs) as [|x xs]; [done|]. rewrite last_cons_cons.
  destruct (last (x :: xs)) eqn:El; [done|]. by apply last_None in El.
Qed.

Lemma new_loader sc l : NewFileCertificateLoader sc = inr l -> l_cert l = good_pair sc /\ is_Some (good_pair sc) /\ l_lastCheck l = 0 /\ l_checkInterval l = certCheckInterval.
Proof.
  unfold NewFileCertificateLoader. intros H. destruct (reload _ sc) as [l1 e] eqn:Er. destruct e; [done|]. injection H as <-.
  unfold reload in Er. unfold good_pair. repeat case_match; simplify_eq; simpl; by eauto.
Qed.

(** C30.  The server always has a certificate: a loader that was created serves, on every later
    handshake, the pair of the last check that was due, found newer files and
    could read and parse them, and the one it started with before that; whatever
    happens to the files, no handshake fails for want of a certificate. *)
Theorem serves_last_good sc l hs l' rs :
  NewFileCertificateLoader sc = inr l -> handshakes l hs = (l', rs) ->
  exists c, good_pair sc = Some c /\ rs = (fun c => inr (Some c)) <$> served_spec l c hs /\
    l_cert l' = Some (default c (last (served_spec l c hs))).
Proof.
  intros Hn Hh. destruct (new_loader sc l Hn) as (Hc & [c Hg] & _). rewrite Hg in Hc. exists c. split; [done|].
  by apply handshakes_spec.
Qed.

End cert.

Arguments loader : clear implicits.

(** ** Concurrent handshakes *)

(** [dueForCheck] of several handshakes at once: each reads the time and [lastCheck], and
    later tries to swap. *)
Inductive check_op := LoadLast (h : Z) (now : Z) | Swap (h : Z).

Record checks := MkChecks {
  k_last : Z;
  k_pending : gmap Z (Z * Z);      (** handshakes between the two steps: [now] and [last] *)
  k_done : list Z                  (** the times of the checks that were allowed *)
}.

Definition check_step (interval : Z) (k : checks) (o : check_op) : checks :=
  match o with
  | LoadLast h now =>
      if now - k_last k <? interval then k
      else MkChecks (k_last k) (<[h := (now, k_last k)]> (k_pending k)) (k_done k)
  | Swap h =>
      match k_pending k !! h with
      | None => k
      | Some (now, last) =>
          if k_last k =? last then MkChecks now (delete h (k_pending k)) (k_done k ++ [now])
          else MkChecks (k_last k) (delete h (k_pending k)) (k_done k)
      end
  end.

Definition check_run (interval : Z) (ops : list check_op) : checks :=
  foldl (check_step interval) (MkChecks 0 ∅ []) ops.

(** Consecutive times at least [d] apart, from [t] on. *)
Fixpoint spaced (d t : Z) (l : list Z) : Prop :=
  match l with [] => True | x :: l => d <= x - t /\ spaced d x l end.

Lemma spaced_snoc d t l x : spaced d t l -> d <= x - default t (last l) -> spaced d t (l ++ [x]).
Proof.
  revert t. induction l as [|y l IH]; intros t Hs Hx; simpl in *; [done|]. destruct Hs as [? Hs]. split; [done|].
  apply IH; [done|]. destruct l; [done|]. rewrite last_cons_cons in Hx. by destruct (last (z :: l)) eqn:El; [|apply last_None in El].
Qed.

(** However the steps of concurrent handshakes interleave, the files are checked at
    most once per interval: the times of two consecutive checks are at least the
    interval apart. *)
Theorem checks_spaced interval ops : spaced interval 0 (k_done (check_run interval ops)).
Proof.
  assert (let k := check_run interval ops in spaced interval 0 (k_done k) /\ k_last k = default 0 (last (k_done k)) /\
    map_Forall (fun _ p => interval <= p.1 - p.2) (k_pending k)) as [H _]; [|exact H].
  unfold check_run. induction ops as [|o ops IH] using rev_ind; [split_and!; [done..|apply map_Forall_empty]|].
  rewrite foldl_app. simpl. destruct IH as (Hs & Hl & Hp). set (k := foldl _ _ ops) in *. destruct o as [h now|h]; simpl.
  - destruct (Z.ltb_spec (now - k_last k) interval); [done|]. split_and!; [done..|]. simpl. by apply map_Forall_insert_2.
  - destruct (k_pending k !! h) as [[now l]|] eqn:E; [|done]. pose proof (Hp _ _ E) as Hd. simpl in Hd.
    destruct (Z.eqb_spec (k_last k) l); simpl; (split_and!; [|done || by rewrite last_snoc|by apply map_Forall_delete]); [|done].
    apply spaced_snoc; [done|]. rewrite <- Hl. lia.
Qed.

(** ** A generated certificate (util/mkcert.go) *)

(** [x509.Certificate], as far as the template sets it; times are nanoseconds. *)
Record template := MkTemplate {
  SerialNumber : Z;
  NotBefore : Z;
  NotAfter : Z;
  KeyUsage : Z;
  ExtKeyUsage : list Z;
  BasicConstraintsValid : bool;
  Subject_CommonName : string;
  DNSNames : list string
}.

Definition KeyUsageDigitalSignature : Z := 1.
Definition KeyUsageKeyEncipherment : Z := 4.
Definition ExtKeyUsageServerAuth : Z := 1.
Definition hour : Z := 3600 * 1000000000.

Section mkcert.
Context {Key Cert : Type}.
Variable GenerateKey : Z -> option Key.
(** [rand.Int(rand.Reader, max)] *)
Variable rand_Int : Z -> option Z.
Variable CreateCertificate : template -> template -> Key -> option bytes.
Variable MarshalPKCS8PrivateKey : Key -> option bytes.
Variable EncodeToMemory : string -> bytes -> bytes.
Variable X509KeyPair : bytes -> bytes -> option Cert.

Definition serial_limit : Z := Z.shiftl 1 128.

(** [timeFunc] is called twice. *)
Definition cert_template (serial now1 now2 : Z) (serverName : string) : template :=
  MkTemplate serial (now1 - hour) (now2 + hour) (Z.lor KeyUsageKeyEncipherment KeyUsageDigitalSignature) [ExtKeyUsageServerAuth] true
    serverName [serverName].

(** [GenerateKeyPair]; [None] for an error. *)
Definition GenerateKeyPair (now1 now2 : Z) (serverName : string) : option Cert :=
  key ← GenerateKey 2048;
  serial ← rand_Int serial_limit;
  let t := cert_template serial now1 now2 serverName in
  publicDer ← CreateCertificate t t key;
  privateDer ← MarshalPKCS8PrivateKey key;
  X509KeyPair (EncodeToMemory "CERTIFICATE" publicDer) (EncodeToMemory "PRIVATE KEY" privateDer).

(** What a certificate was made from. *)
Definition made_from (c : Cert) (t : template) : Prop :=
  exists key der priv, CreateCertificate t t key = Some der /\ MarshalPKCS8PrivateKey key = Some priv /\
    X509KeyPair (EncodeToMemory "CERTIFICATE" der) (EncodeToMemory "PRIVATE KEY" priv) = Some c.

(** The server makes its own certificate once, before it listens, and serves it for as long as it runs:
    it is self-signed by the key it comes with, names the host given, and is valid for one
    hour from then on, and not longer. *)
Theorem generated_certificate now1 now2 serverName c :
  now1 <= now2 -> GenerateKeyPair now1 now2 serverName = Some c ->
  exists t, made_from c t /\ DNSNames t = [serverName] /\ rand_Int serial_limit = Some (SerialNumber t) /\
    forall later, now2 <= later -> (NotBefore t <= later <= NotAfter t <-> later <= now2 + hour).
Proof.
  intros Hn H. unfold GenerateKeyPair in H. destruct (GenerateKey 2048) as [key|]; [|done]. destruct (rand_Int serial_limit) as [sn|]; [|done].
  simpl in H. set (t := cert_template sn now1 now2 serverName) in *.
  destruct (CreateCertificate t t key) as [der|] eqn:E1; [|done]. simpl in H. destruct (MarshalPKCS8PrivateKey key) as [priv|] eqn:E2; [|done]. simpl in H.
  exists t. split_and!; [by exists key, der, priv|done|done|]. intros later Hl. simpl. unfold hour. lia.
Qed.

End mkcert.

Lemma generated_certificate_witness :
  exists t, made_from (fun t _ (k : Z) => Some [x01]) (fun k => Some [x02]) (fun _ b => b) (fun a b => Some (a ++ b)) [x01; x02] t /\ NotAfter t = 5 + hour.
Proof.
  destruct (generated_certificate (fun _ => Some 7) (fun _ => Some 9) (fun t _ (k : Z) => Some [x01]) (fun k => Some [x02]) (fun _ b => b)
    (fun a b => Some (a ++ b)) 4 5 "host" [x01; x02] ltac:(lia) eq_refl) as (t & H & _).
  exists (cert_template 9 4 5 "host"). split; [|reflexivity]. destruct H as (key & der & priv & _ & _ & H). exists 7, [x01], [x02]. done.
Defined.

(** ** Examples *)

Definition toy_pair (c k : bytes) : string + Z := match c, k with [x], [y] => if byteZ x =? byteZ y then inr (byteZ x) else inl "mismatch" | _, _ => inl "empty" end.

Definition files_at (t : Z) (c k : byte) : syscalls := MkSyscalls (inr t) (inr t) (inr t) (inr t) (inr [c]) (inr [k]).

(** The certificate is replaced first and its key two seconds later; in between the old
    pair is served. *)
Definition sample_handshakes : list (Z * syscalls) :=
  [(5000000000, files_at 10 x01 x01); (6000000000, files_at 20 x02 x01); (6500000000, files_at 20 x02 x02);
   (8000000000, files_at 20 x02 x02); (9500000000, MkSyscalls (inl "gone") (inr 20) (inr 20) (inr 20) (inr [x02]) (inr [x02]))].

Lemma serves_last_good_witness :
  exists l, NewFileCertificateLoader toy_pair (files_at 10 x01 x01) = inr l /\
    (handshakes toy_pair l sample_handshakes).2 = [inr (Some 1); inr (Some 1); inr (Some 1); inr (Some 2); inr (Some 2)] /\
    l_cert (handshakes toy_pair l sample_handshakes).1 = Some 2.
Proof.
  eexists. split; [vm_compute; reflexivity|]. split; [vm_compute; reflexivity|].
  destruct (serves_last_good toy_pair (files_at 10 x01 x01) (MkLoader (Some 1) 10 None certCheckInterval 0) sample_handshakes _ _ eq_refl eq_refl)
    as (c & Hc & _ & H).
  vm_compute in Hc. injection Hc as <-. exact H.
Defined.

End Cert.
