(* ===== verification/StatsHttp.v ===== *)
(** * StatsHttp: the statistics API (stats/http.go)

    [NewHandler] is the function from a request and the registry to a response, the new
    registry and the sessions it closes.  A request has its cleaned path, the value of
    [clear] in its query, its [Authorization] and [Accept] headers and its body as decoded
    JSON; responses are kept before encoding.  The theorems join the API with the
    checks of Config.v and the registry of Stats.v. *)

From S2P Require Import Prelude GoStrings RefTable Stats Config.
#[local] Open Scope string_scope.
#[local] Open Scope list_scope.
#[local] Open Scope Z_scope.

Module StatsHttp.
Import Stats.

Record request := MkRequest {
  q_Method : string;
  q_Path : string;
  q_clear : string;
  q_Authorization : string;
  q_Accept : string;
  q_ids : option (list string)     (** the body, if it is a JSON list of strings *)
}.

Inductive response :=
  | Traffic (m : gmap string TrafficEntry)
  | Onlines (m : gmap string Z)
  | Streams (plain : bool) (l : list StreamEntry)
  | StatusOK
  | NotFound
  | Unauthorized
  | MethodNotAllowed
  | BadRequest.

(** The true values of [strconv.ParseBool]. *)
Definition parse_true (s : string) : bool := existsb (String.eqb s) ["1"; "t"; "T"; "TRUE"; "true"; "True"].

(** What a handler does: the registry, the response and the sessions to close. *)
Definition handler : Type := Registry -> request -> Registry * response * list nat.

Definition serve_traffic : handler := fun r q =>
  if parse_true (q_clear q) then let '(r, out) := Clear r in (r, Traffic out, [])
  else (r, Traffic (Snapshot r), []).

Definition serve_online : handler := fun r q => (r, Onlines (Online r), []).

Definition serve_kick : handler := fun r q =>
  if negb (String.eqb (q_Method q) "POST") then (r, MethodNotAllowed, [])
  else match q_ids q with None => (r, BadRequest, []) | Some ids => (r, StatusOK, Kick r ids) end.

(** [WriteStreamDump] *)
Definition serve_dump : handler := fun r q => (r, Streams (Contains (q_Accept q) "text/plain") (DumpStreams r), []).

(** [auth]; [subtle.ConstantTimeCompare] returns 1 for equal strings. *)
Definition auth (secret : string) (next : handler) : handler := fun r q =>
  if negb (String.eqb secret "") && negb (String.eqb (q_Authorization q) secret) then (r, Unauthorized, [])
  else next r q.

Definition NewHandler (secret : string) : handler := fun r q =>
  if String.eqb (q_Path q) "/traffic" then auth secret serve_traffic r q
  else if String.eqb (q_Path q) "/online" then auth secret serve_online r q
  else if String.eqb (q_Path q) "/kick" then auth secret serve_kick r q
  else if String.eqb (q_Path q) "/dump/streams" then auth secret serve_dump r q
  else (r, NotFound, []).

(** ** Access *)

Lemma auth_refuses secret next r q :
  secret <> "" -> q_Authorization q <> secret -> auth secret next r q = (r, Unauthorized, []).
Proof. intros H1%String.eqb_neq H2%String.eqb_neq. unfold auth. by rewrite H1, H2. Qed.

(** C31.  The API needs the secret: with a configuration that [LoadFile] accepts and an API that is
    enabled, a request without the configured secret learns nothing, changes nothing
    and disconnects nobody; it is answered 401, or 404 if there is no such path. *)
Theorem stats_api_protected ul ParseDuration ReadFile Unmarshal path c r q :
  Config.LoadFile ul ParseDuration ReadFile Unmarshal path = inr c -> Config.StatsEnabled c = true ->
  q_Authorization q <> Config.ts_Secret (Config.c_TrafficStats c) ->
  exists resp, NewHandler (Config.ts_Secret (Config.c_TrafficStats c)) r q = (r, resp, []) /\
    (resp = Unauthorized \/ resp = NotFound).
Proof.
  intros Hl He Hq.
  assert (Config.ts_Secret (Config.c_TrafficStats c) <> "") as Hs.
  { assert (Config.wf_config ul ParseDuration c) as Hwf.
    { apply Config.load_accepts in Hl as [[_ ->]|(_ & _ & _ & _ & Hwf)]; [apply Config.default_wf|done]. }
    apply (Config.wf_stats _ _ _ Hwf). unfold Config.StatsEnabled in He. by destruct (String.eqb_spec (Config.ts_Listen (Config.c_TrafficStats c)) ""). }
  unfold NewHandler. rewrite !(auth_refuses _ _ r q Hs Hq). repeat case_match; eauto.
Qed.

(** ** Reports *)

Lemma clear_loop l r out :
  NoDup l.*1 -> (forall id p, (id, p) ∈ l -> users r !! id = Some p) ->
  (forall id id' p, (id, p) ∈ l -> (id', p) ∈ l -> id = id') -> (forall id p, (id, p) ∈ l -> is_Some (ustats r !! p)) ->
  let '(r', out') := foldl clear_user (r, out) l in
  (forall id p, (id, p) ∈ l -> out' !! id = traffic <$> ustats r !! p) /\
  (forall id, id ∉ l.*1 -> out' !! id = out !! id /\ users r' !! id = users r !! id) /\
  (forall id p u, (id, p) ∈ l -> ustats r !! p = Some u ->
     users r' !! id = (if decide (size (u_sessions u) = 0%nat) then None else Some p) /\ ustats r' !! p = Some (zero u)) /\
  (forall p, p ∉ l.*2 -> ustats r' !! p = ustats r !! p).
Proof.
  revert r out. induction l as [|[id p] l IH]; intros r out Hnd Hl Hinj Hs; [simpl; split_and!; intros; try done; by exfalso; eapply not_elem_of_nil|].
  cbn [foldl]. apply NoDup_cons in Hnd as [Hnin Hnd]. destruct (Hs id p) as [u Hu]; [by left|].
  assert (forall id' p', (id', p') ∈ l -> id' <> id /\ p' <> p) as Hne.
  { intros id' p' Hin. split; [intros ->; apply Hnin; apply list_elem_of_fmap; by exists (id, p')|].
    intros ->. assert (id' = id) as -> by (eapply Hinj; [by right|by left]). apply Hnin. apply list_elem_of_fmap. by exists (id, p). }
  unfold clear_user at 2. rewrite Hu. set (r1 := set_users r (users r) (alter zero p (ustats r))).
  set (r2 := if decide (size (u_sessions u) = 0%nat) then set_users r1 (delete id (users r1)) (ustats r1) else r1).
  assert (ustats r2 = alter zero p (ustats r)) as Eu by (unfold r2; by case_decide).
  assert (forall id', users r2 !! id' = if decide (id' = id) then (if decide (size (u_sessions u) = 0%nat) then None else users r !! id) else users r !! id') as Es.
  { intros id'. unfold r2. case_decide as E; simpl.
    - rewrite lookup_delete. repeat case_decide; subst; done.
    - case_decide; by subst. }
  assert (forall p', p' <> p -> ustats r2 !! p' = ustats r !! p') as Eo.
  { intros p' Hp'. rewrite Eu, list_lookup_alter. by rewrite decide_False. }
  specialize (IH r2 (<[id := traffic u]> out) Hnd). destruct (foldl clear_user _ l) as [r' out'].
  destruct IH as (I1 & I2 & I3 & I4).
  { intros id' p' Hin. rewrite Es. destruct (Hne _ _ Hin). rewrite decide_False by done. apply Hl. by right. }
  { intros id1 id2 q H1 H2. by eapply Hinj; right. }
  { intros id' p' Hin. destruct (Hne _ _ Hin) as [_ Hp']. rewrite Eo by done. eapply Hs. by right. }
  destruct (I2 id Hnin) as [O1 O2]. split_and!.
  - intros id' p' [[= -> ->]|Hin]%elem_of_cons; [by rewrite O1, lookup_insert_eq, Hu|].
    rewrite (I1 _ _ Hin). f_equal. apply Eo. by apply (Hne _ _ Hin).
  - intros id' Hn'. apply not_elem_of_cons in Hn' as [Hn1 Hn2]. simpl in Hn1. destruct (I2 id' Hn2) as [-> ->].
    rewrite Es, lookup_insert_ne by done. by rewrite decide_False.
  - intros id' p' u' [[= -> ->]|Hin]%elem_of_cons Hu'.
    + rewrite O2, Es, decide_True, (Hl id p) by (done || by left). rewrite Hu in Hu'. injection Hu' as <-. split; [done|].
      rewrite I4; [rewrite Eu, list_lookup_alter, decide_True, Hu; done|].
      intros ([id2 p2] & -> & Hin)%list_elem_of_fmap. simpl in *. by destruct (Hne _ _ Hin).
    + destruct (Hne _ _ Hin) as [_ Hp']. apply (I3 id' p' u' Hin). by rewrite Eo.
  - intros p' Hn'. apply not_elem_of_cons in Hn' as [Hn1 Hn2]. rewrite I4 by done. by apply Eo.
Qed.

(** [Clear]: the report, and what is left of each user. *)
Lemma clear_spec r :
  reg_ok r ->
  (Clear r).2 = Snapshot r /\
  (forall id, Snapshot (Clear r).1 !! id =
     match users r !! id ≫= (fun p => ustats r !! p) with
     | Some u => if decide (size (u_sessions u) = 0%nat) then None else Some no_traffic
     | None => None
     end).
Proof.
  intros Hr. unfold Clear. pose proof (clear_loop (map_to_list (users r)) r ∅) as H.
  destruct (foldl clear_user (r, ∅) (map_to_list (users r))) as [r' out].
  destruct H as (H1 & H2 & H3 & _).
  - apply NoDup_fst_map_to_list.
  - intros id p Hin. by apply elem_of_map_to_list in Hin.
  - intros id id' p Hi Hi'. apply elem_of_map_to_list in Hi, Hi'.
    destruct (ro_users _ Hr _ _ Hi) as (u & Hu & <-), (ro_users _ Hr _ _ Hi') as (u' & Hu' & <-). congruence.
  - intros id p Hin. apply elem_of_map_to_list in Hin. destruct (ro_users _ Hr _ _ Hin) as (u & Hu & _). by exists u.
  - assert (forall id, users r !! id = None -> out !! id = None /\ users r' !! id = None) as Hnone.
    { intros id Hn. destruct (H2 id) as [-> ->]; [|by rewrite lookup_empty].
      intros ([id' p] & -> & Hin)%list_elem_of_fmap. apply elem_of_map_to_list in Hin. simpl in *. congruence. }
    split.
    + apply map_eq. intros id. cbn [snd]. unfold Snapshot. rewrite lookup_omap. destruct (users r !! id) as [p|] eqn:E; simpl.
      * apply H1. by apply elem_of_map_to_list.
      * by apply Hnone.
    + intros id. cbn [fst]. unfold Snapshot. rewrite lookup_omap. destruct (users r !! id) as [p|] eqn:E; simpl.
      * destruct (ro_users _ Hr _ _ E) as (u & Hu & _). rewrite Hu.
        destruct (H3 id p u) as [-> Hz]; [by apply elem_of_map_to_list|done|]. case_decide; [done|]. simpl. by rewrite Hz.
      * by rewrite (proj2 (Hnone id E)).
Qed.

(** A report with [clear] is the report without it, and starts a new period: in any
    registry that sessions built, the two requests answer the same figures, and after the
    clearing one a user with a session on has zero, a user without one is gone. *)
Theorem clear_report ops secret q q' id :
  let r := reg (foldl traffic_exec open_books ops) in
  q_Path q = "/traffic" -> q_Path q' = "/traffic" -> q_Authorization q = secret -> q_Authorization q' = secret ->
  parse_true (q_clear q) = true -> parse_true (q_clear q') = false ->
  let '(r1, resp1, closed1) := NewHandler secret r q in
  let '(r2, resp2, closed2) := NewHandler secret r q' in
  resp1 = resp2 /\ r2 = r /\ closed1 = [] /\ closed2 = [] /\
  Snapshot r1 !! id =
    match users r !! id ≫= (fun p => ustats r !! p) with
    | Some u => if decide (size (u_sessions u) = 0%nat) then None else Some no_traffic
    | None => None
    end.
Proof.
  intros r Hp Hp' Ha Ha' Hc Hc'. unfold NewHandler, auth, serve_traffic. rewrite Hp, Hp', Ha, Ha', !String.eqb_refl. cbn [negb].
  rewrite !andb_false_r, Hc, Hc'.
  simpl. destruct (clear_spec r) as [H1 H2]; [apply traffic_run_ok|]. destruct (Clear r) as [r1 out]. simpl in *.
  subst out. by split_and!.
Qed.

Definition sample_request (clear authorization : string) : request := MkRequest "GET" "/traffic" clear authorization "" None.

Definition sample_ops : list traffic_op :=
  [OpAttach "alice" "10.0.0.1:5" 1 0; OpAttach "bob" "10.0.0.2:5" 2 0; OpTx 0 100; OpRx 1 7; OpDetach "bob" 2].

Lemma clear_report_witness :
  let r := reg (foldl traffic_exec open_books sample_ops) in
  Snapshot r = {["alice" := MkTraffic 100 0; "bob" := MkTraffic 0 7]} /\
  exists r1 resp, NewHandler "s" r (sample_request "true" "s") = (r1, resp, []) /\
    NewHandler "s" r (sample_request "" "s") = (r, resp, []) /\
    Snapshot r1 !! "alice" = Some no_traffic.
Proof.
  intros r. split; [vm_compute; reflexivity|].
  pose proof (clear_report sample_ops "s" (sample_request "true" "s") (sample_request "" "s") "alice"
    eq_refl eq_refl eq_refl eq_refl eq_refl eq_refl) as H.
  fold r in H. assert (match users r !! "alice" ≫= (fun p => ustats r !! p) with
    | Some u => if decide (size (u_sessions u) = 0%nat) then None else Some no_traffic
    | None => None end = Some no_traffic) as E by (vm_compute; reflexivity).
  rewrite E in H. clear E. clearbody r.
  destruct (NewHandler "s" r (sample_request "true" "s")) as [[r1 resp1] closed1].
  destruct (NewHandler "s" r (sample_request "" "s")) as [[r2 resp2] closed2].
  destruct H as (-> & -> & -> & -> & H). exists r1, resp2. split; [reflexivity|]. split; [reflexivity|exact H].
Defined.

Lemma stats_api_protected_witness :
  exists resp, NewHandler "s" (reg (foldl traffic_exec open_books sample_ops)) (sample_request "true" "guess") =
    (reg (foldl traffic_exec open_books sample_ops), resp, []) /\ (resp = Unauthorized \/ resp = NotFound).
Proof.
  apply (stats_api_protected (fun s => s) (fun _ => None) (fun _ => Some []) (fun _ _ => Some (Config.sample_config [])) "server.yaml"
    (Config.sample_config [])); [vm_compute; reflexivity|reflexivity|done].
Defined.

End StatsHttp.
