(* ===== verification/Outbound.v ===== *)
(** * Outbound: the dialers of the server (outbound/)

    An outbound opens the connection of a TCP stream or the socket of a UDP stream: it
    refuses ([Reject]), dials itself ([Direct]) or asks a SOCKS5 proxy ([SOCKS5]).  The
    ledger counts the connections opened and lists those closed again and the
    failures logged; each call of the network or of the SOCKS library has its outcome in
    [io].  The buffers of the sing library are modelled as far as
    [bufferWithHeadroom] uses them. *)

From S2P Require Import Prelude GoStrings AclMatch Policy.
#[local] Open Scope string_scope.
#[local] Open Scope list_scope.
#[local] Open Scope Z_scope.

Module Outbound.
Import AclMatch Policy.

Definition CommandConnect : Z := 1.
Definition CommandUDPAssociate : Z := 3.
Definition ReplyCodeSuccess : Z := 0.

Record Response := MkResponse { ReplyCode : Z; Bind : Socksaddr }.

Definition no_response : Response := MkResponse 0 (SockIP [] 0).

Inductive dial_error := ErrRejected | errDial | errListen | errDeadline | errHandshake5 | errRelay.

(** ** Connections *)

Definition conn : Type := nat.

Inductive level := Debug | Warn.

Record ledger := MkLedger { opened : conn; closed : list conn; logged : list level }.

Definition open_conn (w : ledger) : ledger * conn := (MkLedger (S (opened w)) (closed w) (logged w), opened w).
Definition close_conn (c : conn) (w : ledger) : ledger := MkLedger (opened w) (closed w ++ [c]) (logged w).
Definition log_at (l : level) (w : ledger) : ledger := MkLedger (opened w) (closed w) (logged w ++ [l]).

Record io := MkIO {
  dials_tcp : bool;              (** [dialer.DialContext(ctx, "tcp", addr)] succeeds *)
  remote_addr : IP;              (** [conn.RemoteAddr()] of that connection *)
  sets_deadline : bool;          (** [conn.SetDeadline] before the handshake *)
  clears_deadline : bool;        (** [conn.SetDeadline(time.Time{})] after it *)
  dials_udp : bool;
  cancelled : bool               (** [ctx.Err() != nil] *)
}.

(** What a call returns: an error or the connections it hands over. *)
Definition dialed : Type := dial_error + list conn.

(** ** SOCKS5 *)

Record SOCKS5 := MkSOCKS5 { s_addr : string; s_username : string; s_password : string }.

Definition NewSOCKS5 (addr username password : string) : SOCKS5 := MkSOCKS5 addr username password.

Section socks5.
(** [socks.ClientHandshake5] on a fresh connection: the reply of the proxy, if it came
    that far, and whether the request was granted. *)
Variable ClientHandshake5 : Z -> Socksaddr -> string -> string -> Response * bool.

Definition clientHandshake (s : SOCKS5) (i : io) (command : Z) (destination : Socksaddr) : Response * option dial_error :=
  if negb (sets_deadline i) then (no_response, Some errDeadline)
  else
    let '(response, ok) := ClientHandshake5 command destination (s_username s) (s_password s) in
    if negb ok then (response, Some errHandshake5)
    else (response, if clears_deadline i then None else Some errDeadline).

Definition negotiate (s : SOCKS5) (i : io) (w : ledger) (command : Z) (destination : Socksaddr)
  : ledger * (Response * (dial_error + conn)) :=
  if negb (dials_tcp i) then (w, (no_response, inl errDial))
  else
    let '(w, c) := open_conn w in
    let '(response, err) := clientHandshake s i command destination in
    match err with
    | Some err => (close_conn c w, (response, inl err))
    | None => (w, (response, inr c))
    end.

Definition logFailure (i : io) (w : ledger) (command : Z) (response : Response) : ledger :=
  let refusedConnect := (command =? CommandConnect) && negb (ReplyCode response =? ReplyCodeSuccess) in
  if refusedConnect || cancelled i then log_at Debug w else log_at Warn w.

Definition handshake (s : SOCKS5) (i : io) (w : ledger) (command : Z) (destination : Socksaddr)
  : ledger * (Response * (dial_error + conn)) :=
  match negotiate s i w command destination with
  | (w, (response, inl err)) => (logFailure i w command response, (no_response, inl err))
  | r => r
  end.

Definition socks5_DialTCP (s : SOCKS5) (i : io) (w : ledger) (destination : Socksaddr) : ledger * dialed :=
  match handshake s i w CommandConnect destination with
  | (w, (_, inl err)) => (w, inl err)
  | (w, (_, inr c)) => (w, inr [c])
  end.

(** [M.AddrFromNet(proxy).Unmap()] is the canonical form of the bytes. *)
Definition relayAddr (bind : Socksaddr) (proxy : IP) : Socksaddr :=
  match bind with
  | SockIP a port => if IsUnspecified a then SockIP (Unmap proxy) port else bind
  | SockFqdn _ _ => bind
  end.

(** The address the UDP socket is connected to is returned beside the result. *)
Definition socks5_ListenUDP (s : SOCKS5) (i : io) (w : ledger) : ledger * dialed * option Socksaddr :=
  match handshake s i w CommandUDPAssociate (SockIP [x00; x00; x00; x00] 0) with
  | (w, (_, inl err)) => (w, inl err, None)
  | (w, (response, inr control)) =>
      let relay := relayAddr (Bind response) (remote_addr i) in
      if negb (dials_udp i) then
        (logFailure i (close_conn control w) CommandUDPAssociate no_response, inl errRelay, Some relay)
      else let '(w, udp) := open_conn w in (w, inr [udp; control], Some relay)
  end.

(** [hold] and [Close] of a [socks5PacketConn]: when the control connection ends, or the
    stream closes it, both connections are closed. *)
Definition close_packet_conn (conns : list conn) (w : ledger) : ledger := foldl (fun w c => close_conn c w) w conns.

(** ** Direct and Reject *)

Definition direct_DialTCP (i : io) (w : ledger) : ledger * dialed :=
  if dials_tcp i then let '(w, c) := open_conn w in (w, inr [c]) else (w, inl errDial).

Definition direct_ListenUDP (i : io) (w : ledger) : ledger * dialed :=
  if dials_udp i then let '(w, c) := open_conn w in (w, inr [c]) else (w, inl errListen).

(** The method of the interface, by the kind of outbound; [proxies] are the SOCKS5 outbounds
    by identity. *)
Definition DialTCP (proxies : Z -> SOCKS5) (o : outbound) (i : io) (w : ledger) (destination : Socksaddr) : ledger * dialed :=
  match o with
  | Policy.Reject => (w, inl ErrRejected)
  | Policy.Direct _ => direct_DialTCP i w
  | Policy.SOCKS5 id => socks5_DialTCP (proxies id) i w destination
  end.

Definition ListenUDP (proxies : Z -> SOCKS5) (o : outbound) (i : io) (w : ledger) : ledger * dialed :=
  match o with
  | Policy.Reject => (w, inl ErrRejected)
  | Policy.Direct _ => direct_ListenUDP i w
  | Policy.SOCKS5 id => (socks5_ListenUDP (proxies id) i w).1
  end.

(** ** What is left open *)

(** A failed call has closed what it opened; a successful one hands over all it opened. *)
Definition accounted (w w' : ledger) (r : dialed) : Prop :=
  match r with
  | inl _ => closed w' = closed w ++ seq (opened w) (opened w' - opened w)
  | inr conns => closed w' = closed w /\ conns ≡ₚ seq (opened w) (opened w' - opened w)
  end /\ (opened w <= opened w')%nat.

Lemma handshake_cases s i w command destination w' response r :
  handshake s i w command destination = (w', (response, r)) ->
  (exists err l, r = inl err /\ logged w' = logged w ++ [l] /\
     ((opened w' = opened w /\ closed w' = closed w) \/ (opened w' = S (opened w) /\ closed w' = closed w ++ [opened w]))) \/
  (r = inr (opened w) /\ opened w' = S (opened w) /\ closed w' = closed w /\ logged w' = logged w).
Proof.
  unfold handshake, negotiate, logFailure, log_at, open_conn, close_conn. intros H.
  destruct (dials_tcp i); simpl in H.
  - destruct (clientHandshake s i command destination) as [resp [err|]]; simpl in H.
    + left. destruct (_ || cancelled i); injection H as <- _ <-; eexists _, _; split_and!; [done|done|by right|done|done|by right].
    + right. by injection H as <- _ <-.
  - left. destruct (_ || cancelled i); injection H as <- _ <-; eexists _, _; split_and!; [done|done|by left|done|done|by left].
Qed.

Lemma logFailure_conns i w command response :
  opened (logFailure i w command response) = opened w /\ closed (logFailure i w command response) = closed w.
Proof. unfold logFailure. by case_match. Qed.

(** C21.  Nothing is leaked: on every path of every outbound, with whatever the network and
    the proxy answer, a call that fails has closed each connection it opened, and one that
    succeeds returns exactly the connections it opened and closed none. *)
Theorem dial_accounts_for_connections proxies o i w destination w1 r1 w2 r2 :
  DialTCP proxies o i w destination = (w1, r1) -> ListenUDP proxies o i w = (w2, r2) ->
  accounted w w1 r1 /\ accounted w w2 r2.
Proof.
  assert (forall w', opened w' = opened w -> closed w' = closed w -> forall err, accounted w w' (inl err)) as Hnone.
  { intros w' Ho Hc err. split; [|lia]. by rewrite Ho, Hc, Nat.sub_diag, app_nil_r. }
  assert (forall w', opened w' = S (opened w) -> closed w' = closed w ++ [opened w] -> forall err, accounted w w' (inl err)) as Hone.
  { intros w' Ho Hc err. split; [|lia]. rewrite Ho, Hc. replace (S (opened w) - opened w)%nat with 1%nat by lia. done. }
  assert (forall w', opened w' = S (opened w) -> closed w' = closed w -> accounted w w' (inr [opened w])) as Hok.
  { intros w' Ho Hc. split; [|lia]. rewrite Ho. replace (S (opened w) - opened w)%nat with 1%nat by lia. done. }
  unfold DialTCP, ListenUDP. intros H1 H2. destruct o as [|id|id].
  - simplify_eq. auto.
  - unfold direct_DialTCP, direct_ListenUDP in *. destruct (dials_tcp i), (dials_udp i); simpl in *; simplify_eq; auto.
  - unfold socks5_DialTCP, socks5_ListenUDP in *.
    destruct (handshake (proxies id) i w CommandConnect destination) as [wa [ra ea]] eqn:Ea.
    destruct (handshake (proxies id) i w CommandUDPAssociate _) as [wb [rb eb]] eqn:Eb.
    apply handshake_cases in Ea, Eb. split.
    + destruct Ea as [(err & l & -> & _ & [[? ?]|[? ?]])|(-> & ? & ? & _)]; simplify_eq; auto.
    + destruct Eb as [(err & l & -> & _ & [[? ?]|[? ?]])|(-> & Ho & Hc & _)]; simpl in H2; simplify_eq; auto.
      destruct (dials_udp i); simpl in H2; simplify_eq.
      * split; simpl; [|lia]. rewrite Ho. replace (S (S (opened w)) - opened w)%nat with 2%nat by lia. split; [done|].
        simpl. apply perm_swap.
      * destruct (logFailure_conns i (close_conn (opened w) wb) CommandUDPAssociate no_response) as [Eo Ec].
        apply Hone; rewrite ?Eo, ?Ec; simpl; by rewrite ?Ho, ?Hc.
Qed.

(** A failed SOCKS5 request is logged once, and as a warning exactly if the proxy is at fault:
    a CONNECT that the proxy answered with a refusal and a request whose client went
    away stay at debug level. *)
Theorem failure_logged s i w destination w' err :
  socks5_DialTCP s i w destination = (w', inl err) ->
  logged w' = logged w ++
    [if cancelled i ||
        (dials_tcp i && sets_deadline i &&
         negb (ReplyCode (ClientHandshake5 CommandConnect destination (s_username s) (s_password s)).1 =? ReplyCodeSuccess))
     then Debug else Warn].
Proof.
  unfold socks5_DialTCP, handshake, negotiate, clientHandshake, logFailure, log_at, ReplyCodeSuccess, no_response. intros H.
  destruct (dials_tcp i), (sets_deadline i); simpl in *;
    try (destruct (ClientHandshake5 _ _ _ _) as [resp ok]; destruct ok, (clears_deadline i), (ReplyCode resp =? 0) eqn:?; simpl in * );
    destruct (cancelled i); simpl in *; repeat (case_match; simpl in * ); simplify_eq; simpl; try congruence; try done.
  all: exfalso; by repeat match goal with E : (ReplyCode _ =? 0) = _, F : context [ReplyCode _ =? 0] |- _ => rewrite E in F end.
Qed.

(** A proxy that is bound to all its addresses is sent UDP packets at the address it was
    dialed at: the relay keeps the port, and is unspecified only if that is. *)
Theorem relay_reachable bind proxy :
  Port (relayAddr bind proxy) = Port bind /\
  (forall a p, relayAddr bind proxy = SockIP a p -> IsUnspecified a = true -> a = Unmap proxy).
Proof.
  unfold relayAddr. destruct bind as [a p|n p]; [|done]. destruct (IsUnspecified a) eqn:E; split; try done.
  - by intros ? ? [= <- <-].
  - intros ? ? [= <- <-] ?. congruence.
Qed.

End socks5.

(** ** Buffers *)

(** [buf.Buffer]: capacity, start and the bytes from there on.  [Extend] panics and [Write]
    writes less beyond the capacity; [Advance] moves the start. *)
Record Buffer := MkBuffer { b_cap : Z; b_start : Z; b_data : bytes }.

Definition b_end (b : Buffer) : Z := b_start b + len (b_data b).

Definition NewSize (n : Z) : Buffer := MkBuffer n 0 [].

Definition Extend (n : Z) (b : Buffer) : option Buffer :=
  if b_cap b <? b_end b + n then None else Some (MkBuffer (b_cap b) (b_start b) (b_data b ++ replicate (Z.to_nat n) x00)).

Definition Write (p : bytes) (b : Buffer) : Buffer * Z :=
  let n := Z.min (len p) (b_cap b - b_end b) in
  (MkBuffer (b_cap b) (b_start b) (b_data b ++ slice_to n p), n).

Definition Advance (n : Z) (b : Buffer) : Buffer := MkBuffer (b_cap b) (b_start b + n) (slice_from n (b_data b)).

(** [common.Must1] panics if the write fails, which a buffer that is full for a
    non-empty text does. *)
Definition bufferWithHeadroom (buffer : Buffer) (headroom : Z) : option Buffer :=
  match Extend headroom (NewSize (headroom + len (b_data buffer))) with
  | None => None
  | Some b =>
      let '(b, n) := Write (b_data buffer) b in
      if (n =? 0) && (0 <? len (b_data buffer)) then None else Some (Advance headroom b)
  end.

(** [WritePacket]: the buffer given to the association; [addr_len] is the encoded length of
    the destination. *)
Definition packet_buffer (buffer : Buffer) (addr_len : Z) : option Buffer :=
  let headroom := 3 + addr_len in
  if b_start buffer <? headroom then bufferWithHeadroom buffer headroom else Some buffer.

(** The association always finds room for its header in front of the packet, and the packet
    itself is unchanged; copying never panics. *)
Theorem packet_buffer_headroom buffer addr_len :
  0 <= addr_len ->
  exists b, packet_buffer buffer addr_len = Some b /\ 3 + addr_len <= b_start b /\ b_data b = b_data buffer.
Proof.
  intros Ha. unfold packet_buffer. destruct (Z.ltb_spec (b_start buffer) (3 + addr_len)); [|eauto].
  set (h := 3 + addr_len) in *. pose proof (len_nonneg (b_data buffer)) as Hl.
  unfold bufferWithHeadroom, Extend, NewSize, b_end. cbn [b_cap b_start b_data]. rewrite (len_nil (A := byte)).
  destruct (Z.ltb_spec (h + len (b_data buffer)) (0 + 0 + h)); [lia|].
  unfold Write, b_end. cbn [b_cap b_start b_data]. rewrite app_nil_l, len_replicate, Z2Nat.id by lia.
  replace (Z.min _ _) with (len (b_data buffer)) by lia. rewrite slice_to_all by lia.
  destruct (_ && _) eqn:E; [apply andb_true_iff in E as [?%Z.eqb_eq ?%Z.ltb_lt]; lia|].
  eexists. split; [done|]. unfold Advance. cbn [b_cap b_start b_data]. split; [lia|].
  apply slice_from_app. rewrite len_replicate. lia.
Qed.

(** ** Examples *)

Definition sample_handshake5 (command : Z) (d : Socksaddr) (user pass : string) : Response * bool :=
  if String.eqb user "u" then (MkResponse 0 (SockIP [x00; x00; x00; x00] 9000), true) else (no_response, false).

Definition sample_io (udp : bool) : io := MkIO true [x0a; x00; x00; x01] true true udp false.

(** A relay that cannot be dialed: the control connection is closed. *)
Lemma dial_accounts_for_connections_witness :
  let w := MkLedger 7%nat [3%nat] [] in
  let r := ListenUDP sample_handshake5 (fun _ => MkSOCKS5 "p:1080" "u" "x") (Policy.SOCKS5 0) (sample_io false) w in
  r = (MkLedger 8%nat [3%nat; 7%nat] [Warn], inl errRelay) /\ accounted w r.1 r.2.
Proof.
  intros w r. split; [vm_compute; reflexivity|].
  exact (proj2 (dial_accounts_for_connections sample_handshake5 (fun _ => MkSOCKS5 "p:1080" "u" "x") (Policy.SOCKS5 0) (sample_io false) w
    (SockFqdn "a" 80) _ _ r.1 r.2 eq_refl eq_refl)).
Defined.

End Outbound.
