(* ===== verification/Server.v ===== *)
(** * Server: from a configuration to a running server
      (cmd/server/main.go, outbound.go, resolver.go, myserver.go)

    [startup] is [main] up to the accept loop: it returns the parts of the server or the
    reason of [logrus.Fatalln].  It joins the configuration, the outbounds, the
    rules, the resolver, the authenticator and the policy.  Reading files, listening and
    making or loading the first certificate succeed or fail as [env] says. *)

From S2P Require Import Prelude GoStrings StringMap Padding AclParse AclMatch AclCompile Policy Config Resolver Outbound.
#[local] Open Scope string_scope.
#[local] Open Scope list_scope.
#[local] Open Scope Z_scope.
#[local] Open Scope go_scope.
#[local] Set Warnings "-clear-no-such-hyp".

Module Server.
Import AclMatch AclCompile Policy Config.

(** ** Outbounds *)

Section outbounds.
Variable unicode_lower : string -> string.

(** The loop of [newOutbounds]; the pointers it makes are told apart by the index of the
    entry.  The error is the name and type it reports. *)
Fixpoint outbound_list (i : Z) (entries : list OutboundEntry) : string * string + list (string * outbound) :=
  match entries with
  | [] => inr []
  | e :: entries =>
      let k := outbound_Kind unicode_lower e in
      if String.eqb k "direct" then let? l := outbound_list (i + 1) entries in inr ((ob_Name e, Direct i) :: l)
      else if String.eqb k "socks5" then let? l := outbound_list (i + 1) entries in inr ((ob_Name e, SOCKS5 i) :: l)
      else inl (ob_Name e, ob_Type e)
  end.

Definition newOutbounds (entries : list OutboundEntry) : string * string + gmap string outbound :=
  let? l := outbound_list 0 entries in inr (outboundMap unicode_lower l (Direct (len entries))).

(** The SOCKS5 outbound of an identity. *)
Definition proxy_at (entries : list OutboundEntry) (id : Z) : Outbound.SOCKS5 :=
  match entries !! Z.to_nat id with
  | Some e => Outbound.NewSOCKS5 (s5_Addr (ob_SOCKS5 e)) (s5_Username (ob_SOCKS5 e)) (s5_Password (ob_SOCKS5 e))
  | None => Outbound.NewSOCKS5 "" "" ""
  end.

(** [netip.ParseAddr] *)
Variable ParseAddr : string -> option IP.

Definition isLocalProxyAddr (addr : string) : bool :=
  match SplitHostPort addr with
  | None => false
  | Some (host, _) =>
      if Resolver.EqualFold host "localhost" then true
      else match ParseAddr host with Some ip => isPrivateAddr ip | None => false end
  end.

(** The entries [warnLocalProxies] warns about. *)
Definition warnLocalProxies (entries : list OutboundEntry) : list (string * string) :=
  omap (fun e => if String.eqb (outbound_Kind unicode_lower e) "socks5" && isLocalProxyAddr (s5_Addr (ob_SOCKS5 e))
                 then Some (ob_Name e, s5_Addr (ob_SOCKS5 e)) else None) entries.

(** ** Resolver *)

Variable ParseIP : string -> option IP.

Definition newResolver (c : ResolverConfig) : config_error + option Resolver.resolver :=
  let? _ := resolver_Validate unicode_lower c in
  let k := resolver_Kind unicode_lower c in
  if one_of k [""; "system"] then inr None
  else if String.eqb k "udp" then inr (Some (Resolver.NewUDP (ra_Addr (rc_UDP c)) (ra_Timeout (rc_UDP c))))
  else if String.eqb k "tcp" then inr (Some (Resolver.NewTCP (ra_Addr (rc_TCP c)) (ra_Timeout (rc_TCP c))))
  else if one_of k ["tls"; "tcp-tls"] then
    inr (Some (Resolver.NewTLS (rt_Addr (rc_TLS c)) (rt_Timeout (rc_TLS c)) (rt_SNI (rc_TLS c)) (rt_Insecure (rc_TLS c))))
  else if one_of k ["https"; "http"] then
    inr (Some (Resolver.NewHTTPS ParseIP (rt_Addr (rc_HTTPS c)) (rt_Timeout (rc_HTTPS c)) (rt_SNI (rc_HTTPS c)) (rt_Insecure (rc_HTTPS c))))
  else inl (errResolverType (rc_Type c)).

End outbounds.

(** ** Startup *)

(** The command line; [None] is a flag that was not given. *)
Record flags := MkFlags { f_c : string; f_l : option string; f_p : option string; f_padding : option string }.

Definition apply_flags (f : flags) (c : Config) : Config :=
  MkConfig (match f_l f with Some l => l | None => if String.eqb (c_Listen c) "" then "0.0.0.0:8443" else c_Listen c end)
    (default (c_Password c) (f_p f)) (default (c_PaddingScheme c) (f_padding f))
    (c_TLS c) (c_Auth c) (c_ACL c) (c_Resolver c) (c_TrafficStats c) (c_Bandwidth c) (c_Outbound c) (c_Outbounds c).

(** The chain of authenticators. *)
Inductive authn :=
  | PasswordAuth (password : string)
  | HTTPAuth (url : string) (insecure : bool) (maxConcurrent slotWait : Z) (cache : option (Z * Z * Z)).

Definition authBackendSlotWait : Z := 2000000000.

Inductive fatal :=
  | FatalConfig (err : config_error)
  | FatalPadding
  | FatalPassword
  | FatalListen
  | FatalTLS
  | FatalResolver (err : config_error)
  | FatalOutbounds (name typ : string)
  | FatalGeoInterval (err : config_error)
  | FatalACLFile
  | FatalACL (err : engine_error)
  | FatalBandwidth (err : config_error).

Record env := MkEnv {
  ReadConfig : string -> option bytes;
  ReadPadding : string -> option bytes;
  ReadACL : string -> option bytes;
  listens : bool;
  has_cert : bool                   (** the certificate loads, or a key pair is generated *)
}.

Section startup.
Variable unicode_lower : string -> string.
Variable ParseDuration : string -> option Z.
Variable Unmarshal : bytes -> Config -> option Config.
Variable ParseIP : string -> option IP.
Variable md5hex : bytes -> string.
Variable ParseCIDR : string -> option IPNet.
Variable regexp_Compile : string -> option (string -> bool).
(** What a [FileGeoLoader] with that file name and update interval loads: Geo.v. *)
Variable LoadGeoIP : string -> Z -> option (gmap string GeoIP).
Variable LoadGeoSite : string -> Z -> option (gmap string GeoSite).
Context {T : Type} `{!LRU (string * Protocol * Z) (option (outbound * IP)) T}.

Record server := MkServer {
  sv_config : Config;
  sv_padding : option Padding.PaddingFactory;
  sv_auth : authn;
  sv_stats : bool;
  sv_resolver : option Resolver.resolver;
  sv_outbounds : gmap string outbound;
  sv_acl : option (Engine (O := outbound) (T := T));
  sv_limits : Z * Z;
  sv_blockPrivate : bool;
  sv_fallback : option outbound
}.

Definition load_padding (e : env) (c : Config) : fatal + option Padding.PaddingFactory :=
  if String.eqb (c_PaddingScheme c) "" then inr (Padding.DefaultPaddingFactory md5hex)
  else
    match ReadPadding e (c_PaddingScheme c) with
    | None => inl FatalPadding
    | Some b => inr (Padding.UpdatePaddingScheme md5hex (Padding.DefaultPaddingFactory md5hex) b).1
    end.

(** The value of a setting whose error [main] ignores. *)
Definition value_of (m : config_error + Z) : Z := match m with inr v => v | inl _ => 0 end.

Definition make_auth (c : Config) : fatal + authn :=
  if UseHTTPAuth c then
    let h := auth_HTTP (c_Auth c) in
    let ttl := value_of (AuthCacheTTL ParseDuration c) in
    let size := if ha_CacheSize h <=? 0 then 4096 else ha_CacheSize h in
    inr (HTTPAuth (ha_URL h) (ha_Insecure h) (AuthMaxConcurrent c) authBackendSlotWait
      (if 0 <? ttl then Some (ttl, size, value_of (AuthNegativeCacheTTL ParseDuration c)) else None))
  else if String.eqb (c_Password c) "" then inl FatalPassword
  else inr (PasswordAuth (c_Password c)).

(** [or_fatal f m]: an error of [m] ends the program with [f]. *)
Definition or_fatal {E A} (f : E -> fatal) (m : E + A) : fatal + A := match m with inl err => inl (f err) | inr a => inr a end.

Definition make_acl (e : env) (c : Config) (obs : gmap string outbound) : fatal + option (Engine (O := outbound) (T := T)) :=
  if negb (ACLEnabled c) then inr None
  else
    let? interval := or_fatal FatalGeoInterval (GeoUpdateInterval ParseDuration c) in
    let? text :=
      (if negb (String.eqb (acl_File (c_ACL c)) "") then
         match ReadACL e (acl_File (c_ACL c)) with None => inl FatalACLFile | Some b => inr (of_bytes b) end
       else inr (Join (ascii_of_nat 10) (acl_Inline (c_ACL c)))) in
    let? engine := or_fatal FatalACL (NewEngineFromString unicode_lower ParseIP ParseCIDR regexp_Compile
      (LoadGeoIP (acl_GeoIP (c_ACL c)) interval) (LoadGeoSite (acl_GeoSite (c_ACL c)) interval) text obs) in
    inr (Some engine).

Definition startup (f : flags) (e : env) : fatal + server :=
  let? c := or_fatal FatalConfig (LoadFile unicode_lower ParseDuration (ReadConfig e) Unmarshal (f_c f)) in
  let c := apply_flags f c in
  let? padding := load_padding e c in
  let? auth := make_auth c in
  if negb (listens e) then inl FatalListen
  else if negb (has_cert e) then inl FatalTLS
  else
    let? resolver := (if ResolverEnabled unicode_lower c then or_fatal FatalResolver (newResolver unicode_lower ParseIP (c_Resolver c)) else inr None) in
    let? obs := or_fatal (fun p => FatalOutbounds p.1 p.2) (newOutbounds unicode_lower (c_Outbounds c)) in
    let? acl := make_acl e c obs in
    let? limits := or_fatal FatalBandwidth (BandwidthLimits unicode_lower c) in
    inr (MkServer c padding auth (StatsEnabled c) resolver obs acl limits (negb (oc_AllowPrivate (c_Outbound c))) (obs !! "default")).

(** The policy of the server: [newOutboundPolicy] with the engine's decisions and the
    resolver's results. *)
Definition policy_of (idna_ToUnicode : string -> option string) (resolve : Resolver.resolver -> string -> Policy.Result) (sv : server)
  : outboundPolicy :=
  newOutboundPolicy
    ((fun e h p port => decision unicode_lower idna_ToUnicode (e_rules e) (e_Default e) (h, p, port)) <$> sv_acl sv)
    (resolve <$> sv_resolver sv) (sv_blockPrivate sv) (sv_fallback sv) (Direct (-1)).

End startup.
(** ** Accepted configurations start *)

Section server_spec.
Variable unicode_lower : string -> string.

Lemma outbound_list_ok i entries :
  Forall (wf_entry unicode_lower) entries ->
  exists l, outbound_list unicode_lower i entries = inr l /\ l.*1 = ob_Name <$> entries /\
    Forall (fun p => p.2 <> Reject) l /\ (entries = [] <-> l = []).
Proof.
  intros H. revert i. induction H as [|e entries (_ & _ & Hk) _ IH]; intros i; [by exists []|].
  destruct (IH (i + 1)) as (l & E & En & Hr & _). cbn [outbound_list]. unfold outbound_Kind, wf_entry in *.
  destruct Hk as [[-> _]|[-> _]]; simpl; rewrite E; simpl.
  - exists ((ob_Name e, Direct i) :: l). split_and!; [done| |by constructor|done]. rewrite !fmap_cons. by rewrite En.
  - exists ((ob_Name e, SOCKS5 i) :: l). split_and!; [done| |by constructor|done]. rewrite !fmap_cons. by rewrite En.
Qed.

Lemma newResolver_ok ParseIP c : wf_resolver unicode_lower c -> exists r, newResolver unicode_lower ParseIP c = inr r /\
  (is_Some r <-> resolver_Enabled unicode_lower c = true).
Proof.
  intros Hwf. pose proof Hwf as Hwf'. apply succeeds_resolver in Hwf as [u Hu]. unfold newResolver. rewrite Hu. cbn [try_ok].
  unfold resolver_Enabled, resolver_Validate in *. set (k := resolver_Kind unicode_lower c) in *.
  destruct (one_of k [""; "system"]); [exists None; split; [done|]; split; [by intros [? ?]|done]|].
  repeat case_match; try done; eexists; (split; [done|]); split; eauto.
Qed.

(** The first configured outbound, or a direct one, is what unmatched requests use. *)
Lemma newOutbounds_default entries :
  Forall (wf_entry unicode_lower) entries ->
  exists obs ob, newOutbounds unicode_lower entries = inr obs /\ obs !! "default" = Some ob /\ ob <> Reject.
Proof.
  intros H. destruct (outbound_list_ok 0 entries H) as (l & E & _ & Hr & _). unfold newOutbounds. rewrite E. simpl.
  eexists. assert (forall k o, named_entry unicode_lower l k = Some o -> o <> Reject) as Hn.
  { intros k o Ho. unfold named_entry in Ho. apply fmap_Some in Ho as (p & Hp & ->). apply last_Some_elem_of in Hp.
    apply list_elem_of_filter in Hp as [_ Hp]. rewrite Forall_forall in Hr. by apply Hr. }
  pose proof (outboundMap_spec unicode_lower l (Direct (len entries)) "default") as Hs.
  destruct (named_entry unicode_lower l "default") as [o|] eqn:En; simpl in Hs.
  - exists o. split_and!; [done|done|by eapply Hn].
  - exists (default (Direct (len entries)) (snd <$> head l)). split_and!; [done|done|].
    destruct l as [|p l]; [done|]. simpl. apply Forall_cons in Hr as [? _]. done.
Qed.

Variable ParseDuration : string -> option Z.
Variable Unmarshal : bytes -> Config -> option Config.
Variable ParseIP : string -> option IP.
Variable md5hex : bytes -> string.
Variable ParseCIDR : string -> option IPNet.
Variable regexp_Compile : string -> option (string -> bool).
Variable LoadGeoIP : string -> Z -> option (gmap string GeoIP).
Variable LoadGeoSite : string -> Z -> option (gmap string GeoSite).
Context {T : Type} `{!LRU (string * Protocol * Z) (option (outbound * IP)) T}.

Abbreviation start := (startup unicode_lower ParseDuration Unmarshal ParseIP md5hex ParseCIDR regexp_Compile LoadGeoIP LoadGeoSite (T := T)).

Lemma apply_flags_wf f c : wf_config unicode_lower ParseDuration c -> wf_config unicode_lower ParseDuration (apply_flags f c).
Proof. intros []. by split. Qed.

Lemma parse_ttl_nonneg field t d : parse_ttl ParseDuration field t = inr d -> 0 <= d.
Proof. unfold parse_ttl. destruct (ParseDuration t); [|done]. zcases. intros [= <-]. lia. Qed.

Lemma negative_ttl_nonneg c : 0 <= value_of (AuthNegativeCacheTTL ParseDuration c).
Proof.
  destruct (AuthNegativeCacheTTL ParseDuration c) as [?|d] eqn:E; simpl; [lia|].
  unfold AuthNegativeCacheTTL in E. apply try_ok_inr in E as (pos & _ & E).
  destruct (String.eqb _ ""); [|by eapply parse_ttl_nonneg]. unfold defaultAuthNegativeCacheTTL, Second in E. zcases; simplify_eq; lia.
Qed.

(** Clients are authenticated by something: a password that is not empty, or a backend with
    a limit and, if there is a cache, sensible sizes. *)
Definition auth_ready (a : authn) : Prop :=
  match a with
  | PasswordAuth p => p <> ""
  | HTTPAuth url _ n _ cache =>
      url <> "" /\ 0 < n /\ match cache with Some (ttl, size, neg) => 0 < ttl /\ 0 < size /\ 0 <= neg | None => True end
  end.

Lemma make_auth_spec c :
  match make_auth ParseDuration c with inr a => auth_ready a | inl f => f = FatalPassword /\ UseHTTPAuth c = false /\ c_Password c = "" end.
Proof.
  unfold make_auth, UseHTTPAuth. destruct (String.eqb_spec (auth_Type (c_Auth c)) "http"), (String.eqb_spec (ha_URL (auth_HTTP (c_Auth c))) "");
    cbn [negb andb]; try (destruct (String.eqb_spec (c_Password c) ""); done).
  split; [done|]. unfold AuthMaxConcurrent, defaultAuthMaxConcurrent. pose proof (negative_ttl_nonneg c). split; zcases; split_and!; lia.
Qed.

(** The text of the rules, if its file can be read. *)
Definition acl_text (e : env) (c : Config) : option string :=
  if String.eqb (acl_File (c_ACL c)) "" then Some (Join (ascii_of_nat 10) (acl_Inline (c_ACL c))) else of_bytes <$> ReadACL e (acl_File (c_ACL c)).

(** Why a server with the accepted configuration [c] does not start; four of the errors cannot happen
    then. *)
Definition fatal_reason (e : env) (c : Config) (err : fatal) : Prop :=
  match err with
  | FatalPadding => c_PaddingScheme c <> "" /\ ReadPadding e (c_PaddingScheme c) = None
  | FatalPassword => UseHTTPAuth c = false /\ c_Password c = ""
  | FatalListen => listens e = false
  | FatalTLS => has_cert e = false
  | FatalACLFile => ACLEnabled c = true /\ acl_text e c = None
  | FatalACL x => ACLEnabled c = true /\ exists text obs gi gs, acl_text e c = Some text /\
      NewEngineFromString unicode_lower ParseIP ParseCIDR regexp_Compile gi gs text obs (O := outbound) (T := T) = inl x
  | FatalConfig _ | FatalResolver _ | FatalOutbounds _ _ | FatalGeoInterval _ | FatalBandwidth _ => False
  end.

Lemma load_padding_error e c err : load_padding md5hex e c = inl err -> fatal_reason e c err.
Proof.
  unfold load_padding. destruct (String.eqb_spec (c_PaddingScheme c) ""); [done|]. destruct (ReadPadding e _) eqn:E; [done|]. intros [= <-]. done.
Qed.

Lemma make_acl_spec e c obs :
  wf_config unicode_lower ParseDuration c ->
  match make_acl unicode_lower ParseDuration ParseIP ParseCIDR regexp_Compile LoadGeoIP LoadGeoSite (T := T) e c obs with
  | inl err => fatal_reason e c err
  | inr engine => engine = None <-> ACLEnabled c = false
  end.
Proof.
  intros Hwf. assert (succeeds (GeoUpdateInterval ParseDuration c)) as [iv Eiv]
    by (apply succeeds_setting; [by eexists|apply (wf_geo _ _ _ Hwf)]).
  unfold make_acl. destruct (ACLEnabled c) eqn:Ea; cbn [negb]; [|done]. rewrite Eiv. cbn [or_fatal try_ok].
  assert (forall text, acl_text e c = Some text -> match (let? engine := or_fatal FatalACL (NewEngineFromString unicode_lower ParseIP ParseCIDR regexp_Compile
      (LoadGeoIP (acl_GeoIP (c_ACL c)) iv) (LoadGeoSite (acl_GeoSite (c_ACL c)) iv) text obs (T := T)) in inr (Some engine)) with
    inl err => fatal_reason e c err | inr engine => engine = None <-> true = false end) as H.
  { intros text Ht. destruct (NewEngineFromString _ _ _ _ _ _ _ _) as [x|] eqn:Ee; cbn [or_fatal try_ok fatal_reason]; [|done]. split; [done|]. eauto 10. }
  unfold acl_text in H. cbn [fatal_reason]. destruct (String.eqb (acl_File (c_ACL c)) "") eqn:Ef; cbn [negb].
  - by apply H.
  - destruct (ReadACL e (acl_File (c_ACL c))) as [t|] eqn:Er; cbn [try_ok]; [by apply H|]. split; [done|]. unfold acl_text. by rewrite Ef, Er.
Qed.

Lemma resolver_step c :
  wf_config unicode_lower ParseDuration c ->
  exists r, (if ResolverEnabled unicode_lower c then or_fatal FatalResolver (newResolver unicode_lower ParseIP (c_Resolver c)) else inr None) = inr r /\
    (is_Some r <-> ResolverEnabled unicode_lower c = true) /\
    (ResolverEnabled unicode_lower c = true -> newResolver unicode_lower ParseIP (c_Resolver c) = inr r).
Proof.
  intros Hwf. destruct (newResolver_ok ParseIP (c_Resolver c) (wf_resolve _ _ _ Hwf)) as (r & Er & Hr). unfold ResolverEnabled.
  destruct (resolver_Enabled unicode_lower (c_Resolver c)); [rewrite Er; by exists r|]. exists None. split_and!; [done| |done]. by split; [intros [? ?]|].
Qed.

(** The authenticator a configuration asks for. *)
Definition auth_as_configured (c : Config) (a : authn) : Prop :=
  if UseHTTPAuth c then
    let h := auth_HTTP (c_Auth c) in
    exists cache, a = HTTPAuth (ha_URL h) (ha_Insecure h) (AuthMaxConcurrent c) authBackendSlotWait cache /\
      (forall ttl size neg, cache = Some (ttl, size, neg) -> AuthCacheTTL ParseDuration c = inr ttl /\ AuthNegativeCacheTTL ParseDuration c = inr neg)
  else a = PasswordAuth (c_Password c).

Lemma make_auth_configured c a :
  wf_config unicode_lower ParseDuration c -> make_auth ParseDuration c = inr a -> auth_as_configured c a.
Proof.
  intros Hwf. unfold make_auth, auth_as_configured. destruct (UseHTTPAuth c); [|destruct (String.eqb _ ""); intros H; by simplify_eq].
  intros [= <-]. eexists. split; [done|]. intros ttl size neg H. destruct (0 <? _) eqn:Ep; [|done]. injection H as <- <- <-.
  assert (succeeds (AuthCacheTTL ParseDuration c)) as [t Et] by (apply succeeds_setting; [by eexists|apply (wf_cache_ttl _ _ _ Hwf)]).
  assert (succeeds (AuthNegativeCacheTTL ParseDuration c)) as [n En].
  { unfold AuthNegativeCacheTTL. rewrite Et. cbn [try_ok]. apply succeeds_setting; [destruct (t <=? 0); by eexists|apply (wf_negative_ttl _ _ _ Hwf)]. }
  by rewrite Et, En.
Qed.


End server_spec.
(** ** Examples *)

Definition sample_env : env := MkEnv (fun _ => None) (fun _ => None) (fun _ => None) true true.

Abbreviation sample_startup :=
  (startup (fun s => s) (fun _ => None) (fun _ _ => None) (fun _ => None) (fun _ => "") (fun _ => None) (fun _ => None)
     (fun _ _ => None) (fun _ _ => None) (T := list (string * Protocol * Z * option (outbound * IP)))).

(** Without a file, a password is all that is needed; private destinations are blocked. *)
Example startup_default :
  match sample_startup (MkFlags "" None (Some "secret") None) sample_env with
  | inr sv => sv_auth sv = PasswordAuth "secret" /\ sv_blockPrivate sv = true /\ sv_fallback sv = Some (Direct 0)
  | inl _ => False
  end /\
  sample_startup (MkFlags "" None None None) sample_env = inl FatalPassword.
Proof. vm_compute. done. Qed.

(** A proxy on this host or in a private network is warned about. *)
Example local_proxies :
  let parse s := if String.eqb s "10.1.2.3" then Some [x0a; x01; x02; x03] else if String.eqb s "8.8.8.8" then Some [x08; x08; x08; x08] else None in
  warnLocalProxies (fun s => s) parse
    [sample_entry "a" "socks5" "LocalHost:1080"; sample_entry "b" "SOCKS5" "10.1.2.3:1080"; sample_entry "c" "socks5" "8.8.8.8:1080";
     sample_entry "d" "direct" ""] = [("a", "LocalHost:1080"); ("b", "10.1.2.3:1080")].
Proof. vm_compute. done. Qed.

End Server.
