(* ===== verification/Handler.v ===== *)
(** * Handler: what the server does with a stream
      (the stream handler of cmd/server/inbound_tcp.go and cmd/server/outbound_tcp.go)

    A handler reads the destination of a stream, registers it with the statistics, asks
    the policy for a route, dials, tells the client how that went and relays
    until either side ends.  The model joins the session of Session.v, the registry of
    Stats.v, the policy of Policy.v and the dialers of Outbound.v; what the
    network answers is in [facts].  A handler is in the map of active streams from the
    moment it knows its destination until it returns; while it dials or relays anything
    else may happen.  Relaying itself is a library's.  The magic addresses of UDP over TCP are the library's. *)

From S2P Require Import Prelude GoStrings Frame Padding NetConn WriteConn Pipe Session AclMatch AclCompile Policy RefTable Stats Outbound.
#[local] Open Scope string_scope.
#[local] Open Scope list_scope.
#[local] Open Scope Z_scope.
#[local] Set Warnings "-clear-no-such-hyp".

Module Handler.
Import AclMatch AclCompile Policy.

(** ** The error a client is told *)

(** An error of [selectRoute] or of [DialTCP]. *)
Inductive outbound_error := RouteError (err : route_error) | DialError (err : Outbound.dial_error).

Inductive client_error := errClientBlocked | errClientResolveFailed | errClientDialFailed.

Definition client_text (e : client_error) : string :=
  match e with
  | errClientBlocked => "blocked by server policy"
  | errClientResolveFailed => "resolve failed"
  | errClientDialFailed => "dial failed"
  end.

(** [errACLRejected] is [outbound.ErrRejected]. *)
Definition clientError (err : outbound_error) : client_error :=
  match err with
  | RouteError errACLRejected | RouteError errPrivateDestination | DialError Outbound.ErrRejected => errClientBlocked
  | RouteError errResolve => errClientResolveFailed
  | DialError _ => errClientDialFailed
  end.

(** ** The node *)

(** How far the handler of a stream is: it reads the request, dials or relays a TCP stream,
    with its record in the statistics, or relays a UDP stream. *)
Inductive relay :=
  | Requesting
  | Dialing (st : option nat) (d : Socksaddr)
  | RelayTCP (st : option nat) (conns : list Outbound.conn)
  | RelayUDP.

Section handler.
Context {C : Type} `{!NetConn C}.
Variable ent : Z -> nat -> Z.
Variable MagicAddress : string.
Variable LegacyMagicAddress : string.
Variable Socksaddr_String : Socksaddr -> string.
Variable ClientHandshake5 : Z -> Socksaddr -> string -> string -> Outbound.Response * bool.
Variable proxies : Z -> Outbound.SOCKS5.
(** [s.stats != nil] *)
Variable has_stats : bool.

Record node := MkNode {
  n_ses : Session.Session C;
  n_reg : Stats.Registry;
  n_led : Outbound.ledger;
  n_active : gmap nat relay
}.

Definition set_ses (n : node) x : node := MkNode x (n_reg n) (n_led n) (n_active n).
Definition set_reg (n : node) x : node := MkNode (n_ses n) x (n_led n) (n_active n).
Definition set_led (n : node) x : node := MkNode (n_ses n) (n_reg n) x (n_active n).
Definition set_active (n : node) x : node := MkNode (n_ses n) (n_reg n) (n_led n) x.

(** What the policy and the network answer when a stream is routed and dialed. *)
Record facts := MkFacts {
  route_found : Socksaddr -> route_error + Policy.route;
  dial_io : Outbound.io
}.

Definition isUoT (d : Socksaddr) : bool :=
  match d with
  | SockFqdn name _ => String.eqb name MagicAddress || String.eqb name LegacyMagicAddress
  | SockIP _ _ => false
  end.

Definition isLegacy (d : Socksaddr) : bool :=
  match d with SockFqdn name _ => String.eqb name LegacyMagicAddress | SockIP _ _ => false end.

Definition count_identity (st : Session.Stream) : Session.Stream :=
  {| Session.st_id := Session.st_id st; Session.st_pipe := Session.st_pipe st; Session.writeDeadline := Session.writeDeadline st;
     Session.died := Session.died st; Session.dieErr := Session.dieErr st; Session.reported := Session.reported st;
     Session.st_counter := if has_stats then Some (Session.MkCounter 0 0) else Session.st_counter st; Session.CountIdentity := true |}.

(** [st.SetState] on a record, if there is one. *)
Definition set_state (r : Stats.Registry) (st : option nat) (x : Stats.StreamState) : Stats.Registry :=
  match st with
  | Some p => Stats.set_streams r (Stats.streams r) (alter (Stats.SetState x) p (Stats.sstats r))
  | None => r
  end.

(** [proxyOutboundTCP] up to the relay: the connections to copy, or [None]. *)
Definition proxyOutboundTCP (n : node) (o : nat) (d : Socksaddr) (st : option nat) (fa : facts)
  : node * option (list Outbound.conn) :=
  match route_found fa d with
  | inl err => (set_ses n (Session.HandshakeFailure ent (n_ses n) o (Some (client_text (clientError (RouteError err))))).1, None)
  | inr r =>
      let '(led, res) := Outbound.DialTCP ClientHandshake5 proxies (rt_outbound r) (dial_io fa) (n_led n) (rt_target r) in
      let n := set_led n led in
      match res with
      | inl err => (set_ses n (Session.HandshakeFailure ent (n_ses n) o (Some (client_text (clientError (DialError err))))).1, None)
      | inr conns =>
          let '(s, err) := Session.HandshakeSuccess ent (n_ses n) o in
          let n := set_ses n s in
          match err with
          | Some _ => (n, None)
          | None => (set_reg n (set_state (n_reg n) st Stats.StreamStateEstablished), Some conns)
          end
      end
  end.

Definition requestTimeout : Z := 10000000000.

(** [stream.SetReadDeadline], whose error is ignored; [None] clears the deadline. *)
Definition read_deadline (n : node) (o : nat) (t : option Z) (now : Z) : node :=
  set_ses n (Session.stream_SetReadDeadline (n_ses n) o t now).1.

(** [proxyOutboundUoT] up to the relay; [uot_request] says that the request is read. *)
Definition proxyOutboundUoT (n : node) (o : nat) (legacy uot_request : bool) (now : Z) : node * bool :=
  if negb legacy && negb uot_request then (n, false)
  else
    let n := read_deadline n o None now in
    let '(s, err) := Session.HandshakeSuccess ent (n_ses n) o in
    (set_ses n s, match err with Some _ => false | None => true end).

Definition close_stream (n : node) (o : nat) : node := set_ses n (Session.stream_Close ent (n_ses n) o).1.

(** The deferred [UntraceStream] and [stream.Close]. *)
Definition leave_tcp (n : node) (o : nat) (st : option nat) : node :=
  close_stream (set_reg n (Stats.UntraceStream (n_reg n) st)) o.

(** [TraceStream] with the next number of the device connection, and [SetReqAddr]. *)
Definition trace (r : Stats.Registry) (id : string) (conn : nat) (d : Socksaddr) (now : Z) : Stats.Registry * nat :=
  let '(r, seq) := Stats.NextStreamID r conn in
  let cid := match RefTable.heap (Stats.conns r) !! conn with Some e => Stats.c_id (RefTable.e_val e) | None => 0 end in
  let '(r, st) := Stats.TraceStream r id cid seq now in
  (Stats.set_streams r (Stats.streams r) (alter (Stats.SetReqAddr (Socksaddr_String d)) st (Stats.sstats r)), st).

(** The handler of the stream [o] starts to read the request. *)
Definition start_stream (n : node) (o : nat) (now : Z) : node :=
  set_active (read_deadline n o (Some (now + requestTimeout)) now) (<[o := Requesting]> (n_active n)).

(** The deferred [stream.Close] of a handler that has no record. *)
Definition leave_plain (n : node) (o : nat) : node := close_stream (set_active n (delete o (n_active n))) o.

(** It goes on with the request until it dials or, for UDP, relays; [destination] is what
    it reads from the stream, [id] the user and [conn] the device connection. *)
Definition begin_stream (n : node) (o : nat) (id : string) (conn : nat) (destination : option Socksaddr) (uot_request : bool) (now : Z)
  : node :=
  match destination with
  | None => leave_plain n o
  | Some d =>
      if isUoT d then
        let '(n, ok) := proxyOutboundUoT n o (isLegacy d) uot_request now in
        if ok then set_active n (<[o := RelayUDP]> (n_active n)) else leave_plain n o
      else
        let n := set_ses n (Session.update_obj (n_ses n) o count_identity) in
        let '(r, st) :=
          if has_stats then let '(r, st) := trace (n_reg n) id conn d now in (r, Some st) else (n_reg n, None) in
        set_active (read_deadline (set_reg n r) o None now) (<[o := Dialing st d]> (n_active n))
  end.

(** It goes on when the policy and the outbound have answered. *)
Definition dial_stream (n : node) (o : nat) (fa : facts) : node :=
  match n_active n !! o with
  | Some (Dialing st d) =>
      let '(n, res) := proxyOutboundTCP n o d st fa in
      match res with
      | Some conns => set_active n (<[o := RelayTCP st conns]> (n_active n))
      | None => leave_tcp (set_active n (delete o (n_active n))) o st
      end
  | _ => n
  end.

(** A relay ends, and with it the handler. *)
Definition end_stream (n : node) (o : nat) : node :=
  match n_active n !! o with
  | Some (RelayTCP st _) => leave_tcp (set_active n (delete o (n_active n))) o st
  | Some RelayUDP => leave_plain n o
  | Some Requesting | Some (Dialing _ _) | None => n
  end.

(** One session of a node: handlers start, at most one per stream at a time, read their
    request, dial and end; [OtherSession] is anything else that happens to the session, [OtherRegistry] what
    other sessions do to the users and connections of the registry. *)
Inductive node_op :=
  | StartStream (o : nat) (now : Z)
  | RequestRead (o : nat) (id : string) (conn : nat) (destination : option Socksaddr) (uot_request : bool) (now : Z)
  | DialStream (o : nat) (fa : facts)
  | FinishStream (o : nat)
  | OtherSession (s : Session.Session C)
  | OtherRegistry (r : Stats.Registry).

Definition node_exec (n : node) (op : node_op) : node :=
  match op with
  | StartStream o now => match n_active n !! o with None => start_stream n o now | Some _ => n end
  | RequestRead o id conn d u now => match n_active n !! o with Some Requesting => begin_stream n o id conn d u now | _ => n end
  | DialStream o fa => dial_stream n o fa
  | FinishStream o => end_stream n o
  | OtherSession s => set_ses n s
  | OtherRegistry r =>
      set_reg n (Stats.MkRegistry (Stats.users r) (Stats.ustats r) (Stats.streams (n_reg n)) (Stats.sstats (n_reg n)) (Stats.conns r))
  end.

Definition node_run (n : node) (ops : list node_op) : node := foldl node_exec n ops.

Definition new_node (s : Session.Session C) (w : Outbound.ledger) : node := MkNode s Stats.NewRegistry w ∅.

(** ** What the client learns *)

(** How the server's part went: the class of the failure, or success. *)
Definition verdict (n : node) (d : Socksaddr) (fa : facts) : option client_error :=
  match route_found fa d with
  | inl err => Some (clientError (RouteError err))
  | inr r =>
      match (Outbound.DialTCP ClientHandshake5 proxies (rt_outbound r) (dial_io fa) (n_led n) (rt_target r)).2 with
      | inl err => Some (clientError (DialError err))
      | inr _ => None
      end
  end.

(** C14.  The client learns how its request ended and nothing else: what a handler does to
    the session, and so every byte it sends, depends only on which of the three classes of
    failure the request had, or that it succeeded, and not on the destination, the
    resolver, the outbound, or the error in detail. *)
Theorem client_learns_class n1 n2 o d1 d2 st1 st2 fa1 fa2 :
  n_ses n1 = n_ses n2 -> verdict n1 d1 fa1 = verdict n2 d2 fa2 ->
  n_ses (proxyOutboundTCP n1 o d1 st1 fa1).1 = n_ses (proxyOutboundTCP n2 o d2 st2 fa2).1.
Proof.
  assert (forall n d st fa, n_ses (proxyOutboundTCP n o d st fa).1 =
    match verdict n d fa with
    | Some e => (Session.HandshakeFailure ent (n_ses n) o (Some (client_text e))).1
    | None => (Session.HandshakeSuccess ent (n_ses n) o).1
    end) as H.
  { intros n d st fa. unfold proxyOutboundTCP, verdict. destruct (route_found fa d) as [err|r]; [done|].
    destruct (Outbound.DialTCP _ _ _ _ _ _) as [led [err|conns]]; [done|]. simpl.
    destruct (Session.HandshakeSuccess ent (n_ses n) o) as [s [err|]]; [done|]. by destruct st. }
  intros Hs Hv. by rewrite !H, Hs, Hv.
Qed.

(** ** What the statistics list *)

Definition record_of (rl : relay) : option nat :=
  match rl with Dialing st _ | RelayTCP st _ => st | Requesting | RelayUDP => None end.

Definition shown_as (rl : relay) : Stats.StreamState :=
  match rl with Dialing _ _ => Stats.StreamStateConnecting | _ => Stats.StreamStateEstablished end.

(** The traced records are those of the active TCP streams, one each, in the right state. *)
Record node_inv (n : node) : Prop := {
  ni_traced p : p ∈ Stats.streams (n_reg n) -> exists o rl, n_active n !! o = Some rl /\ record_of rl = Some p;
  ni_live o rl p : n_active n !! o = Some rl -> record_of rl = Some p ->
    p ∈ Stats.streams (n_reg n) /\ (exists s, Stats.sstats (n_reg n) !! p = Some s /\ Stats.state s = shown_as rl);
  ni_one o1 o2 rl1 rl2 p : n_active n !! o1 = Some rl1 -> n_active n !! o2 = Some rl2 ->
    record_of rl1 = Some p -> record_of rl2 = Some p -> o1 = o2;
  ni_recorded o rl : n_active n !! o = Some rl -> record_of rl = None -> has_stats = true -> rl = RelayUDP \/ rl = Requesting
}.

(** Only these two parts of a node matter for it. *)
Lemma node_inv_ext n n' :
  Stats.streams (n_reg n') = Stats.streams (n_reg n) -> Stats.sstats (n_reg n') = Stats.sstats (n_reg n) ->
  n_active n' = n_active n -> node_inv n -> node_inv n'.
Proof. intros E1 E2 E3 [H1 H2 H3 H4]. split; rewrite ?E1, ?E2, ?E3; done. Qed.

Lemma proxy_parts n o d st fa n' res :
  proxyOutboundTCP n o d st fa = (n', res) ->
  n_active n' = n_active n /\
  n_reg n' = match res with Some _ => set_state (n_reg n) st Stats.StreamStateEstablished | None => n_reg n end.
Proof.
  unfold proxyOutboundTCP. intros H. destruct (route_found fa d) as [err|r]; [by simplify_eq|].
  destruct (Outbound.DialTCP _ _ _ _ _ _) as [led [err|conns]]; [by simplify_eq|].
  destruct (Session.HandshakeSuccess ent _ o) as [s [err|]]; by simplify_eq.
Qed.

(** A handler that leaves takes its record with it. *)
Lemma leave_inv n o rl st :
  node_inv n -> n_active n !! o = Some rl -> record_of rl = st ->
  node_inv (leave_tcp (set_active n (delete o (n_active n))) o st).
Proof.
  intros [H1 H2 H3 H4] Ho Hst. destruct st as [p|]; simpl.
  - split; simpl.
    + intros q [Hq Hne]%elem_of_difference. destruct (H1 q Hq) as (o' & rl' & Ho' & Hr). exists o', rl'. split; [|done].
      rewrite lookup_delete_ne; [done|]. intros ->. rewrite Ho in Ho'. simplify_eq. set_solver.
    + intros o' rl' q [Hne Ho']%lookup_delete_Some Hr. destruct (H2 o' rl' q Ho' Hr) as (Hin & s & Hs & Hshown).
      assert (q <> p) as Hqp. { intros ->. apply Hne. by eapply H3. }
      split; [set_solver|]. exists s. split; [|done]. by rewrite list_lookup_alter_ne.
    + intros o1 o2 rl1 rl2 q [_ ?]%lookup_delete_Some [_ ?]%lookup_delete_Some. eauto.
    + intros o' rl' [_ ?]%lookup_delete_Some. eauto.
  - split; simpl.
    + intros q Hq. destruct (H1 q Hq) as (o' & rl' & Ho' & Hr). exists o', rl'. split; [|done].
      rewrite lookup_delete_ne; [done|]. intros ->. rewrite Ho in Ho'. by simplify_eq.
    + intros o' rl' q [_ Ho']%lookup_delete_Some Hr. eauto.
    + intros o1 o2 rl1 rl2 q [_ ?]%lookup_delete_Some [_ ?]%lookup_delete_Some. eauto.
    + intros o' rl' [_ ?]%lookup_delete_Some. eauto.
Qed.

(** A handler that has no record leaves. *)
Lemma leave_plain_inv n o rl : node_inv n -> n_active n !! o = Some rl -> record_of rl = None -> node_inv (leave_plain n o).
Proof. intros Hn Ho Hr. eapply node_inv_ext; [| | |exact (leave_inv n o rl None Hn Ho Hr)]; done. Qed.

(** A stream that has no record goes on without one. *)
Lemma enter_plain_inv n o rl :
  node_inv n -> (forall rl0, n_active n !! o = Some rl0 -> record_of rl0 = None) -> record_of rl = None ->
  (has_stats = true -> rl = RelayUDP \/ rl = Requesting) -> node_inv (set_active n (<[o := rl]> (n_active n))).
Proof.
  intros [H1 H2 H3 H4] Ho Hrl Hs. split; simpl.
  - intros p Hp. destruct (H1 p Hp) as (o' & rl' & Ho' & Hr). exists o', rl'. split; [|done].
    rewrite lookup_insert_ne; [done|]. intros ->. by rewrite (Ho _ Ho') in Hr.
  - intros o' rl' p [[<- <-]|[_ Ho']]%lookup_insert_Some Hr; [congruence|eauto].
  - intros o1 o2 rl1 rl2 p [[<- <-]|[_ ?]]%lookup_insert_Some [[<- <-]|[_ ?]]%lookup_insert_Some ? ?; try congruence; eauto.
  - intros o' rl' [[<- <-]|[_ Ho']]%lookup_insert_Some Hr Hst; [auto|eauto].
Qed.

(** [trace] adds a new record in the state "connect". *)
Lemma trace_parts r id conn d now r' st :
  trace r id conn d now = (r', st) ->
  st = length (Stats.sstats r) /\ Stats.streams r' = {[st]} ∪ Stats.streams r /\
  (forall p s, Stats.sstats r !! p = Some s -> Stats.sstats r' !! p = Some s) /\
  (exists s, Stats.sstats r' !! st = Some s /\ Stats.state s = Stats.StreamStateConnecting).
Proof.
  unfold trace, Stats.NextStreamID, Stats.TraceStream, Stats.set_streams, Stats.set_conns. simpl. intros [= <- <-]. simpl.
  split_and!; [done|done| |].
  - intros p s Hp. pose proof (lookup_lt_Some _ _ _ Hp) as Hlt. rewrite list_lookup_alter_ne by lia. by apply lookup_app_l_Some.
  - eexists. rewrite list_lookup_alter, decide_True by done. rewrite list_lookup_middle by done. by split.
Qed.

Lemma enter_tcp_inv n o id conn d now r st :
  node_inv n -> n_active n !! o = Some Requesting -> trace (n_reg n) id conn d now = (r, st) ->
  node_inv (set_active (set_reg n r) (<[o := Dialing (Some st) d]> (n_active n))).
Proof.
  intros [H1 H2 H3 H4] Ho Ht. destruct (trace_parts _ _ _ _ _ _ _ Ht) as (Est & Es & Hk & Hn).
  assert (forall o' rl p, n_active n !! o' = Some rl -> record_of rl = Some p -> p <> st) as Hfresh.
  { intros o' rl p Ho' Hr ->. destruct (H2 o' rl st Ho' Hr) as (_ & s & Hs & _). apply lookup_lt_Some in Hs. lia. }
  split; simpl.
  - intros p. rewrite Es. intros [->%elem_of_singleton|Hp]%elem_of_union.
    + exists o, (Dialing (Some st) d). by rewrite lookup_insert_eq.
    + destruct (H1 p Hp) as (o' & rl & Ho' & Hr). exists o', rl. split; [|done]. rewrite lookup_insert_ne; [done|].
      intros ->. rewrite Ho in Ho'. by injection Ho' as <-.
  - intros o' rl p [[<- <-]|[_ Ho']]%lookup_insert_Some Hr; simpl in *.
    + injection Hr as <-. rewrite Es. split; [set_solver|done].
    + destruct (H2 o' rl p Ho' Hr) as (Hin & s & Hs & Hst). rewrite Es. split; [set_solver|]. exists s. split; [by apply Hk|done].
  - intros o1 o2 rl1 rl2 p [[<- <-]|[_ O1]]%lookup_insert_Some [[<- <-]|[_ O2]]%lookup_insert_Some R1 R2; simpl in *; try done.
    + injection R1 as <-. by destruct (Hfresh _ _ _ O2 R2).
    + injection R2 as <-. by destruct (Hfresh _ _ _ O1 R1).
    + by eapply H3.
  - intros o' rl [[<- <-]|[_ Ho']]%lookup_insert_Some Hr Hs; [done|eauto].
Qed.

(** A dialed stream is relayed: its record becomes "estab". *)
Lemma established_inv n o d st conns :
  node_inv n -> n_active n !! o = Some (Dialing st d) ->
  node_inv (set_active (set_reg n (set_state (n_reg n) st Stats.StreamStateEstablished)) (<[o := RelayTCP st conns]> (n_active n))).
Proof.
  intros [H1 H2 H3 H4] Ho.
  assert (Stats.streams (set_state (n_reg n) st Stats.StreamStateEstablished) = Stats.streams (n_reg n)) as Es by by destruct st.
  split; simpl; rewrite ?Es.
  - intros p Hp. destruct (H1 p Hp) as (o' & rl & Ho' & Hr). destruct (decide (o = o')) as [<-|Hne].
    + exists o, (RelayTCP st conns). rewrite lookup_insert_eq. simplify_eq. by split.
    + exists o', rl. by rewrite lookup_insert_ne.
  - intros o' rl p [[<- <-]|[Hne Ho']]%lookup_insert_Some Hr; simpl in *.
    + subst st. destruct (H2 o _ p Ho eq_refl) as (Hin & s & Hs & _). split; [done|]. simpl.
      exists (Stats.SetState Stats.StreamStateEstablished s). by rewrite list_lookup_alter, decide_True, Hs.
    + destruct (H2 o' rl p Ho' Hr) as (Hin & s & Hs & Hst). split; [done|]. exists s. split; [|done].
      destruct st as [q|]; simpl; [|done]. rewrite list_lookup_alter_ne; [done|]. intros ->. apply Hne.
      by eapply H3; [exact Ho|exact Ho'| |].
  - intros o1 o2 rl1 rl2 p [[<- <-]|[_ O1]]%lookup_insert_Some [[<- <-]|[_ O2]]%lookup_insert_Some R1 R2; simpl in *; try done.
    + by eapply H3; [exact Ho|exact O2| |].
    + by eapply H3; [exact O1|exact Ho| |].
    + by eapply H3.
  - intros o' rl [[<- <-]|[_ Ho']]%lookup_insert_Some Hr Hs; simpl in *; [|eauto]. subst st. by destruct (H4 o _ Ho eq_refl Hs).
Qed.

(** A change of the session alone. *)
Lemma session_inv n s : node_inv n -> node_inv (set_ses n s).
Proof. by apply node_inv_ext. Qed.

Lemma begin_inv n o id conn d u now :
  node_inv n -> n_active n !! o = Some Requesting -> node_inv (begin_stream n o id conn d u now).
Proof.
  intros Hn Ho. destruct d as [d|]; [|by eapply leave_plain_inv]. unfold begin_stream. destruct (isUoT d).
  - unfold proxyOutboundUoT. destruct (_ && _); [by eapply leave_plain_inv|].
    destruct (Session.HandshakeSuccess ent _ o) as [s [e|]].
    + eapply (leave_plain_inv (set_ses n s)); [by apply session_inv|done|done].
    + apply (enter_plain_inv (set_ses n s)); [by apply session_inv| |done|by left]. simpl. intros rl0. rewrite Ho. by intros [= <-].
  - set (n' := set_ses n (Session.update_obj (n_ses n) o count_identity)).
    assert (node_inv n') as Hn' by by apply session_inv.
    destruct has_stats eqn:Est.
    + destruct (trace (n_reg n') id conn d now) as [r st] eqn:Et.
      eapply node_inv_ext; [| | |exact (enter_tcp_inv n' o id conn d now r st Hn' Ho Et)]; done.
    + eapply node_inv_ext; [| | |apply (enter_plain_inv n' o (Dialing None d) Hn')]; try done; [|by rewrite Est].
      simpl. intros rl0. rewrite Ho. by intros [= <-].
Qed.

Lemma dial_inv n o fa : node_inv n -> node_inv (dial_stream n o fa).
Proof.
  intros Hn. unfold dial_stream. destruct (n_active n !! o) as [[|st d|st conns|]|] eqn:Ho; try done.
  destruct (proxyOutboundTCP n o d st fa) as [n' res] eqn:Ep. apply proxy_parts in Ep as [Ea Er]. destruct res as [conns|].
  - eapply node_inv_ext; [| | |exact (established_inv n o d st conns Hn Ho)]; simpl; by rewrite ?Er, ?Ea.
  - eapply node_inv_ext; [| | |exact (leave_inv n o (Dialing st d) st Hn Ho eq_refl)]; simpl; by rewrite ?Er, ?Ea.
Qed.

Lemma node_exec_inv n op : node_inv n -> node_inv (node_exec n op).
Proof.
  intros Hn. destruct op as [o now|o id conn d u now|o fa|o|s|r]; cbn [node_exec].
  - destruct (n_active n !! o) eqn:Ho; [done|].
    apply (enter_plain_inv (read_deadline n o _ now)); [by apply session_inv| |done|by right]. simpl. by rewrite Ho.
  - destruct (n_active n !! o) as [[| | |]|] eqn:Ho; try done. by apply begin_inv.
  - by apply dial_inv.
  - unfold end_stream. destruct (n_active n !! o) as [[|st d|st conns|]|] eqn:Ho; try done.
    + by eapply leave_inv.
    + by eapply leave_plain_inv.
  - by apply session_inv.
  - by eapply node_inv_ext; [| | |exact Hn].
Qed.

Lemma node_run_inv n ops : node_inv n -> node_inv (node_run n ops).
Proof. revert n. induction ops as [|op ops IH]; intros n Hn; [done|]. apply IH. by apply node_exec_inv. Qed.

Lemma new_node_inv s w : node_inv (new_node s w).
Proof. split; simpl; try (intros *; rewrite lookup_empty; done). intros p Hp. set_solver. Qed.

(** The handler of [rl] serves a TCP stream, which it dials for or relays. *)
Definition is_tcp (rl : relay) : bool := match rl with Dialing _ _ | RelayTCP _ _ => true | Requesting | RelayUDP => false end.

(** What the statistics say of a handler: the entry of its record. *)
Definition entry_of (n : node) (rl : relay) : option Stats.StreamEntry :=
  if is_tcp rl then p ← record_of rl; Stats.entry <$> Stats.sstats (n_reg n) !! p else None.

(** The records of the handlers are all different. *)
Lemma records_nodup n : node_inv n -> NoDup (omap (fun kv => record_of kv.2) (map_to_list (n_active n))).
Proof.
  intros [_ _ H3 _]. assert (forall o rl, (o, rl) ∈ map_to_list (n_active n) -> n_active n !! o = Some rl) as Hin
    by (intros o rl; apply elem_of_map_to_list).
  pose proof (NoDup_fst_map_to_list (n_active n)) as Hnd. revert Hin Hnd. generalize (map_to_list (n_active n)) as l.
  induction l as [|[o rl] l IH]; intros Hin Hnd; [constructor|]. cbn [fmap list_fmap fst] in Hnd. apply NoDup_cons in Hnd as [Hn Hnd].
  assert (NoDup (omap (fun kv => record_of kv.2) l)) as Hl by (apply IH; [intros o' rl' H'; apply Hin; by right|done]).
  cbn [omap list_omap snd]. destruct (record_of rl) as [p|] eqn:Hr; [|done]. apply NoDup_cons. split; [|done].
  intros ([o' rl'] & Hx & Hp)%list_elem_of_omap. apply Hn. apply list_elem_of_fmap. exists (o', rl'). split; [|done]. simpl.
  apply (H3 o o' rl rl' p); [apply Hin; by left|apply Hin; by right|done|done].
Qed.

Lemma records_listed n :
  node_inv n -> elements (Stats.streams (n_reg n)) ≡ₚ omap (fun kv => record_of kv.2) (map_to_list (n_active n)).
Proof.
  intros Hn. pose proof (records_nodup n Hn) as Hnd. destruct Hn as [H1 H2 _ _]. apply NoDup_Permutation; [apply NoDup_elements|done|].
  intros p. rewrite elem_of_elements, list_elem_of_omap. split.
  - intros (o & rl & Ho & Hr)%H1. exists (o, rl). split; [by apply elem_of_map_to_list|done].
  - intros ([o rl] & Ho%elem_of_map_to_list & Hr). by apply (H2 o rl p).
Qed.

(** C32.  The stream list is exact: on a server with statistics, whatever streams start, dial, are relayed and end, every TCP stream
    now served has an entry in /dump/streams, in the state "connect" while it is dialed for and "estab" while it is
    relayed, no two streams share a record, and the list has exactly these entries, one for each: UDP streams and
    streams that ended are not listed. *)
Theorem dump_lists_served s w ops :
  has_stats = true ->
  let n := node_run (new_node s w) ops in
  (forall o rl, n_active n !! o = Some rl -> is_tcp rl = true ->
    exists entry, entry_of n rl = Some entry /\ Stats.State entry = Stats.StreamState_String (shown_as rl) /\
      forall o' rl', n_active n !! o' = Some rl' -> record_of rl' = record_of rl -> o' = o) /\
  Stats.DumpStreams (n_reg n) ≡ₚ omap (fun kv => entry_of n kv.2) (map_to_list (n_active n)).
Proof.
  intros Hst n. pose proof (node_run_inv _ ops (new_node_inv s w)) as Hn. fold n in Hn. split.
  - intros o rl Ho Ht. destruct Hn as [H1 H2 H3 H4]. unfold entry_of. rewrite Ht. destruct (record_of rl) as [p|] eqn:Hr.
    + destruct (H2 o rl p Ho Hr) as (_ & st & Hs & Hsh). exists (Stats.entry st). simpl. rewrite Hs. split_and!; [done|by rewrite <- Hsh|].
      intros o' rl' Ho' Hr'. by apply (H3 o' o rl' rl p).
    + by destruct (H4 o rl Ho Hr Hst) as [-> | ->].
  - unfold Stats.DumpStreams. rewrite merge_sort_Permutation, (records_listed n Hn).
    assert (forall l : list (nat * relay), omap (fun p => Stats.entry <$> Stats.sstats (n_reg n) !! p) (omap (fun kv => record_of kv.2) l) =
      omap (fun kv => entry_of n kv.2) l) as ->; [|done].
    induction l as [|[o rl] l IH]; [done|]. cbn [omap list_omap snd]. unfold entry_of at 1.
    destruct rl as [|[p|] d|[p|] conns|]; simpl; try exact IH;
      (destruct (Stats.sstats (n_reg n) !! p); simpl; [f_equal|]; exact IH).
Qed.

(** ** A leak *)

(** When the report of success cannot be written, the connection that was dialed is neither
    relayed nor closed. *)
Theorem success_report_leak n o d st fa r led conns s err :
  route_found fa d = inr r ->
  Outbound.DialTCP ClientHandshake5 proxies (rt_outbound r) (dial_io fa) (n_led n) (rt_target r) = (led, inr conns) ->
  Session.HandshakeSuccess ent (n_ses n) o = (s, Some err) ->
  exists n', proxyOutboundTCP n o d st fa = (n', None) /\ n_led n' = led.
Proof. intros Hr Hd Hs. unfold proxyOutboundTCP. rewrite Hr, Hd. simpl. rewrite Hs. by eexists. Qed.

End handler.
(** ** Examples *)

Definition sample_handshake5 (command : Z) (d : Socksaddr) (user pass : string) : Outbound.Response * bool :=
  (Outbound.MkResponse 5 (SockIP [] 0), false).

(** A server session of a client of version 2 with one open stream. *)
Definition sample_session : Session.Session PlainConn :=
  Session.exec_all Session.sample_ent Session.sample_md5 false Session.sample_server
    [Session.OpArrive Session.sample_input; Session.OpRecv; Session.OpRecv; Session.OpRecv; Session.OpRecv; Session.OpRecv].

Definition sample_node : node := new_node sample_session (Outbound.MkLedger 0%nat [] []).

(** A SOCKS5 proxy that refuses the destination, and a direct dial that fails. *)
Definition refused : facts := MkFacts (fun d => inr (MkRoute (SOCKS5 0) d)) (Outbound.MkIO true [x0a; x00; x00; x01] true true true false).
Definition unreachable : facts := MkFacts (fun d => inr (MkRoute (Direct 0) d)) (Outbound.MkIO false [] true true true false).

Abbreviation sample_tcp :=
  (proxyOutboundTCP Session.sample_ent sample_handshake5 (fun _ => Outbound.MkSOCKS5 "10.0.0.1:1080" "" "")).

(** Both clients read the same bytes, a SYNACK with the text "dial failed". *)
Lemma client_learns_class_witness :
  n_ses (sample_tcp sample_node 0 (SockFqdn "a.example" 80) None refused).1 =
    n_ses (sample_tcp sample_node 0 (SockIP [x08; x08; x08; x08] 443) None unreachable).1 /\
  conn_wire (WriteConn.w_conn (Session.w (n_ses (sample_tcp sample_node 0 (SockFqdn "a.example" 80) None refused).1))) =
    conn_wire (WriteConn.w_conn (Session.w sample_session)) ++ Frame.encode (Frame.Frame Frame.cmdSYNACK 1 (to_bytes "dial failed")).
Proof.
  split; [|vm_compute; reflexivity].
  apply (client_learns_class Session.sample_ent sample_handshake5 (fun _ => Outbound.MkSOCKS5 "10.0.0.1:1080" "" "")
    sample_node sample_node 0 (SockFqdn "a.example" 80) (SockIP [x08; x08; x08; x08] 443) None None refused unreachable);
    [reflexivity|vm_compute; reflexivity].
Defined.

(** Two streams, one that is dialed for and one that is relayed: both are listed. *)
Definition sample_served : node :=
  node_run Session.sample_ent "m" "l" (fun _ => "") sample_handshake5 (fun _ => Outbound.MkSOCKS5 "" "" "") true sample_node
    [StartStream 0 0; StartStream 1 0; RequestRead 0 "u" 0 (Some (SockIP [x08; x08; x08; x08] 80)) false 0;
     RequestRead 1 "u" 0 (Some (SockIP [x08; x08; x04; x04] 80)) false 0;
     DialStream 0 (MkFacts (fun d => inr (MkRoute (Direct 0) d)) (Outbound.MkIO true [] true true true false))].

Lemma dump_lists_served_witness :
  map Stats.State (Stats.DumpStreams (n_reg sample_served)) = ["connect"; "estab"] /\
  Stats.DumpStreams (n_reg sample_served) ≡ₚ omap (fun kv => entry_of sample_served kv.2) (map_to_list (n_active sample_served)).
Proof.
  split; [vm_compute; reflexivity|].
  apply (dump_lists_served Session.sample_ent "m" "l" (fun _ => "") sample_handshake5 (fun _ => Outbound.MkSOCKS5 "" "" "") true
    sample_session (Outbound.MkLedger 0%nat [] [])). reflexivity.
Defined.

(** The connection to the client breaks while the server dials: one connection was opened,
    none is closed, and the handler has left. *)
Example leaked_connection :
  let broken := Session.set_w sample_session (WriteConn.set_conn (Session.w sample_session) (plain_close (WriteConn.w_conn (Session.w sample_session)))) in
  let fa := MkFacts (fun d => inr (MkRoute (Direct 0) d)) (Outbound.MkIO true [] true true true false) in
  let n := node_run Session.sample_ent "m" "l" (fun _ => "") sample_handshake5 (fun _ => Outbound.MkSOCKS5 "" "" "") true
    (new_node broken (Outbound.MkLedger 0%nat [] []))
    [StartStream 0 0; RequestRead 0 "u" 0 (Some (SockIP [x08; x08; x08; x08] 80)) false 0; DialStream 0 fa] in
  n_active n = ∅ /\ Outbound.opened (n_led n) = 1%nat /\ Outbound.closed (n_led n) = [].
Proof. vm_compute. done. Qed.

End Handler.
