(* ===== verification/Client.v ===== *)
(** * Client: the command line, links and TLS settings of the client
      (cmd/client/main.go)

    [client_config] is [main] up to the listener: the flags and an [anytls://] link give
    the server's address, the password and the TLS settings, or the program ends
    with an error.  [url.Parse] is a parameter that yields the decoded parts of a link;
    printing the user part again, which the program does, is modelled. *)

From S2P Require Import Prelude GoStrings.
#[local] Open Scope string_scope.
#[local] Open Scope list_scope.
#[local] Open Scope Z_scope.

Module Client.

(** ** Links *)

(** [url.URL]: the user information is decoded. *)
Record URL := MkURL {
  u_Scheme : string;
  u_Host : string;
  u_User : option (string * option string);
  u_Query : gmap string (list string)
}.

(** [Query().Get(key)] *)
Definition query_Get (u : URL) (key : string) : string :=
  match u_Query u !! key with Some (v :: _) => v | _ => "" end.

(** [shouldEscape] for user names and passwords. *)
Definition unreserved (a : ascii) : bool :=
  let n := Z.of_nat (nat_of_ascii a) in
  ((48 <=? n) && (n <=? 57)) || ((65 <=? n) && (n <=? 90)) || ((97 <=? n) && (n <=? 122)) ||
  existsb (Ascii.eqb a) ["-"; "_"; "."; "~"; "$"; "&"; "+"; ","; ";"; "="]%char.

Definition upper_hex (n : Z) : ascii := ascii_of_nat (Z.to_nat (if n <? 10 then 48 + n else 55 + n)).

Fixpoint escape_user (s : string) : string :=
  match s with
  | EmptyString => ""
  | String a r =>
      if unreserved a then String a (escape_user r)
      else let n := Z.of_nat (nat_of_ascii a) in
           String "%" (String (upper_hex (n / 16)) (String (upper_hex (n mod 16)) (escape_user r)))
  end.

(** [Userinfo.String()] *)
Definition Userinfo_String (u : string * option string) : string :=
  match u.2 with
  | None => escape_user u.1
  | Some p => escape_user u.1 +:+ ":" +:+ escape_user p
  end.

(** ** The command line *)

Record flags := MkFlags { f_s : string; f_sni : string; f_p : string; f_insecure : bool }.

Section client.
Variable url_Parse : string -> option URL.

(** The part of [main] that reads a link. *)
Definition apply_link (f : flags) : flags :=
  match url_Parse (f_s f) with
  | Some u =>
      if String.eqb (u_Scheme u) "anytls" then
        MkFlags (u_Host u) (query_Get u "sni")
          (match u_User u with Some user => Userinfo_String user | None => f_p f end)
          (f_insecure f || String.eqb (query_Get u "insecure") "1")
      else f
  | None => f
  end.

(** [tls.Config], as far as the client sets it. *)
Record tlsConfig := MkTLS { ServerName : string; InsecureSkipVerify : bool }.

Definition newTLSConfig (serverAddr sni : string) (insecure : bool) : tlsConfig :=
  if insecure then MkTLS (if String.eqb sni "" then "127.0.0.1" else sni) true
  else MkTLS (if String.eqb sni "" then match SplitHostPort serverAddr with Some (h, _) => h | None => "" end else sni) false.

Inductive client_error := errNoServer | errNoPassword | errServerAddress (addr : string).

(** The settings the client runs with. *)
Record settings := MkSettings { s_addr : string; s_password : string; s_tls : tlsConfig }.

Definition client_config (f : flags) : client_error + settings :=
  let f := apply_link f in
  if String.eqb (f_s f) "" then inl errNoServer
  else if String.eqb (f_p f) "" then inl errNoPassword
  else
    match SplitHostPort (f_s f) with
    | None => inl (errServerAddress (f_s f))
    | Some _ => inr (MkSettings (f_s f) (f_p f) (newTLSConfig (f_s f) (f_sni f) (f_insecure f)))
    end.

(** ** Verification *)

(** The user asked not to verify the server. *)
Definition asks_insecure (f : flags) : bool :=
  f_insecure f ||
  match url_Parse (f_s f) with
  | Some u => String.eqb (u_Scheme u) "anytls" && String.eqb (query_Get u "insecure") "1"
  | None => false
  end.

(** The client verifies the server unless it is told not to: with settings it
    accepts, verification is off only if the flag or the link says so, and when it is
    on the name it verifies is the one given, or the host it dials.  Without
    verification and without a name, none is sent.  The password is never empty. *)
Theorem client_verifies f s :
  client_config f = inr s ->
  s_password s <> "" /\
  InsecureSkipVerify (s_tls s) = asks_insecure f /\
  (InsecureSkipVerify (s_tls s) = false ->
     ServerName (s_tls s) = f_sni (apply_link f) \/
     (f_sni (apply_link f) = "" /\ exists port, SplitHostPort (s_addr s) = Some (ServerName (s_tls s), port))) /\
  (InsecureSkipVerify (s_tls s) = true -> f_sni (apply_link f) = "" -> ServerName (s_tls s) = "127.0.0.1").
Proof.
  unfold client_config. intros H. assert (f_insecure (apply_link f) = asks_insecure f) as <-.
  { unfold asks_insecure, apply_link. destruct (url_Parse (f_s f)) as [u|]; simpl; [|by rewrite orb_false_r].
    destruct (String.eqb (u_Scheme u) "anytls"); simpl; [done|]. by rewrite orb_false_r. }
  set (g := apply_link f) in *. clearbody g. destruct (String.eqb (f_s g) ""); [done|].
  destruct (String.eqb_spec (f_p g) "") as [|Hp]; [done|]. destruct (SplitHostPort (f_s g)) as [[h port]|] eqn:Es; [|done].
  injection H as <-. unfold newTLSConfig. simpl. destruct (f_insecure g); simpl; (split; [done|]); (split; [done|]).
  - split; [done|]. by intros _ ->.
  - split; [|done]. intros _. destruct (String.eqb_spec (f_sni g) "") as [E|E]; [|by left].
    right. split; [done|]. rewrite Es. by exists port.
Qed.

End client.

(** ** Links as the documentation has them *)

(** A password without special characters is taken from a link as it is. *)
Fixpoint all_unreserved (s : string) : bool :=
  match s with EmptyString => true | String a r => unreserved a && all_unreserved r end.

Lemma escape_unreserved s : all_unreserved s = true -> escape_user s = s.
Proof. induction s as [|a s IH]; [done|]. simpl. intros [-> H]%andb_true_iff. by rewrite IH. Qed.

(** The link of the documentation, decoded. *)
Definition sample_link (password : string) (host : string) : URL := MkURL "anytls" host (Some (password, None)) {["insecure" := ["1"]]}.

Lemma client_verifies_witness :
  let parse s := if String.eqb s "link" then Some (sample_link "letmein" "example.com:8443") else None in
  client_config parse (MkFlags "link" "" "" false) = inr (MkSettings "example.com:8443" "letmein" (MkTLS "127.0.0.1" true)) /\
  asks_insecure parse (MkFlags "link" "" "" false) = true.
Proof.
  intros parse. split; [reflexivity|].
  destruct (client_verifies parse (MkFlags "link" "" "" false) (MkSettings "example.com:8443" "letmein" (MkTLS "127.0.0.1" true)) eq_refl)
    as (_ & H & _). symmetry. exact H.
Defined.

(** A password with a special character, percent-encoded in the link as the
    documentation asks, is not the password that the client uses: it is encoded again. *)
Theorem link_password_encoded :
  let parse s := if String.eqb s "anytls://p%40ss@example.com:443/" then Some (sample_link "p@ss" "example.com:443") else None in
  client_config parse (MkFlags "anytls://p%40ss@example.com:443/" "" "" false) =
    inr (MkSettings "example.com:443" "p%40ss" (MkTLS "127.0.0.1" true)).
Proof. reflexivity. Qed.

(** A link without a port, which the documentation says means port 443, is refused. *)
Theorem link_default_port_refused :
  let parse s := if String.eqb s "anytls://letmein@example.com/" then Some (sample_link "letmein" "example.com") else None in
  client_config parse (MkFlags "anytls://letmein@example.com/" "" "" false) = inl (errServerAddress "example.com").
Proof. reflexivity. Qed.

End Client.
