(* ===== verification/Connections.v ===== *)
(** * Connections: the connections of the server in both registries
      (handleTcpConnection of cmd/server/inbound_tcp.go, after the first packet)

    Once a client is admitted, its connection takes a reference to its device in the
    statistics and one in the limiter, attaches its session to the user, runs the
    session, and gives everything back in the reverse order with deferred calls.  Each of
    these calls is a step of its own here, so the steps of all connections
    interleave, also with counting, reports, and streams.  The theorem says what the
    registries of Stats.v and Limiter.v then know: exactly the open connections. *)

From S2P Require Import Prelude GoStrings NetConn RefTable Limiter Stats.
From stdpp Require Import gmultiset.
#[local] Open Scope string_scope.
#[local] Open Scope list_scope.
#[local] Open Scope Z_scope.
#[local] Set Warnings "-clear-no-such-hyp".

Module Connections.

(** ** The connection *)

(** Where [handleTcpConnection] stands. *)
Inductive stage :=
  | Welcome                        (** the first packet was accepted *)
  | Counted                         (** after [AcquireConn] *)
  | Limited                         (** after [Acquire] *)
  | Serving                         (** attached, in [sess.Run] *)
  | Detached                        (** the session is closed and detached *)
  | Unlimited.                      (** after the release of the device *)

#[export] Instance stage_eq_dec : EqDecision stage.
Proof. solve_decision. Defined.

(** A connection with its user, its remote address and the references it holds. *)
Record live := MkLive { v_id : string; v_addr : string; v_stage : stage; v_conn : option nat; v_dev : option nat }.

Definition key_of (v : live) : deviceKey := MkKey (v_id v) (hostOnly (v_addr v)).

Definition at_stage (x : stage) (v : live) : live := MkLive (v_id v) (v_addr v) x (v_conn v) (v_dev v).
Definition with_conn (c : option nat) (v : live) : live := MkLive (v_id v) (v_addr v) (v_stage v) c (v_dev v).
Definition with_dev (d : option nat) (v : live) : live := MkLive (v_id v) (v_addr v) (v_stage v) (v_conn v) d.

Section connections.
Context {L : Type} `{!RateLimiter L}.

(** [s.stats] and [s.limits], [None] for nil, and the connections. *)
Record state := MkState {
  s_stats : option Stats.Registry;
  s_limits : option (Limiter.Registry L);
  s_live : gmap nat live
}.

Definition put_live (s : state) (k : nat) (v : live) : state := MkState (s_stats s) (s_limits s) (<[k := v]> (s_live s)).
Definition put_stats (s : state) (r : Stats.Registry) : state := MkState (Some r) (s_limits s) (s_live s).
Definition put_limits (s : state) (r : Limiter.Registry L) : state := MkState (s_stats s) (Some r) (s_live s).

(** [conn = s.stats.AcquireConn(id, addr)]; without an unused number in [draws] it is still
    drawing. *)
Definition take_conn (s : state) (k : nat) (v : live) (draws : list Z) : state :=
  match s_stats s with
  | None => put_live s k (at_stage Counted v)
  | Some r =>
      match Stats.AcquireConn r (v_id v) (v_addr v) draws with
      | None => s
      | Some (r, c) => put_live (put_stats s r) k (at_stage Counted (with_conn (Some c) v))
      end
  end.

(** [dev := s.limits.Acquire(id, addr)] *)
Definition take_device (s : state) (k : nat) (v : live) : state :=
  match s_limits s with
  | None => put_live s k (at_stage Limited v)
  | Some r =>
      let '(r, d) := Limiter.Acquire r (v_id v) (v_addr v) in
      put_live (put_limits s r) k (at_stage Limited (with_dev (Some d) v))
  end.

(** [u := s.stats.Attach(id, addr, sess)]; the session of the connection [k] is [k]. *)
Definition attach (s : state) (k : nat) (v : live) (now : Z) : state :=
  match s_stats s with
  | None => put_live s k (at_stage Serving v)
  | Some r => put_live (put_stats s (Stats.Attach r (v_id v) (v_addr v) k now).1) k (at_stage Serving v)
  end.

(** The session ends: the deferred [Detach]. *)
Definition detach (s : state) (k : nat) (v : live) : state :=
  match s_stats s with
  | None => put_live s k (at_stage Detached v)
  | Some r => put_live (put_stats s (Stats.Detach r (v_id v) k)) k (at_stage Detached v)
  end.

(** The deferred [s.limits.Release(dev)] *)
Definition drop_device (s : state) (k : nat) (v : live) : state :=
  match s_limits s with
  | None => put_live s k (at_stage Unlimited v)
  | Some r => put_live (put_limits s (Limiter.Release r (v_dev v))) k (at_stage Unlimited (with_dev None v))
  end.

(** The deferred [s.stats.ReleaseConn(conn)]; the handler returns. *)
Definition drop_conn (s : state) (k : nat) (v : live) : state :=
  match s_stats s with
  | None => MkState None (s_limits s) (delete k (s_live s))
  | Some r => MkState (Some (Stats.ReleaseConn r (v_conn v))) (s_limits s) (delete k (s_live s))
  end.

(** The next call of the handler of [k]. *)
Definition handler_step (s : state) (k : nat) (draws : list Z) (now : Z) : state :=
  match s_live s !! k with
  | None => s
  | Some v =>
      match v_stage v with
      | Welcome => take_conn s k v draws
      | Counted => take_device s k v
      | Limited => attach s k v now
      | Serving => detach s k v
      | Detached => drop_device s k v
      | Unlimited => drop_conn s k v
      end
  end.

(** What streams, counters and reports do to the statistics meanwhile. *)
Inductive stats_op :=
  | CountTx (p : nat) (n : Z)
  | CountRx (p : nat) (n : Z)
  | Report
  | NextStream (c : nat)
  | Streams (traced : gset nat) (records : list Stats.StreamStats).

Definition stats_exec (r : Stats.Registry) (o : stats_op) : Stats.Registry :=
  match o with
  | CountTx p n => Stats.AddTx r p n
  | CountRx p n => Stats.AddRx r p n
  | Report => (Stats.Clear r).1
  | NextStream c => (Stats.NextStreamID r c).1
  | Streams x y => Stats.set_streams r x y
  end.

Inductive op :=
  | Arrive (k : nat) (id addr : string)
  | Handler (k : nat) (draws : list Z) (now : Z)
  | StatsDo (o : stats_op).

Definition exec (s : state) (o : op) : state :=
  match o with
  | Arrive k id addr => match s_live s !! k with None => put_live s k (MkLive id addr Welcome None None) | Some _ => s end
  | Handler k draws now => handler_step s k draws now
  | StatsDo o => match s_stats s with Some r => put_stats s (stats_exec r o) | None => s end
  end.

Definition start (has_stats : bool) (upBps downBps : Z) : state :=
  MkState (if has_stats then Some Stats.NewRegistry else None) (Limiter.NewRegistry upBps downBps) ∅.

(** ** References *)

(** The references the connections hold in one of the tables. *)
Definition held (f : live -> option nat) (m : gmap nat live) : gmultiset nat :=
  list_to_set_disj (map_to_list m ≫= (fun e => option_list (f e.2))).

Definition ref_set (o : option nat) : gmultiset nat := list_to_set_disj (option_list o).

Lemma ref_none : ref_set None = ∅.
Proof. done. Qed.

Lemma ref_some p : ref_set (Some p) = {[+ p +]}.
Proof. unfold ref_set. simpl. multiset_solver. Qed.

Lemma ref_minus p (X : gmultiset nat) : (ref_set (Some p) ⊎ X) ∖ {[+ p +]} = X.
Proof. rewrite ref_some. apply gmultiset_eq. intros x. rewrite multiplicity_difference, multiplicity_disj_union. lia. Qed.

Lemma refs_fresh f m k v : m !! k = None -> held f (<[k := v]> m) = ref_set (f v) ⊎ held f m.
Proof.
  intros Hk. unfold held. rewrite (map_to_list_insert m k v Hk). simpl. by rewrite list_to_set_disj_app.
Qed.

Lemma refs_delete f m k v : m !! k = Some v -> held f m = ref_set (f v) ⊎ held f (delete k m).
Proof. intros Hk. rewrite <- (insert_delete_id m k v Hk) at 1. apply refs_fresh. by rewrite lookup_delete_eq. Qed.

Lemma refs_update f m k v v' :
  m !! k = Some v -> ref_set (f v) ⊎ held f (<[k := v']> m) = ref_set (f v') ⊎ held f m.
Proof.
  intros Hk. rewrite (refs_delete f m k v Hk), <- (insert_delete_eq m k v'), refs_fresh by by rewrite lookup_delete_eq.
  multiset_solver.
Qed.

Lemma refs_elem f m p : p ∈ held f m <-> exists k v, m !! k = Some v /\ f v = Some p.
Proof.
  unfold held. rewrite elem_of_list_to_set_disj, list_elem_of_bind. split.
  - intros ([k v] & Hp & Hin). exists k, v. apply elem_of_map_to_list in Hin. split; [done|].
    simpl in Hp. destruct (f v); simpl in Hp; set_solver.
  - intros (k & v & Hk & Hf). exists (k, v). simpl. rewrite Hf. simpl. split; [set_solver|by apply elem_of_map_to_list].
Qed.

(** A table has exactly the references of the connections, under their keys. *)
Record tracks {P} (f : live -> option nat) (t : RefTable.table P) (m : gmap nat live) : Prop := {
  tr_ok : RefTable.table_ok t (held f m);
  tr_key k v p : m !! k = Some v -> f v = Some p -> exists e, RefTable.heap t !! p = Some e /\ RefTable.e_key e = key_of v
}.

(** Keys never change. *)
Definition keeps_keys {P} (t t' : RefTable.table P) : Prop :=
  forall p e, RefTable.heap t !! p = Some e -> exists e', RefTable.heap t' !! p = Some e' /\ RefTable.e_key e' = RefTable.e_key e.

Lemma acquire_keys {P} (t : RefTable.table P) held key fresh :
  RefTable.table_ok t held ->
  keeps_keys t (RefTable.acquire t key fresh).1 /\
  exists e, RefTable.heap (RefTable.acquire t key fresh).1 !! (RefTable.acquire t key fresh).2 = Some e /\ RefTable.e_key e = key.
Proof.
  intros Ht. unfold RefTable.acquire. destruct (RefTable.devices t !! key) as [q|] eqn:E; simpl.
  - split; [intros p e; apply RefTable.alter_key|]. destruct (RefTable.ok_devices _ _ Ht key q E) as (_ & e & He & <-).
    by apply RefTable.alter_key.
  - split; [|eexists; split; [by apply list_lookup_middle|done]]. intros p e He. exists e. split; [by apply lookup_app_l_Some|done].
Qed.

Lemma release_keys {P} (t : RefTable.table P) p : keeps_keys t (RefTable.release t p).
Proof.
  intros q e He. unfold RefTable.release. destruct (alter _ _ _ !! p); simpl; [by apply RefTable.alter_key|eauto].
Qed.

Lemma keeps_tracks {P} f (t t' : RefTable.table P) m m' :
  RefTable.table_ok t' (held f m') -> keeps_keys t t' ->
  (forall k v p, m' !! k = Some v -> f v = Some p ->
     (exists v0, m !! k = Some v0 /\ f v0 = Some p /\ key_of v0 = key_of v) \/
     exists e, RefTable.heap t' !! p = Some e /\ RefTable.e_key e = key_of v) ->
  tracks f t m -> tracks f t' m'.
Proof.
  intros Hok Hk Hm [_ H]. split; [done|]. intros k v p Hv Hp. destruct (Hm k v p Hv Hp) as [(v0 & H0 & Hf & Hkey)|He]; [|done].
  destruct (H k v0 p H0 Hf) as (e & He & Ek). destruct (Hk p e He) as (e' & He' & Ek'). exists e'. by rewrite Ek', Ek.
Qed.

Lemma refs_same f m k v v' : m !! k = Some v -> f v' = f v -> held f (<[k := v']> m) = held f m.
Proof. intros Hk E. pose proof (refs_update f m k v v' Hk) as H. rewrite E in H. multiset_solver. Qed.

(** A connection moves on and keeps its reference. *)
Lemma tracks_same {P} f (t : RefTable.table P) m k v v' :
  m !! k = Some v -> f v' = f v -> key_of v' = key_of v -> tracks f t m -> tracks f t (<[k := v']> m).
Proof.
  intros Hk Ef Ek Ht. eapply keeps_tracks; [| | |exact Ht].
  - rewrite (refs_same f m k v v' Hk Ef). apply Ht.
  - intros p e He. eauto.
  - intros k' v1 p [[<- <-]|[_ Hv]]%lookup_insert_Some Hp; left; [exists v; by rewrite <- Ef|eauto].
Qed.

Lemma tracks_arrive {P} f (t : RefTable.table P) m k v : m !! k = None -> f v = None -> tracks f t m -> tracks f t (<[k := v]> m).
Proof.
  intros Hk Ef Ht. eapply keeps_tracks; [| | |exact Ht].
  - rewrite (refs_fresh f m k v Hk), Ef, ref_none, (left_id_L ∅ (⊎)). apply Ht.
  - intros p e He. eauto.
  - intros k' v1 p [[<- <-]|[_ Hv]]%lookup_insert_Some Hp; [congruence|]. left. eauto.
Qed.

Lemma tracks_acquire {P} f (t : RefTable.table P) m k v v' fresh :
  m !! k = Some v -> f v = None -> f v' = Some (RefTable.acquire t (key_of v) fresh).2 -> key_of v' = key_of v ->
  tracks f t m -> tracks f (RefTable.acquire t (key_of v) fresh).1 (<[k := v']> m).
Proof.
  intros Hk Ef Ef' Ek Ht. pose proof (tr_ok _ _ _ Ht) as Hok. destruct (acquire_keys t _ (key_of v) fresh Hok) as [H1 H2].
  eapply keeps_tracks; [|exact H1| |exact Ht].
  - pose proof (refs_update f m k v v' Hk) as H. rewrite Ef, Ef', ref_none, ref_some in H.
    replace (held f (<[k := v']> m)) with (held f m ⊎ {[+ (RefTable.acquire t (key_of v) fresh).2 +]}) by multiset_solver.
    eapply RefTable.acquire_ok; [done|apply surjective_pairing].
  - intros k' v1 p [[<- <-]|[_ Hv]]%lookup_insert_Some Hp; [|left; eauto]. right. rewrite Ef' in Hp. injection Hp as <-. by rewrite Ek.
Qed.

(** A connection gives its reference back, and stays or leaves. *)
Lemma tracks_release {P} f (t : RefTable.table P) m m' k v p :
  m !! k = Some v -> f v = Some p -> (m' = delete k m \/ exists v', m' = <[k := v']> m /\ f v' = None) ->
  tracks f t m -> tracks f (RefTable.release t p) m'.
Proof.
  intros Hk Ef Hm Ht. assert (p ∈ held f m) as Hp by (apply refs_elem; eauto).
  eapply keeps_tracks; [|apply release_keys| |exact Ht].
  - replace (held f m') with (held f m ∖ {[+ p +]}); [by apply RefTable.release_ok; [apply Ht|]|].
    destruct Hm as [->|(v' & -> & Ef')].
    + by rewrite (refs_delete f m k v Hk), Ef, ref_minus.
    + pose proof (refs_update f m k v v' Hk) as H. rewrite Ef, Ef', ref_none, (left_id_L ∅ (⊎)) in H. by rewrite <- H, ref_minus.
  - intros k' v1 q Hv Hq. left. exists v1. split; [|done].
    destruct Hm as [->|(v' & -> & Ef')]; [apply lookup_delete_Some in Hv as [_ Hv]; done|].
    apply lookup_insert_Some in Hv as [[<- <-]|[_ Hv]]; [congruence|done].
Qed.

(** A device is known exactly while a connection of it has a reference. *)
Lemma tracks_known {P} f (t : RefTable.table P) m key :
  tracks f t m -> is_Some (RefTable.devices t !! key) <-> exists k v, m !! k = Some v /\ is_Some (f v) /\ key_of v = key.
Proof.
  intros [Hok Hkey]. split.
  - intros [p Hp]. destruct (RefTable.ok_devices _ _ Hok key p Hp) as (Hin & e & He & Ek). apply refs_elem in Hin as (k & v & Hk & Hf).
    exists k, v. split_and!; [done|by eexists|]. destruct (Hkey k v p Hk Hf) as (e' & He' & <-). congruence.
  - intros (k & v & Hk & [p Hf] & <-). destruct (Hkey k v p Hk Hf) as (e & He & <-).
    destruct (RefTable.ok_held _ _ Hok p) as (e' & He' & Hd); [apply refs_elem; eauto|]. exists p. congruence.
Qed.

(** ** Sessions *)

(** The session [k] is listed for the user [id] with the remote address [rem]. *)
Definition sess (us : list Stats.UserStat) (k : nat) (id rem : string) : Prop :=
  exists p u info, us !! p = Some u /\ Stats.u_ID u = id /\ Stats.u_sessions u !! k = Some info /\ Stats.remote info = rem.

Lemma sess_alter_same us p f k id rem :
  (forall u, Stats.u_ID (f u) = Stats.u_ID u /\ Stats.u_sessions (f u) = Stats.u_sessions u) ->
  sess (alter f p us) k id rem <-> sess us k id rem.
Proof.
  intros Hf. split; intros (q & u & info & Hq & Hid & Hs & Hr).
  - rewrite list_lookup_alter in Hq. case_decide; [subst q|by exists q, u, info].
    apply fmap_Some in Hq as (u0 & Hu0 & ->). destruct (Hf u0) as [E1 E2]. rewrite E1 in Hid. rewrite E2 in Hs. by exists p, u0, info.
  - destruct (decide (p = q)) as [->|Hne].
    + destruct (Hf u) as [E1 E2]. exists q, (f u), info. by rewrite list_lookup_alter, decide_True, Hq, E1, E2.
    + exists q, u, info. by rewrite list_lookup_alter, decide_False.
Qed.

Lemma sess_Clear r k id rem : sess (Stats.ustats (Stats.Clear r).1) k id rem <-> sess (Stats.ustats r) k id rem.
Proof.
  unfold Stats.Clear. generalize (map_to_list (Stats.users r)), (∅ : gmap string Stats.TrafficEntry). intros l.
  revert r. induction l as [|[i p] l IH]; intros r out; [done|]. cbn [foldl].
  destruct (Stats.clear_user (r, out) (i, p)) as [r1 out1] eqn:E. rewrite IH. unfold Stats.clear_user in E.
  destruct (Stats.ustats r !! p); [|by simplify_eq]. case_decide; simplify_eq; simpl; by apply sess_alter_same.
Qed.

Lemma conns_Attach r id rem k now : Stats.conns (Stats.Attach r id rem k now).1 = Stats.conns r.
Proof. unfold Stats.Attach. by destruct (Stats.users r !! id). Qed.

Lemma conns_Detach r id k : Stats.conns (Stats.Detach r id k) = Stats.conns r.
Proof. unfold Stats.Detach. by destruct (Stats.users r !! id). Qed.

Lemma conns_Clear r : Stats.conns (Stats.Clear r).1 = Stats.conns r.
Proof.
  unfold Stats.Clear. generalize (map_to_list (Stats.users r)), (∅ : gmap string Stats.TrafficEntry). intros l.
  revert r. induction l as [|[i p] l IH]; intros r out; [done|]. cbn [foldl].
  destruct (Stats.clear_user (r, out) (i, p)) as [r1 out1] eqn:E. rewrite IH. unfold Stats.clear_user in E.
  destruct (Stats.ustats r !! p); [|by simplify_eq]. by case_decide; simplify_eq.
Qed.

Lemma sess_new us id0 k id rem : sess (us ++ [Stats.MkUser id0 0 0 ∅]) k id rem <-> sess us k id rem.
Proof.
  split; intros (q & u & info & Hq & Hid & Hs & Hr).
  - apply lookup_app_Some in Hq as [Hq|[_ Hq]]; [by exists q, u, info|].
    apply list_lookup_singleton_Some in Hq as [_ <-]. simpl in Hs. by rewrite lookup_empty in Hs.
  - exists q, u, info. split; [by apply lookup_app_l_Some|done].
Qed.

Lemma sess_attach us p u0 k0 info0 k id rem :
  us !! p = Some u0 -> (forall i r, ~ sess us k0 i r) ->
  sess (alter (Stats.attach_session k0 info0) p us) k id rem <->
  sess us k id rem \/ (k = k0 /\ id = Stats.u_ID u0 /\ rem = Stats.remote info0).
Proof.
  intros Hp Hnew. split.
  - intros (q & u & info & Hq & Hid & Hs & Hr). rewrite list_lookup_alter in Hq. case_decide; [subst q|left; by exists q, u, info].
    rewrite Hp in Hq. simpl in Hq. injection Hq as <-. simpl in *. apply lookup_insert_Some in Hs as [[<- <-]|[_ Hs]]; [by right|].
    left. by exists p, u0, info.
  - intros [(q & u & info & Hq & Hid & Hs & Hr)|(-> & -> & ->)].
    + destruct (decide (p = q)) as [->|Hne]; [|exists q, u, info; by rewrite list_lookup_alter, decide_False].
      exists q, (Stats.attach_session k0 info0 u), info. rewrite list_lookup_alter, decide_True, Hq by done. split_and!; try done.
      simpl. rewrite lookup_insert_ne; [done|]. intros ->. apply (Hnew id rem). by exists q, u, info.
    + exists p, (Stats.attach_session k0 info0 u0), info0. rewrite list_lookup_alter, decide_True, Hp by done. split_and!; try done.
      simpl. by rewrite lookup_insert_eq.
Qed.

Lemma sess_detach us p k0 k id rem :
  (forall q u, us !! q = Some u -> is_Some (Stats.u_sessions u !! k0) -> q = p) ->
  sess (alter (Stats.detach_session k0) p us) k id rem <-> sess us k id rem /\ k <> k0.
Proof.
  intros Hone. split.
  - intros (q & u & info & Hq & Hid & Hs & Hr). rewrite list_lookup_alter in Hq. case_decide as Ep.
    + subst q. apply fmap_Some in Hq as (u0 & Hu0 & ->). simpl in *. apply lookup_delete_Some in Hs as [Hne Hs].
      split; [by exists p, u0, info|congruence].
    + split; [by exists q, u, info|]. intros ->. apply Ep. symmetry. by eapply Hone.
  - intros [(q & u & info & Hq & Hid & Hs & Hr) Hne]. destruct (decide (p = q)) as [->|Hpq].
    + exists q, (Stats.detach_session k0 u), info. rewrite list_lookup_alter, decide_True, Hq by done. split_and!; try done.
      simpl. by rewrite lookup_delete_ne.
    + exists q, u, info. by rewrite list_lookup_alter, decide_False.
Qed.

Lemma self_balanced r : Stats.balanced r (fun id => Stats.plus Stats.no_traffic (Stats.current r id)) (fun _ => Stats.no_traffic).
Proof. intros id. by split. Qed.

(** *** The invariant *)

Definition holds_device (x : stage) : bool := match x with Limited | Serving | Detached => true | _ => false end.

(** The sessions listed are those of the connections that are served. *)
Definition lists (r : Stats.Registry) (m : gmap nat live) : Prop :=
  Stats.reg_ok r /\
  forall k id rem, sess (Stats.ustats r) k id rem <-> exists v, m !! k = Some v /\ v_stage v = Serving /\ v_id v = id /\ v_addr v = rem.

Record inv (s : state) : Prop := {
  i_lists r : s_stats s = Some r -> lists r (s_live s);
  i_conn r : s_stats s = Some r -> tracks v_conn (Stats.conns r) (s_live s);
  i_dev r : s_limits s = Some r -> tracks v_dev (Limiter.table r) (s_live s);
  i_stage k v : s_live s !! k = Some v ->
    (is_Some (v_conn v) <-> is_Some (s_stats s) /\ v_stage v <> Welcome) /\
    (is_Some (v_dev v) <-> is_Some (s_limits s) /\ holds_device (v_stage v) = true)
}.

(** A connection changes between two stages that are not served. *)
Lemma lists_other r m m' k :
  (forall v, m !! k = Some v -> v_stage v <> Serving) -> (forall v, m' !! k = Some v -> v_stage v <> Serving) ->
  (forall k', k' <> k -> m' !! k' = m !! k') -> lists r m -> lists r m'.
Proof.
  intros H1 H2 Hne [Hr H]. split; [done|]. intros k' id rem. rewrite H.
  destruct (decide (k' = k)) as [->|Hk]; [|by rewrite Hne]. split; intros (v & Hv & Hs & _); exfalso; [by eapply H1|by eapply H2].
Qed.

(** Only the users matter. *)
Lemma lists_users r r' m :
  Stats.users r' = Stats.users r -> Stats.ustats r' = Stats.ustats r -> lists r m -> lists r' m.
Proof. intros E1 E2 [[R1 R2] H]. split; [split; rewrite E1, E2; done|]. by rewrite E2. Qed.

Lemma lists_attach r m k v now :
  m !! k = Some v -> v_stage v <> Serving -> lists r m ->
  lists (Stats.Attach r (v_id v) (v_addr v) k now).1 (<[k := at_stage Serving v]> m).
Proof.
  intros Hk Hst [Hr H]. split; [apply (Stats.Attach_ok r (v_id v) (v_addr v) k now _ _ Hr (self_balanced r))|].
  assert (forall i x, ~ sess (Stats.ustats r) k i x) as Hnew.
  { intros i x Hs. apply H in Hs as (v0 & H0 & Hs & _). congruence. }
  assert (forall k' id rem, sess (Stats.ustats (Stats.Attach r (v_id v) (v_addr v) k now).1) k' id rem <->
    sess (Stats.ustats r) k' id rem \/ (k' = k /\ id = v_id v /\ rem = v_addr v)) as HA.
  { intros k' id rem. unfold Stats.Attach. destruct (Stats.users r !! v_id v) as [p|] eqn:E; simpl.
    - destruct (Stats.ro_users _ Hr _ _ E) as (u & Hu & <-). by rewrite (sess_attach _ _ u).
    - rewrite (sess_attach _ _ (Stats.MkUser (v_id v) 0 0 ∅)), sess_new; [done|by apply list_lookup_middle|].
      intros i x. by rewrite sess_new. }
  intros k' id rem. rewrite HA, H. destruct (decide (k' = k)) as [->|Hne].
  - rewrite lookup_insert_eq. split.
    + intros [(v0 & H0 & Hs & _)|(_ & -> & ->)]; [congruence|]. by exists (at_stage Serving v).
    + intros (v0 & [= <-] & _ & <- & <-). by right.
  - rewrite lookup_insert_ne by done. split; [intros [?|[? _]]; done|by left].
Qed.

Lemma lists_detach r m k v :
  m !! k = Some v -> v_stage v = Serving -> lists r m ->
  lists (Stats.Detach r (v_id v) k) (<[k := at_stage Detached v]> m).
Proof.
  intros Hk Hst [Hr H]. split; [apply (Stats.Detach_ok r (v_id v) k _ _ Hr (self_balanced r))|].
  assert (forall q u, Stats.ustats r !! q = Some u -> is_Some (Stats.u_sessions u !! k) -> Stats.users r !! v_id v = Some q) as Hone.
  { intros q u Hq [info Hi]. assert (sess (Stats.ustats r) k (Stats.u_ID u) (Stats.remote info)) as Hs by by exists q, u, info.
    apply H in Hs as (v0 & H0 & _ & Hid & _). rewrite Hk in H0. injection H0 as <-. rewrite Hid.
    apply (Stats.ro_live _ Hr q u Hq). intros E. by rewrite E, lookup_empty in Hi. }
  assert (exists p, Stats.users r !! v_id v = Some p) as [p Ep].
  { destruct (proj2 (H k (v_id v) (v_addr v))) as (q & u & info & Hq & _ & Hs & _); [by exists v|].
    exists q. by apply (Hone q u). }
  intros k' id rem. unfold Stats.Detach. rewrite Ep. simpl. rewrite sess_detach, H.
  - destruct (decide (k' = k)) as [->|Hne].
    + rewrite lookup_insert_eq. split; [by intros [_ ?]|]. by intros (v0 & [= <-] & ? & _).
    + rewrite lookup_insert_ne by done. split; [by intros [? _]|done].
  - intros q u Hq Hs. specialize (Hone q u Hq Hs). congruence.
Qed.

(** Counting, reports and streams change neither sessions nor references. *)
Lemma stats_exec_ok r m o : lists r m -> tracks v_conn (Stats.conns r) m -> lists (stats_exec r o) m /\ tracks v_conn (Stats.conns (stats_exec r o)) m.
Proof.
  intros Hl Ht. destruct Hl as [Hr H].
  assert (forall p f, (forall u, Stats.u_ID (f u) = Stats.u_ID u /\ Stats.u_sessions (f u) = Stats.u_sessions u) ->
    lists (Stats.set_users r (Stats.users r) (alter f p (Stats.ustats r))) m) as Hsame.
  { intros p f Hf. split.
    - apply Stats.alter_ok; [done|apply Hf|]. intros u Hu. destruct (Hf u) as [_ ->]. by apply (Stats.ro_live _ Hr).
    - intros k id rem. simpl. by rewrite sess_alter_same. }
  destruct o as [p n|p n| |c|x y]; simpl.
  - by split; [apply Hsame|].
  - by split; [apply Hsame|].
  - split; [|by rewrite conns_Clear]. split; [apply (Stats.Clear_ok r _ _ Hr (self_balanced r))|]. intros k id rem. by rewrite sess_Clear.
  - split; [by apply (lists_users r)|]. eapply keeps_tracks; [| | |exact Ht]; simpl.
    + apply Stats.next_seq_ok, Ht.
    + intros p e He. simpl. rewrite list_lookup_alter. case_decide; [subst; rewrite He; simpl; by eexists|eauto].
    + intros k v p Hv Hp. left. eauto.
  - by split; [apply (lists_users r)|].
Qed.

(** One connection changes from [v] to [v']. *)
Lemma inv_move s s' k v v' :
  inv s -> s_live s !! k = Some v -> s_live s' = <[k := v']> (s_live s) ->
  (is_Some (s_stats s') <-> is_Some (s_stats s)) -> (is_Some (s_limits s') <-> is_Some (s_limits s)) ->
  (forall r', s_stats s' = Some r' -> lists r' (s_live s') /\ tracks v_conn (Stats.conns r') (s_live s')) ->
  (forall r', s_limits s' = Some r' -> tracks v_dev (Limiter.table r') (s_live s')) ->
  (is_Some (v_conn v') <-> is_Some (s_stats s) /\ v_stage v' <> Welcome) ->
  (is_Some (v_dev v') <-> is_Some (s_limits s) /\ holds_device (v_stage v') = true) ->
  inv s'.
Proof.
  intros [_ _ _ Hst] Hk El E1 E2 H1 H2 H3 H4. split; [by intros r Hr; apply H1|by intros r Hr; apply H1|done|].
  rewrite El. setoid_rewrite E1. setoid_rewrite E2.
  intros k' w [[<- <-]|[_ Hw]]%lookup_insert_Some; [by split|by eapply Hst].
Qed.

(** A connection that neither was nor is served. *)
Lemma lists_move r m k v v' :
  m !! k = Some v -> v_stage v <> Serving -> v_stage v' <> Serving -> lists r m -> lists r (<[k := v']> m).
Proof.
  intros Hk H1 H2. apply lists_other with k.
  - intros w Hw. by rewrite Hk in Hw; injection Hw as <-.
  - intros w. rewrite lookup_insert_eq. by intros [= <-].
  - intros k' Hne. by rewrite lookup_insert_ne.
Qed.

Lemma AcquireConn_parts r id addr draws r' c :
  Stats.AcquireConn r id addr draws = Some (r', c) ->
  exists fresh, r' = Stats.set_conns r (RefTable.acquire (Stats.conns r) (MkKey id (hostOnly addr)) fresh).1 /\
    c = (RefTable.acquire (Stats.conns r) (MkKey id (hostOnly addr)) fresh).2.
Proof.
  unfold Stats.AcquireConn. intros H. destruct (RefTable.devices _ !! _).
  - exists (Stats.MkConn 0 0). destruct (RefTable.acquire _ _ _). by simplify_eq.
  - apply fmap_Some in H as (i & _ & H). exists (Stats.MkConn i 0). destruct (RefTable.acquire _ _ _). by simplify_eq.
Qed.

Lemma take_conn_inv s k v draws : inv s -> s_live s !! k = Some v -> v_stage v = Welcome -> inv (take_conn s k v draws).
Proof.
  intros Hs Hk Hv. pose proof Hs as [I1 I2 I3 I4]. destruct (I4 k v Hk) as [C1 C2]. rewrite Hv in C1, C2.
  assert (v_conn v = None) as Hc by (apply eq_None_not_Some; rewrite C1; by intros [_ ?]).
  unfold take_conn. destruct (s_stats s) as [r|] eqn:Er.
  - destruct (Stats.AcquireConn _ _ _ _) as [[r' c]|] eqn:Ea; [|done].
    apply AcquireConn_parts in Ea as (fresh & -> & ->).
    eapply (inv_move s); [done|done|done|simpl; by rewrite Er|done| | | |]; simpl.
    + intros r' [= <-]. split.
      * apply (lists_users r); [done|done|]. eapply lists_move; [done|by rewrite Hv|done|by apply I1].
      * apply (tracks_acquire v_conn); [done|done|done|done|by apply I2].
    + intros r' Hr'. eapply tracks_same; [done|done|done|by apply I3].
    + rewrite Er. split; [done|]. intros _. by eexists.
    + by rewrite C2.
  - eapply (inv_move s); [done|done|done|simpl; by rewrite Er|done|simpl; by rewrite Er| | |]; simpl.
    + intros r' Hr'. eapply tracks_same; [done|done|done|by apply I3].
    + rewrite Hc, Er. split; [by intros [? ?]|]. by intros [[? ?] _].
    + by rewrite C2.
Qed.

Lemma take_device_inv s k v : inv s -> s_live s !! k = Some v -> v_stage v = Counted -> inv (take_device s k v).
Proof.
  intros Hs Hk Hv. pose proof Hs as [I1 I2 I3 I4]. destruct (I4 k v Hk) as [C1 C2]. rewrite Hv in C1, C2.
  assert (v_dev v = None) as Hd by (apply eq_None_not_Some; rewrite C2; by intros [_ ?]).
  assert (forall r', s_stats s = Some r' -> forall x, x <> Serving -> forall d,
    lists r' (<[k := at_stage x (with_dev d v)]> (s_live s)) /\ tracks v_conn (Stats.conns r') (<[k := at_stage x (with_dev d v)]> (s_live s))) as Hkeep.
  { intros r' Hr' x Hx d. split; [eapply lists_move; [done|by rewrite Hv|done|by apply I1]|eapply tracks_same; [done|done|done|by apply I2]]. }
  unfold take_device. destruct (s_limits s) as [r|] eqn:Er.
  - destruct (Limiter.Acquire r (v_id v) (v_addr v)) as [r' d] eqn:Ea. unfold Limiter.Acquire in Ea.
    destruct (RefTable.acquire _ _ _) as [t c] eqn:Et. injection Ea as <- <-.
    eapply (inv_move s); [done|done|done|done|simpl; by rewrite Er| | | |]; simpl.
    + intros r' Hr'. by apply Hkeep.
    + intros r' [= <-]. simpl. change t with (t, c).1. rewrite <- Et. apply (tracks_acquire v_dev); [done|done| |done|by apply I3].
      simpl. unfold key_of. by rewrite Et.
    + rewrite C1. split; by intros [? _].
    + rewrite Er. split; [done|]. intros _. by eexists.
  - eapply (inv_move s); [done|done|done|done|simpl; by rewrite Er| |simpl; by rewrite Er| |]; simpl.
    + intros r' Hr'. by apply (Hkeep r' Hr' Limited ltac:(done) (v_dev v)).
    + rewrite C1. split; by intros [? _].
    + rewrite Hd, Er. split; [by intros [? ?]|]. by intros [[? ?] _].
Qed.

Lemma attach_inv s k v now : inv s -> s_live s !! k = Some v -> v_stage v = Limited -> inv (attach s k v now).
Proof.
  intros Hs Hk Hv. pose proof Hs as [I1 I2 I3 I4]. destruct (I4 k v Hk) as [C1 C2]. rewrite Hv in C1, C2.
  unfold attach. destruct (s_stats s) as [r|] eqn:Er.
  - eapply (inv_move s); [done|done|done|simpl; by rewrite Er|done| | | |]; simpl.
    + intros r' [= <-]. split; [apply lists_attach; [done|by rewrite Hv|by apply I1]|].
      rewrite conns_Attach. eapply tracks_same; [done|done|done|by apply I2].
    + intros r' Hr'. eapply tracks_same; [done|done|done|by apply I3].
    + rewrite C1, Er. split; by intros [? _].
    + by rewrite C2.
  - eapply (inv_move s); [done|done|done|simpl; by rewrite Er|done|simpl; by rewrite Er| | |]; simpl.
    + intros r' Hr'. eapply tracks_same; [done|done|done|by apply I3].
    + rewrite C1, Er. split; by intros [? _].
    + by rewrite C2.
Qed.

Lemma detach_inv s k v : inv s -> s_live s !! k = Some v -> v_stage v = Serving -> inv (detach s k v).
Proof.
  intros Hs Hk Hv. pose proof Hs as [I1 I2 I3 I4]. destruct (I4 k v Hk) as [C1 C2]. rewrite Hv in C1, C2.
  unfold detach. destruct (s_stats s) as [r|] eqn:Er.
  - eapply (inv_move s); [done|done|done|simpl; by rewrite Er|done| | | |]; simpl.
    + intros r' [= <-]. split; [apply lists_detach; [done|done|by apply I1]|].
      rewrite conns_Detach. eapply tracks_same; [done|done|done|by apply I2].
    + intros r' Hr'. eapply tracks_same; [done|done|done|by apply I3].
    + rewrite C1, Er. split; by intros [? _].
    + by rewrite C2.
  - eapply (inv_move s); [done|done|done|simpl; by rewrite Er|done|simpl; by rewrite Er| | |]; simpl.
    + intros r' Hr'. eapply tracks_same; [done|done|done|by apply I3].
    + rewrite C1, Er. split; by intros [? _].
    + by rewrite C2.
Qed.

Lemma drop_device_inv s k v : inv s -> s_live s !! k = Some v -> v_stage v = Detached -> inv (drop_device s k v).
Proof.
  intros Hs Hk Hv. pose proof Hs as [I1 I2 I3 I4]. destruct (I4 k v Hk) as [C1 C2]. rewrite Hv in C1, C2.
  assert (forall r', s_stats s = Some r' -> forall d,
    lists r' (<[k := at_stage Unlimited (with_dev d v)]> (s_live s)) /\
    tracks v_conn (Stats.conns r') (<[k := at_stage Unlimited (with_dev d v)]> (s_live s))) as Hkeep.
  { intros r' Hr' d. split; [eapply lists_move; [done|by rewrite Hv|done|by apply I1]|eapply tracks_same; [done|done|done|by apply I2]]. }
  unfold drop_device. destruct (s_limits s) as [r|] eqn:Er.
  - destruct (v_dev v) as [d|] eqn:Ed.
    2:{ destruct (proj2 C2) as [? ?]; [|done]. split; [by eexists|done]. }
    eapply (inv_move s); [done|done|done|done|simpl; by rewrite Er| | | |]; simpl.
    + intros r' Hr'. by apply Hkeep.
    + intros r' [= <-]. simpl. eapply tracks_release; [done|done| |by apply I3]. right. by eexists.
    + rewrite C1. split; by intros [? _].
    + split; [by intros [? ?]|by intros [_ ?]].
  - eapply (inv_move s); [done|done|done|done|simpl; by rewrite Er| |simpl; by rewrite Er| |]; simpl.
    + intros r' Hr'. by apply (Hkeep r' Hr' (v_dev v)).
    + rewrite C1. split; by intros [? _].
    + rewrite C2, Er. split; [by intros [[? ?] _]|by intros [_ ?]].
Qed.

Lemma drop_conn_inv s k v : inv s -> s_live s !! k = Some v -> v_stage v = Unlimited -> inv (drop_conn s k v).
Proof.
  intros Hs Hk Hv. pose proof Hs as [I1 I2 I3 I4]. destruct (I4 k v Hk) as [C1 C2]. rewrite Hv in C1, C2.
  assert (v_dev v = None) as Hd by (apply eq_None_not_Some; rewrite C2; by intros [_ ?]).
  assert (forall r', s_limits s = Some r' -> tracks v_dev (Limiter.table r') (delete k (s_live s))) as Hdev.
  { intros r' Hr'. specialize (I3 r' Hr'). eapply keeps_tracks; [| | |exact I3].
    - pose proof (refs_delete v_dev _ _ _ Hk) as H. rewrite Hd, ref_none, (left_id_L ∅ (⊎)) in H. rewrite <- H. apply I3.
    - intros p e He. eauto.
    - intros k' w p [_ Hw]%lookup_delete_Some Hp. left. eauto. }
  assert (forall k' w, delete k (s_live s) !! k' = Some w ->
    (is_Some (v_conn w) <-> is_Some (s_stats s) /\ v_stage w <> Welcome) /\
    (is_Some (v_dev w) <-> is_Some (s_limits s) /\ holds_device (v_stage w) = true)) as Hst
    by (intros k' w [_ Hw]%lookup_delete_Some; by eapply I4).
  unfold drop_conn. destruct (s_stats s) as [r|] eqn:Er.
  - destruct (v_conn v) as [c|] eqn:Ec.
    2:{ destruct (proj2 C1) as [? ?]; [|done]. split; [by eexists|done]. }
    split; simpl.
    + intros r' [= <-]. apply (lists_users r); [done|done|]. apply (lists_other r (s_live s) _ k); [| | |by apply I1].
      * intros w Hw. rewrite Hk in Hw. injection Hw as <-. by rewrite Hv.
      * intros w. by rewrite lookup_delete_eq.
      * intros k' Hne. by rewrite lookup_delete_ne.
    + intros r' [= <-]. simpl. eapply tracks_release; [done|done|by left|by apply I2].
    + done.
    + intros k' w Hw. destruct (Hst k' w Hw) as [-> ->]. split; [|done]. split; intros [_ ?]; (split; [by eexists|done]).
  - split; simpl; try done.
Qed.

Lemma exec_inv s o : inv s -> inv (exec s o).
Proof.
  intros Hs. destruct o as [k id addr|k draws now|o]; cbn [exec].
  - destruct (s_live s !! k) eqn:Hk; [done|]. destruct Hs as [I1 I2 I3 I4]. split; simpl.
    + intros r Hr. apply (lists_other r (s_live s) _ k); [by rewrite Hk| | |by apply I1].
      * intros w. rewrite lookup_insert_eq. by intros [= <-].
      * intros k' Hne. by rewrite lookup_insert_ne.
    + intros r Hr. apply tracks_arrive; [done|done|by apply I2].
    + intros r Hr. apply tracks_arrive; [done|done|by apply I3].
    + intros k' w [[<- <-]|[_ Hw]]%lookup_insert_Some; [|by eapply I4]. simpl.
      split; (split; [by intros [? ?]|by intros [_ ?]]).
  - unfold handler_step. destruct (s_live s !! k) as [v|] eqn:Hk; [|done]. destruct (v_stage v) eqn:Hv.
    + by apply take_conn_inv.
    + by apply take_device_inv.
    + by apply attach_inv.
    + by apply detach_inv.
    + by apply drop_device_inv.
    + by apply drop_conn_inv.
  - destruct (s_stats s) as [r|] eqn:Er; [|done]. destruct Hs as [I1 I2 I3 I4].
    destruct (stats_exec_ok r (s_live s) o (I1 r Er) (I2 r Er)) as [H1 H2].
    split; simpl; [by intros r' [= <-]|by intros r' [= <-]|done|]. intros k v Hk. destruct (I4 k v Hk) as [-> ->].
    split; [|done]. rewrite Er. split; intros [_ ?]; (split; [by eexists|done]).
Qed.

Lemma connections_inv has_stats upBps downBps ops : inv (foldl exec (start has_stats upBps downBps) ops).
Proof.
  assert (forall P (f : live -> option nat), tracks f (@RefTable.empty_table P) ∅) as H0.
  { intros P f. split; [apply RefTable.empty_ok|]. intros k v p. by rewrite lookup_empty. }
  induction ops as [|o ops IH] using rev_ind; [|rewrite foldl_app; by apply exec_inv]. split; simpl.
  - intros r Hr. destruct has_stats; [|done]. injection Hr as <-. split; [split; simpl; intros *; rewrite ?lookup_empty; done|].
    intros k id rem. split; [by intros (? & ? & ? & ? & _)|]. intros (v & Hv & _). by rewrite lookup_empty in Hv.
  - intros r Hr. destruct has_stats; [|done]. injection Hr as <-. apply H0.
  - intros r Hr. unfold Limiter.NewRegistry in Hr. destruct (_ && _); [done|]. injection Hr as <-. apply H0.
  - intros k v. by rewrite lookup_empty.
Qed.

(** ** What the registries know *)

(** The source addresses from which the user is served. *)
Definition served_ips (m : gmap nat live) (id : string) : gset string :=
  list_to_set (map_to_list m ≫= (fun e => if decide (v_stage e.2 = Serving /\ v_id e.2 = id) then [hostOnly (v_addr e.2)] else [])).

Lemma served_ips_elem m id x :
  x ∈ served_ips m id <-> exists k v, m !! k = Some v /\ v_stage v = Serving /\ v_id v = id /\ hostOnly (v_addr v) = x.
Proof.
  unfold served_ips. rewrite elem_of_list_to_set, list_elem_of_bind. split.
  - intros ([k v] & Hx & Hin%elem_of_map_to_list). simpl in Hx. case_decide as H; [|set_solver].
    exists k, v. destruct H. apply list_elem_of_singleton in Hx. by split_and!.
  - intros (k & v & Hk & Hs & Hid & <-). exists (k, v). simpl. rewrite decide_True by done.
    split; [set_solver|by apply elem_of_map_to_list].
Qed.

(** The sessions of a user are those of its entry. *)
Lemma sess_user r id k rem :
  Stats.reg_ok r -> sess (Stats.ustats r) k id rem <->
  exists u info, Stats.users r !! id ≫= (fun p => Stats.ustats r !! p) = Some u /\ Stats.u_sessions u !! k = Some info /\ Stats.remote info = rem.
Proof.
  intros Hr. split.
  - intros (p & u & info & Hp & <- & Hs & Hrem). exists u, info. split; [|done].
    rewrite (Stats.ro_live _ Hr p u Hp); [done|]. intros E. by rewrite E, lookup_empty in Hs.
  - intros (u & info & Hu & Hs & Hrem). apply bind_Some in Hu as (p & Hp & Hu). exists p, u, info. split_and!; try done.
    destruct (Stats.ro_users _ Hr id p Hp) as (u' & Hu' & <-). congruence.
Qed.

Lemma lists_ips r m id :
  lists r m ->
  served_ips m id = match Stats.users r !! id ≫= (fun p => Stats.ustats r !! p) with Some u => Stats.user_ips u | None => ∅ end.
Proof.
  intros [Hr H]. apply set_eq. intros x. rewrite served_ips_elem.
  assert ((exists k v, m !! k = Some v /\ v_stage v = Serving /\ v_id v = id /\ hostOnly (v_addr v) = x) <->
    exists k rem, sess (Stats.ustats r) k id rem /\ hostOnly rem = x) as ->.
  { split.
    - intros (k & v & Hk & Hs & Hid & Hx). exists k, (v_addr v). split; [|done]. apply H. by exists v.
    - intros (k & rem & Hs & Hx). apply H in Hs as (v & Hk & Hs & Hid & <-). by exists k, v. }
  setoid_rewrite (sess_user r); [|done]. destruct (_ ≫= _) as [u|].
  - unfold Stats.user_ips. rewrite elem_of_list_to_set. split.
    + intros (k & rem & (u' & info & [= <-] & Hs & <-) & <-). apply list_elem_of_fmap. exists (k, info).
      split; [done|by apply elem_of_map_to_list].
    + intros ([k info] & -> & Hin%elem_of_map_to_list)%list_elem_of_fmap. exists k, (Stats.remote info). split; [|done].
      by exists u, info.
  - split; [by intros (k & rem & (u' & info & ? & _) & _)|set_solver].
Qed.

Lemma concat_elem (x : nat) ls : x ∈ concat ls <-> exists l, x ∈ l /\ l ∈ ls.
Proof.
  rewrite list_elem_of_In, in_concat. split; intros (l & H1 & H2); exists l; [split; by apply list_elem_of_In|].
  by split; apply list_elem_of_In.
Qed.

Lemma lists_kick r m ids k :
  lists r m -> k ∈ Stats.Kick r ids <-> exists v, m !! k = Some v /\ v_stage v = Serving /\ v_id v ∈ ids.
Proof.
  intros [Hr H]. unfold Stats.Kick. rewrite concat_elem. split.
  - intros (l & Hl & (id & -> & Hid)%list_elem_of_fmap). destruct (_ ≫= _) as [u|] eqn:Eu; [|set_solver].
    apply list_elem_of_fmap in Hl as ([k' info] & -> & Hin%elem_of_map_to_list). simpl.
    assert (sess (Stats.ustats r) k' id (Stats.remote info)) as Hs by (apply sess_user; [done|]; by exists u, info).
    apply H in Hs as (v & Hk & Hs & Hv & _). exists v. by rewrite Hv.
  - intros (v & Hk & Hs & Hid). assert (sess (Stats.ustats r) k (v_id v) (v_addr v)) as Hse by (apply H; by exists v).
    apply (sess_user r) in Hse as (u & info & Hu & Hse & _); [|done].
    exists (map fst (map_to_list (Stats.u_sessions u))). split.
    + apply list_elem_of_fmap. exists (k, info). split; [done|by apply elem_of_map_to_list].
    + apply list_elem_of_fmap. exists (v_id v). by rewrite Hu.
Qed.

(** C15.  The registries know exactly the open connections: in every interleaving of the
    handlers' calls with counting, reports and streams, /online names the users that are
    served and the number of their source addresses, /kick finds exactly the
    sessions of the users named, and a device is known to the statistics and to the
    limiter exactly while a connection of it has been counted, or limited, and has not
    given that back; in particular nothing stays behind when all have gone. *)
Theorem registries_exact has_stats upBps downBps ops :
  let s := foldl exec (start has_stats upBps downBps) ops in
  (forall r, s_stats s = Some r ->
    (forall id, Stats.Online r !! id =
       let n := size (served_ips (s_live s) id) in if decide (n = 0%nat) then None else Some (Z.of_nat n)) /\
    (forall ids k, k ∈ Stats.Kick r ids <-> exists v, s_live s !! k = Some v /\ v_stage v = Serving /\ v_id v ∈ ids) /\
    (forall key, is_Some (RefTable.devices (Stats.conns r) !! key) <->
       exists k v, s_live s !! k = Some v /\ v_stage v <> Welcome /\ key_of v = key)) /\
  (forall r, s_limits s = Some r -> forall key,
    is_Some (RefTable.devices (Limiter.table r) !! key) <->
    exists k v, s_live s !! k = Some v /\ holds_device (v_stage v) = true /\ key_of v = key).
Proof.
  intros s. pose proof (connections_inv has_stats upBps downBps ops) as Hs. fold s in Hs. destruct Hs as [I1 I2 I3 I4]. split.
  - intros r Hr. specialize (I1 r Hr). split_and!.
    + intros id. cbv zeta. rewrite (lists_ips r _ id I1). unfold Stats.Online. rewrite lookup_omap.
      destruct (Stats.users r !! id) as [p|]; simpl; [|done]. by destruct (Stats.ustats r !! p).
    + intros ids k. by apply lists_kick.
    + intros key. rewrite (tracks_known v_conn _ _ _ (I2 r Hr)).
      split; intros (k & v & Hk & Hv & Hkey); exists k, v; (split; [done|]); (split; [|done]); apply (I4 k v Hk); [done|].
      split; [by eexists|done].
  - intros r Hr key. rewrite (tracks_known v_dev _ _ _ (I3 r Hr)).
    split; intros (k & v & Hk & Hv & Hkey); exists k, v; (split; [done|]); (split; [|done]); apply (I4 k v Hk); [done|].
    split; [by eexists|done].
Qed.

End connections.

#[local] Existing Instance Limiter.ledger_limiter.

(** Two connections of one device and one of another: the user has two devices online, and
    none once all have left. *)
Definition serve (k : nat) : list op := [Handler k [7; 8] 0; Handler k [] 0; Handler k [] 0].
Definition leave (k : nat) : list op := [Handler k [] 0; Handler k [] 0; Handler k [] 0].

Definition sample_ops : list op :=
  [Arrive 0 "u" "10.0.0.1:5000"; Arrive 1 "u" "10.0.0.1:5001"; Arrive 2 "u" "10.0.0.2:80"] ++ serve 0 ++ serve 1 ++ serve 2.

Example devices_online :
  let s := foldl exec (start (L := Limiter.ledger) true 8000 8000) sample_ops in
  let t := foldl exec s (leave 1 ++ leave 0 ++ leave 2) in
  (Stats.Online <$> s_stats s) = Some {[ "u" := 2 ]} /\ (Stats.Online <$> s_stats t) = Some ∅ /\
  size (RefTable.devices (Limiter.table (default (Limiter.MkRegistry 0 0 RefTable.empty_table) (s_limits s)))) = 2%nat /\
  size (RefTable.devices (Limiter.table (default (Limiter.MkRegistry 0 0 RefTable.empty_table) (s_limits t)))) = 0%nat.
Proof. vm_compute. done. Qed.

End Connections.
