(* ===== verification/Request.v ===== *)
(** * Request: a client asks for a destination and the server learns it
      (cmd/client/myclient.go, cmd/client/inbound.go)

    [CreateProxy] takes a stream from the pool of ClientPool.v and writes the
    destination to it; [NewConnection] and [NewPacketConnection] relay over it and close it
    at the end.  How an address is written is the library's: the bytes of each write it makes
    are a parameter, and that reading them back gives the address is a hypothesis.

    The second half joins both ends: what a client session writes for its first request,
    a server session hands to the handler of a new stream. *)

From S2P Require Import Prelude GoStrings StringMap Frame Padding NetConn WriteConn Pipe Session SessionSpec EndToEnd ClientPool AclMatch Policy.
#[local] Open Scope string_scope.
#[local] Open Scope list_scope.
#[local] Open Scope Z_scope.
#[local] Set Warnings "-clear-no-such-hyp".

Module Request.
Import Frame Padding WriteConn Session SessionSpec ClientPool.

Section proxy.
Context {C : Type} `{!NetConn C} {M : Type} `{!OrderedMap M}.
Variable ent : Z -> nat -> Z.
Variable md5hex : bytes -> string.
Variable clientDebugPaddingScheme : bool.
(** The writes of [M.SocksaddrSerializer.WriteAddrPort]. *)
Variable WriteAddrPort : Policy.Socksaddr -> list bytes.
(** [uot.RequestDestination(2)] *)
Variable RequestDestination : Policy.Socksaddr.
Implicit Types (c : Client C M).

Inductive proxy_error := ErrStream (e : pool_error) | ErrWrite (e : goerror).

Abbreviation do_op := (session_op ent md5hex clientDebugPaddingScheme).

(** [stream.Write] on the stream [o] of session [i] *)
Definition write_on c (i o : nat) (b : bytes) : Client C M * option goerror :=
  match pool c !! i with
  | Some ps => (do_op c i (OpStreamWrite o b), (stream_Write ent (sess ps) o b).2)
  | None => (c, None)
  end.

(** The writes of the address, up to the first error. *)
Fixpoint write_addr c (i o : nat) (l : list bytes) : Client C M * option goerror :=
  match l with
  | [] => (c, None)
  | b :: l =>
      match write_on c i o b with
      | (c, None) => write_addr c i o l
      | r => r
      end
  end.

(** [stream.Close()] by its user, at time [now]: the callback puts the session back. *)
Definition close_stream (now : Z) c (i o : nat) : Client C M := return_session now (do_op c i (OpStreamClose o)) i.

Definition CreateProxy (now : Z) c (underlying : option C) (pf : PaddingFactory) (order : list (string * string))
    (destination : Policy.Socksaddr) : Client C M * (proxy_error + nat * nat) :=
  match CreateStream ent c underlying pf order with
  | (c, inr e) => (c, inl (ErrStream e))
  | (c, inl (i, o)) =>
      match write_addr c i o (WriteAddrPort destination) with
      | (c, Some e) => (close_stream now c i o, inl (ErrWrite e))
      | (c, None) => (c, inr (i, o))
      end
  end.

(** [NewConnection] until it relays; [NewPacketConnection] asks for the address of
    UDP over TCP instead. *)
Definition NewConnection (now : Z) c underlying pf order (destination : Policy.Socksaddr) :=
  CreateProxy now c underlying pf order destination.

Definition NewPacketConnection (now : Z) c underlying pf order :=
  CreateProxy now c underlying pf order RequestDestination.

(** The deferred [proxyC.Close()] of both, when the relay has ended. *)
Definition relay_done (now : Z) c (i o : nat) : Client C M := close_stream now c i o.

End proxy.

(** ** A failed request leaves nothing open *)

Section spec.
Context {C : Type} `{!NetConn C, !NetConnLaws C} {M : Type} `{!OrderedMap M, !OrderedMapLaws M}.
Variable ent : Z -> nat -> Z.
Variable md5hex : bytes -> string.
Variable clientDebugPaddingScheme : bool.
Variable WriteAddrPort : Policy.Socksaddr -> list bytes.
Implicit Types (c : Client C M) (ps : PSession C).

(** From [c] to [c'] sessions have moved on or were added, and no stream was handed out. *)
Definition evolves c c' : Prop :=
  forall i ps', pool c' !! i = Some ps' ->
    (exists ps, pool c !! i = Some ps /\ hooked ps' = hooked ps /\ later (sess ps) (sess ps')) \/ hooked ps' = ∅.

#[local] Instance later_refl : Reflexive (@later C).
Proof. intros s. by apply shrinks_same. Qed.

#[local] Instance evolves_refl : Reflexive evolves.
Proof. intros c i ps Hi. left. by exists ps. Qed.

#[local] Instance evolves_trans : Transitive evolves.
Proof.
  intros c1 c2 c3 H12 H23 i ps3 H3. destruct (H23 i ps3 H3) as [(ps2 & H2 & Eh & Hl)|Eh]; [|by right].
  destruct (H12 i ps2 H2) as [(ps1 & H1 & Eh1 & Hl1)|Eh1]; [left|right; congruence].
  exists ps1. split_and!; [done|congruence|by etrans].
Qed.

Lemma evolves_pool c c' : pool c' = pool c -> evolves c c'.
Proof. intros E i ps Hi. left. exists ps. by rewrite <- E. Qed.

Lemma evolves_upd c i f :
  (forall ps, pool c !! i = Some ps -> hooked (f ps) = hooked ps /\ later (sess ps) (sess (f ps))) -> evolves c (upd c i f).
Proof.
  intros Hf j ps'. rewrite lookup_upd. case_decide; [subst j|intros Hj; left; by exists ps'].
  intros (ps & Hi & ->)%fmap_Some. left. exists ps. split; [done|by apply Hf].
Qed.

Lemma evolves_close c i : evolves c (close_session c i).
Proof.
  unfold close_session. destruct (pool c !! i) as [ps|] eqn:Hi; [|done]. destruct (die (sess ps)); [done|].
  trans (upd c i (set_sess (Close (sess ps)).1)); [|apply evolves_pool, pool_session_hook].
  apply evolves_upd. intros ps' Hi'. assert (ps' = ps) as -> by congruence. split; [done|apply shrinks_Close].
Qed.

Lemma evolves_hook i c h : evolves c (run_hook i c h).
Proof.
  destruct h as [|o]; simpl; [apply evolves_pool, pool_session_hook|].
  destruct (pool c !! i) as [ps|] eqn:Hi; [|done]. case_decide; [|done]. unfold stream_hook. rewrite Hi.
  destruct (die (sess ps)); [done|]. destruct (disableReuse c); [apply evolves_close|].
  destruct (c_die c); [apply evolves_close|]. by apply evolves_pool.
Qed.

Lemma evolves_hooks c i ps s' : pool c !! i = Some ps -> evolves (upd c i (set_sess s')) (settle c i s').
Proof.
  intros Hi. unfold settle. rewrite Hi. generalize (upd c i (set_sess s')).
  induction (drop _ _) as [|h l IH]; intros c0; [done|]. simpl. etrans; [apply evolves_hook|apply IH].
Qed.

Lemma evolves_settle c i ps s' : pool c !! i = Some ps -> later (sess ps) s' -> evolves c (settle c i s').
Proof.
  intros Hi Hl. etrans; [|by eapply evolves_hooks]. apply evolves_upd. intros ps' Hi'. by assert (ps' = ps) as -> by congruence.
Qed.

Lemma evolves_op c i a : evolves c (session_op ent md5hex clientDebugPaddingScheme c i a).
Proof.
  unfold session_op. destruct (pool c !! i) as [ps|] eqn:Hi; [|done]. eapply evolves_settle; [done|apply exec_later].
Qed.

Lemma evolves_return now c i : evolves c (return_session now c i).
Proof.
  unfold return_session. destruct (pool c !! i) as [ps|]; [|done]. case_decide; [|done].
  trans (upd c i (set_idleSince now)); [by apply evolves_upd|by apply evolves_pool].
Qed.

Lemma evolves_create c und pf order c' r : createSession ent c und pf order = (c', r) -> evolves c c'.
Proof.
  unfold createSession. destruct und as [conn|]; [|by intros [= <- <-]]. set (s := NewClientSession conn pf []).
  set (c1 := MkClient _ _ _ _ _ _ _ _ _). intros [= <- <-]. trans c1.
  - intros j ps'. simpl. intros [Hj|[_ Hj]]%lookup_app_Some; [left; by exists ps'|]. apply list_lookup_singleton_Some in Hj as [_ <-]. by right.
  - eapply evolves_settle; [simpl; by apply list_lookup_middle|apply Run_later].
Qed.

(** [CreateStream] hands out one stream, or none. *)
Lemma CreateStream_evolves c und pf order c' r :
  CreateStream ent c und pf order = (c', r) ->
  match r with
  | inr _ => evolves c c'
  | inl (i, o) => exists c1, evolves c c1 /\ c' = upd (upd c1 i (add_hooked o)) i (add_armed o) /\ is_Some (pool c1 !! i)
  end.
Proof.
  unfold CreateStream, open_stream. destruct (c_die c); [by intros [= <- <-]|].
  set (get := if disableReuse c then (c, None) else getIdleSession c).
  assert (evolves c get.1) as Hg.
  { subst get. destruct (disableReuse c); [done|]. unfold getIdleSession. destruct (om_list _) as [|[k i] l]; [done|]. by apply evolves_pool. }
  destruct get as [c0 idle]. simpl in Hg. set (pick := match idle with Some i => (c0, Some i) | None => _ end).
  assert (evolves c pick.1) as Hp.
  { subst pick. destruct idle; [done|]. etrans; [exact Hg|]. eapply evolves_create. apply surjective_pairing. }
  destruct pick as [c1 [i|]]; simpl in Hp; [|by intros [= <- <-]].
  destruct (pool c1 !! i) as [ps|] eqn:Hi; [|by intros [= <- <-]].
  pose proof (later_OpenStream ent (sess ps)) as Hl. destruct (OpenStream ent (sess ps)) as [s' [o|e]]; simpl in Hl; intros [= <- <-].
  - exists (settle c1 i s'). split_and!; [|done|].
    + etrans; [exact Hp|by eapply evolves_settle].
    + apply lookup_lt_is_Some. rewrite length_settle. by eapply lookup_lt_Some.
  - etrans; [exact Hp|]. etrans; [by eapply evolves_settle|apply evolves_close].
Qed.

(** The streams handed out exist. *)
Definition handed c : Prop := forall i ps o, pool c !! i = Some ps -> o ∈ hooked ps -> is_Some (objs (sess ps) !! o).

Lemma pool_handed c : pool_ok c -> handed c.
Proof. intros Hok i ps o Hi. apply (po_at c Hok i ps Hi). Qed.

(** What evolves opens no stream. *)
Lemma evolves_live c c' i ps' o :
  handed c -> evolves c c' -> pool c' !! i = Some ps' -> live ps' o -> exists ps, pool c !! i = Some ps /\ live ps o.
Proof.
  intros Hh He Hi Hl. destruct (He i ps' Hi) as [(ps & Hps & Eh & Hlt)|E].
  - exists ps. split; [done|]. apply (live_later ps (sess ps')); [done|intros o' Ho'; by eapply Hh|].
    destruct Hl as [H1 H2]. split; [by rewrite Eh in H1|done].
  - destruct Hl as [H1 _]. rewrite E in H1. set_solver.
Qed.

Lemma close_kills (s : Session C) o st :
  objs s !! o = Some st -> exists st', objs (stream_Close ent s o).1 !! o = Some st' /\ died st' = true.
Proof.
  intros Ho. unfold stream_Close, closeWithError. rewrite Ho. destruct (died st) eqn:Hd; [by exists st|].
  set (s1 := update_obj _ _ _).
  assert (later s1 (streamClosed ent s1 (st_id st)).1) as Hl.
  { unfold streamClosed. destruct (die s1); [done|]. pose proof (shrinks_writeControlFrame ent s1 (newFrame cmdFIN (st_id st))) as H.
    destruct (writeControlFrame ent s1 _) as [s2 e]. simpl in *. etrans; [apply H|apply (shrinks_delete s2)]. }
  assert (objs s1 !! o = Some (kill st ErrClosedPipe)) as H1
    by (refine (eq_trans (lookup_update_obj s o _ o) _); by rewrite decide_True, Ho).
  destruct (lt_objs _ _ Hl o _ H1) as (st' & Ho' & [_ Hg _]). destruct (streamClosed ent s1 (st_id st)) as [s2 e].
  exists st'. split; [done|]. by destruct (Hg eq_refl).
Qed.

(** Nobody is opening a stream that was handed out. *)
Lemma close_not_held c i ps o : pool_ok c -> pool c !! i = Some ps -> o ∈ hooked ps -> held (sess ps) (OpStreamClose o) = false.
Proof. intros Hok Hi Ho. unfold held. simpl. apply bool_decide_eq_false. rewrite (oa_free _ _ _ (po_at c Hok i ps Hi) o Ho). by intros [? ?]. Qed.

(** After its close a stream is not live. *)
Lemma close_op_dead c i o ps' :
  pool_ok c -> pool (session_op ent md5hex clientDebugPaddingScheme c i (OpStreamClose o)) !! i = Some ps' -> ~ live ps' o.
Proof.
  intros Hok Hi Hl. pose proof (pool_handed c Hok) as Hh. unfold session_op in Hi. destruct (pool c !! i) as [ps|] eqn:Hps; [|congruence].
  assert (o ∈ hooked ps) as Hin.
  { destruct (evolves_op c i (OpStreamClose o) i ps') as [(ps1 & H1 & E & _)|E]; [unfold session_op; by rewrite Hps| |].
    - assert (ps1 = ps) as -> by congruence. rewrite <- E. apply Hl.
    - destruct Hl as [H1 _]. rewrite E in H1. by apply not_elem_of_empty in H1. }
  unfold exec in Hi. rewrite (close_not_held c i ps o) in Hi by done. cbn [run_op] in Hi.
  set (s' := (stream_Close ent (sess ps) o).1) in *.
  assert (later (sess ps) s') as Hlt by apply shrinks_closeWithError.
  assert (handed (upd c i (set_sess s'))) as Hh'.
  { intros j psj o'. rewrite lookup_upd. case_decide; [subst j|by apply Hh]. rewrite Hps. intros [= <-]. simpl.
    apply (bound_later ps s'); [done|intros o2; by apply (Hh i ps)]. }
  destruct (evolves_live _ _ i ps' o Hh' (evolves_hooks c i ps s' Hps) Hi Hl) as (ps1 & H1 & Ho & st & Hst & Hd).
  rewrite lookup_upd, decide_True, Hps in H1 by done. injection H1 as <-. simpl in *.
  destruct (Hh i ps o Hps Ho) as [st0 H0]. destruct (close_kills (sess ps) o st0 H0) as (st' & Hst' & Hd'). fold s' in Hst'. congruence.
Qed.

Lemma write_addr_ok c i o l c' e :
  pool_ok c -> write_addr ent md5hex clientDebugPaddingScheme c i o l = (c', e) -> pool_ok c' /\ evolves c c'.
Proof.
  revert c. induction l as [|b l IH]; intros c Hok; simpl; [by intros [= <- <-]|]. unfold write_on.
  assert (forall a, pool_ok (session_op ent md5hex clientDebugPaddingScheme c i a) /\ evolves c (session_op ent md5hex clientDebugPaddingScheme c i a))
    as Hop by (intros a; split; [by apply session_op_ok|apply evolves_op]).
  destruct (pool c !! i) as [ps|]; [|by apply IH]. destruct (stream_Write ent (sess ps) o b).2 as [e'|]; intros H.
  - injection H as <- <-. apply Hop.
  - destruct (Hop (OpStreamWrite o b)) as [H1 H2]. apply IH in H as [H3 H4]; [|done]. split; [done|by etrans].
Qed.

Lemma close_stream_dead now c i o ps' :
  pool_ok c -> pool (close_stream ent md5hex clientDebugPaddingScheme now c i o) !! i = Some ps' -> ~ live ps' o.
Proof.
  intros Hok Hi Hl. set (c1 := session_op ent md5hex clientDebugPaddingScheme c i (OpStreamClose o)).
  assert (pool_ok c1) as Hok1 by by apply session_op_ok.
  destruct (evolves_live c1 _ i ps' o (pool_handed _ Hok1) (evolves_return now c1 i) Hi Hl) as (ps1 & H1 & Hl1).
  by apply (close_op_dead c i o ps1).
Qed.

(** The streams open after a stream was handed out: this one, and those that were open. *)
Lemma handed_out c c0 c3 i o :
  pool_ok c -> pool_ok (upd (upd c0 i (add_hooked o)) i (add_armed o)) -> evolves c c0 -> evolves (upd (upd c0 i (add_hooked o)) i (add_armed o)) c3 ->
  forall j ps' o', pool c3 !! j = Some ps' -> live ps' o' -> (j, o') = (i, o) \/ exists ps, pool c !! j = Some ps /\ live ps o'.
Proof.
  intros Hok Hok1 He0 He3 j ps' o' Hj Hl.
  destruct (evolves_live _ _ j ps' o' (pool_handed _ Hok1) He3 Hj Hl) as (ps1 & H1 & Hl1).
  rewrite lookup_upd in H1. case_decide as E; [subst j|].
  2:{ rewrite lookup_upd, decide_False in H1 by done. right. by eapply evolves_live; [apply pool_handed|..]. }
  rewrite lookup_upd, decide_True in H1 by done. apply fmap_Some in H1 as (ps2 & (ps0 & H0 & ->)%fmap_Some & ->).
  destruct (decide (o' = o)) as [->|Hne]; [by left|right].
  eapply (evolves_live c c0 i ps0); [by apply pool_handed|done|done|]. destruct Hl1 as [Hin Hx]. split; [|done].
  simpl in Hin. apply elem_of_union in Hin as [?%elem_of_singleton|Hin]; done.
Qed.

(** *** The session of a failed request *)

Definition idle_in c (j : nat) : Prop := exists k, om_map (idleSession c) !! k = Some j.

(** The key of session [i] is not used for another one. *)
Definition keyed (i : nat) c : Prop := forall ps j, pool c !! i = Some ps -> om_map (idleSession c) !! pool_key (seq ps) = Some j -> j = i.

Lemma pool_keyed i c : pool_ok c -> keyed i c.
Proof.
  intros Hok ps j Hi Hj. destruct (po_idle c Hok _ _ Hj) as [psj Hpj]. destruct (oa_idle _ _ _ (po_at c Hok j psj Hpj) _ Hj) as [E _].
  pose proof (oa_seq _ _ _ (po_at c Hok j psj Hpj)). pose proof (oa_seq _ _ _ (po_at c Hok i ps Hi)). unfold pool_key in E. lia.
Qed.

(** From [c] to [c'] only session [i] was worked on. *)
Definition apart (i : nat) c c' : Prop :=
  keyed i c -> keyed i c' /\ forall j, j <> i -> pool c' !! j = pool c !! j /\ (idle_in c j -> idle_in c' j).

#[local] Instance apart_refl i : Reflexive (apart i).
Proof. by intros c Hk. Qed.

#[local] Instance apart_trans i : Transitive (apart i).
Proof.
  intros c1 c2 c3 H12 H23 Hk. destruct (H12 Hk) as [Hk2 H2]. destruct (H23 Hk2) as [Hk3 H3]. split; [done|].
  intros j Hj. destruct (H2 j Hj) as [E2 I2], (H3 j Hj) as [E3 I3]. split; [congruence|auto].
Qed.

Lemma apart_upd i c f : (forall ps, seq (f ps) = seq ps) -> apart i c (upd c i f).
Proof.
  intros Hf Hk. split.
  - intros ps j. rewrite lookup_upd, decide_True by done. intros (ps0 & Hi & ->)%fmap_Some. rewrite Hf. by apply Hk.
  - intros j Hj. by rewrite lookup_upd, decide_False by done.
Qed.

Lemma apart_session_hook i c : apart i c (session_hook c i).
Proof.
  intros Hk. destruct (pool c !! i) as [ps|] eqn:Hi; [|unfold session_hook; by rewrite Hi].
  destruct (session_hook_effect c i ps Hi) as (E1 & _ & _ & _ & _ & _ & _ & E8). split.
  - intros ps' j. rewrite E1, E8. intros Hi' Hj. apply (Hk ps' j Hi'). destruct (disableReuse c); [done|]. by apply lookup_delete_Some in Hj as [_ Hj].
  - intros j Hne. rewrite E1. split; [done|]. intros [k Hj]. exists k. rewrite E8. destruct (disableReuse c); [done|].
    apply lookup_delete_Some. split; [|done]. intros <-. by destruct Hne; apply (Hk ps j).
Qed.

Lemma apart_close i c : apart i c (close_session c i).
Proof.
  unfold close_session. destruct (pool c !! i) as [ps|]; [|done]. destruct (die (sess ps)); [done|].
  etrans; [by apply (apart_upd i c (set_sess (Close (sess ps)).1))|apply apart_session_hook].
Qed.

Lemma apart_hook i c h : apart i c (run_hook i c h).
Proof.
  destruct h as [|o]; [apply apart_session_hook|]. cbn [run_hook]. destruct (pool c !! i) as [ps|] eqn:Hi; [|done]. case_decide; [|done].
  unfold stream_hook. rewrite Hi. destruct (die (sess ps)); [done|]. destruct (disableReuse c); [apply apart_close|].
  destruct (c_die c); [apply apart_close|]. by intros Hk.
Qed.

Lemma apart_settle i c s' : apart i c (settle c i s').
Proof.
  unfold settle. destruct (pool c !! i) as [ps|]; [|done]. etrans; [by apply (apart_upd i c (set_sess s'))|].
  generalize (upd c i (set_sess s')). induction (drop _ _) as [|h l IH]; intros c0; [done|]. simpl. etrans; [apply apart_hook|apply IH].
Qed.

Lemma apart_op i c a : apart i c (session_op ent md5hex clientDebugPaddingScheme c i a).
Proof. unfold session_op. destruct (pool c !! i); [apply apart_settle|done]. Qed.

Lemma apart_return now i c : apart i c (return_session now c i).
Proof.
  intros Hk. unfold return_session. destruct (pool c !! i) as [ps|] eqn:Hi; [|done]. case_decide; [|done].
  pose proof (lookup_upd c i (set_idleSince now)) as Hu. simpl in Hu. split.
  - intros ps' j. simpl. rewrite Hu, decide_True, Hi, om_map_insert by done. intros [= <-]. simpl. rewrite lookup_insert_eq. congruence.
  - intros j Hj. simpl. rewrite Hu, decide_False by done. split; [done|]. intros [k Hkj]. exists k. simpl. rewrite om_map_insert.
    rewrite lookup_insert_ne; [done|]. intros <-. apply Hj. by apply (Hk ps).
Qed.

Lemma apart_write i c o l : apart i c (write_addr ent md5hex clientDebugPaddingScheme c i o l).1.
Proof.
  revert c. induction l as [|b l IH]; intros c; [done|]. simpl. unfold write_on. destruct (pool c !! i) as [ps|]; [|apply IH].
  destruct (stream_Write ent (sess ps) o b).2; [apply apart_op|]. etrans; [apply apart_op|apply IH].
Qed.

(** Opening a stream leaves the sessions alone that it does not use. *)
Definition others (i : nat) c c' : Prop := forall j, j <> i -> pool c' !! j = pool c !! j /\ (idle_in c j -> idle_in c' j).

Lemma others_apart i c c1 c2 : others i c c1 -> pool_ok c1 -> apart i c1 c2 -> others i c c2.
Proof.
  intros H1 Hok H2 j Hj. destruct (H2 (pool_keyed i c1 Hok)) as [_ H3]. destruct (H1 j Hj) as [E1 I1], (H3 j Hj) as [E2 I2].
  split; [congruence|auto].
Qed.

Lemma create_others c und pf order c' i : createSession ent c und pf order = (c', Some i) -> pool_ok c -> Z.of_nat (length (pool c)) < maxUint64 -> others i c c'.
Proof.
  unfold createSession. destruct und as [conn|]; [|done]. set (s := NewClientSession conn pf []). set (q := uint64 _).
  set (c1 := MkClient _ _ _ _ _ _ _ _ _). intros [= <- <-] Hok Hb. apply (others_apart _ c c1); [| |apply apart_settle].
  - intros j Hj. split; [|done]. simpl. destruct (decide (j < length (pool c))%nat); [by rewrite lookup_app_l|].
    rewrite lookup_app_r by lia. rewrite (lookup_ge_None_2 (pool c)) by lia. by apply lookup_ge_None_2; simpl; lia.
  - assert (q = Z.of_nat (length (pool c)) + 1) as Hq.
    { subst q. rewrite (po_counter c Hok). unfold uint64, maxUint64 in *. rewrite Z.mod_small; lia. }
    by apply (append_ok c (MkPSession s q 0 ∅ ∅)).
Qed.

(** The stream [o] of session [i] is open and has its callback, unless the session is closed. *)
Definition hooked_up c (i o : nat) : Prop :=
  exists ps, pool c !! i = Some ps /\ o ∈ armed ps /\ (die (sess ps) = true \/ exists st, objs (sess ps) !! o = Some st /\ died st = false).

Lemma open_on_others c0 c i ps r :
  others i c0 c -> pool_ok c -> pool c !! i = Some ps ->
  r = (match OpenStream ent (sess ps) with
       | (s', inr _) => (close_session (settle c i s') i, inr CreateStreamFailed)
       | (s', inl o) => (upd (upd (settle c i s') i (add_hooked o)) i (add_armed o), inl (i, o))
       end : Client C M * ((nat * nat) + pool_error)) ->
  others i c0 r.1 /\
  match r.2 with
  | inl (j, o) => j = i /\ hooked_up r.1 i o
  | inr _ => forall ps', pool r.1 !! i = Some ps' -> die (sess ps') = true
  end.
Proof.
  intros Ho Hok Hi ->. destruct (OpenStream ent (sess ps)) as [s' [o|e]] eqn:E; cbn [fst snd].
  - pose proof (OpenStream_inl ent _ _ _ E) as (Hlen & Hh & Hd & Hd' & [st Hst] & _). split.
    + apply (others_apart _ _ c); [done|done|]. etrans; [apply apart_settle|]. etrans; by apply apart_upd.
    + split; [done|]. rewrite (settle_quiet c i ps) by done. exists (add_armed o (add_hooked o (set_sess s' ps))). split_and!.
      * by rewrite lookup_upd, decide_True, lookup_upd, decide_True, lookup_upd, decide_True, Hi.
      * simpl. apply elem_of_union. left. by apply elem_of_singleton.
      * right. exists st. split; [done|]. pose proof (oa_sess _ _ _ (po_at c Hok i ps Hi)) as Hs.
        pose proof (OpenStream_ok ent (sess ps) Hs) as Hs'. rewrite E in Hs'. cbn [fst] in Hs'.
        pose proof (ho_hook _ _ (ok_heap _ Hs') o st Hst) as Hf. rewrite Hh in Hf.
        pose proof (ho_fresh _ _ (ok_heap _ Hs) o) as Hn. rewrite Hn in Hf by (by apply lookup_ge_None_2; lia). by destruct (died st).
  - split; [|intros ps' Hps'; apply close_session_pool in Hps' as (_ & _ & _ & H); by apply H].
    apply (others_apart _ _ c); [done|done|]. etrans; [apply apart_settle|apply apart_close].
Qed.

Lemma CreateStream_others c und pf order c' r :
  pool_ok c -> Z.of_nat (length (pool c)) < maxUint64 -> CreateStream ent c und pf order = (c', r) ->
  match r with
  | inl (i, o) => others i c c' /\ hooked_up c' i o
  | inr _ => c' = c \/ exists i, others i c c' /\ forall ps', pool c' !! i = Some ps' -> die (sess ps') = true
  end.
Proof.
  intros Hok Hb. unfold CreateStream, open_stream. destruct (c_die c); [intros [= <- <-]; by left|].
  set (get := if disableReuse c then (c, None) else getIdleSession c).
  set (pick := let '(c, idle) := get in match idle with Some i => (c, Some i) | None => createSession ent c und pf order end).
  assert (match pick with
    | (c1, None) => c1 = c
    | (c1, Some i) => others i c c1 /\ pool_ok c1 /\ is_Some (pool c1 !! i)
    end) as Hp.
  { assert (forall c1 i, createSession ent c und pf order = (c1, Some i) -> others i c c1 /\ pool_ok c1 /\ is_Some (pool c1 !! i)) as Hc.
    { intros c1 i E. split_and!; [by eapply create_others|by eapply createSession_ok|]. unfold createSession in E. destruct und; [|done].
      injection E as <- <-. apply lookup_lt_is_Some. rewrite length_settle. simpl. rewrite length_app. simpl. lia. }
    assert (match createSession ent c und pf order with
      | (c1, None) => c1 = c | (c1, Some i) => others i c c1 /\ pool_ok c1 /\ is_Some (pool c1 !! i) end) as Hc'.
    { destruct (createSession ent c und pf order) as [c1 [i|]] eqn:E; [by apply Hc|]. unfold createSession in E. destruct und; [done|]. by injection E as <-. }
    subst pick get. destruct (disableReuse c); [done|]. destruct (getIdleSession c) as [c1 [i|]] eqn:E.
    - destruct (getIdle_spec c c1 i Hok E) as (k & ps & Hi & Hk & -> & _). split_and!; [|by apply remove_idle_ok|by exists ps].
      intros j Hj. split; [done|]. intros [k' Hk']. exists k'. simpl. rewrite om_map_remove. apply lookup_delete_Some. split; [|done].
      intros ->. congruence.
    - unfold getIdleSession in E. destruct (om_list (idleSession c)) as [|[? ?]]; simplify_eq. done. }
  replace (match get with (c0, idle) => _ end) with
    (match pick with
     | (c1, None) => (c1, inr CreateSessionFailed)
     | (c1, Some i) => match pool c1 !! i with
        | None => (c1, inr CreateSessionFailed)
        | Some ps => match OpenStream ent (sess ps) with
            | (s', inr _) => (close_session (settle c1 i s') i, inr CreateStreamFailed)
            | (s', inl o) => (upd (settle c1 i s') i (add_hooked o), inl (i, o)) end end
     end : Client C M * ((nat * nat) + pool_error)) by (subst pick; by destruct get as [? [?|]]).
  clearbody pick. destruct pick as [c1 [i|]]; [|intros [= <- <-]; by left]. destruct Hp as (Ho & Hok1 & [ps Hi]). rewrite Hi.
  destruct (open_on_others c c1 i ps _ Ho Hok1 Hi eq_refl) as [H1 H2].
  destruct (OpenStream ent (sess ps)) as [s' [o|e]]; cbn [fst snd] in H1, H2; intros [= <- <-]; [by destruct H2|]. right. by exists i.
Qed.

(** A write closes no stream and no session. *)
Lemma write_keeps (s : Session C) o b : hooks (stream_Write ent s o b).1.1 = hooks s /\ die (stream_Write ent s o b).1.1 = die s.
Proof.
  unfold stream_Write. destruct (objs s !! o) as [st|]; [|done]. destruct (Deadline.closed _); [done|]. destruct (dieErr st); [done|].
  destruct (writeDataFrame _ _ _ _ _) as [[w' n] e]. unfold count_rx. by repeat case_match.
Qed.

Lemma write_serving c i o l c' e :
  pool_ok c -> hooked_up c i o -> write_addr ent md5hex clientDebugPaddingScheme c i o l = (c', e) -> hooked_up c' i o.
Proof.
  revert c. induction l as [|b l IH]; intros c Hok Hsv; simpl; [by intros [= <- <-]|]. unfold write_on.
  destruct (pool c !! i) as [ps|] eqn:Hi; [|by apply IH].
  assert (hooked_up (session_op ent md5hex clientDebugPaddingScheme c i (OpStreamWrite o b)) i o) as Hop.
  { unfold session_op. rewrite Hi. set (s' := exec _ _ _ _ _).
    assert (hooks s' = hooks (sess ps) /\ die s' = die (sess ps)) as [Eh Ed].
    { subst s'. unfold exec. destruct (held _ _); [done|apply write_keeps]. }
    rewrite (settle_quiet c i ps) by done. destruct Hsv as (ps0 & H0 & Ha & Hl). assert (ps0 = ps) as -> by congruence.
    exists (set_sess s' ps). split_and!; [by rewrite lookup_upd, decide_True, Hi|done|]. simpl. rewrite Ed.
    destruct Hl as [Hl|(st & Hst & Hd)]; [by left|right].
    pose proof (oa_sess _ _ _ (po_at c Hok i ps Hi)) as Hs.
    assert (later (sess ps) s') as Hlt by apply exec_later. destruct (lt_objs _ _ Hlt o st Hst) as (st' & Hst' & _). exists st'. split; [done|].
    assert (session_ok s') as Hs' by by apply exec_ok.
    pose proof (ho_hook _ _ (ok_heap _ Hs') o st' Hst') as H1. pose proof (ho_hook _ _ (ok_heap _ Hs) o st Hst) as H2.
    rewrite Eh in H1. rewrite Hd in H2. destruct (died st'); [exfalso; lia|done]. }
  destruct (stream_Write ent (sess ps) o b).2 as [e'|]; intros H; [by injection H as <- <-|].
  by apply IH in H; [|apply session_op_ok|].
Qed.

(** What the close of an open stream reports. *)
Lemma close_reports (s : Session C) o st :
  objs s !! o = Some st -> died st = false -> let s' := (stream_Close ent s o).1 in
  die s' = true \/ die s' = false /\ hooks s' = hooks s ++ [HookStream o].
Proof.
  intros Ho Hd. unfold stream_Close, closeWithError. rewrite Ho, Hd. set (s1 := update_obj s o _).
  assert (die s1 = die s /\ hooks s1 = hooks s) as [E1 E2] by done. clearbody s1. unfold streamClosed. rewrite E1.
  destruct (die s) eqn:Hs; [by left; rewrite <- E1|]. unfold writeControlFrame. destruct (control_write _ _ _ _) as [w' [e|]]; cbn [fst].
  - left. apply (Close_fields (set_w s1 w')).
  - right. cbn [die hooks add_hook set_streams set_w]. by rewrite E1, E2.
Qed.

(** Its callback puts the session back, or closes it. *)
Lemma closed_returns now c i o ps' :
  pool_ok c -> hooked_up c i o -> let c' := close_stream ent md5hex clientDebugPaddingScheme now c i o in
  pool c' !! i = Some ps' -> die (sess ps') = true \/ idle_in c' i.
Proof.
  intros Hok (ps & Hi & Ha & Hl). cbv zeta. unfold close_stream, session_op. rewrite Hi. unfold exec.
  rewrite (close_not_held c i ps o) by (done || by apply (oa_armed _ _ _ (po_at c Hok i ps Hi))). cbn [run_op].
  set (s' := (stream_Close ent (sess ps) o).1).
  assert (die s' = true \/ die s' = false /\ hooks s' = hooks (sess ps) ++ [HookStream o]) as Hs'.
  { destruct Hl as [Hl|(st & Hst & Hd)]; [left|by apply (close_reports _ _ st)].
    apply (lt_die (sess ps)); [|done]. apply shrinks_closeWithError. }
  assert (forall c1, (forall ps1, pool c1 !! i = Some ps1 -> die (sess ps1) = true) -> pool (return_session now c1 i) !! i = Some ps' -> die (sess ps') = true) as Hdead.
  { intros c1 H1. unfold return_session. destruct (pool c1 !! i) as [ps1|] eqn:E; [|congruence].
    case_decide; [|intros ?; apply H1; congruence]. pose proof (lookup_upd c1 i (set_idleSince now) i) as Hu. simpl in *.
    rewrite Hu, decide_True, E by done. intros [= <-]. by apply (H1 ps1). }
  destruct Hs' as [Hd|[Hd Hh]].
  - intros Hps'. left. eapply Hdead, Hps'. intros ps1. rewrite (settle_dead c i ps) by done. by intros [= <-].
  - assert (pool (upd c i (set_sess s')) !! i = Some (set_sess s' ps)) as Hu by (by rewrite lookup_upd, decide_True, Hi).
    unfold settle. rewrite Hi, Hh, drop_app_length. cbn [foldl run_hook]. rewrite Hu, decide_True by done.
    unfold stream_hook. rewrite Hu. cbn [sess set_sess]. rewrite Hd.
    assert (forall ps1, pool (close_session (upd c i (set_sess s')) i) !! i = Some ps1 -> die (sess ps1) = true) as Hcl
      by (intros ps1 (_ & _ & _ & H)%close_session_pool; by apply H).
    destruct (disableReuse _); [intros H; left; by eapply Hdead|]. destruct (c_die _); [intros H; left; by eapply Hdead|].
    intros _. right. unfold return_session. cbn [pool set_returning]. rewrite Hu, decide_True by (simpl; set_solver).
    exists (pool_key (seq ps)). simpl. by rewrite om_map_insert, lookup_insert_eq.
Qed.

(** Everything open after a failed request is idle, or was open and not idle before. *)
Lemma failed_sessions i c c' :
  pool_ok c -> others i c c' -> (forall ps', pool c' !! i = Some ps' -> die (sess ps') = true \/ idle_in c' i) ->
  forall j ps', pool c' !! j = Some ps' -> die (sess ps') = false ->
    idle_in c' j \/ exists ps, pool c !! j = Some ps /\ die (sess ps) = false /\ ~ idle_in c j.
Proof.
  intros Hok Ho Hi j ps' Hj Hd. destruct (decide (j = i)) as [->|Hne]; [destruct (Hi ps' Hj); [congruence|by left]|].
  destruct (Ho j Hne) as [E HI]. rewrite E in Hj.
  destruct (decide (om_map (idleSession c) !! pool_key (seq ps') = Some j)) as [Hk|Hk]; [left; apply HI; by exists (pool_key (seq ps'))|].
  right. exists ps'. split_and!; try done. intros [k Hkj]. by destruct (oa_idle _ _ _ (po_at c Hok j ps' Hj) k Hkj) as [-> _].
Qed.

(** C22.  A request opens one stream or none: [CreateProxy] keeps the pool well formed; if it
    succeeds, the stream it returns is the only one that can have become open in the
    pool, and if it fails, for want of a session or because the destination could not be
    written, none has, and no session is left in use: a session that is open afterwards is on the idle list, ready for the
    next request, or it was open and not idle before the request.  (The request runs without other
    goroutines in between, and the pool has made fewer than 2^64 - 1 sessions.) *)
Theorem failed_request_closed now c und pf order d c' r :
  pool_ok c -> Z.of_nat (length (pool c)) < maxUint64 ->
  CreateProxy ent md5hex clientDebugPaddingScheme WriteAddrPort now c und pf order d = (c', r) ->
  pool_ok c' /\
  (forall j ps' o', pool c' !! j = Some ps' -> live ps' o' ->
    r = inr (j, o') \/ exists ps, pool c !! j = Some ps /\ live ps o') /\
  forall e, r = inl e -> forall j ps', pool c' !! j = Some ps' -> die (sess ps') = false ->
    idle_in c' j \/ exists ps, pool c !! j = Some ps /\ die (sess ps) = false /\ ~ idle_in c j.
Proof.
  intros Hok Hb H. unfold CreateProxy in H. pose proof (CreateStream_ok ent c und pf order Hok Hb) as Hok1.
  destruct (CreateStream ent c und pf order) as [c1 res] eqn:Ec. pose proof (CreateStream_others _ _ _ _ _ _ Hok Hb Ec) as Hoth.
  apply CreateStream_evolves in Ec. simpl in Hok1.
  destruct res as [[i o]|e].
  2:{ injection H as <- <-. split_and!; [done| |].
      - intros j ps' o' Hj Hl. right. eapply evolves_live; [by apply pool_handed|done..].
      - intros e' _. destruct Hoth as [->|(i & Ho & Hi)]; [apply (failed_sessions (length (pool c))); [done|done|intros ps' ?%lookup_lt_Some; lia]|].
        apply (failed_sessions i); try done. intros ps' Hps'. left. by apply Hi. }
  destruct Ec as (c0 & He0 & -> & _), Hoth as [Hoth Hserv]. destruct (write_addr _ _ _ _ i o _) as [c2 e] eqn:Ew.
  destruct (write_addr_ok _ _ _ _ _ _ Hok1 Ew) as [Hok2 He2].
  assert (forall c3, evolves c2 c3 -> forall j ps' o', pool c3 !! j = Some ps' -> live ps' o' ->
    (j, o') = (i, o) \/ exists ps, pool c !! j = Some ps /\ live ps o') as Hall by (intros c3 He3; eapply handed_out; [done|exact Hok1|done|by etrans]).
  destruct e as [e|]; injection H as <- <-.
  - split_and!; [by apply return_session_ok, session_op_ok| |].
    + intros j ps' o' Hj Hl. right. assert (evolves c2 (close_stream ent md5hex clientDebugPaddingScheme now c2 i o)) as He3
        by (etrans; [apply evolves_op|apply evolves_return]).
      destruct (Hall _ He3 j ps' o' Hj Hl) as [[= -> ->]|?]; [|done]. by destruct (close_stream_dead now c2 i o ps' Hok2 Hj).
    + intros e' _. apply (failed_sessions i); [done| |].
      * apply (others_apart _ _ (upd (upd c0 i (add_hooked o)) i (add_armed o))); [done|done|].
        trans c2; [|etrans; [apply apart_op|apply apart_return]]. pose proof (apart_write i (upd (upd c0 i (add_hooked o)) i (add_armed o)) o (WriteAddrPort d)) as Hw.
        by rewrite Ew in Hw.
      * intros ps' Hps'. apply (closed_returns now c2 i o ps'); [done| |done]. by eapply write_serving, Ew.
  - split_and!; [done| |done]. intros j ps' o' Hj Hl. destruct (Hall c2 (reflexivity _) j ps' o' Hj Hl) as [[= -> ->]|?]; [by left|by right].
Qed.

End spec.

(** ** The first request, from end to end *)

Section deliver.
Context {D C : Type} `{!NetConn D, !NetConnLaws D, !NetConn C}.
Variable ent_client : Z -> nat -> Z.
Variable ent : Z -> nat -> Z.
Variable md5hex : bytes -> string.
Variable debug : bool.

Abbreviation recv := (recv_step ent md5hex debug).
Abbreviation handle := (handle_frame ent md5hex debug).

(** A control frame is added to what a writer carries. *)
Lemma control_carried pf (w w' : Writer D) f fs :
  scheme_between 1 maxUint16 pf = true -> wf_frame f -> cmd f <> cmdWaste -> carries w fs ->
  control_write ent_client pf w f = (w', None) -> carries w' (fs ++ [f]).
Proof.
  intros Hpf Hf Hne Hc Hw. eapply carries_extend; [done..|]. eapply control_write_extends; [by intros _|done].
Qed.

(** A short payload goes out as one frame, with all that was buffered. *)
Lemma short_data_carried pf (w w' : Writer D) id b n fs :
  scheme_between 1 maxUint16 pf = true -> is_uint32 id -> len b <= maxUint16 -> carries w fs -> buffering w = false ->
  writeDataFrame ent_client pf w id b = (w', n, None) -> carries w' (fs ++ [Frame cmdPSH id b]) /\ buffer w' = [].
Proof.
  intros Hpf Hid Hb Hc Hbuf H. assert (padding_ok pf w) as Hp by by intros _.
  assert (chunk_frame id b = Frame cmdPSH id b) as Ec.
  { unfold chunk_frame. f_equal. rewrite Z.min_l by done. by apply slice_to_all. }
  assert (exists w1, writeDataChunk ent_client pf w id b = (w1, None) /\ w' = w1) as (w1 & Hw & ->).
  { unfold writeDataFrame in H.
    assert (forall fuel, writeDataLoop ent_client fuel pf w id b 0 = (w', n, None) ->
      exists w1, writeDataChunk ent_client pf w id b = (w1, None) /\ w' = w1) as Hl; [|by eapply Hl].
    intros fuel Hf. destruct fuel; cbn [writeDataLoop] in Hf;
      change (slice_to (Z.min (len b) maxFramePayload) b) with (data (chunk_frame id b)) in Hf; rewrite Ec in Hf; cbn [data] in Hf;
      destruct (writeDataChunk ent_client pf w id b) as [w1 [e|]]; try done;
      (assert (slice_from (len b) b = []) as E by (apply len_zero_nil; rewrite len_slice_from; pose proof (len_nonneg b); lia));
      rewrite E in Hf; simpl in Hf; injection Hf as <- _; by exists w1. }
  pose proof (writeDataChunk_extends _ _ _ _ _ _ _ Hp Hw) as Hx. split.
  - eapply carries_extend; [done| |done|done]. by split.
  - destruct Hx as (_ & ws & _ & _ & Hx). by apply Hx.
Qed.

(** What the operations of a session do to its writer. *)
Lemma run_writer (c : D) pf order :
  let s := start ent_client true c pf order in
  die s = false -> padding s = pf /\ streamId s = 0 /\
  control_write ent_client pf (MkWriter c true true [] 0) (Frame cmdSettings 0 (StringMap.ToBytes order)) = (w s, None).
Proof.
  cbv zeta. set (s0 := set_w (NewClientSession c pf []) (MkWriter c true true [] 0)).
  change (start ent_client true c pf order) with
    (loop_top (set_pc (writeControlFrame ent_client s0 (Frame cmdSettings 0 (StringMap.ToBytes order))).1 Reading)).
  unfold writeControlFrame. change (padding s0) with pf. change (w s0) with (MkWriter c true true [] 0).
  destruct (control_write ent_client pf _ _) as [w1 [e|]]; intros Hd; [|by split_and!].
  exfalso. rewrite (proj1 (top_hooks _)) in Hd. cbn [fst die set_pc] in Hd. pose proof (Close_fields (set_w s0 w1)) as [H _]. congruence.
Qed.

Lemma open_writer (s s2 : Session D) o :
  OpenStream ent_client s = (s2, inl o) ->
  let id := uint32 (streamId s + 1) in
  die s = false /\ padding s2 = padding s /\ objs s2 !! o = Some (newStream id) /\
  exists w2, control_write ent_client (padding s) (w s) (newFrame cmdSYN id) = (w2, None) /\ w s2 = unbuffer w2.
Proof.
  unfold OpenStream, open_SYN. destruct (die s) eqn:Hd; [done|]. cbn [alloc]. set (id := uint32 (streamId s + 1)). cbv zeta.
  set (s1 := if (2 <=? id) && _ then set_synDone _ true else _).
  assert (padding s1 = padding s /\ w s1 = w s /\ die s1 = false /\ objs s1 = objs s ++ [newStream id]) as (E1 & E2 & E3 & E4)
    by (subst s1; by case_match).
  unfold writeControlFrame. rewrite E1, E2. destruct (control_write ent_client (padding s) (w s) _) as [w2 [e|]]; [done|].
  unfold open_register, open_unbuffer. cbn [die set_w]. rewrite E3. intros [= <- <-]. cbn [padding set_streams set_w objs w]. rewrite E1, E4.
  split_and!; [done|done|by apply list_lookup_middle|]. by exists w2.
Qed.

Lemma write_writer (s s3 : Session D) o id b n :
  objs s !! o = Some (newStream id) -> stream_Write ent_client s o b = (s3, n, None) ->
  writeDataFrame ent_client (padding s) (w s) id b = (w s3, n, None).
Proof.
  intros Ho. unfold stream_Write. rewrite Ho. cbn [writeDeadline newStream dieErr st_id Deadline.closed Deadline.MakePipeDeadline].
  destruct (writeDataFrame ent_client (padding s) (w s) id b) as [[w3 n3] e3].
  assert (forall m, w (count_rx (set_w s w3) o m) = w3) as Hcnt by (intros m; unfold count_rx; by repeat case_match).
  simpl. intros [= <- <- ->]. f_equal. f_equal. destruct (0 <? n3); by rewrite ?Hcnt.
Qed.

(** What a new client session writes for its first request. *)
Lemma request_written (c : D) pf order s2 o b s3 n :
  conn_wire c = [] -> scheme_between 1 maxUint16 pf = true -> len (StringMap.ToBytes order) <= maxUint16 -> len b <= maxUint16 ->
  OpenStream ent_client (start ent_client true c pf order) = (s2, inl o) ->
  stream_Write ent_client s2 o b = (s3, n, None) ->
  exists gs, Forall wf_frame gs /\ conn_wire (w_conn (w s3)) = encode_all gs /\
    strip_waste gs = [Frame cmdSettings 0 (StringMap.ToBytes order); newFrame cmdSYN 1; Frame cmdPSH 1 b].
Proof.
  intros Hc Hpf Hset Hb Hop Hw. destruct (open_writer _ _ _ Hop) as (Hd & Epad & Ho & w2 & E2 & Ew2).
  destruct (run_writer c pf order Hd) as (Ep & Eid & E1). rewrite Eid in Ho, E2. rewrite Ep in E2, Epad.
  apply (write_writer _ _ _ _ _ _ Ho) in Hw. rewrite Epad, Ew2 in Hw.
  assert (carries (MkWriter c true true [] 0) []) as C0 by by apply fresh_carries.
  apply (control_carried pf _ _ _ [] Hpf) in E1; [|by split|done|done].
  apply (control_carried pf _ _ _ [Frame cmdSettings 0 (StringMap.ToBytes order)] Hpf) in E2; [|by split|done|exact E1].
  apply (short_data_carried pf _ _ _ _ _ ([Frame cmdSettings 0 (StringMap.ToBytes order)] ++ [newFrame cmdSYN 1]) Hpf) in Hw
    as [(gs & Hgs & Hs & Hf) Hbuf]; [|by split|done|exact E2|done].
  exists gs. split_and!; [done| |done]. unfold sent in Hs. by rewrite Hbuf, app_nil_r in Hs.
Qed.

(** The loop reaches the next frame that is not padding. *)
Lemma recv_until (s : Session C) gs f rest :
  Forall wf_frame gs -> strip_waste gs = f :: rest -> pc s = Reading -> die s = false -> inp s = encode_all gs ->
  exists n gs', Nat.iter n recv s = set_inp (handle s f) (encode_all gs') /\ Forall wf_frame gs' /\ strip_waste gs' = rest.
Proof.
  revert s. induction gs as [|g gs IH]; intros s Hgs Hf Hpc Hd Hi; [done|]. apply Forall_cons in Hgs as [Hg Hgs].
  rewrite encode_all_cons in Hi. pose proof (recv_frame ent md5hex debug s g _ Hg Hpc Hi) as Hr.
  set (k := if decide (data g = []) then 1%nat else 2%nat) in *. unfold strip_waste in Hf. rewrite filter_cons in Hf. case_decide as Hw.
  - injection Hf as -> Hf. exists k, gs. split_and!; [|done|done]. rewrite Hr. apply EndToEnd.inp_handle.
  - rewrite EndToEnd.waste_handled, loop_top_open in Hr by (done || by destruct (decide (cmd g = cmdWaste))).
    destruct (IH (set_inp s (encode_all gs)) Hgs Hf Hpc Hd eq_refl) as (n & gs' & Hn & H1 & H2).
    exists (n + k)%nat, gs'. split_and!; [|done|done]. rewrite Nat.iter_add, Hr, Hn.
    rewrite <- !(EndToEnd.inp_handle ent md5hex debug). by destruct s.
Qed.

(** The server takes the settings, and is still open if its answers were written. *)
Lemma settings_handled (s : Session C) d :
  isClient s = false -> d <> [] -> pc s = Reading ->
  let s1 := handle s (Frame cmdSettings 0 d) in
  die s1 = false ->
  pc s1 = Reading /\ receivedSettings s1 = true /\ streams s1 = streams s /\ objs s1 = objs s /\ isClient s1 = false /\ spawned s1 = spawned s.
Proof.
  intros Hc Hd Hpc s1.
  assert (forall x e, die (end_turn (return_ x e)) = true) as Hret by (intros x e; by destruct (finish_fields x)).
  assert (forall x v, isClient x = false -> pc x = Reading -> receivedSettings x = true ->
    let y := end_turn (check_version ent x v) in die y = false ->
    pc y = Reading /\ receivedSettings y = true /\ streams y = streams x /\ objs y = objs x /\ isClient y = false /\ spawned y = spawned x) as Hver.
  { assert (forall x : Session C, die (loop_top x) = false -> loop_top x = x) as Htop
      by (intros x Hx; apply loop_top_open; by rewrite (proj1 (top_hooks x)) in Hx).
    intros x v X1 X2 X3. unfold check_version. destruct (Atoi v) as [i|]; [destruct (2 <=? i)|].
    - unfold writeControlFrame. destruct (control_write _ _ _ _) as [w' [e|]]; [by rewrite Hret|]. cbv zeta. intros Hy. cbn [end_turn go_on] in *. by rewrite Htop.
    - cbv zeta. intros Hy. cbn [end_turn go_on] in *. by rewrite Htop.
    - cbv zeta. intros Hy. cbn [end_turn go_on] in *. by rewrite Htop. }
  subst s1. unfold handle_frame. cbn [cmd sid data]. destruct d as [|b d]; [done|].
  repeat (rewrite bool_decide_false by done). rewrite bool_decide_true by done.
  unfold recv_Settings. rewrite Hc. set (s0 := set_receivedSettings s true). cbv zeta.
  destruct (String.eqb _ _); [by apply (Hver s0)|]. unfold writeControlFrame.
  destruct (control_write _ _ _ _) as [w' [e|]]; [by rewrite Hret|]. by apply (Hver (set_w s0 w')).
Qed.

(** It accepts a first stream. *)
Lemma syn_handled (s : Session C) id :
  die s = false -> isClient s = false -> receivedSettings s = true -> streams s = ∅ ->
  handle s (newFrame cmdSYN id) =
  add_spawned (set_streams (set_objs s (objs s ++ [newStream id])) {[id := length (objs s)]}) (length (objs s)).
Proof.
  intros Hd Hc Hr Hs. unfold handle_frame. rewrite bool_decide_true by done. unfold recv_SYN, acceptStream. cbn [sid newFrame].
  rewrite Hc, Hr, Hs, lookup_empty, map_size_empty. change (maxServerStreams <=? Z.of_nat 0) with false. cbn [negb andb alloc].
  cbn [streams set_objs end_turn go_on]. rewrite loop_top_open by done. by rewrite Hs.
Qed.

(** And offers it the data of its first frame. *)
Lemma psh_offers (s : Session C) id o d :
  streams s !! id = Some o -> objs s !! o = Some (newStream id) -> d <> [] ->
  offered (handle s (Frame cmdPSH id d)) o (Pipe.MkWstate d 0 true) /\ streams (handle s (Frame cmdPSH id d)) = streams s /\
  spawned (handle s (Frame cmdPSH id d)) = spawned s.
Proof.
  intros Hs Ho Hd. unfold handle_frame. cbn [cmd sid data]. destruct d as [|b d]; [done|].
  repeat (rewrite bool_decide_false by done). rewrite bool_decide_true by done.
  unfold recv_PSH. rewrite Hs, Ho. cbn [st_pipe newStream]. split_and!; [|done|done]. split; [|done].
  eexists. split; [refine (eq_trans (lookup_update_obj s o _ o) _); rewrite decide_True by done; by rewrite Ho|]. done.
Qed.

(** [M.SocksaddrSerializer.ReadAddrPort]: the address and the bytes after it. *)
Variable WriteAddrPort : Policy.Socksaddr -> list bytes.
Variable ReadAddrPort : bytes -> option (Policy.Socksaddr * bytes).

(** C5.  What the client asks for is what the server's handler reads.  A client session is
    started on a fresh connection with a padding scheme whose sizes are between 1 and 65535, settings of 1 to 65535 bytes, opens its first
    stream and writes the destination, in one write of 1 to 65535 bytes that reads back as the
    destination; a server session without streams, at the start of its loop, receives these bytes, and can write its answer to the
    settings.  Then, whatever padding of that scheme was put between, after some turns the server has
    accepted the stream and started its handler, and a handler that reads with a buffer of any
    size reads exactly the destination. *)
Theorem request_reaches_handler (c : D) pf order s2 o b s3 n (sv : Session C) d :
  ReadAddrPort (concat (WriteAddrPort d)) = Some (d, []) -> WriteAddrPort d = [b] ->
  conn_wire c = [] -> scheme_between 1 maxUint16 pf = true -> 0 < len (StringMap.ToBytes order) <= maxUint16 -> 0 < len b <= maxUint16 ->
  OpenStream ent_client (start ent_client true c pf order) = (s2, inl o) ->
  stream_Write ent_client s2 o b = (s3, n, None) ->
  pc sv = Reading -> die sv = false -> isClient sv = false -> streams sv = ∅ -> inp sv = conn_wire (w_conn (w s3)) ->
  die (handle sv (Frame cmdSettings 0 (StringMap.ToBytes order))) = false ->
  exists turns, let s := Nat.iter turns recv sv in
    streams s = {[1 := length (objs sv)]} /\ spawned s = spawned sv ++ [length (objs sv)] /\
    forall k, (0 < k)%nat -> ReadAddrPort (concat (read_all (S (length b)) s (length (objs sv)) k).1) = Some (d, []).
Proof.
  intros Hser Hwr Hc Hpf Hset Hb Hop Hw Hpc Hdie Hcl Hstr Hin Hans.
  assert (forall x : bytes, 0 < len x -> x <> []) as Hne by (intros x Hx ->; done).
  assert (ReadAddrPort b = Some (d, [])) as Hread by (rewrite Hwr in Hser; simpl in Hser; by rewrite app_nil_r in Hser).
  destruct (request_written c pf order s2 o b s3 n Hc Hpf) as (gs & Hgs & Hwire & Hf); [lia|lia|done|done|].
  rewrite Hwire in Hin. destruct (recv_until sv gs _ _ Hgs Hf Hpc Hdie Hin) as (n1 & gs1 & E1 & Hgs1 & Hf1).
  destruct (settings_handled sv (StringMap.ToBytes order) Hcl (Hne _ (proj1 Hset)) Hpc Hans) as (P1 & R1 & S1 & O1 & C1 & W1).
  set (t1 := set_inp _ (encode_all gs1)) in E1.
  destruct (recv_until t1 gs1 _ _ Hgs1 Hf1 P1 Hans eq_refl) as (n2 & gs2 & E2 & Hgs2 & Hf2).
  rewrite (syn_handled t1 1 Hans C1 R1 (eq_trans S1 Hstr)) in E2. change (objs t1) with (objs (handle sv (Frame cmdSettings 0 (StringMap.ToBytes order)))) in E2.
  rewrite O1 in E2. set (t2 := set_inp _ (encode_all gs2)) in E2.
  destruct (recv_until t2 gs2 _ _ Hgs2 Hf2 P1 Hans eq_refl) as (n3 & gs3 & E3 & _).
  destruct (psh_offers t2 1 (length (objs sv)) b) as (Hof & Hs3 & Hw3); [apply lookup_insert_eq| |apply Hne, Hb|].
  { simpl. by apply list_lookup_middle. }
  exists (n3 + (n2 + n1))%nat. rewrite !Nat.iter_add, E1, E2, E3. cbv zeta. split_and!.
  - done.
  - simpl. change (spawned (handle t2 (Frame cmdPSH 1 b)) = spawned sv ++ [length (objs sv)]). rewrite Hw3. simpl. by rewrite W1.
  - intros k Hk. set (s := set_inp (handle t2 _) _).
    assert (offered s (length (objs sv)) (Pipe.MkWstate b 0 true)) as Hofs by (destruct Hof as [H1 H2]; by split).
    destruct (read_all_drain (S (length b)) s _ k _ Hofs) as (s4 & -> & _). cbn [fst].
    pose proof (Pipe.drain_complete (S (length b)) k (Pipe.MkWstate b 0 true) Hk) as Hdr.
    destruct (Pipe.drain _ _ _) as [ds ws]. destruct Hdr as (Hcat & _); [simpl; lia|simpl; lia|]. simpl in *. by rewrite Hcat.
Qed.

End deliver.

(** ** Sample runs *)

(** The form of an IPv4 address in SOCKS5: a tag, four bytes, the port. *)
Definition sample_write_addr (d : Policy.Socksaddr) : list bytes :=
  match d with
  | Policy.SockIP ip port => [x01 :: ip ++ PutUint16 port]
  | Policy.SockFqdn _ _ => [[]]
  end.

Definition sample_read_addr (b : bytes) : option (Policy.Socksaddr * bytes) :=
  match b with
  | x01 :: i1 :: i2 :: i3 :: i4 :: p1 :: p2 :: rest => Some (Policy.SockIP [i1; i2; i3; i4] (Uint16 p1 p2), rest)
  | _ => None
  end.

Definition sample_destination : Policy.Socksaddr := Policy.SockIP [x08; x08; x04; x04] 443.

Definition sample_settings : list (string * string) := [("v", "2"); ("padding-md5", "md5")].

Definition sample_started : Session PlainConn := start (fun _ _ => 7) true plain_new (default_factory (fun _ => "md5")) sample_settings.
Definition sample_opened : Session PlainConn := (OpenStream (fun _ _ => 7) sample_started).1.
Definition sample_asked : Session PlainConn := (stream_Write (fun _ _ => 7) sample_opened 0 (concat (sample_write_addr sample_destination))).1.1.

Lemma request_reaches_handler_witness :
  exists turns, let s := Nat.iter turns (recv_step sample_ent sample_md5 false) (set_inp sample_server (conn_wire (w_conn (w sample_asked)))) in
    streams s = {[1 := 0%nat]} /\ spawned s = [0%nat] /\
    forall k, (0 < k)%nat -> sample_read_addr (concat (read_all 8 s 0 k).1) = Some (sample_destination, []).
Proof.
  apply (request_reaches_handler (fun _ _ => 7) sample_ent sample_md5 false sample_write_addr sample_read_addr plain_new
    (default_factory (fun _ => "md5")) sample_settings sample_opened 0 (concat (sample_write_addr sample_destination)) sample_asked 7
    (set_inp sample_server (conn_wire (w_conn (w sample_asked)))) sample_destination).
  - reflexivity.
  - reflexivity.
  - reflexivity.
  - apply default_fits.
  - vm_compute. split; congruence.
  - vm_compute. split; congruence.
  - vm_compute. reflexivity.
  - vm_compute. reflexivity.
  - vm_compute. reflexivity.
  - vm_compute. reflexivity.
  - vm_compute. reflexivity.
  - vm_compute. reflexivity.
  - reflexivity.
  - vm_compute. reflexivity.
Defined.

(** A new session whose connection is broken: the request cannot be written and no stream
    is left open. *)
Definition sample_request : Client PlainConn assoc_map * (proxy_error + nat * nat) :=
  CreateProxy sample_ent sample_md5 false sample_write_addr 0 (NewClient 5 false) (Some (plain_close plain_new))
    (default_factory (fun _ => "md5")) sample_settings sample_destination.

Lemma failed_request_closed_witness :
  sample_request.2 = inl (ErrWrite ErrNetClosed) /\ pool_ok sample_request.1 /\
  (forall j ps' o', pool sample_request.1 !! j = Some ps' -> ~ live ps' o') /\
  forall j ps', pool sample_request.1 !! j = Some ps' -> die (sess ps') = false -> idle_in sample_request.1 j.
Proof.
  assert (sample_request.2 = inl (ErrWrite ErrNetClosed)) as E by (vm_compute; reflexivity). split; [exact E|].
  destruct (failed_request_closed sample_ent sample_md5 false sample_write_addr 0 (NewClient 5 false) (Some (plain_close plain_new))
    (default_factory (fun _ => "md5")) sample_settings sample_destination sample_request.1 sample_request.2) as (H1 & H2 & H3).
  - apply NewClient_ok.
  - reflexivity.
  - unfold sample_request. apply surjective_pairing.
  - assert (forall j (ps : PSession PlainConn), pool (NewClient 5 false : Client PlainConn assoc_map) !! j = Some ps -> False) as Hnone.
    { intros j ps H. change (([] : list (PSession PlainConn)) !! j = Some ps) in H. rewrite lookup_nil in H. discriminate H. }
    split; [exact H1|]. split.
    + intros j ps' o' Hj Hl. destruct (H2 j ps' o' Hj Hl) as [H|(ps & H & _)]; [rewrite E in H; discriminate H|exact (Hnone j ps H)].
    + intros j ps' Hj Hd. destruct (H3 _ E j ps' Hj Hd) as [H|(ps & H & _)]; [exact H|destruct (Hnone j ps H)].
Defined.

End Request.
