(* ===== verification/Dump.v ===== *)
(** * Dump: the text form of /dump/streams
      (the rows of stats/stream.go and WriteStreamDump of stats/registry.go)

    A row has ten columns, padded with spaces.  The theorems say that the columns can be read
    back, so that a row identifies its stream and its traffic, and how much the times are
    rounded.  [time.Duration.String] and [Round], and the verbs of [fmt] used, are
    modelled. *)

From S2P Require Import Prelude GoStrings RefTable Stats.
#[local] Open Scope string_scope.
#[local] Open Scope list_scope.
#[local] Open Scope Z_scope.

Module Dump.

(** ** Texts *)

(** [strings.ToUpper] on ASCII; the states are. *)
Definition upper_ascii (a : ascii) : ascii :=
  let n := nat_of_ascii a in if ((97 <=? n) && (n <=? 122))%nat then ascii_of_nat (n - 32) else a.

Fixpoint ToUpper (s : string) : string :=
  match s with EmptyString => "" | String a s => String (upper_ascii a) (ToUpper s) end.

Definition hex_digit (n : Z) : ascii := ascii_of_nat (Z.to_nat (if n <? 10 then n + 48 else n + 55)).

(** [fmt.Sprintf("%08X", n)] of a [uint32] *)
Fixpoint hex_digits (k : nat) (n : Z) (acc : string) : string :=
  match k with O => acc | S k => hex_digits k (n / 16) (String (hex_digit (n mod 16)) acc) end.

Definition hex8 (n : Z) : string := hex_digits 8 n "".

Fixpoint spaces (n : nat) : string := match n with O => "" | S n => String " " (spaces n) end.

(** The verbs [%12s] and [%-12s] count runes. *)
Definition width (s : string) : nat := length (runes s).
Definition pad_left (n : nat) (s : string) : string := spaces (n - width s) +:+ s.
Definition pad_right (n : nat) (s : string) : string := s +:+ spaces (n - width s).

(** ** Durations *)

Definition Millisecond : Z := 1000000.
Definition Second : Z := 1000000000.
Definition Minute : Z := 60 * Second.

(** [d.Round(m)] for [m > 0]: to the nearest multiple, halves away from zero, with the
    largest duration instead of an overflow. *)
Definition Round (d m : Z) : Z :=
  let r := Z.rem d m in
  if d <? 0 then
    let r := - r in
    if r + r <? m then d + r else let d1 := int64 (d - m + r) in if d1 <? d then d1 else minInt64
  else
    if r + r <? m then d - r else let d1 := int64 (d + m - r) in if d <? d1 then d1 else maxInt64.

(** [fmtFrac]: the last [prec] digits as a fraction without trailing zeros. *)
Fixpoint fmt_frac (prec : nat) (print : bool) (v : Z) (buf : string) : string * Z :=
  match prec with
  | O => (if print then String "." buf else buf, v)
  | S prec =>
      let digit := v mod 10 in
      let print := print || negb (digit =? 0) in
      fmt_frac prec print (v / 10) (if print then String (ascii_of_nat (Z.to_nat (digit + 48))) buf else buf)
  end.

(** [Duration.String] *)
Definition Duration_String (d : Z) : string :=
  let u := Z.abs d in
  let body :=
    if u <? Second then
      if u =? 0 then "0s"
      else
        let '(prec, unit) :=
          if u <? 1000 then (0%nat, "ns") else if u <? Millisecond then (3%nat, of_bytes [xc2; xb5; x73]) else (6%nat, "ms") in
        let '(buf, u) := fmt_frac prec false u unit in Itoa u +:+ buf
    else
      let '(buf, u) := fmt_frac 9 false u "s" in
      let buf := Itoa (u mod 60) +:+ buf in
      let u := u / 60 in
      if 0 <? u then
        let buf := Itoa (u mod 60) +:+ String "m" buf in
        let u := u / 60 in
        if 0 <? u then Itoa u +:+ String "h" buf else buf
      else buf in
  if d <? 0 then String "-" body else body.

(** [t.Sub(u)] of instants in nanoseconds: saturates at the bounds of a duration. *)
Definition Sub (t u : Z) : Z := Z.max minInt64 (Z.min maxInt64 (t - u)).

Definition roundLifetime (d : Z) : Z := if d <? 10 * Minute then Round d Millisecond else Round d Second.

(** ** Rows *)

Definition formatDumpStreamLine (state auth connection stream reqAddr hookedReqAddr tx rx lifetime lastActive : string) : string :=
  Join " " [pad_right 8 state; pad_right 12 auth; pad_left 12 connection; pad_left 8 stream; pad_left 12 tx; pad_left 12 rx;
            pad_left 12 lifetime; pad_left 12 lastActive; pad_right 16 reqAddr; hookedReqAddr].

Definition or_dash (s : string) : string := if String.eqb s "" then "-" else s.

Definition line (e : Stats.StreamEntry) (now : Z) : string :=
  formatDumpStreamLine (ToUpper (Stats.State e)) (Stats.Auth e) (hex8 (Stats.Connection e)) (Itoa (Stats.Stream e))
    (or_dash (Stats.ReqAddr e)) (or_dash (Stats.HookedReqAddr e)) (Itoa (Stats.se_Tx e)) (Itoa (Stats.se_Rx e))
    (Duration_String (roundLifetime (Sub now (Stats.se_initialTime e)))) (Duration_String (roundLifetime (Sub now (Stats.se_lastActive e)))).

(** [WriteStreamDump] for "text/plain": the lines it prints. *)
Definition text_dump (r : Stats.Registry) (now : Z) : list string :=
  formatDumpStreamLine "State" "Auth" "Connection" "Stream" "Req-Addr" "Hooked-Req-Addr" "TX-Bytes" "RX-Bytes" "Lifetime" "Last-Active" ::
  map (fun e => line e now) (Stats.DumpStreams r).

Example durations :
  map Duration_String [0; 1; 1100; 2200000; 3300000000; 4 * Minute + 5 * Second; 5 * Minute + 6001 * Millisecond; 3600 * Second + 1; - Millisecond] =
  ["0s"; "1ns"; of_bytes [x31; x2e; x31; xc2; xb5; x73]; "2.2ms"; "3.3s"; "4m5s"; "5m6.001s"; "1h0m0.000000001s"; "-1ms"].
Proof. vm_compute. reflexivity. Qed.

Example header :
  formatDumpStreamLine "State" "Auth" "Connection" "Stream" "Req-Addr" "Hooked-Req-Addr" "TX-Bytes" "RX-Bytes" "Lifetime" "Last-Active" =
  "State    Auth           Connection   Stream     TX-Bytes     RX-Bytes     Lifetime  Last-Active Req-Addr         Hooked-Req-Addr".
Proof. vm_compute. reflexivity. Qed.

Example rounding : map roundLifetime [1499999; 1500000; -1500000; 10 * Minute + 499999999; maxInt64] =
  [1000000; 2000000; -2000000; 10 * Minute; maxInt64].
Proof. vm_compute. reflexivity. Qed.

(** ** Rounding *)

Lemma int64_id z : minInt64 <= z <= maxInt64 -> int64 z = z.
Proof. unfold int64, minInt64, maxInt64. intros H. rewrite Z.mod_small; lia. Qed.

Lemma Round_nonneg d m : 0 < m -> 0 <= d -> d + m <= maxInt64 -> Round d m = m * ((2 * d + m) / (2 * m)).
Proof.
  intros Hm Hd Hmax. unfold Round. rewrite Z.rem_mod_nonneg by lia. destruct (Z.ltb_spec d 0); [lia|].
  pose proof (Z.div_mod d m ltac:(lia)) as E. pose proof (Z.mod_pos_bound d m Hm) as B.
  set (q := d / m) in *. set (r := d mod m) in *. clearbody q r. destruct (Z.ltb_spec (r + r) m).
  - rewrite <-(Z.div_unique (2 * d + m) (2 * m) q (2 * r + m)); nia.
  - rewrite int64_id by (unfold minInt64, maxInt64 in *; lia). destruct (Z.ltb_spec d (d + m - r)); [|lia].
    rewrite <-(Z.div_unique (2 * d + m) (2 * m) (q + 1) (2 * r - m)); nia.
Qed.

(** What a dump shows of a duration is a whole number of milliseconds below ten minutes and of
    seconds from there on, half a unit off at most. *)
Theorem lifetime_near d :
  0 <= d <= maxInt64 - Second ->
  let unit := if d <? 10 * Minute then Millisecond else Second in
  roundLifetime d mod unit = 0 /\ 2 * Z.abs (roundLifetime d - d) <= unit.
Proof.
  intros Hd unit. unfold roundLifetime.
  assert (0 < unit <= Second) as Hu by (unfold unit, Second, Millisecond; case_match; lia).
  assert ((if d <? 10 * Minute then Round d Millisecond else Round d Second) = Round d unit) as -> by (unfold unit; by case_match).
  rewrite Round_nonneg by lia. clearbody unit. split; [by rewrite Z.mul_comm, Z_mod_mult|].
  pose proof (Z.div_mod (2 * d + unit) (2 * unit) ltac:(lia)). pose proof (Z.mod_pos_bound (2 * d + unit) (2 * unit) ltac:(lia)). lia.
Qed.

(** ** Reading a row back *)

Definition words (s : string) : list string := filter (fun w => w <> "") (Split " " s).

(** A text that is one column: not empty and without a space. *)
Definition column (s : string) : Prop := s <> "" /\ contains_byte " " s = false.

Lemma words_sep x y : words (x +:+ String " " y) = words x ++ words y.
Proof.
  unfold words. rewrite <-filter_app. f_equal. induction x as [|a x IH]; [done|].
  rewrite string_app_cons. cbn [Split]. rewrite IH. destruct (Ascii.eqb a " "); [done|].
  by destruct (Split " " x) eqn:E; [destruct (Split_not_nil " " x)|].
Qed.

Lemma words_column s : column s -> words s = [s].
Proof. intros [Hne Hs]. unfold words. rewrite Split_none by done. by rewrite filter_cons_True. Qed.

Lemma words_spaces n : words (spaces n) = [].
Proof. induction n as [|n IH]; [done|]. cbn [spaces]. by rewrite <-(string_app_nil (String " " _)), words_sep. Qed.

Lemma words_pad_left n s : words (pad_left n s) = words s.
Proof.
  unfold pad_left. generalize (n - width s)%nat as k. clear n. intros k. induction k as [|k IH]; [done|].
  cbn [spaces]. rewrite string_app_cons, <-(string_app_nil (String " " _)), words_sep. apply IH.
Qed.

Lemma words_pad_right n s : words (pad_right n s) = words s.
Proof.
  unfold pad_right. destruct (n - width s)%nat as [|k]; [by rewrite string_app_nil_r|].
  cbn [spaces]. by rewrite words_sep, words_spaces, app_nil_r.
Qed.

Lemma words_Join l : l <> [] -> words (Join " " l) = concat (map words l).
Proof.
  induction l as [|x [|y l] IH]; intros Hl; [done|by cbn [map concat]; rewrite app_nil_r|].
  change (Join " " (x :: y :: l)) with (x +:+ String " " (Join " " (y :: l))). by rewrite words_sep, IH.
Qed.

Lemma formatDumpStreamLine_words a b c d e f g h i j :
  Forall column [a; b; c; d; g; h; i; j; e; f] ->
  words (formatDumpStreamLine a b c d e f g h i j) = [a; b; c; d; g; h; i; j; e; f].
Proof.
  intros Hc. unfold formatDumpStreamLine. rewrite words_Join by done. cbn [map concat].
  rewrite !words_pad_left, !words_pad_right.
  repeat (apply Forall_cons_1 in Hc as [Hx Hc]; rewrite (words_column _ Hx); clear Hx). done.
Qed.

(** ** The columns of a stream *)

Lemma column_app x y : x <> "" -> contains_byte " " x = false -> contains_byte " " y = false -> column (x +:+ y).
Proof. intros Hx Hs Hy. split; [by destruct x|]. by rewrite contains_byte_app, Hs. Qed.

Lemma digits_column s : s <> "" -> all_digits s = true -> column s.
Proof.
  intros Hne H. split; [done|]. clear Hne. induction s as [|a s IH]; [done|]. cbn in *. apply andb_true_iff in H as [Ha H].
  rewrite (IH H), orb_false_r. by destruct (Ascii.eqb_spec a " ") as [->|].
Qed.

Lemma Itoa_column z : column (Itoa z).
Proof.
  assert (forall p, column (Itoa (Z.pos p))) as Hp.
  { intros p. destruct (Itoa_digits (Z.pos p) ltac:(lia)) as [Ha Hd]. apply digits_column; [|done]. by intros E; rewrite E in Hd. }
  destruct z as [|p|p]; [done|apply Hp|].
  change (Itoa (Z.neg p)) with ("-" +:+ Itoa (Z.pos p)). apply column_app; [done|done|apply Hp].
Qed.

(** A property of the numbers below a bound, number by number. *)
Lemma below_all (P : Z -> Prop) m : Forall P (seqZ 0 m) -> forall n, 0 <= n < m -> P n.
Proof. rewrite Forall_forall. intros H n Hn. apply H, elem_of_seqZ. lia. Qed.

Lemma digit_no_space v : 0 <= v < 10 -> Ascii.eqb (ascii_of_nat (Z.to_nat (v + 48))) " " = false.
Proof.
  revert v. apply below_all. repeat constructor.
Qed.

Lemma fmt_frac_no_space prec print v buf :
  contains_byte " " buf = false -> contains_byte " " (fmt_frac prec print v buf).1 = false.
Proof.
  revert print v buf. induction prec as [|prec IH]; intros print v buf H; cbn [fmt_frac]; [by destruct print|].
  apply IH. case_match; [|done]. cbn [contains_byte]. rewrite digit_no_space by (apply Z.mod_pos_bound; lia). done.
Qed.

Lemma Itoa_app_column z y : contains_byte " " y = false -> column (Itoa z +:+ y).
Proof. intros Hy. apply column_app; [apply Itoa_column|apply Itoa_column|done]. Qed.

Lemma Duration_String_column d : column (Duration_String d).
Proof.
  unfold Duration_String. set (body := if Z.abs d <? Second then _ else _). assert (column body) as Hb; [|destruct (d <? 0); [|done]; split; [done|apply Hb]].
  unfold body. clear body. destruct (Z.abs d <? Second).
  - destruct (Z.abs d =? 0); [done|].
    destruct (if Z.abs d <? 1000 then _ else _) as [prec unit] eqn:E.
    assert (contains_byte " " unit = false) as Hu by (repeat case_match; by simplify_eq).
    pose proof (fmt_frac_no_space prec false (Z.abs d) unit Hu) as Hf. destruct (fmt_frac _ _ _ _) as [buf u]. by apply Itoa_app_column.
  - pose proof (fmt_frac_no_space 9 false (Z.abs d) "s" eq_refl) as Hf. destruct (fmt_frac _ _ _ _) as [buf u]. cbn zeta.
    pose proof (Itoa_app_column (u mod 60) buf Hf) as H1. destruct (0 <? u / 60); [|done].
    assert (column (Itoa (u / 60 mod 60) +:+ String "m" (Itoa (u mod 60) +:+ buf))) as H2 by (apply Itoa_app_column; apply H1).
    destruct (0 <? u / 60 / 60); [|done]. apply Itoa_app_column. apply H2.
Qed.

Definition hex_value (a : ascii) : Z := let n := Z.of_nat (nat_of_ascii a) in if n <? 65 then n - 48 else n - 55.

Fixpoint ParseHex (acc : Z) (s : string) : Z :=
  match s with EmptyString => acc | String a s => ParseHex (16 * acc + hex_value a) s end.

Lemma hex_digit_spec n : 0 <= n < 16 -> hex_value (hex_digit n) = n /\ Ascii.eqb (hex_digit n) " " = false.
Proof.
  revert n. apply below_all. repeat constructor.
Qed.

Lemma hex_digits_spec k n acc :
  0 <= n -> contains_byte " " acc = false ->
  contains_byte " " (hex_digits k n acc) = false /\ ParseHex 0 (hex_digits k n acc) = ParseHex (n mod 16 ^ Z.of_nat k) acc.
Proof.
  revert n acc. induction k as [|k IH]; intros n acc Hn Ha; [split; [done|]; cbn; by rewrite Z.mod_1_r|].
  cbn [hex_digits]. destruct (hex_digit_spec (n mod 16) ltac:(apply Z.mod_pos_bound; lia)) as [Hv Hs].
  destruct (IH (n / 16) (String (hex_digit (n mod 16)) acc)) as [H1 H2]; [apply Z.div_pos; lia|cbn [contains_byte]; by rewrite Hs|].
  split; [done|]. rewrite H2. cbn [ParseHex]. f_equal. rewrite Hv, Nat2Z.inj_succ, Z.pow_succ_r by lia.
  rewrite Z.rem_mul_r by lia. lia.
Qed.

Lemma hex8_spec n : 0 <= n < 2 ^ 32 -> column (hex8 n) /\ ParseHex 0 (hex8 n) = n.
Proof.
  intros Hn. destruct (hex_digits_spec 8 n "") as [H1 H2]; [lia|done|]. split.
  - split; [|exact H1]. intros E. assert (forall k n acc, acc <> "" -> hex_digits k n acc <> "") as Hne.
    { clear. induction k as [|k IH]; intros n acc H; [done|]. by apply IH. }
    by apply (Hne 7%nat (n / 16) (String (hex_digit (n mod 16)) "")) in E.
  - unfold hex8. rewrite H2. cbn [ParseHex]. apply Z.mod_small. exact Hn.
Qed.

(** A row of the dump has ten columns that can be split at the spaces again, whatever their
    widths: the state, the user, the connection in hexadecimal, the stream, the two byte
    counts, the two times and the two addresses. *)
Theorem row_columns s now :
  column (Stats.authID s) -> column (or_dash (default "" (Stats.reqAddr s))) -> 0 <= Stats.connID s < 2 ^ 32 ->
  exists c life idle,
    words (line (Stats.entry s) now) =
      [ToUpper (Stats.StreamState_String (Stats.state s)); Stats.authID s; c; Itoa (Stats.streamID s); Itoa (Stats.tx s);
       Itoa (Stats.rx s); life; idle; or_dash (default "" (Stats.reqAddr s)); "-"] /\
    ParseHex 0 c = Stats.connID s /\
    life = Duration_String (roundLifetime (Sub now (Stats.initialTime s))) /\
    idle = Duration_String (roundLifetime (Sub now (Stats.lastActive s))).
Proof.
  intros Ha Hr Hc. destruct (hex8_spec _ Hc) as [Hh Hp]. do 3 eexists. split; [|by rewrite <-Hp].
  assert (column (ToUpper (Stats.StreamState_String (Stats.state s)))) as Hst by (by destruct (Stats.state s)).
  unfold line. apply formatDumpStreamLine_words.
  repeat (apply Forall_cons_2; [first [assumption|apply Itoa_column|apply Duration_String_column|done]|]). apply Forall_nil_2.
Qed.

(** Two rows that read the same are of one stream of one connection of one user, with the same
    traffic. *)
Theorem row_identifies s s' now now' :
  column (Stats.authID s) -> column (or_dash (default "" (Stats.reqAddr s))) -> 0 <= Stats.connID s < 2 ^ 32 ->
  column (Stats.authID s') -> column (or_dash (default "" (Stats.reqAddr s'))) -> 0 <= Stats.connID s' < 2 ^ 32 ->
  line (Stats.entry s) now = line (Stats.entry s') now' ->
  Stats.authID s = Stats.authID s' /\ Stats.connID s = Stats.connID s' /\ Stats.streamID s = Stats.streamID s' /\
  Stats.tx s = Stats.tx s' /\ Stats.rx s = Stats.rx s'.
Proof.
  intros Ha Hr Hc Ha' Hr' Hc' E. destruct (row_columns s now Ha Hr Hc) as (c & l & i & Hw & Hp & _).
  destruct (row_columns s' now' Ha' Hr' Hc') as (c' & l' & i' & Hw' & Hp' & _).
  rewrite E, Hw' in Hw. injection Hw as _ -> <- Es Et Er _ _ _. apply Itoa_inj in Es, Et, Er. by rewrite <-Hp, <-Hp'.
Qed.

End Dump.
