(* ===== verification/Timers.v ===== *)
(** * Timers: the deadline watcher and the periodic routine
      (util/deadline.go, util/routine.go)

    A watcher is the state its goroutine and the [done] function share, with one operation for
    each thing that can happen next; a schedule is any sequence of them.  The routine is
    the turns of its loop. *)

From S2P Require Import Prelude.
#[local] Open Scope list_scope.
#[local] Open Scope Z_scope.

Module Timers.

(** ** NewDeadlineWatcher *)

(** Where the goroutine is: at the [select], returned because of [done], or returned after
    [timeOut]. *)
Inductive phase := AtSelect | SawDone | TimedOut.

#[global] Instance phase_eq_dec : EqDecision phase.
Proof. solve_decision. Defined.

(** [expires] is the instant the timer fires; [closeCh] says whether the channel is closed;
    [once] whether [once.Do] ran; [calls] counts the calls of [timeOut]. *)
Record Watcher := MkWatcher { now : Z; expires : Z; closeCh : bool; once : bool; gophase : phase; calls : nat }.

Definition NewDeadlineWatcher (start ddl : Z) : Watcher := MkWatcher start (start + ddl) false false AtSelect 0.

(** Time passes, [done] is called, the goroutine takes a branch of its [select]. *)
Inductive watch_op := Elapse (d : N) | Done | SelectClose | SelectTimer.

(** [None] is a panic: [close] of a closed channel. *)
Definition done (w : Watcher) : option Watcher :=
  if once w then Some w
  else if closeCh w then None
  else Some (MkWatcher (now w) (expires w) true true (gophase w) (calls w)).

(** A branch whose channel is not ready is not taken. *)
Definition watch (o : watch_op) (w : Watcher) : option Watcher :=
  match o with
  | Elapse d => Some (MkWatcher (now w + Z.of_N d) (expires w) (closeCh w) (once w) (gophase w) (calls w))
  | Done => done w
  | SelectClose =>
      Some (if bool_decide (gophase w = AtSelect) && closeCh w
            then MkWatcher (now w) (expires w) (closeCh w) (once w) SawDone (calls w) else w)
  | SelectTimer =>
      Some (if bool_decide (gophase w = AtSelect) && (expires w <=? now w)
            then MkWatcher (now w) (expires w) (closeCh w) (once w) TimedOut (S (calls w)) else w)
  end.

Fixpoint watch_run (w : Watcher) (l : list watch_op) : option Watcher :=
  match l with
  | [] => Some w
  | o :: l => match watch o w with Some w => watch_run w l | None => None end
  end.

Definition watch_ok (w : Watcher) : Prop :=
  once w = closeCh w /\ calls w = (if bool_decide (gophase w = TimedOut) then 1%nat else 0%nat) /\
  (gophase w = TimedOut -> expires w <= now w) /\ (gophase w = SawDone -> closeCh w = true).

Lemma watch_step o w : watch_ok w -> exists w', watch o w = Some w' /\ watch_ok w' /\ expires w' = expires w.
Proof.
  destruct w as [t e ch on g c]. intros (H1 & H2 & H3 & H4). cbn in *. subst on.
  destruct o as [d| | |]; cbn; eexists; (split; [try done|]).
  - split; [|done]. repeat split; cbn; [done|intros ?; specialize (H3 ltac:(done)); lia|done].
  - unfold done. cbn. destruct ch; done.
  - destruct ch; done.
  - destruct ch, g; done.
  - destruct (Z.leb_spec e t), g; cbn; subst; split; try done; repeat split; cbn; done || lia.
Qed.

Lemma watch_run_ok l w : watch_ok w -> exists w', watch_run w l = Some w' /\ watch_ok w' /\ expires w' = expires w.
Proof.
  revert w. induction l as [|o l IH]; intros w Hw; cbn [watch_run]; [eauto|].
  destruct (watch_step o w Hw) as (w1 & -> & Hw1 & E). destruct (IH w1 Hw1) as (w2 & H2 & Hok & E2).
  exists w2. by rewrite E2, E.
Qed.

(** However the calls of [done], the passing of time and the scheduling of the goroutine
    interleave, nothing panics, [timeOut] runs once at most, and only when the deadline
    has passed, from where on the goroutine can run it if it is still waiting. *)
Theorem deadline_watcher_safe start ddl l :
  exists w, watch_run (NewDeadlineWatcher start ddl) l = Some w /\ (calls w <= 1)%nat /\
    (calls w = 1%nat -> start + ddl <= now w) /\
    (gophase w = AtSelect -> start + ddl <= now w -> exists w', watch SelectTimer w = Some w' /\ calls w' = 1%nat).
Proof.
  destruct (watch_run_ok l (NewDeadlineWatcher start ddl)) as (w & Hr & (H1 & H2 & H3 & H4) & E); [done|].
  exists w. cbn in E. rewrite <-E. split; [done|]. destruct w as [t e ch on g c]; cbn in *. subst c.
  split; [by case_bool_decide; lia|]. split; [intros ?; apply H3; by case_bool_decide|].
  intros -> He. destruct (Z.leb_spec e t); [|lia]. eexists. by split.
Qed.

(** Once the goroutine has seen [done], [timeOut] is never called. *)
Theorem seen_done_final w l w' :
  watch_ok w -> gophase w = SawDone -> watch_run w l = Some w' -> calls w' = 0%nat.
Proof.
  intros Hok Hg Hr. assert (gophase w' = SawDone /\ watch_ok w') as [Hg' (_ & -> & _)]; [|by rewrite Hg'].
  revert w Hok Hg Hr. induction l as [|o l IH]; intros w Hok Hg Hr; cbn [watch_run] in Hr; [by simplify_eq|].
  destruct (watch_step o w Hok) as (w1 & E & Hw1 & _). rewrite E in Hr. apply (IH w1 Hw1); [|done].
  destruct o; cbn in E; simplify_eq/=; try done; [|rewrite Hg; done..].
  unfold done in E. by repeat case_match; simplify_eq/=.
Qed.

Lemma seen_done_final_witness : exists w', watch_run (MkWatcher 0 3 true true SawDone 0) [Elapse 9; SelectTimer; Done] = Some w' /\ calls w' = 0%nat.
Proof.
  eexists. split; [reflexivity|]. apply (seen_done_final (MkWatcher 0 3 true true SawDone 0) [Elapse 9; SelectTimer; Done]); done.
Defined.

(** A call of [done] before the deadline does not exclude [timeOut]: when the deadline passes
    before the goroutine runs again both channels are ready and [select] may take
    either. *)
Theorem late_timeout start ddl :
  0 < ddl ->
  exists w, watch_run (NewDeadlineWatcher start ddl) [Done; Elapse (Z.to_N ddl); SelectTimer] = Some w /\ calls w = 1%nat.
Proof.
  intros Hd. cbn. rewrite Z2N.id by lia. destruct (Z.leb_spec (start + ddl) (start + ddl)); [|lia]. eexists. by split.
Qed.

Lemma late_timeout_witness : exists w, watch_run (NewDeadlineWatcher 0 3) [Done; Elapse 3; SelectTimer] = Some w /\ calls w = 1%nat.
Proof. apply (late_timeout 0 3). lia. Defined.

(** ** StartRoutine *)

Section routine.
Context {St : Type} (f : St -> option St).

(** The goroutine after its turns, of which each says whether [ctx] was done after [f]: [f]
    may panic ([None]), which [recover] turns into the end of the routine.  The result has
    the state, whether the routine still runs, and how often [f] was called. *)
Fixpoint StartRoutine (s : St) (turns : list bool) : St * bool * nat :=
  match turns with
  | [] => (s, true, 0%nat)
  | cancelled :: turns =>
      match f s with
      | None => (s, false, 1%nat)
      | Some s => if cancelled then (s, false, 1%nat) else
          let '(s, running, n) := StartRoutine s turns in (s, running, S n)
      end
  end.

(** [f] run [n] times in a row *)
Fixpoint times (n : nat) (s : St) : option St :=
  match n with O => Some s | S n => match f s with Some s => times n s | None => None end end.

(** While the context lives and [f] does not panic, each interval runs [f] once; the first turn
    that finds the context done is the last one, and has run [f]. *)
Theorem routine_runs s k rest s' :
  times (S k) s = Some s' -> StartRoutine s (replicate k false ++ true :: rest) = (s', false, S k).
Proof.
  revert s. induction k as [|k IH]; intros s H; cbn [times StartRoutine replicate app] in *; destruct (f s) as [s1|]; simplify_eq; [done|].
  by rewrite (IH s1 H).
Qed.

(** A panic of [f] is not passed on, and [f] is never run again. *)
Theorem routine_panic s k s' rest :
  times k s = Some s' -> f s' = None -> StartRoutine s (replicate k false ++ false :: rest) = (s', false, S k).
Proof.
  revert s. induction k as [|k IH]; intros s H Hf; cbn [times StartRoutine replicate app] in *; simplify_eq; [by rewrite Hf|].
  destruct (f s) as [s1|]; [|done]. by rewrite (IH s1 H Hf).
Qed.
End routine.

End Timers.
