(* ===== verification/SynTimer.v ===== *)
(** * SynTimer: the deadline of an unanswered SYN
      (OpenStream and the SYNACK case of proxy/session/session.go over util/deadline.go)

    [Session] knows only whether a watcher is armed.  Here the watchers are those of
    Timers.v, each with its goroutine, and time is explicit: a timed session is a session with a
    clock, all watchers it ever made and the one [synDone] refers to.  The theorems say
    that timed sessions are sessions ([timed_refines]), that a server that does not answer a
    watched call is noticed ([silent_server_closed]), that a watcher closes a session only for that
    reason ([timeout_justified]), and that a session that keeps opening streams need never
    be closed by one ([busy_never_times_out]). *)

From S2P Require Import Prelude GoStrings Frame Padding NetConn WriteConn Pipe Session SessionSpec Timers.
#[local] Open Scope string_scope.
#[local] Open Scope list_scope.
#[local] Open Scope Z_scope.

Module SynTimer.
Import Frame Padding WriteConn Session SessionSpec.

(** [time.Second*3] in nanoseconds *)
Definition synTimeLimit : Z := 3 * 1000000000.

(** What can happen: an operation of the session, the passing of time, and a goroutine of a
    watcher taking a branch of its [select]; [timeOut] closes the session. *)
Inductive t_op := TOp (a : op) | TElapse (d : N) | TSeesDone (i : nat) | TFires (i : nat).

#[global] Instance t_op_eq_dec : EqDecision t_op.
Proof. solve_decision. Defined.

Record Timed (C : Type) := MkTimed {
  tsess : Session C;
  clock : Z;
  watchers : list Timers.Watcher;
  current : option nat            (** the watcher of [s.synDone] *)
}.
Arguments MkTimed {C}.
Arguments tsess {C}.
Arguments clock {C}.
Arguments watchers {C}.
Arguments current {C}.

Section timed.
Context {C : Type} `{!NetConn C}.
Variable ent : Z -> nat -> Z.
Variable md5hex : bytes -> string.
Variable clientDebugPaddingScheme : bool.
Implicit Types (s : Session C) (t : Timed C).

Abbreviation act := (exec ent md5hex clientDebugPaddingScheme).

Definition set_tsess t s : Timed C := MkTimed s (clock t) (watchers t) (current t).
Definition set_watchers t ws : Timed C := MkTimed (tsess t) (clock t) ws (current t).
Definition set_current t x : Timed C := MkTimed (tsess t) (clock t) (watchers t) x.

(** [s.synDone()] if it is set; [None] is a panic. *)
Definition synDone_call t : option (Timed C) :=
  match current t with
  | None => Some t
  | Some i =>
      match watchers t !! i with
      | None => Some t
      | Some wt => match Timers.done wt with Some wt => Some (set_watchers t (<[i := wt]> (watchers t))) | None => None end
      end
  end.

(** Whether a call of [OpenStream] arms a watcher: not the first one, and not with a server of version 1. *)
Definition arms s : bool := (2 <=? uint32 (streamId s + 1)) && (2 <=? peerVersion s).

(** A call of [OpenStream] starts, with the watcher it arms. *)
Definition t_open t : option (Timed C) :=
  let s := tsess t in
  if die s then Some t
  else
    let armed := if arms s then
      match synDone_call t with
      | None => None
      | Some t => Some (set_current (set_watchers t (watchers t ++ [Timers.NewDeadlineWatcher (clock t) synTimeLimit])) (Some (length (watchers t))))
      end else Some t in
    match armed with None => None | Some t => Some (set_tsess t (open_start ent s)) end.

(** The loop is about to read the header of a SYNACK. *)
Definition reads_synack s : bool :=
  match pc s, read_header (inp s) with
  | Reading, Some (h, _) => bool_decide (Cmd h = cmdSYNACK)
  | _, _ => false
  end.

Definition t_recv t : option (Timed C) :=
  let s := tsess t in
  if reads_synack s then
    match synDone_call t with None => None | Some t => Some (set_tsess (set_current t None) (act s OpRecv)) end
  else Some (set_tsess t (act s OpRecv)).

Definition on_watcher t (i : nat) (o : Timers.watch_op) : option (Timed C) :=
  match watchers t !! i with
  | None => Some t
  | Some wt => match Timers.watch o wt with Some wt => Some (set_watchers t (<[i := wt]> (watchers t))) | None => None end
  end.

(** Whether the goroutine of watcher [i] can take the branch of its timer. *)
Definition can_fire t (i : nat) : bool :=
  match watchers t !! i with
  | Some wt => bool_decide (Timers.gophase wt = Timers.AtSelect) && (Timers.expires wt <=? Timers.now wt)
  | None => false
  end.

Definition elapse (d : N) (wt : Timers.Watcher) : Timers.Watcher :=
  Timers.MkWatcher (Timers.now wt + Z.of_N d) (Timers.expires wt) (Timers.closeCh wt) (Timers.once wt) (Timers.gophase wt) (Timers.calls wt).

Definition t_step t (x : t_op) : option (Timed C) :=
  match x with
  | TOp OpOpen => t_open t
  | TOp OpRecv => t_recv t
  | TOp OpSynTimeout => Some t
  | TOp a => Some (set_tsess t (act (tsess t) a))
  | TElapse d => Some (MkTimed (tsess t) (clock t + Z.of_N d) (map (elapse d) (watchers t)) (current t))
  | TSeesDone i => on_watcher t i Timers.SelectClose
  | TFires i => if can_fire t i then option_map (fun t => set_tsess t (Close (tsess t)).1) (on_watcher t i Timers.SelectTimer) else Some t
  end.

Fixpoint t_run t (xs : list t_op) : option (Timed C) :=
  match xs with
  | [] => Some t
  | x :: xs => match t_step t x with Some t => t_run t xs | None => None end
  end.

(** ** The invariant *)

(** Every watcher is sound and on time; the current one is armed, every other one cancelled; and the
    session knows whether there is a current one. *)
Record timed_ok t : Prop := {
  to_watch i wt : watchers t !! i = Some wt -> Timers.watch_ok wt /\ Timers.now wt = clock t;
  to_current i : current t = Some i -> exists wt, watchers t !! i = Some wt /\ Timers.closeCh wt = false;
  to_cancelled i wt : watchers t !! i = Some wt -> current t <> Some i -> Timers.closeCh wt = true;
  to_synDone : synDone (tsess t) = bool_decide (current t <> None);
  to_fired i wt : watchers t !! i = Some wt -> Timers.gophase wt = Timers.TimedOut -> die (tsess t) = true
}.

Lemma synDone_call_ok t :
  timed_ok t -> exists t', synDone_call t = Some t' /\ tsess t' = tsess t /\ clock t' = clock t /\ length (watchers t') = length (watchers t) /\
    current t' = current t /\
    forall i wt, watchers t' !! i = Some wt -> Timers.watch_ok wt /\ Timers.now wt = clock t /\ Timers.closeCh wt = true /\
      (Timers.gophase wt = Timers.TimedOut -> die (tsess t) = true).
Proof.
  intros [H1 H2 H3 H4 H5]. unfold synDone_call. destruct (current t) as [i|] eqn:Ec.
  - destruct (H2 i eq_refl) as (wt & Hw & Hcl). rewrite Hw. destruct (H1 i wt Hw) as [(O1 & O2 & O3 & O4) Hn].
    unfold Timers.done. rewrite O1, Hcl. eexists. split; [done|]. simpl. split_and!; try done; [by rewrite length_insert|].
    intros j wj Hj. destruct (decide (i = j)) as [->|Hne].
    + rewrite list_lookup_insert_eq in Hj by (by eapply lookup_lt_Some). injection Hj as <-. split_and!; try done. simpl. eauto.
    + rewrite list_lookup_insert_ne in Hj by done. destruct (H1 j wj Hj). split_and!; eauto. apply (H3 j); [done|]. congruence.
  - exists t. split_and!; try done. intros j wj Hj. destruct (H1 j wj Hj). split_and!; eauto.
Qed.

(** ** What of the session the watchers depend on *)

(** What closing and writing leave alone. *)
Definition core s : bool * Z * Z := (synDone s, peerVersion s, streamId s).

Lemma core_Close s : core (Close s).1 = core s.
Proof.
  unfold Close. destruct (die s); [done|]. cbn [fst]. set (s0 := add_hook _ _). set (l := map _ _).
  assert (forall l s, core (foldl closeLocally s l) = core s) as H; [|exact (H l s0)].
  clear. induction l as [|o l IH]; intros s; [done|]. simpl. rewrite IH. unfold closeLocally. by repeat case_match.
Qed.

Lemma core_write s f : core (writeControlFrame ent s f).1 = core s.
Proof. unfold writeControlFrame. destruct (control_write _ _ _ _) as [w' [e|]]; [exact (core_Close (set_w s w'))|done]. Qed.

(** The same of the [synDone] of a result. *)
Lemma syn_Close s : synDone (Close s).1 = synDone s.
Proof. pose proof (core_Close s) as H. by injection H. Qed.

Lemma syn_write s f : synDone (writeControlFrame ent s f).1 = synDone s.
Proof. pose proof (core_write s f) as H. by injection H. Qed.

Lemma syn_written s f s' e : writeControlFrame ent s f = (s', e) -> synDone s' = synDone s.
Proof. intros E. pose proof (syn_write s f) as H. by rewrite E in H. Qed.

Lemma syn_top s : synDone (loop_top s) = synDone s.
Proof. unfold loop_top. destruct (pc s); try done. destruct (die s); [exact (syn_Close s)|done]. Qed.

Lemma syn_end_turn (x : Session C * option (option goerror)) : synDone (end_turn x) = synDone x.1.
Proof. destruct x as [s [e|]]; [exact (syn_Close s)|exact (syn_top s)]. Qed.

Lemma syn_closeLocally s o : synDone (closeLocally s o) = synDone s.
Proof. unfold closeLocally. by repeat case_match. Qed.

Lemma core_next s o : core (open_next s o) = core s.
Proof. unfold open_next, open_register. by repeat case_match. Qed.

(** Case analysis of an operation, with [synDone] followed through its writes. *)
Ltac syn :=
  repeat case_match; simplify_eq/=;
  repeat match goal with E : writeControlFrame _ _ _ = _ |- _ => apply syn_written in E; simpl in E end;
  try done; try congruence.

Lemma syn_closeWithError s o err : synDone (closeWithError ent s o err).1 = synDone s.
Proof. unfold closeWithError, streamClosed. syn. Qed.

Lemma syn_count s o n : synDone (count_tx s o n) = synDone s /\ synDone (count_rx s o n) = synDone s.
Proof. unfold count_tx, count_rx. syn. Qed.

Lemma syn_payload s h d : synDone (on_payload ent md5hex clientDebugPaddingScheme s h d).1 = synDone s.
Proof.
  unfold on_payload. repeat (destruct (bool_decide _)); try done.
  - unfold recv_PSH. syn.
  - unfold recv_SYNACK. case_match; [apply syn_closeWithError|done].
  - unfold recv_Settings, check_version. syn.
  - unfold recv_UpdatePaddingScheme. syn.
  - unfold recv_ServerSettings. syn.
Qed.

(** Only a SYNACK clears [synDone] in the receive loop. *)
Lemma syn_header s h :
  synDone (on_header ent s h).1 = if bool_decide (Cmd h = cmdSYNACK) then false else synDone s.
Proof.
  unfold on_header. set (s1 := if bool_decide (Cmd h = cmdSYNACK) then _ else s).
  replace (if bool_decide (Cmd h = cmdSYNACK) then false else synDone s) with (synDone s1) by (unfold s1; by case_bool_decide).
  clearbody s1. destruct (has_payload h); [done|]. repeat (destruct (bool_decide _)); try done.
  - unfold recv_SYN, acceptStream, refuseStream. cbn [alloc]. syn.
  - unfold recv_FIN. case_match; [|done]. exact (syn_closeLocally _ _).
  - unfold recv_HeartRequest. syn.
Qed.

Lemma syn_recv s : synDone (act s OpRecv) = if reads_synack s then false else synDone s.
Proof.
  change (act s OpRecv) with (recv_step ent md5hex clientDebugPaddingScheme s).
  unfold recv_step, reads_synack. destruct (pc s) as [|h|o|]; [| |syn; exact (syn_top _)|done].
  - destruct (read_header (inp s)) as [[h r]|]; [|done]. rewrite syn_end_turn. exact (syn_header (set_inp s r) h).
  - destruct (read_full _ _) as [[d r]|]; [|done]. rewrite syn_end_turn. exact (syn_payload _ _ _).
Qed.

Lemma syn_exec s a : a <> OpOpen -> a <> OpRecv -> synDone (act s a) = synDone s.
Proof.
  intros H1 H2. unfold exec. destruct (held s a); [done|].
  destruct a as [| | | |o|p| | |o|o k|o b|o|o err|o t now|o t now]; try done; cbn [run_op].
  - unfold recv_error. repeat case_match; try done; exact (syn_Close s).
  - pose proof (core_next s o) as H. by injection H.
  - apply syn_Close.
  - unfold synTimeout. destruct (synDone s) eqn:E; [|done]. by rewrite syn_Close.
  - apply syn_closeWithError.
  - unfold stream_Read. syn; exact (proj1 (syn_count _ _ _)).
  - unfold stream_Write. destruct (objs s !! o) as [st|]; [|done]. destruct (Deadline.closed _); [done|]. destruct (dieErr st); [done|].
    destruct (writeDataFrame _ _ _ _ _) as [[w' n] e]. cbn [fst]. case_match; [exact (proj2 (syn_count (set_w s w') o n))|done].
  - unfold HandshakeSuccess. syn. exact (syn_write _ _).
  - unfold HandshakeFailure. syn. exact (syn_write _ _).
  - unfold stream_SetReadDeadline. syn.
Qed.

(** ** Steps *)

Lemma open_core s :
  die s = false -> core (open_start ent s) = (arms s || synDone s, peerVersion s, uint32 (streamId s + 1)).
Proof.
  intros Hd. unfold open_start, open_SYN, arms. rewrite Hd. cbn [alloc]. set (id := uint32 (streamId s + 1)).
  set (s1 := if _ && _ then _ else _). assert (core s1 = (((2 <=? id) && (2 <=? peerVersion s)) || synDone s, peerVersion s, id)) as <-.
  { unfold s1. simpl. by destruct (_ && _). }
  rewrite <- (core_write s1 (newFrame cmdSYN id)). by destruct (writeControlFrame _ _ _) as [s2 [e|]].
Qed.

Lemma ok_session t s : timed_ok t -> synDone s = synDone (tsess t) -> later (tsess t) s -> timed_ok (set_tsess t s).
Proof. intros [H1 H2 H3 H4 H5] E L. split; try done; simpl; [by rewrite E|]. intros i wt Hi Hg. by eapply lt_die; eauto. Qed.

(** A goroutine that moves changes nothing but its own phase; [timeOut] closes the session. *)
Lemma on_watcher_ok t i o s :
  o = Timers.SelectClose \/ o = Timers.SelectTimer /\ die s = true -> timed_ok t -> synDone s = synDone (tsess t) -> later (tsess t) s ->
  exists t', on_watcher t i o = Some t' /\ timed_ok (set_tsess t' s) /\ tsess t' = tsess t /\ clock t' = clock t /\
    forall j wj', watchers t' !! j = Some wj' -> exists wj, watchers t !! j = Some wj /\ Timers.expires wj' = Timers.expires wj.
Proof.
  intros Ho Hok Es L. unfold on_watcher. destruct (watchers t !! i) as [wt|] eqn:Hi; [|exists t; split_and!; eauto; by apply ok_session].
  pose proof Hok as [H1 H2 H3 H4 H5]. destruct (H1 i wt Hi) as [Hw Hn]. destruct (Timers.watch_step o wt Hw) as (wt' & E & Hw' & Hx). rewrite E.
  assert (Timers.now wt' = Timers.now wt /\ Timers.closeCh wt' = Timers.closeCh wt /\ (Timers.gophase wt' = Timers.TimedOut -> die s = true)) as (En & Ec & Hd).
  { destruct Ho as [-> |[-> Hd]]; simpl in E; case_match; simplify_eq/=; try done; split_and!; try done; intros Hg; by eapply lt_die; eauto. }
  assert (i < length (watchers t))%nat as Hlt by (by eapply lookup_lt_Some).
  eexists. split; [done|]. split_and!; try done.
  - split; simpl.
    + intros j wj Hj. apply list_lookup_insert_Some in Hj as [(<- & <- & _)|[_ Hj]]; [|eauto]. by rewrite En.
    + intros j Hj. destruct (H2 j Hj) as (wj & Hwj & Hc). destruct (decide (i = j)) as [->|Hne].
      * exists wt'. rewrite list_lookup_insert_eq by done. simplify_eq. by rewrite Ec.
      * exists wj. by rewrite list_lookup_insert_ne.
    + intros j wj Hj Hne. apply list_lookup_insert_Some in Hj as [(<- & <- & _)|[_ Hj]]; [|eauto]. rewrite Ec. eauto.
    + by rewrite Es.
    + intros j wj Hj Hg. apply list_lookup_insert_Some in Hj as [(<- & <- & _)|[_ Hj]]; [by apply Hd|]. by eapply lt_die; eauto.
  - simpl. intros j wj Hj. apply list_lookup_insert_Some in Hj as [(<- & <- & _)|[_ Hj]]; eauto.
Qed.

(** What a step may do to the watchers: their deadlines stay, and a new one is due three seconds
    from now. *)
Record t_later t t' (opened : bool) : Prop := {
  tl_clock : clock t <= clock t';
  tl_old j wj' : watchers t' !! j = Some wj' ->
    (exists wj, watchers t !! j = Some wj /\ Timers.expires wj' = Timers.expires wj) \/
    opened = true /\ Timers.expires wj' = clock t + synTimeLimit
}.

Lemma synDone_call_later t t' : synDone_call t = Some t' -> t_later t t' false.
Proof.
  unfold synDone_call. intros E. repeat case_match; simplify_eq; split; try done; eauto. intros j wj Hj. left. simpl in Hj.
  apply list_lookup_insert_Some in Hj as [(<- & <- & _)|[_ Hj]]; [|eauto]. eexists. split; [done|].
  by unfold Timers.done in *; repeat case_match; simplify_eq.
Qed.

Lemma t_open_ok t :
  timed_ok t -> exists t', t_open t = Some t' /\ timed_ok t' /\ tsess t' = act (tsess t) OpOpen /\ t_later t t' true.
Proof.
  intros Hok. unfold t_open. destruct (die (tsess t)) eqn:Hd.
  { exists t. split_and!; try done; [|split; eauto; done]. change (tsess t = open_start ent (tsess t)). unfold open_start, open_SYN. by rewrite Hd. }
  assert (synDone (open_start ent (tsess t)) = arms (tsess t) || synDone (tsess t)) as Hs
    by (pose proof (open_core _ Hd) as Hc; by injection Hc).
  destruct (arms (tsess t)) eqn:Ha; cycle 1.
  { eexists. split_and!; [done|apply ok_session; [done|by rewrite Hs|apply later_open_start]|done|split; eauto; done]. }
  destruct (synDone_call_ok t Hok) as (t1 & E & E1 & E2 & E3 & E4 & Hall). rewrite E.
  pose proof (synDone_call_later t t1 E) as [_ Hold]. eexists. split_and!; [done| |done|].
  - split; simpl.
    + intros i wt [Hi|[Hge Hi]]%lookup_app_Some; [destruct (Hall i wt Hi) as (? & ? & ? & ?); by rewrite E2|].
      apply list_lookup_singleton_Some in Hi as [_ <-]. by simpl.
    + intros i [= <-]. eexists. by rewrite lookup_app_r, Nat.sub_diag by lia.
    + intros i wt [Hi|[Hge Hi]]%lookup_app_Some Hne; [by destruct (Hall i wt Hi) as (? & ? & ? & ?)|].
      apply list_lookup_singleton_Some in Hi as [Hz _]. destruct Hne. f_equal. lia.
    + by rewrite Hs.
    + intros i wt [Hi|[Hge Hi]]%lookup_app_Some Hg; [by destruct (Hall i wt Hi) as (? & ? & ? & Hf); rewrite Hf in Hd|].
      by apply list_lookup_singleton_Some in Hi as [_ <-].
  - split; simpl; [lia|]. intros j wj [Hj|[Hge Hj]]%lookup_app_Some; [by destruct (Hold j wj Hj) as [?|[? _]]; [left|]|].
    apply list_lookup_singleton_Some in Hj as [_ <-]. right. simpl. by rewrite E2.
Qed.

Lemma t_recv_ok t :
  timed_ok t -> exists t', t_recv t = Some t' /\ timed_ok t' /\ tsess t' = act (tsess t) OpRecv /\ t_later t t' false.
Proof.
  intros Hok. unfold t_recv. pose proof (syn_recv (tsess t)) as Hs. destruct (reads_synack (tsess t)); cycle 1.
  { eexists. split_and!; [done|apply ok_session; [done|done|apply exec_later]|done|split; eauto; done]. }
  destruct (synDone_call_ok t Hok) as (t1 & E & E1 & E2 & E3 & E4 & Hall). rewrite E.
  pose proof (synDone_call_later t t1 E) as [Hc Hold]. eexists. split_and!; [done| |done|by split].
  split; cbn [tsess set_tsess watchers set_current current clock]; [|done| |done|].
  - intros i wt Hi. destruct (Hall i wt Hi) as (? & ? & ? & ?). by rewrite E2.
  - intros i wt Hi _. by destruct (Hall i wt Hi) as (? & ? & ? & ?).
  - intros i wt Hi Hg. destruct (Hall i wt Hi) as (? & ? & ? & Hf). eapply lt_die; [apply exec_later|by apply Hf].
Qed.

Lemma elapse_ok t d : timed_ok t -> exists t', t_step t (TElapse d) = Some t' /\ timed_ok t' /\ tsess t' = tsess t /\ t_later t t' false.
Proof.
  intros [H1 H2 H3 H4 H5]. eexists. split_and!; [done| |done|].
  - split; simpl; [| | |done|].
    + intros i wt (w0 & -> & Hi)%list_lookup_fmap_Some. destruct (H1 i w0 Hi) as [(O1 & O2 & O3 & O4) <-].
      split; [|done]. split_and!; try done. intros Hg. specialize (O3 Hg). simpl. lia.
    + intros i Hi. destruct (H2 i Hi) as (wt & Hw & Hc). exists (elapse d wt). split; [|done]. by rewrite list_lookup_fmap, Hw.
    + intros i wt (w0 & -> & Hi)%list_lookup_fmap_Some Hne. simpl. eauto.
    + intros i wt (w0 & -> & Hi)%list_lookup_fmap_Some Hg. by eapply H5.
  - split; simpl; [lia|]. intros j wj (w0 & -> & Hj)%list_lookup_fmap_Some. left. eauto.
Qed.

(** A step of a timed session is some operations of the session, and does not panic. *)
Lemma t_step_ok t x :
  timed_ok t -> exists t' ops, t_step t x = Some t' /\ timed_ok t' /\
    tsess t' = exec_all ent md5hex clientDebugPaddingScheme (tsess t) ops /\ t_later t t' (bool_decide (x = TOp OpOpen)).
Proof.
  intros Hok.
  assert (t_later t t false) as Hrefl by (split; eauto; lia).
  destruct x as [a|d|i|i].
  - destruct (decide (a = OpOpen)) as [->|H1].
    { destruct (t_open_ok t Hok) as (t' & ? & ? & ? & ?). by exists t', [OpOpen]. }
    rewrite bool_decide_false by congruence. destruct (decide (a = OpRecv)) as [->|H2].
    { destruct (t_recv_ok t Hok) as (t' & ? & ? & ? & ?). by exists t', [OpRecv]. }
    destruct (decide (a = OpSynTimeout)) as [->|H3]; [by exists t, []|].
    exists (set_tsess t (act (tsess t) a)), [a]. split_and!; [by destruct a|apply ok_session; [done|by apply syn_exec|apply exec_later]|done|by split; eauto].
  - destruct (elapse_ok t d Hok) as (t' & ? & ? & ? & ?). by exists t', [].
  - destruct (on_watcher_ok t i Timers.SelectClose (tsess t)) as (t' & ? & Ht' & Es & Hc & Hold); [by left|done..|].
    exists t', []. split_and!; try done; [by rewrite <- Es in Ht'; destruct t'|]. split; [lia|]. left. by apply Hold.
  - cbn [t_step]. destruct (can_fire t i); [|by exists t, []].
    destruct (on_watcher_ok t i Timers.SelectTimer (Close (tsess t)).1) as (t' & E & Ht' & Es & Hc & Hold);
      [right; split; [done|by destruct (Close_fields (tsess t))]|done|apply syn_Close|apply shrinks_Close|]. rewrite E.
    exists (set_tsess t' (Close (tsess t')).1), [OpClose]. rewrite Es. split_and!; [by simpl; rewrite Es|done|done|].
    split; simpl; [lia|]. left. by apply Hold.
Qed.

Lemma t_run_app t xs ys : t_run t (xs ++ ys) = match t_run t xs with Some t => t_run t ys | None => None end.
Proof. revert t. induction xs as [|x xs IH]; intros t; [done|]. simpl. destruct (t_step t x); [apply IH|done]. Qed.

Lemma t_run_ok t xs :
  timed_ok t -> exists t' ops, t_run t xs = Some t' /\ timed_ok t' /\ tsess t' = exec_all ent md5hex clientDebugPaddingScheme (tsess t) ops.
Proof.
  revert t. induction xs as [|x xs IH]; intros t Hok; [by exists t, []|]. cbn [t_run].
  destruct (t_step_ok t x Hok) as (t1 & o1 & -> & H1 & E1 & _). destruct (IH t1 H1) as (t2 & o2 & ? & ? & E2).
  exists t2, (o1 ++ o2). split_and!; try done. unfold exec_all. rewrite foldl_app. unfold exec_all in E1, E2. by rewrite E2, E1.
Qed.

(** A session with no watcher at instant [now]. *)
Definition timed_new s (now : Z) : Timed C := MkTimed s now [] None.

Lemma timed_new_ok s now : synDone s = false -> timed_ok (timed_new s now).
Proof. by split. Qed.

(** With its watchers, their goroutines and the clock, a session is still a session: however the
    operations, the watchers and the time interleave, no [close] of a closed channel panics, and the
    session is one that operations of the session alone can reach, so that everything
    proved of those holds; it has a watcher pending exactly when [synDone] is set, every
    other watcher has been told to stop, and a watcher that ran out has closed it. *)
Theorem timed_refines s now xs :
  synDone s = false ->
  exists t ops, t_run (timed_new s now) xs = Some t /\ tsess t = exec_all ent md5hex clientDebugPaddingScheme s ops /\
    (synDone (tsess t) = true <-> exists i, current t = Some i) /\
    (forall i wt, watchers t !! i = Some wt -> current t <> Some i -> Timers.closeCh wt = true) /\
    (forall i wt, watchers t !! i = Some wt -> Timers.calls wt <> 0%nat -> die (tsess t) = true).
Proof.
  intros Hs. destruct (t_run_ok (timed_new s now) xs (timed_new_ok s now Hs)) as (t & ops & Hr & [H1 H2 H3 H4 H5] & E).
  exists t, ops. split_and!; try done.
  - rewrite H4, bool_decide_eq_true. destruct (current t); split; try done; [eauto|by intros [? ?]].
  - intros i wt Hi Hc. destruct (H1 i wt Hi) as [(_ & O2 & _ & _) _]. apply (H5 i wt Hi). rewrite O2 in Hc. by case_bool_decide.
Qed.

(** Where the deadlines come from. *)
Lemma t_run_expires t0 xs t i wt :
  timed_ok t0 -> watchers t0 = [] -> t_run t0 xs = Some t -> watchers t !! i = Some wt ->
  exists xs1 xs2 t1, xs = xs1 ++ TOp OpOpen :: xs2 /\ t_run t0 xs1 = Some t1 /\ Timers.expires wt = clock t1 + synTimeLimit.
Proof.
  intros Hok H0. revert t wt. induction xs as [|x xs IH] using rev_ind; intros t wt Hr Hi; [simplify_eq/=; by rewrite H0 in Hi|].
  rewrite t_run_app in Hr. destruct (t_run_ok t0 xs Hok) as (t1 & ops & E1 & Hok1 & _). rewrite E1 in Hr. cbn [t_run] in Hr.
  destruct (t_step_ok t1 x Hok1) as (t2 & o2 & E2 & _ & _ & Hl). rewrite E2 in Hr. injection Hr as ->.
  destruct (tl_old _ _ _ Hl i wt Hi) as [(wj & Hj & ->)|[Hb Hx]].
  - destruct (IH t1 wj E1 Hj) as (xs1 & xs2 & t3 & -> & ? & ?). exists xs1, (xs2 ++ [x]), t3. by rewrite <- app_assoc.
  - apply bool_decide_eq_true in Hb as ->. by exists xs, [], t1.
Qed.

(** *** The deadline of a call *)

(** The step [x] takes the deadline away: a SYNACK is read, or another call of [OpenStream] arms
    its own watcher. *)
Definition renews t (x : t_op) : bool :=
  match x with
  | TOp OpRecv => reads_synack (tsess t)
  | TOp OpOpen => negb (die (tsess t)) && arms (tsess t)
  | _ => false
  end.

(** Neither happens in the run [xs]. *)
Fixpoint unanswered t (xs : list t_op) : bool :=
  match xs with
  | [] => true
  | x :: xs => negb (renews t x) && match t_step t x with Some t => unanswered t xs | None => true end
  end.

Lemma unanswered_snoc t xs x t' :
  t_run t xs = Some t' -> unanswered t xs = true -> renews t' x = false -> unanswered t (xs ++ [x]) = true.
Proof.
  revert t. induction xs as [|y xs IH]; intros t; cbn [t_run unanswered app].
  - intros [= ->] _ ->. by destruct (t_step t' x).
  - destruct (t_step t y) as [t1|]; [|done]. intros Hr [H1 H2]%andb_prop Hx. by rewrite H1, (IH t1).
Qed.

Lemma on_watcher_current t i o t' : on_watcher t i o = Some t' -> current t' = current t.
Proof. unfold on_watcher. intros E. by repeat case_match; simplify_eq. Qed.

(** Nothing else does. *)
Lemma step_current t x t' : t_step t x = Some t' -> renews t x = false -> current t' = current t.
Proof.
  intros E Hx. destruct x as [a|d|i|i]; cbn [t_step] in E.
  - destruct a; try (injection E as <-; done); cbn [renews] in Hx.
    + unfold t_recv in E. rewrite Hx in E. by injection E as <-.
    + unfold t_open in E. destruct (die (tsess t)); [by injection E as <-|]. cbn [negb andb] in Hx. rewrite Hx in E. by injection E as <-.
  - by injection E as <-.
  - by eapply on_watcher_current.
  - destruct (can_fire t i); [|by injection E as <-]. destruct (on_watcher t i Timers.SelectTimer) as [t1|] eqn:Ew; [|done].
    injection E as <-. by apply on_watcher_current in Ew.
Qed.

(** The watcher of [t], and when it is due. *)
Definition waits t (i : nat) (e : Z) : Prop := current t = Some i /\ exists wt, watchers t !! i = Some wt /\ Timers.expires wt = e.

Lemma open_waits t t' :
  timed_ok t -> t_step t (TOp OpOpen) = Some t' -> renews t (TOp OpOpen) = true -> waits t' (length (watchers t)) (clock t + synTimeLimit).
Proof.
  intros Hok E Ha. cbn [t_step renews] in E, Ha. unfold t_open in E. apply andb_prop in Ha as [Hd%negb_true_iff Ha]. rewrite Hd, Ha in E.
  destruct (synDone_call_ok t Hok) as (t1 & Es & E1 & E2 & E3 & E4 & _). rewrite Es in E. injection E as <-. rewrite <- E3, <- E2.
  split; [done|]. eexists. split; [apply list_lookup_middle; done|done].
Qed.

Lemma step_waits t x t' i e :
  timed_ok t -> t_step t x = Some t' -> renews t x = false -> waits t i e -> waits t' i e.
Proof.
  intros Hok E Hx [Hc (wt & Hi & He)]. destruct (t_step_ok t x Hok) as (t1 & ops & E1 & Hok1 & _ & Hl). rewrite E in E1. injection E1 as <-.
  pose proof (step_current t x t' E Hx) as Ec. rewrite Hc in Ec. split; [done|]. destruct (to_current _ Hok1 i Ec) as (wt' & Hi' & _).
  exists wt'. split; [done|]. assert (x = TOp OpOpen -> watchers t' = watchers t) as Hsame.
  { intros ->. cbn [t_step renews] in E, Hx. unfold t_open in E. destruct (die (tsess t)); [by injection E as <-|]. cbn [negb andb] in Hx.
    rewrite Hx in E. by injection E as <-. }
  destruct (tl_old _ _ _ Hl i wt' Hi') as [(wj & Hj & Ej)|[Ho%bool_decide_eq_true _]]; [congruence|]. rewrite (Hsame Ho) in Hi'. congruence.
Qed.

Lemma run_waits t xs t' i e :
  timed_ok t -> t_run t xs = Some t' -> unanswered t xs = true -> waits t i e -> waits t' i e.
Proof.
  revert t. induction xs as [|x xs IH]; intros t Hok; cbn [t_run unanswered]; [by intros [= ->]|].
  destruct (t_step_ok t x Hok) as (t1 & ops & E & Hok1 & _). rewrite E. intros Hr [Hx%negb_true_iff Hu]%andb_prop Hw.
  apply (IH t1); try done. exact (step_waits t x t1 i e Hok E Hx Hw).
Qed.

(** Where the current watcher comes from. *)
Lemma current_from t0 xs t i :
  timed_ok t0 -> current t0 = None -> t_run t0 xs = Some t -> current t = Some i ->
  exists xs1 xs2 t1 t2, xs = xs1 ++ TOp OpOpen :: xs2 /\ t_run t0 xs1 = Some t1 /\ t_step t1 (TOp OpOpen) = Some t2 /\ t_run t2 xs2 = Some t /\
    renews t1 (TOp OpOpen) = true /\ unanswered t2 xs2 = true /\ waits t i (clock t1 + synTimeLimit).
Proof.
  intros Hok H0. revert t i. induction xs as [|x xs IH] using rev_ind; intros t i Hr Hi; [simplify_eq/=; congruence|].
  rewrite t_run_app in Hr. destruct (t_run_ok t0 xs Hok) as (t1 & ops & E1 & Hok1 & _). rewrite E1 in Hr. cbn [t_run] in Hr.
  destruct (t_step_ok t1 x Hok1) as (t2 & o2 & E2 & Hok2 & _). rewrite E2 in Hr. injection Hr as ->.
  destruct (renews t1 x) eqn:Hx.
  - destruct x as [[]| | |]; try done.
    + cbn [t_step renews] in E2, Hx. unfold t_recv in E2. rewrite Hx in E2. destruct (synDone_call t1); [|done]. by injection E2 as <-.
    + exists xs, [], t1, t. pose proof (open_waits t1 t Hok1 E2 Hx) as Hw. split_and!; try done. destruct Hw as [Hc Hw]. rewrite Hi in Hc. by injection Hc as ->.
  - rewrite (step_current t1 x t E2 Hx) in Hi. destruct (IH t1 i E1 Hi) as (xs1 & xs2 & u1 & u2 & -> & R1 & R2 & R3 & R4 & R5 & R6).
    exists xs1, (xs2 ++ [x]), u1, u2. rewrite <- app_assoc. split_and!; try done.
    + rewrite t_run_app, R3. cbn [t_run]. by rewrite E2.
    + by eapply unanswered_snoc.
    + exact (step_waits t1 x t i _ Hok1 E2 Hx R6).
Qed.

(** C27.  A server that stops answering is noticed: when a client calls [OpenStream] on an open
    session, not for its first stream and with a server of version 2 or more, and then, in any order, anything
    happens but that a SYNACK is read or that another call takes the deadline over, then as soon as
    three seconds have passed since the call, however they are interrupted, the session is closed already, or
    the goroutine of a watcher made by this call has nothing else to do than to close it.  (The first stream of a session
    and the streams of a version 1 server are not watched.) *)
Theorem silent_server_closed s now xs t t1 ys t2 :
  synDone s = false -> t_run (timed_new s now) xs = Some t ->
  die (tsess t) = false -> 2 <= uint32 (streamId (tsess t) + 1) -> 2 <= peerVersion (tsess t) ->
  t_step t (TOp OpOpen) = Some t1 -> t_run t1 ys = Some t2 -> unanswered t1 ys = true -> clock t + synTimeLimit <= clock t2 ->
  die (tsess t2) = true \/
  exists i t3, watchers t !! i = None /\ t_step t2 (TSeesDone i) = Some t2 /\ can_fire t2 i = true /\
    t_step t2 (TFires i) = Some t3 /\ die (tsess t3) = true.
Proof.
  intros Hs Hr Hd Hid Hv E Hy Hu Hclk.
  destruct (t_run_ok (timed_new s now) xs (timed_new_ok s now Hs)) as (t' & ops & E' & Hok & _). rewrite Hr in E'. injection E' as <-.
  destruct (t_step_ok t (TOp OpOpen) Hok) as (t1' & o1 & E1 & Hok1 & _). rewrite E in E1. injection E1 as <-.
  destruct (t_run_ok t1 ys Hok1) as (t2' & o2 & E2 & Hok2 & _). rewrite Hy in E2. injection E2 as <-.
  assert (renews t (TOp OpOpen) = true) as Ha by (cbn [renews]; unfold arms; rewrite Hd; apply andb_true_intro; lia).
  destruct (run_waits t1 ys t2 _ _ Hok1 Hy Hu (open_waits t t1 Hok E Ha)) as [Hc (wt & Hi & He)]. set (i := length (watchers t)) in *.
  destruct (to_current _ Hok2 i Hc) as (wt' & Hi' & Hcl). assert (wt' = wt) as -> by congruence.
  destruct (to_watch _ Hok2 i wt Hi) as [(O1 & O2 & O3 & O4) Hn].
  destruct (Timers.gophase wt) eqn:Eg; [|by rewrite O4 in Hcl|left; by apply (to_fired _ Hok2 i wt)]. right.
  assert (can_fire t2 i = true) as Hf by (unfold can_fire; rewrite Hi, Eg; apply andb_true_intro; split; [done|lia]).
  eexists i, _. split_and!; [apply lookup_ge_None_2; subst i; lia| |done| |].
  - cbn [t_step]. unfold on_watcher. rewrite Hi. simpl. rewrite Hcl, andb_false_r, list_insert_id by done. by destruct t2.
  - cbn [t_step]. rewrite Hf. unfold on_watcher. rewrite Hi. simpl. rewrite Eg, (proj2 (Z.leb_le _ _)) by lia. done.
  - by destruct (Close_fields (tsess t2)).
Qed.

(** Every goroutine that was told to stop has stopped. *)
Definition prompt t : Prop :=
  forall i wt, watchers t !! i = Some wt -> Timers.closeCh wt = true -> Timers.gophase wt <> Timers.AtSelect.

(** C28.  A watcher closes a session only when a server has not answered: a watcher can run out only when
    three seconds have passed since some call of [OpenStream]; and if the goroutines that were told to stop have
    stopped, only for a call that was watched, three seconds after it, when since then no SYNACK has been read and no
    other call has taken the deadline over. *)
Theorem timeout_justified s now xs t i :
  synDone s = false -> t_run (timed_new s now) xs = Some t -> can_fire t i = true ->
  (exists xs1 xs2 t1, xs = xs1 ++ TOp OpOpen :: xs2 /\ t_run (timed_new s now) xs1 = Some t1 /\ clock t1 + synTimeLimit <= clock t) /\
  (prompt t -> exists xs1 xs2 t1 t2, xs = xs1 ++ TOp OpOpen :: xs2 /\ t_run (timed_new s now) xs1 = Some t1 /\
    t_step t1 (TOp OpOpen) = Some t2 /\ renews t1 (TOp OpOpen) = true /\ unanswered t2 xs2 = true /\ clock t1 + synTimeLimit <= clock t).
Proof.
  intros Hs Hr Hf. unfold can_fire in Hf. destruct (watchers t !! i) as [wt|] eqn:Hi; [|done].
  apply andb_prop in Hf as [Hg%bool_decide_eq_true He%Z.leb_le]. pose proof (timed_new_ok s now Hs) as Hok0.
  destruct (t_run_ok (timed_new s now) xs Hok0) as (t' & ops & E & [H1 H2 H3 H4 H5] & _). rewrite Hr in E. injection E as <-.
  destruct (H1 i wt Hi) as [_ Hn]. split.
  - destruct (t_run_expires _ xs t i wt Hok0 eq_refl Hr Hi) as (xs1 & xs2 & t1 & ? & ? & Hx).
    exists xs1, xs2, t1. split_and!; try done. lia.
  - intros Hp. destruct (decide (current t = Some i)) as [Hc|Hne]; [|by destruct (Hp i wt Hi (H3 i wt Hi Hne))].
    destruct (current_from _ xs t i Hok0 eq_refl Hr Hc) as (xs1 & xs2 & t1 & t2 & R1 & R2 & R3 & R4 & R5 & R6 & _ & w' & Hw & Ew).
    exists xs1, xs2, t1, t2. split_and!; try done. assert (w' = wt) as -> by congruence. lia.
Qed.

(** ** A client that keeps opening streams *)

(** One schedule of such a client.  In a round a stream, the object [o], is opened, the goroutine of the watcher it replaces stops,
    and [d] passes; [k] watchers have been made before. *)
Definition round (d : N) (k o : nat) : list t_op :=
  [TOp OpOpen; TOp (OpOpenNext o); TOp (OpOpenNext o); TSeesDone (pred k); TElapse d].

(** [n] rounds.  Nothing is ever received. *)
Fixpoint rounds (d : N) (n k o : nat) : list t_op :=
  match n with O => [] | S n => round d k o ++ rounds d n (S k) (S o) end.

(** The state between two rounds. *)
Record settled (k : nat) t : Prop := {
  se_ok : timed_ok t;
  se_len : length (watchers t) = k;
  se_current : current t = match k with O => None | S j => Some j end;
  se_seen j wj : watchers t !! j = Some wj -> current t <> Some j -> Timers.gophase wj = Timers.SawDone;
  se_due j wj : watchers t !! j = Some wj -> current t = Some j -> Timers.gophase wj = Timers.AtSelect /\ clock t < Timers.expires wj
}.

Lemma settled_no_fire k t i : settled k t -> can_fire t i = false.
Proof.
  intros [H1 H2 H3 H4 H5]. unfold can_fire. destruct (watchers t !! i) as [wt|] eqn:Hi; [|done].
  destruct (to_watch _ H1 i wt Hi) as [_ Hn]. destruct (decide (current t = Some i)) as [Hc|Hc].
  - destruct (H5 i wt Hi Hc). apply andb_false_intro2. lia.
  - by rewrite (H4 i wt Hi Hc).
Qed.

(** What [synDone] does to the watchers of a settled state. *)
Lemma settled_call k t :
  settled k t -> exists ws, synDone_call t = Some (set_watchers t ws) /\ length ws = k /\
    forall j wj, ws !! j = Some wj -> Timers.gophase wj = (if decide (S j = k) then Timers.AtSelect else Timers.SawDone) /\ Timers.closeCh wj = true.
Proof.
  intros [H1 H2 H3 H4 H5]. unfold synDone_call. rewrite H3. destruct k as [|i].
  - exists []. apply nil_length_inv in H2. split_and!; [by destruct t; simpl in *; subst|done|done].
  - destruct (to_current _ H1 i H3) as (wt & Hi & Hc). destruct (to_watch _ H1 i wt Hi) as [(O1 & _) _].
    rewrite Hi. unfold Timers.done. rewrite O1, Hc. eexists. split_and!; [done|by rewrite length_insert|].
    intros j wj Hj. destruct (decide (S j = S i)) as [[= ->]|Hne].
    + rewrite list_lookup_insert_eq in Hj by (rewrite H2; lia). injection Hj as <-. simpl. by destruct (H5 i wt Hi H3).
    + rewrite list_lookup_insert_ne in Hj by congruence.
      assert (current t <> Some j) as Hcj by (rewrite H3; congruence). split; [by eapply H4|by eapply (to_cancelled _ H1)].
Qed.

(** The watchers after a round: the old ones have stopped, the new one waits. *)
Lemma round_watchers k t t' d o :
  settled k t -> arms (tsess t) = true -> die (tsess t) = false -> t_run t (round d k o) = Some t' ->
  (forall j wj, watchers t' !! j = Some wj ->
    (j < k)%nat /\ Timers.gophase wj = Timers.SawDone \/ j = k /\ wj = elapse d (Timers.NewDeadlineWatcher (clock t) synTimeLimit)) /\
  length (watchers t') = S k /\ current t' = Some k /\ clock t' = clock t + Z.of_N d /\
  tsess t' = open_next (open_next (open_start ent (tsess t)) o) o.
Proof.
  intros Hse Ha Hal Hr. destruct (settled_call k t Hse) as (ws & E & Hlen & Hws). unfold round in Hr. cbn [t_run t_step] in Hr. unfold t_open in Hr.
  rewrite Hal, Ha, E in Hr. unfold on_watcher in Hr.
  cbn [set_tsess set_current set_watchers watchers clock current tsess] in Hr. rewrite Hlen in Hr.
  set (nw := Timers.NewDeadlineWatcher (clock t) synTimeLimit) in *. split.
  - destruct ((ws ++ [nw]) !! pred k) as [wt|] eqn:Hk; [|apply lookup_ge_None in Hk; rewrite length_app in Hk; simpl in Hk; lia].
    simpl in Hr. injection Hr as <-. simpl. intros j wj (w0 & -> & Hj)%list_lookup_fmap_Some.
    apply list_lookup_insert_Some in Hj as [(<- & <- & Hlt)|[Hne Hj]].
    + apply lookup_app_Some in Hk as [Hk|[Hge Hk]].
      * destruct (Hws _ _ Hk) as [Hg Hc]. pose proof (lookup_lt_Some _ _ _ Hk) as Hlt2. rewrite Hc, Hg, andb_true_r. left. split; [lia|].
        rewrite decide_True by lia. done.
      * apply list_lookup_singleton_Some in Hk as [Hz <-]. right. split; [lia|done].
    + apply lookup_app_Some in Hj as [Hj|[Hge Hj]].
      * destruct (Hws _ _ Hj) as [Hg Hc]. pose proof (lookup_lt_Some _ _ _ Hj). left. split; [lia|]. simpl. by rewrite Hg, decide_False by lia.
      * apply list_lookup_singleton_Some in Hj as [Hz <-]. right. split; [lia|done].
  - repeat case_match; simplify_eq; simpl; rewrite ?length_map, ?length_insert, ?length_app; simpl; split_and!; try done; lia.
Qed.

Lemma settled_round k t t' d o :
  settled k t -> arms (tsess t) = true -> die (tsess t) = false -> Z.of_N d < synTimeLimit -> t_run t (round d k o) = Some t' ->
  settled (S k) t' /\ clock t' = clock t + Z.of_N d /\ core (tsess t') = core (open_start ent (tsess t)).
Proof.
  intros Hse Ha Hal Hd Hr. destruct (t_run_ok t (round d k o) (se_ok _ _ Hse)) as (t'' & ops & E & Hok & _). rewrite Hr in E. injection E as <-.
  destruct (round_watchers k t t' d o Hse Ha Hal Hr) as (Hall & L1 & L2 & L3 & L4). split_and!; [|done|by rewrite L4, !core_next].
  split; try done; intros j wj Hj Hc; rewrite L2 in Hc; destruct (Hall j wj Hj) as [[Hlt Hg]|[-> ->]]; try done.
  - injection Hc as <-. lia.
  - split; [done|]. simpl. lia.
Qed.

Lemma settled_rounds d n k o t0 t :
  Z.of_N d < synTimeLimit -> settled k t0 -> 2 <= peerVersion (tsess t0) -> 1 <= streamId (tsess t0) -> streamId (tsess t0) + Z.of_nat n < 2 ^ 32 ->
  t_run t0 (rounds d n k o) = Some t -> die (tsess t) = false -> clock t = clock t0 + Z.of_nat n * Z.of_N d /\ settled (n + k) t.
Proof.
  intros Hd. revert k o t0. induction n as [|n IH]; intros k o t0 Hse Hv Hi Hb Hr Hl; [simpl in Hr; simplify_eq; split; [lia|done]|].
  cbn [rounds] in Hr. rewrite t_run_app in Hr. destruct (t_run t0 (round d k o)) as [t1|] eqn:E1; [|done].
  destruct (t_run_ok t0 (round d k o) (se_ok _ _ Hse)) as (t1' & o1 & E1' & Hok1 & Hs1). rewrite E1 in E1'. injection E1' as <-.
  destruct (t_run_ok t1 (rounds d n (S k) (S o)) Hok1) as (t2' & o2 & E2' & Hok2 & Hs2). rewrite Hr in E2'. injection E2' as <-.
  assert (die (tsess t0) = false) as Hd0.
  { destruct (die (tsess t0)) eqn:E; [|done]. rewrite <- Hl, Hs2, Hs1. symmetry. by do 2 (eapply lt_die; [apply exec_all_later|]). }
  assert (uint32 (streamId (tsess t0) + 1) = streamId (tsess t0) + 1) as Hu by (apply Z.mod_small; lia).
  destruct (settled_round k t0 t1 d o) as (Hse1 & Hc1 & E); try done.
  { unfold arms. rewrite Hu. apply andb_true_intro. lia. }
  rewrite (open_core _ Hd0), Hu in E. injection E as _ Hpv Hid.
  destruct (IH (S k) (S o) t1) as [Hc2 Hse2]; try done; [lia..|]. split; [lia|]. by rewrite Nat.add_succ_comm.
Qed.

(** The deadline belongs to the last call of [OpenStream] alone: each call cancels the watcher of the
    one before, answered or not.  So there is a schedule, that of a client that opens a stream every [d] < 3 s and whose
    cancelled goroutines run before their timers do, in which the server has stopped answering for any length of time and the client
    is not told: after any number of such rounds, in which nothing
    is received, no watcher can run out, although the oldest SYN is [n * d] old. *)
Theorem busy_never_times_out s now d n t :
  synDone s = false -> 2 <= peerVersion s -> 1 <= streamId s -> streamId s + Z.of_nat n < 2 ^ 32 -> Z.of_N d < synTimeLimit ->
  t_run (timed_new s now) (rounds d n 0 (length (objs s))) = Some t -> die (tsess t) = false ->
  clock t = now + Z.of_nat n * Z.of_N d /\ (n <> 0%nat -> synDone (tsess t) = true) /\ forall i, can_fire t i = false.
Proof.
  intros Hs Hv Hi Hb Hd Hr Hl. destruct (settled_rounds d n 0 (length (objs s)) (timed_new s now) t) as [Hc Hse]; try done.
  split_and!; [done| |intros i; by eapply settled_no_fire].
  intros Hn. rewrite (to_synDone _ (se_ok _ _ Hse)), (se_current _ _ Hse). by destruct n.
Qed.

End timed.

(** ** Witnesses *)

(** A client session of version 2 that has opened its first stream. *)
Definition sample : Session PlainConn :=
  set_peerVersion (set_streamId (NewClientSession plain_new {| scheme := ∅; RawScheme := []; Stop := 0; Md5 := EmptyString |} []) 1) 2.

Abbreviation sample_run := (t_run (fun _ _ => 0) (fun _ => EmptyString) false).

Lemma timed_refines_witness : exists t ops, sample_run (timed_new sample 0) [TOp OpOpen; TElapse 4000000000; TFires 0; TOp OpOpen] = Some t /\
  tsess t = exec_all (fun _ _ => 0) (fun _ => EmptyString) false sample ops.
Proof.
  destruct (timed_refines (fun _ _ => 0) (fun _ => EmptyString) false sample 0 [TOp OpOpen; TElapse 4000000000; TFires 0; TOp OpOpen] eq_refl)
    as (t & ops & H1 & H2 & _). by exists t, ops.
Defined.

(** The state [t_run] ends in, for a run that does not panic. *)
Definition sample_after (xs : list t_op) : Timed PlainConn :=
  match sample_run (timed_new sample 0) xs with Some t => t | None => timed_new sample 0 end.

(** A call, three seconds in two pieces, and no answer; a chunk of data comes in between. *)
Definition sample_silence : list t_op :=
  [TOp (OpOpenNext 0); TElapse 1000000000; TOp (OpArrive (encode (newFrame cmdHeartResponse 0))); TOp OpRecv; TOp (OpOpenNext 0); TElapse 2000000000].

Lemma timeout_justified_witness :
  exists xs1 xs2 t1 t2, TOp OpOpen :: sample_silence = xs1 ++ TOp OpOpen :: xs2 /\ sample_run (timed_new sample 0) xs1 = Some t1 /\
    t_step (fun _ _ => 0) (fun _ => EmptyString) false t1 (TOp OpOpen) = Some t2 /\ renews t1 (TOp OpOpen) = true /\
    unanswered (fun _ _ => 0) (fun _ => EmptyString) false t2 xs2 = true /\ clock t1 + synTimeLimit <= clock (sample_after (TOp OpOpen :: sample_silence)).
Proof.
  apply (timeout_justified (fun _ _ => 0) (fun _ => EmptyString) false sample 0 (TOp OpOpen :: sample_silence) (sample_after (TOp OpOpen :: sample_silence)) 0);
    [vm_compute; reflexivity..|].
  intros [|i] wt Hi Hc; vm_compute in Hi; [|done]. injection Hi as <-. done.
Defined.

Lemma silent_server_closed_witness :
  exists i t3, can_fire (sample_after (TOp OpOpen :: sample_silence)) i = true /\
    t_step (fun _ _ => 0) (fun _ => EmptyString) false (sample_after (TOp OpOpen :: sample_silence)) (TFires i) = Some t3 /\ die (tsess t3) = true.
Proof.
  destruct (silent_server_closed (fun _ _ => 0) (fun _ => EmptyString) false sample 0 [] (timed_new sample 0) (sample_after [TOp OpOpen]) sample_silence
    (sample_after (TOp OpOpen :: sample_silence))) as [H|(i & t3 & _ & _ & H1 & H2 & H3)];
    [vm_compute; congruence..| |].
  - vm_compute in H. discriminate H.
  - by exists i, t3.
Defined.

(** Twelve streams in half a minute, none of them answered. *)
Lemma busy_never_times_out_witness :
  clock (sample_after (rounds 2900000000 12 0 0)) = 34800000000 /\ forall i, can_fire (sample_after (rounds 2900000000 12 0 0)) i = false.
Proof.
  destruct (busy_never_times_out (fun _ _ => 0) (fun _ => EmptyString) false sample 0 2900000000 12 (sample_after (rounds 2900000000 12 0 0)))
    as (H1 & _ & H2); [by vm_compute..|]. split; [by vm_compute|done].
Defined.

End SynTimer.
