(* ===== verification/Programs.v ===== *)
(** * Programs: the running server and the running client
      (cmd/server/main.go from the listener on, stats.Serve, cmd/client/main.go,
       cmd/client/myclient.go, cmd/client/inbound.go)

    [ServerProgram] is the server after [startup] of Server.v: the accept loop, the goroutine that
    closes the listener on a signal, the statistics API, and the handler of each accepted
    connection, which reads the first packet (Auth.v) and then is a connection of
    Connections.v.  An [event] is what can happen next; a run is any sequence of events.
    [ClientProgram] is the client after [client_config] of Client.v. *)

From S2P Require Import Prelude GoStrings Padding NetConn AclMatch AclCompile Policy RefTable Limiter Stats Auth Config StatsHttp Server Connections Client ClientPool.
#[local] Open Scope string_scope.
#[local] Open Scope list_scope.
#[local] Open Scope Z_scope.
#[local] Set Warnings "-clear-no-such-hyp".

Module ServerProgram.

(** [bandwidthLabel] *)
Definition bandwidthLabel (bps : Z) : string := if bps =? 0 then "unlimited" else Itoa bps +:+ " bps".

(** How the process ends: [main] returns, or [logrus.Fatalln] ends it. *)
Inductive ending := MainReturned | FatalAccept (err : string).

(** Where [stats.Serve] is: not called, in its [select], or returned. *)
Inductive serving :=
  | ApiOff
  | ApiServing
  | ApiCanceled                    (** the context is done: [Shutdown], then [ctx.Err()] *)
  | ApiFailed (err : string).      (** [ListenAndServe] returned *)

Section program.
Context {L : Type} `{!RateLimiter L}.
Variable sha256 : bytes -> bytes.
(** [cfg.TrafficStats.Secret] *)
Variable secret : string.
(** [s.auth] *)
Variable auth : Server.authn.

(** [greeting] has the handlers that have not read their first packet, with the remote
    address; [told] the sessions the API has closed. *)
Record program := MkProgram {
  ctx_done : bool;
  listening : bool;
  ended : option ending;
  stats_api : serving;
  next : nat;
  greeting : gmap nat string;
  conns : Connections.state (L := L);
  told : list nat
}.

(** [main] at the accept loop. *)
Definition started (has_stats : bool) (upBps downBps : Z) : program :=
  MkProgram false true None (if has_stats then ApiServing else ApiOff) 0 ∅ (Connections.start has_stats upBps downBps) [].

Definition of_server {T} (sv : Server.server (T := T)) : program :=
  started (Server.sv_stats sv) (Server.sv_limits sv).1 (Server.sv_limits sv).2.

(** [s.auth.Authenticate]; [a] is what the chain of authenticators in front of a backend
    answers. *)
Definition authenticate (a : Auth.answer) (blob : string) : Auth.answer :=
  match auth with
  | Server.PasswordAuth password => Auth.password_Authenticate (Auth.NewPasswordAuthenticator sha256 password) blob
  | Server.HTTPAuth _ _ _ _ _ => a
  end.

Inductive event :=
  | Signal                                                    (** SIGINT or SIGTERM *)
  | CloseListener                                             (** the goroutine that waits for the signal *)
  | Accepts (addr : string)
  | AcceptFails (err : string)                                (** [listener.Accept] returns an error *)
  | FirstRead (k : nat) (first : option bytes) (a : Auth.answer)   (** the first read of handler [k] *)
  | Works (k : nat) (draws : list Z) (now : Z)                (** the next call of handler [k] *)
  | Counts (o : Connections.stats_op)                         (** streams and counters *)
  | Asks (q : StatsHttp.request)                              (** a request to the API *)
  | ServeStops                                                (** [Serve] sees the signal *)
  | ServeFails (err : string).

Definition set_conns (p : program) x : program :=
  MkProgram (ctx_done p) (listening p) (ended p) (stats_api p) (next p) (greeting p) x (told p).
Definition set_api (p : program) x : program :=
  MkProgram (ctx_done p) (listening p) (ended p) x (next p) (greeting p) (conns p) (told p).
Definition set_ended (p : program) x : program :=
  MkProgram (ctx_done p) (listening p) (Some x) (stats_api p) (next p) (greeting p) (conns p) (told p).

(** [handleTcpConnection] of connection [k] after its first read, which may have failed. *)
Definition first_read (p : program) (k : nat) (first : option bytes) (a : Auth.answer) : program :=
  match greeting p !! k with
  | None => p
  | Some addr =>
      let p := MkProgram (ctx_done p) (listening p) (ended p) (stats_api p) (next p) (delete k (greeting p)) (conns p) (told p) in
      match first with
      | None => p
      | Some b =>
          match Auth.handleTcpConnection (authenticate a) b with
          | Auth.Fallback => p
          | Auth.Admits id _ => set_conns p (Connections.exec (conns p) (Connections.Arrive k id addr))
          end
      end
  end.

(** A request reaches the handler of [NewHandler] while the API serves. *)
Definition asks (p : program) (q : StatsHttp.request) : program :=
  match stats_api p, Connections.s_stats (conns p) with
  | ApiServing, Some r =>
      let '(r, _, closed) := StatsHttp.NewHandler secret r q in
      MkProgram (ctx_done p) (listening p) (ended p) (stats_api p) (next p) (greeting p) (Connections.put_stats (conns p) r) (told p ++ closed)
  | _, _ => p
  end.

(** One event; a process that has ended does nothing, and events that cannot happen
    change nothing. *)
Definition step (p : program) (e : event) : program :=
  match ended p with
  | Some _ => p
  | None =>
      match e with
      | Signal => MkProgram true (listening p) None (stats_api p) (next p) (greeting p) (conns p) (told p)
      | CloseListener => MkProgram (ctx_done p) (listening p && negb (ctx_done p)) None (stats_api p) (next p) (greeting p) (conns p) (told p)
      | Accepts addr =>
          if listening p then
            MkProgram (ctx_done p) true None (stats_api p) (S (next p)) (<[next p := addr]> (greeting p)) (conns p) (told p)
          else p
      | AcceptFails err => set_ended p (if ctx_done p then MainReturned else FatalAccept err)
      | FirstRead k first a => first_read p k first a
      | Works k draws now => set_conns p (Connections.exec (conns p) (Connections.Handler k draws now))
      | Counts o => set_conns p (Connections.exec (conns p) (Connections.StatsDo o))
      | Asks q => asks p q
      | ServeStops => if ctx_done p && match stats_api p with ApiServing => true | _ => false end then set_api p ApiCanceled else p
      | ServeFails err => match stats_api p with ApiServing => set_api p (ApiFailed err) | _ => p end
      end
  end.

Definition run (p : program) (es : list event) : program := foldl step p es.

(** ** Shutdown *)

(** The listener is closed only after a signal, and a process that ended otherwise saw
    none. *)
Definition orderly (p : program) : Prop :=
  (listening p = false -> ctx_done p = true) /\
  match ended p with
  | None => True
  | Some MainReturned => ctx_done p = true
  | Some (FatalAccept _) => ctx_done p = false
  end.

Lemma first_read_control p k first a :
  ctx_done (first_read p k first a) = ctx_done p /\ listening (first_read p k first a) = listening p /\
  ended (first_read p k first a) = ended p /\ next (first_read p k first a) = next p.
Proof. unfold first_read. by repeat case_match. Qed.

Lemma asks_control p q :
  ctx_done (asks p q) = ctx_done p /\ listening (asks p q) = listening p /\ ended (asks p q) = ended p /\ next (asks p q) = next p.
Proof. unfold asks. by repeat case_match. Qed.

(** What an event does to the state of the accept loop. *)
Lemma step_control p e :
  (ctx_done p = true -> ctx_done (step p e) = true) /\
  (listening p = false -> listening (step p e) = false /\ next (step p e) = next p) /\
  (orderly p -> orderly (step p e)).
Proof.
  unfold step, orderly. destruct (ended p) as [x|] eqn:Ee; [by rewrite Ee|].
  destruct e as [| |addr|err|k first a|k draws now|o|q| |err]; cbn; rewrite ?Ee; try by split_and!.
  - split_and!; [done|by intros ->|]. intros [H _]. split; [|done]. destruct (listening p), (ctx_done p); try done; by rewrite H.
  - destruct (listening p) eqn:El; cbn; rewrite ?Ee, ?El; split_and!; try done.
  - split_and!; try done. intros [H _]. split; [done|]. by destruct (ctx_done p).
  - destruct (first_read_control p k first a) as (-> & -> & -> & ->). by rewrite Ee.
  - destruct (asks_control p q) as (-> & -> & -> & ->). by rewrite Ee.
  - destruct (_ && _); cbn; by rewrite ?Ee.
  - destruct (stats_api p); cbn; by rewrite ?Ee.
Qed.

Lemma run_control p es :
  (ctx_done p = true -> ctx_done (run p es) = true) /\ (listening p = false -> listening (run p es) = false /\ next (run p es) = next p) /\
  (orderly p -> orderly (run p es)).
Proof.
  revert p. induction es as [|e es IH]; intros p; [done|]. destruct (step_control p e) as (S1 & S2 & S3). destruct (IH (step p e)) as (I1 & I2 & I3).
  split_and!; [auto| |auto]. intros Hl. destruct (S2 Hl) as [Hl' Hn]. destruct (I2 Hl') as [? Hn']. split; [done|]. by rewrite <- Hn.
Qed.

(** C29.  The server stops in order: the process ends with an error only if [Accept] failed before any signal
    came, with a listener it had not closed itself; after a signal it cannot, whatever
    [Accept] reports; once the listener is closed nobody is accepted any more, and the
    [Accept] that fails then ends the process normally. *)
Theorem shutdown_orderly has_stats upBps downBps es es' err :
  let p := run (started has_stats upBps downBps) es in
  (forall err, ended p = Some (FatalAccept err) -> ctx_done p = false /\ listening p = true) /\
  (ctx_done p = true -> ended p = None ->
     (forall err, ended (run p es') <> Some (FatalAccept err)) /\
     next (run p (CloseListener :: es')) = next p /\
     ended (run p (CloseListener :: es' ++ [AcceptFails err])) = Some MainReturned).
Proof.
  intros p. assert (orderly p) as Ho by (by apply (run_control (started has_stats upBps downBps) es)). split.
  - intros e He. destruct Ho as [Hl Hx]. rewrite He in Hx. split; [done|]. destruct (listening p); [done|]. by rewrite Hl in Hx.
  - intros Hc He. split_and!.
    + intros e Hf. destruct (run_control p es') as (H1 & _ & H3). destruct (H3 Ho) as [_ Hx]. rewrite Hf in Hx. by rewrite (H1 Hc) in Hx.
    + cbn [run foldl]. set (p1 := step p CloseListener). assert (listening p1 = false /\ next p1 = next p) as [Hl Hn].
      { unfold p1, step. rewrite He. cbn. rewrite Hc. by destruct (listening p). }
      rewrite <- Hn. by apply (run_control p1 es').
    + rewrite app_comm_cons. unfold run. rewrite foldl_app. change (foldl step p (CloseListener :: es')) with (run p (CloseListener :: es')).
      destruct (run_control p (CloseListener :: es')) as (H1 & _ & H3). specialize (H1 Hc). destruct (H3 Ho) as [_ Hx].
      set (p2 := run p (CloseListener :: es')) in *. clearbody p2. cbn. unfold step.
      destruct (ended p2) as [[|e]|] eqn:E; [done|by rewrite H1 in Hx|]. cbn. by rewrite H1.
Qed.

(** ** Who is served *)

(** The event that admitted connection [k] as user [id]. *)
Definition admitted (es : list event) (k : nat) (id : string) : Prop :=
  exists first a rest, FirstRead k (Some first) a ∈ es /\ Auth.handleTcpConnection (authenticate a) first = Auth.Admits id rest.

Lemma admitted_app es e k id : admitted es k id -> admitted (es ++ [e]) k id.
Proof. intros (first & a & rest & Hin & H). exists first, a, rest. split; [|done]. set_solver. Qed.

(** The API leaves the registry alone, or clears it. *)
Lemma NewHandler_registry r q : (StatsHttp.NewHandler secret r q).1.1 = r \/ (StatsHttp.NewHandler secret r q).1.1 = (Stats.Clear r).1.
Proof.
  unfold StatsHttp.NewHandler, StatsHttp.auth, StatsHttp.serve_traffic, StatsHttp.serve_online, StatsHttp.serve_kick, StatsHttp.serve_dump.
  repeat case_match; simplify_eq/=; eauto.
Qed.

(** The connections of the program are those of Connections.v, and each was admitted. *)
Record sound (has_stats : bool) (upBps downBps : Z) (es : list event) (p : program) : Prop := {
  so_conns : exists ops, conns p = foldl Connections.exec (Connections.start has_stats upBps downBps) ops;
  so_admitted k v : Connections.s_live (conns p) !! k = Some v -> admitted es k (Connections.v_id v)
}.

(** A call of a handler changes neither the user of a connection nor adds one. *)
Lemma handler_keeps (c : Connections.state (L := L)) k draws now j v :
  Connections.s_live (Connections.handler_step c k draws now) !! j = Some v ->
  exists v', Connections.s_live c !! j = Some v' /\ Connections.v_id v' = Connections.v_id v.
Proof.
  unfold Connections.handler_step. destruct (Connections.s_live c !! k) as [u|] eqn:Hk; [|eauto].
  assert (forall x, Connections.v_id x = Connections.v_id u -> <[k := x]> (Connections.s_live c) !! j = Some v ->
    exists v', Connections.s_live c !! j = Some v' /\ Connections.v_id v' = Connections.v_id v) as Hput.
  { intros x Hx [[<- <-]|[_ H]]%lookup_insert_Some; [exists u; by rewrite Hx|eauto]. }
  assert (delete k (Connections.s_live c) !! j = Some v -> exists v', Connections.s_live c !! j = Some v' /\ Connections.v_id v' = Connections.v_id v) as Hdel
    by (intros [_ H]%lookup_delete_Some; eauto).
  destruct (Connections.v_stage u);
    unfold Connections.take_conn, Connections.take_device, Connections.attach, Connections.detach, Connections.drop_device, Connections.drop_conn;
    repeat case_match; simplify_eq/=; eauto; by apply Hput.
Qed.

Lemma step_sound has_stats upBps downBps es p e :
  sound has_stats upBps downBps es p -> sound has_stats upBps downBps (es ++ [e]) (step p e).
Proof.
  intros [[ops Hc] Ha].
  assert (forall p', conns p' = conns p -> sound has_stats upBps downBps (es ++ [e]) p') as Hsame.
  { intros p' E. split; [exists ops; congruence|]. rewrite E. intros k v Hv. by apply admitted_app, Ha. }
  assert (forall p' o, conns p' = Connections.exec (conns p) o ->
    (forall k v, Connections.s_live (conns p') !! k = Some v -> admitted (es ++ [e]) k (Connections.v_id v)) -> sound has_stats upBps downBps (es ++ [e]) p') as Hop.
  { intros p' o E Hl. split; [|done]. exists (ops ++ [o]). by rewrite foldl_app, <- Hc. }
  unfold step. destruct (ended p); [by apply Hsame|]. destruct e as [| |addr|err|k first a|k draws now|o|q| |err]; try by apply Hsame.
  - destruct (listening p); by apply Hsame.
  - unfold first_read. destruct (greeting p !! k) as [addr|]; [|by apply Hsame]. destruct first as [b|]; [|by apply Hsame].
    destruct (Auth.handleTcpConnection (authenticate a) b) as [|id rest] eqn:Eh; [by apply Hsame|].
    apply (Hop _ (Connections.Arrive k id addr)); [done|]. intros j v. cbn. destruct (Connections.s_live (conns p) !! k) as [u|].
    { intros Hv. by apply admitted_app, Ha. }
    cbn [Connections.put_live Connections.s_live]. intros [[<- <-]|[_ Hv]]%lookup_insert_Some; [|by apply admitted_app, Ha]. exists b, a, rest. split; [set_solver|done].
  - apply (Hop _ (Connections.Handler k draws now)); [done|]. intros j v Hv.
    destruct (handler_keeps _ _ _ _ _ _ Hv) as (v' & Hv' & <-). by apply admitted_app, Ha.
  - apply (Hop _ (Connections.StatsDo o)); [done|]. intros j v Hv. apply admitted_app, Ha. cbn in Hv. by destruct (Connections.s_stats (conns p)).
  - unfold asks. destruct (stats_api p); try by apply Hsame. destruct (Connections.s_stats (conns p)) as [r|] eqn:Er; [|by apply Hsame].
    destruct (NewHandler_registry r q) as [E|E]; destruct (StatsHttp.NewHandler secret r q) as [[r' resp] closed]; cbn in E; subst r'.
    + apply Hsame. cbn. unfold Connections.put_stats. rewrite <- Er. by destruct (conns p).
    + apply (Hop _ (Connections.StatsDo Connections.Report)); [cbn; by rewrite Er|]. intros j v Hv. by apply admitted_app, Ha.
  - destruct (_ && _); by apply Hsame.
  - destruct (stats_api p); by apply Hsame.
Qed.

Lemma run_sound has_stats upBps downBps es : sound has_stats upBps downBps es (run (started has_stats upBps downBps) es).
Proof.
  induction es as [|e es IH] using rev_ind; [|unfold run; rewrite foldl_app; by apply step_sound].
  split; [by exists []|]. intros k v. cbn. by rewrite lookup_empty.
Qed.

(** C3.  Nobody is served without authenticating: in every run of the server, with all its connections, signals and API requests,
    each connection the server serves, and each user that /online reports or /kick disconnects,
    was admitted by the authenticator with the first packet of that connection; with a configured password
    this packet began with the hash of the password. *)
Theorem served_authenticated has_stats upBps downBps es :
  let p := run (started has_stats upBps downBps) es in
  (forall k v, Connections.s_live (conns p) !! k = Some v -> admitted es k (Connections.v_id v)) /\
  (forall r, Connections.s_stats (conns p) = Some r ->
     (forall id n, Stats.Online r !! id = Some n -> exists k, admitted es k id) /\
     (forall ids k, k ∈ Stats.Kick r ids -> exists id, id ∈ ids /\ admitted es k id)) /\
  (forall password, auth = Server.PasswordAuth password -> forall k id, admitted es k id ->
     exists first a, FirstRead k (Some first) a ∈ es /\ sha256 (to_bytes password) = take 32 first).
Proof.
  intros p. destruct (run_sound has_stats upBps downBps es) as [[ops Hc] Ha]. fold p in Hc, Ha. split_and!; [done| |].
  - intros r Hr. pose proof (Connections.connections_inv has_stats upBps downBps ops) as Hi. rewrite <- Hc in Hi. destruct Hi as [I1 _ _ _].
    specialize (I1 r Hr). split.
    + intros id n Hn. pose proof (Connections.lists_ips r _ id I1) as E. unfold Stats.Online in Hn. apply lookup_omap_Some in Hn as (q & Hq & Hu).
      rewrite Hu in E. cbn in E. destruct (Stats.ustats r !! q) as [u|]; [|done]. cbn in E, Hq. unfold Stats.online_of in Hq.
      destruct (decide (Stats.user_ips u = ∅)) as [E0|E0]; [by rewrite E0 in *|].
      apply set_choose_L in E0 as [x Hx]. rewrite <- E in Hx. apply Connections.served_ips_elem in Hx as (k & v & Hk & _ & <- & _). eauto.
    + intros ids k Hk. apply (Connections.lists_kick r _ ids k I1) in Hk as (v & Hv & _ & Hid). eauto.
  - intros password Hp k id (first & a & rest & Hin & Hh). exists first, a. split; [done|]. unfold authenticate in Hh. rewrite Hp in Hh.
    unfold Auth.handleTcpConnection in Hh. unfold Auth.ReadBytes at 1 in Hh. destruct (32 <=? length first)%nat; [|done]. cbv zeta in Hh.
    rewrite Auth.password_decides in Hh. case_bool_decide as E; [|done]. by apply Auth.hex_encode_inj in E.
Qed.

End program.

#[local] Existing Instance Limiter.ledger_limiter.

(** A server with the password "pw", one client that knows it and one that does not; then a
    signal, a connection that comes too late, and the failing [Accept]. *)
Example server_sample_run :
  let packet := Auth.auth_packet 16384 (Auth.sample_sha256 (to_bytes "pw")) [4] in
  let es := [Accepts "10.0.0.1:5000"; Accepts "10.0.0.2:6000"; FirstRead 1 (Some (replicate 40 x00)) Auth.rejected; FirstRead 0 (Some packet) Auth.rejected;
             Works 0 [7; 8] 0; Works 0 [] 0; Works 0 [] 0; Signal; CloseListener; Accepts "10.0.0.3:7000"] in
  let p := run (L := Limiter.ledger) Auth.sample_sha256 "" (Server.PasswordAuth "pw") (started true 0 8000) es in
  let q := step Auth.sample_sha256 "" (Server.PasswordAuth "pw") p (AcceptFails "closed") in
  size (Connections.s_live (conns p)) = 1%nat /\ greeting p = ∅ /\ next p = 2%nat /\
  (size <$> (Stats.Online <$> Connections.s_stats (conns p))) = Some 1%nat /\ ended p = None /\ ended q = Some MainReturned.
Proof. vm_compute. done. Qed.

End ServerProgram.

Module ClientProgram.
Import Padding.

(** ** Connections to the server *)

Inductive dial_error := ErrDial | ErrFirstWrite (e : goerror).

Section client.
Context {C : Type} `{!NetConn C}.
(** The capacity of [buf.NewPacket()]. *)
Variable packet_cap : Z.

(** [createOutboundConnection]: [dialed] is what [dialOut] returns, a TCP connection wrapped by [tls.Client];
    [sizes] are the sizes drawn for packet 0.  The result has the connection in the state in which it
    is left, and the error. *)
Definition createOutboundConnection (passwordSha256 : bytes) (dialed : option C) (sizes : list Z) : option C * option dial_error :=
  match dialed with
  | None => (None, Some ErrDial)
  | Some conn =>
      match conn_write conn (Auth.auth_packet packet_cap passwordSha256 sizes) with
      | (conn, _, None) => (Some conn, None)
      | (conn, _, Some e) => (Some (conn_close conn), Some (ErrFirstWrite e))
      end
  end.

(** What the pool gets for a new session: a connection on which the packet has been written, or
    nothing. *)
Definition underlying (r : option C * option dial_error) : option C := match r with (c, None) => c | _ => None end.

Context `{!NetConnLaws C}.

(** A session starts only behind a complete credential: a connection that is handed to the pool has carried the
    whole first packet and nothing else; one on which the packet failed is closed. *)
Theorem credential_first passwordSha256 (c : C) sizes r :
  conn_wire c = [] -> createOutboundConnection passwordSha256 (Some c) sizes = r ->
  match r with
  | (Some c', None) => conn_wire c' = Auth.auth_packet packet_cap passwordSha256 sizes
  | (Some c', Some _) => conn_open c' = false /\ conn_wire c' `prefix_of` Auth.auth_packet packet_cap passwordSha256 sizes
  | (None, _) => False
  end.
Proof.
  intros Hw <-. unfold createOutboundConnection. destruct (conn_write c _) as [[c' n] [e|]] eqn:E.
  - destruct (law_close c') as [Hc Ho]. split; [done|]. destruct (wc_err _ law_write _ _ _ _ _ E) as [k Hk].
    rewrite Hc, Hk, Hw. apply prefix_take.
  - destruct (wc_ok _ law_write _ _ _ _ E) as [Hk _]. by rewrite Hk, Hw.
Qed.

End client.

Lemma credential_first_witness :
  match createOutboundConnection 16384 (replicate 32 x07) (Some plain_new) [3] with
  | (Some c, None) => conn_wire c = Auth.auth_packet 16384 (replicate 32 x07) [3]
  | _ => False
  end.
Proof. pose proof (credential_first (C := PlainConn) 16384 (replicate 32 x07) plain_new [3] _ eq_refl eq_refl) as H. exact H. Defined.

(** ** NewMyClient *)

(** The pool of the client, with the interval of its cleanup and the age at which it drops idle sessions. *)
Definition NewMyClient {C M} `{!NetConn C, !ClientPool.OrderedMap M} (minIdleSession : Z) (disableReuse : bool)
    : ClientPool.Client C M * Z * Z :=
  (ClientPool.NewClient minIdleSession disableReuse, ClientPool.idle_duration (ClientPool.second * 30), ClientPool.idle_duration (ClientPool.second * 30)).

(** ** The front end *)

Inductive front_end := Socks | Http.

(** The switch of [handleTcpConnection] on the first byte: the version of SOCKS 4 and 5. *)
Definition front (b : byte) : front_end := if (byteZ b =? 4) || (byteZ b =? 5) then Socks else Http.

(** [handleTcpConnection]: [received] is what the peer sends, [handle] the library's handler with all of it, the peeked byte
    included; [None] is a panic, which is recovered.  The result says which handler ran, and whether
    the connection is closed at the end. *)
Definition handleTcpConnection (received : bytes) (handle : front_end -> bytes -> option unit) : option front_end * bool :=
  match received with
  | [] => (None, true)
  | b :: _ => match handle (front b) received with Some _ | None => (Some (front b), true) end
  end.

(** ** main *)

(** [KeyLogWriter]: the file named by TLS_KEY_LOG, if it can be opened. *)
Definition key_log (env : string) (OpenFile : string -> option nat) : option nat :=
  let path := TrimSpace env in
  if String.eqb path "" then None else OpenFile path.

Inductive client_fatal := BadSettings (err : Client.client_error) | FatalListen | FatalAccept.

(** The running client: how many connections it has accepted. *)
Inductive client_state := Ended (err : client_fatal) | Runs (s : Client.settings) (keylog : option nat) (accepted : nat).

Definition client_main (url_Parse : string -> option Client.URL) (f : Client.flags) (listens : bool) (TLS_KEY_LOG : string)
    (OpenFile : string -> option nat) : client_state :=
  match Client.client_config url_Parse f with
  | inl err => Ended (BadSettings err)
  | inr s => if listens then Runs s (key_log TLS_KEY_LOG OpenFile) 0 else Ended FatalListen
  end.

(** [listener.Accept] returns: with a connection, or with an error, which ends the client. *)
Definition client_accept (st : client_state) (ok : bool) : client_state :=
  match st with
  | Runs s k n => if ok then Runs s k (S n) else Ended FatalAccept
  | Ended _ => st
  end.

(** The client keeps its settings and counts the connections it accepts until [Accept] fails for the first time, which ends
    it; keys are logged only if TLS_KEY_LOG names a file. *)
Theorem client_runs url_Parse f TLS_KEY_LOG OpenFile s oks :
  Client.client_config url_Parse f = inr s ->
  foldl client_accept (client_main url_Parse f true TLS_KEY_LOG OpenFile) oks =
    (if forallb id oks then Runs s (key_log TLS_KEY_LOG OpenFile) (length oks) else Ended FatalAccept) /\
  (is_Some (key_log TLS_KEY_LOG OpenFile) -> TrimSpace TLS_KEY_LOG <> "").
Proof.
  intros Hs. split.
  - unfold client_main. rewrite Hs. induction oks as [|ok oks IH] using rev_ind; [done|].
    rewrite foldl_app, IH, forallb_app, length_app. cbn. destruct (forallb id oks), ok; cbn; try done. f_equal. lia.
  - unfold key_log. destruct (String.eqb_spec (TrimSpace TLS_KEY_LOG) ""); [by intros [? ?]|done].
Qed.

Lemma client_runs_witness :
  foldl client_accept (client_main (fun _ => None) (Client.MkFlags "h:1" "" "pw" false) true "" (fun _ => Some 3%nat)) [true; true] =
  Runs (Client.MkSettings "h:1" "pw" (Client.MkTLS "h" false)) None 2.
Proof.
  apply (client_runs (fun _ => None) (Client.MkFlags "h:1" "" "pw" false) "" (fun _ => Some 3%nat) (Client.MkSettings "h:1" "pw" (Client.MkTLS "h" false)) [true; true]).
  reflexivity.
Defined.

End ClientProgram.
