(* ===== verification/Socks5Server.v ===== *)
(** * Socks5Server: the proxy the outbounds are tested against
      (outbound/outboundtest/socks5server.go)

    The server keeps the connections it has accepted and records the destinations it is asked
    for.  The SOCKS protocol and the relays are a library's: they appear as the calls it makes
    back ([NewConnection], [NewPacketConnection], [ReadPacket]) and as the end of
    [socks.HandleConnection].  Connections are numbered. *)

From S2P Require Import Prelude.
#[local] Open Scope string_scope.
#[local] Open Scope list_scope.
#[local] Set Warnings "-clear-no-such-hyp".

Module Socks5Server.

Record SOCKS5Server := MkServer {
  users : list (string * string);       (** of the authenticator; none means no authentication *)
  listening : bool;
  conns : list nat;
  destinations : list string;
  packetDestinations : list string;
  open : gset nat;                      (** accepted connections that nobody has closed *)
  relays : list string                  (** remote connections that are open *)
}.

Definition NewSOCKS5Server (username password : string) : SOCKS5Server :=
  MkServer (if String.eqb username "" then [] else [(username, password)]) true [] [] [] ∅ [].

(** A turn of [serve] with an accepted connection; after an error of [Accept] there are no more. *)
Definition serve (s : SOCKS5Server) (conn : nat) : SOCKS5Server :=
  if listening s then
    MkServer (users s) true (conns s ++ [conn]) (destinations s) (packetDestinations s) ({[conn]} ∪ open s) (relays s)
  else s.

(** [socks.HandleConnection] has returned: [conn.Close()]. *)
Definition handled (s : SOCKS5Server) (conn : nat) : SOCKS5Server :=
  MkServer (users s) (listening s) (conns s) (destinations s) (packetDestinations s) (open s ∖ {[conn]}) (relays s).

Definition ConnectDestinations (s : SOCKS5Server) : list string := destinations s.
Definition PacketDestinations (s : SOCKS5Server) : list string := packetDestinations s.

Definition DropControls (s : SOCKS5Server) : SOCKS5Server :=
  foldl handled (MkServer (users s) (listening s) [] (destinations s) (packetDestinations s) (open s) (relays s)) (conns s).

(** [NewConnection] up to the relay: the destination is recorded before it is dialed. *)
Definition NewConnection (s : SOCKS5Server) (destination : string) (dials : bool) : SOCKS5Server * bool :=
  (MkServer (users s) (listening s) (conns s) (destinations s ++ [destination]) (packetDestinations s) (open s)
     (if dials then relays s ++ [destination] else relays s), dials).

(** [NewPacketConnection]: nothing is recorded until a packet is read. *)
Definition NewPacketConnection (s : SOCKS5Server) (listens : bool) : SOCKS5Server * bool := (s, listens).

(** [recordingPacketConn.ReadPacket]: [read] is what the wrapped connection returns. *)
Definition ReadPacket (s : SOCKS5Server) (read : option string) : SOCKS5Server * option string :=
  match read with
  | Some d => (MkServer (users s) (listening s) (conns s) (destinations s) (packetDestinations s ++ [d]) (open s) (relays s), read)
  | None => (s, None)
  end.

(** The function given to [t.Cleanup]. *)
Definition cleanup (s : SOCKS5Server) : SOCKS5Server :=
  DropControls (MkServer (users s) false (conns s) (destinations s) (packetDestinations s) (open s) (relays s)).

Inductive op :=
  | Serve (conn : nat)
  | Handled (conn : nat)
  | Connect (d : string) (dials : bool)
  | Associate (listens : bool)
  | Packet (read : option string)
  | Drop
  | Cleanup.

Definition exec (s : SOCKS5Server) (o : op) : SOCKS5Server :=
  match o with
  | Serve conn => serve s conn
  | Handled conn => handled s conn
  | Connect d dials => (NewConnection s d dials).1
  | Associate listens => (NewPacketConnection s listens).1
  | Packet read => (ReadPacket s read).1
  | Drop => DropControls s
  | Cleanup => cleanup s
  end.

(** ** What it records *)

Definition connect_of (o : op) : option string := match o with Connect d _ => Some d | _ => None end.
Definition packet_of (o : op) : option string := match o with Packet read => read | _ => None end.

Lemma foldl_handled l s :
  foldl handled s l = MkServer (users s) (listening s) (conns s) (destinations s) (packetDestinations s) (open s ∖ list_to_set l) (relays s).
Proof.
  revert s. induction l as [|k l IH]; intros s; simpl; [destruct s; simpl; f_equal; set_solver|]. rewrite IH. simpl. f_equal. set_solver.
Qed.

Lemma exec_records s o :
  destinations (exec s o) = destinations s ++ option_list (connect_of o) /\
  packetDestinations (exec s o) = packetDestinations s ++ option_list (packet_of o).
Proof.
  destruct o as [k|k|d dials|ls|[d|]| |]; simpl; rewrite ?app_nil_r; try done; [by unfold serve; destruct (listening s)| |];
    unfold cleanup, DropControls; by rewrite foldl_handled.
Qed.

(** The open connections are among those [DropControls] will close. *)
Lemma exec_open s o : open s ⊆ list_to_set (conns s) -> open (exec s o) ⊆ list_to_set (conns (exec s o)).
Proof.
  intros H. destruct o as [k|k|d dials|ls|[d|]| |]; simpl; try done.
  - unfold serve. destruct (listening s); [|done]. simpl. rewrite list_to_set_app_L. set_solver.
  - set_solver.
  - unfold DropControls. rewrite foldl_handled. simpl. set_solver.
  - unfold cleanup, DropControls. rewrite foldl_handled. simpl. set_solver.
Qed.

(** The test proxy reports exactly the destinations of the CONNECT requests and of the packets it was given, in order, whether
    they could be reached or not; and dropping the controls closes every connection that is still open. *)
Theorem proxy_records user password ops :
  let s := foldl exec (NewSOCKS5Server user password) ops in
  ConnectDestinations s = omap connect_of ops /\ PacketDestinations s = omap packet_of ops /\
  open (DropControls s) = ∅ /\ conns (DropControls s) = [] /\ listening (cleanup s) = false.
Proof.
  intros s. unfold s, ConnectDestinations, PacketDestinations.
  assert (destinations s = omap connect_of ops /\ packetDestinations s = omap packet_of ops /\ open s ⊆ list_to_set (conns s)) as (H1 & H2 & H3).
  { unfold s. induction ops as [|o ops (I1 & I2 & I3)] using rev_ind; [done|]. rewrite foldl_app. simpl.
    destruct (exec_records (foldl exec (NewSOCKS5Server user password) ops) o) as [-> ->].
    rewrite I1, I2, !omap_app. split_and!; [by destruct o|by destruct o as [| | | |[]| |]|by apply exec_open]. }
  fold s. split_and!; try done; unfold cleanup, DropControls; rewrite foldl_handled; simpl; [set_solver|done..].
Qed.

End Socks5Server.
